(* ===== verification/_CoqProject ===== *)
-Q . S2P
Prelude.v
Cstr.v
Ext2fs.v
Ntfs3g.v
Contents.v
Sys.v
Double.v
Mjson.v
MjsonSpec.v
Exec.v
ExecSpec.v
Device.v
DeviceSpec.v
Writer.v
WriterSpec.v
Vhd.v
Checksum.v
Badblocks.v
Vdisk.v
VdiskSpec.v
Partition.v
PartitionSpec.v
Mkfs.v
Host.v
Bootcheck.v
BootcheckSpec.v
Iso.v
Wue.v
WueSpec.v
Extract.v
ExtractSpec.v
Dosboot.v
Biosboot.v
BiosbootSpec.v
Create.v
CreateSpec.v
Phases.v
FlowSpec.v
Msdl.v
MsdlSpec.v
Cli.v
CliSpec.v
Xdr.v
XdrSpec.v
Mountd.v
Nfsd.v
NfsdSpec.v
Ext2.v
Ext2Spec.v
Ext2FileSpec.v
Ext2DirSpec.v
Ntfs.v
NtfsSpec.v
NtfsFileSpec.v
Rpc.v
RpcSpec.v
Macexec.v
Macdisk.v
MacdiskSpec.v
Macmount.v
Macstate.v
MacstateSpec.v
Macvolume.v
Macdevice.v
Macboot.v
Macpartition.v
MactableSpec.v
MacpartitionSpec.v
Macwriter.v
MacwriterSpec.v
Populate.v
PopulateSpec.v
PopulateFileSpec.v
MacguardSpec.v
