(* ===== verification/Prelude.v ===== *)
(** * Rufux, verified

    Rufux writes operating-system images to USB drives on Linux. It is a C
    program: a command line (src/src/linux/main.c) over some twenty-five
    components under src/src/linux, each of which checks its arguments, asks
    the system about a device and then writes to it or runs a tool on it
    (sfdisk, mkfs.*, 7z, wimlib-imagex, qemu-img, grub, curl, ...). Its macOS
    port (src/macos/src) replaces the platform underneath: the device registry of
    IOKit, a guard that keeps every operation off the boot disk, mounts that are
    remembered in state files, a writer that fills NTFS volumes through
    libntfs-3g, and a server, rufux-mountd (src/macos/src/mountd_nfs.c), that
    opens a volume of a file system macOS cannot mount and serves it over NFS to
    the local machine. This library models the Linux program, the server and
    those parts of the port as executable Rocq functions and proves what makes
    them correct.

    ** How the program is modelled

    A C function that makes no system call is a Rocq function. One that does is
    a tree of type [io A] (Sys.v): it returns a value, or makes one call of type
    [ev] and goes on with the answer. The tree is the program's text: a guard is
    an [if] before the call it guards, an early return a [Fail], a loop a
    [loop], [fold_io] or [first_io]. Nothing is assumed of the answers unless a
    theorem says so ([posix]: a transfer moves no more than was asked for).
      - [exec m t a]: with the calls and answers of the trace [t], [m] returns
        [a]. Functional theorems have the form "if [exec m t (Ok a)] then ...".
      - [always P m]: every call [m] can make satisfies [P], whatever the
        answers; safety theorems have this form. [harmless] calls open nothing
        for writing, change no directory and start no program.
      - [run h m w] runs [m] in an environment with a state; witnesses and
        counterexamples are computed with it.
      - [wp], [wp_loop]: weakest preconditions over all answers, and the loop
        rule; [loop_runs_out] bounds the turns of a loop.
    [cres A] is the convention of 0 or a negative value with a message: [Ok a]
    or [Fail message]. A message is the text before it is cut to the caller's
    buffer; what is cut by the program itself ([snprintf] into a buffer whose
    content is used) is cut in the model. Machine integers are [Z] with their
    width written out where it matters; [byte] is the kernel's byte; a C string
    is a [string] and a pointer into it the suffix it points at (Cstr.v);
    doubles are binary64 values of the Standard Library (Double.v), with the
    locale's decimal point as the parameter [point].
    The callbacks for progress and for log lines are the events [Progress],
    [VProgress] (the verification phase) and [Log]. Where a message quotes an
    errno that no modelled call sets, the text is a parameter ([stale_errno]).

    The mount server keeps state of its own, the cache of parent directories,
    and is written in a state monad over [io] (Mountd.v): [mcall] makes a call,
    [mloop] is a loop, [mexec m c t c' a] says that from the cache [c], with the
    calls and answers [t], [m] returns [a] and the cache [c']. [malways],
    [mends] and [returns] are its safety, result and termination judgements;
    they are instances of a class [Logic] of judgements closed under the
    program's constructors, so that a theorem about all handlers is proved once
    for every judgement. [observe] folds an abstract state over a trace (the
    contents of a file, the entries of an inode, the open connections),
    [abides] says that the answers in the trace fit that state, and [from]
    relates the two.

    Fuel: [loop fuel] is cut short when its fuel is spent. Theorems about what
    was returned hold for every fuel. That enough fuel gives a result is proved
    where a loop could go on for ever: mj_parse_terminates takes the length of
    the text plus two; rufux_read_full_terminates the bytes asked for plus the
    interruptions; extract_poll_returns the polls that find the child running;
    dispatch_answers, for every call to the mount server, fuel over one MiB, the
    most a READ or a WRITE moves. The server itself runs until it is stopped.
    The walk over the device registry has 65 turns, one more than its queue has
    places, which is enough (boot_disk_guard_correct); a tree to copy is at most
    PATH_MAX levels deep, because a level adds to the path (DEPTH, enough by
    populate_enough).
    The other loops end with their data (a read of nothing, a count).

    ** The files

    Foundations: Prelude.v (bytes, buffers, little- and big-endian values),
    Cstr.v (strings, numbers, formatting), Double.v (strtod, printf of
    doubles), Sys.v (the system).
      - Mjson.v, MjsonSpec.v (mjson.c): the JSON parser. It accepts RFC 8259's
        documents and returns their value (mj_parse_complete), returns for
        every text (mj_parse_terminates), nests at most 65 levels
        (mj_parse_depth); parse_string is the grammar's (parse_string_correct);
        and in a locale with a decimal comma it misreads numbers
        (mj_parse_comma_locale).
      - Exec.v, ExecSpec.v (exec.c): looking up and running programs, retried
        transfers. rufux_have agrees with rufux_execvp, transfers move every
        byte, captured output fits its buffer.
      - Device.v, DeviceSpec.v (device.c): the list of drives and the guard
        rufux_check_target, which every writer calls first: it accepts a block
        device only if it is not mounted, not empty, and removable unless fixed
        disks were allowed (rufux_check_target_safe).
      - Writer.v, WriterSpec.v (writer.c): copying an image. Success means the
        target received the image's bytes and, with --verify, gave them back.
      - Vhd.v (vhd.c), Vdisk.v, VdiskSpec.v (vdisk.c): virtual disk images;
        no image that refers to another file is converted (refs_ok_sound).
      - Checksum.v (checksum.c), Badblocks.v (badblocks.c).
      - Partition.v, PartitionSpec.v (partition.c): the sfdisk script is whole
        and its partitions lie on the disk, in order (make_script_correct).
      - Mkfs.v (mkfs_task.c, persist.c), Host.v (mount.c, priv.c,
        secureboot.c, smart.c, update.c, boot.c).
      - Bootcheck.v, BootcheckSpec.v (bootcheck.c): Secure Boot revocation.
        Parsing a boot loader stays inside its bytes (bootcheck_in_bounds); the
        DBX scan does not (dbx_scan_out_of_bounds).
      - Iso.v (iso_probe.c and the image probe of wininstall.c), Wue.v,
        WueSpec.v (wininstall.c): Windows answer files are well-formed XML for
        every account name (answer_file_wf), UEFI:NTFS is read back.
      - Extract.v, ExtractSpec.v (extract.c): extraction is complete when it
        says so, and no file over 4 GiB reaches FAT32.
      - Dosboot.v (dosboot.c), Biosboot.v, BiosbootSpec.v (biosboot.c): boot
        records keep the file system's parameters; GRUB is installed only where
        it fits, and the partition table survives.
      - Create.v, CreateSpec.v (create.c): the flows behind "rufux create".
        They call all of the above. Nothing happens without consent
        (rufux_create_consent).
      - Phases.v, FlowSpec.v: an abstract account of making a drive, as a
        transition system (partitioned, formatted, mounted, filled, unmounted,
        boot records written), and the refinement theorem that the flows of
        create.c take only its steps (flows_refine_drive).
      - Msdl.v, MsdlSpec.v (msdl.c): Windows downloads. A file gets its final
        name only when curl succeeded, and the name is a safe one.
      - Cli.v, CliSpec.v (main.c, i18n.h, gui_stub.c): the command line, one
        definition per command and [main] over them. A misspelt option stops
        the program before it does anything, an accepted command line is read
        the way it was checked, the suggested option is the nearest by edit
        distance, and without --real nothing is written (without_real_inert,
        through every layer from main to the calls).
      - Xdr.v, XdrSpec.v (mountd_nfs.c up to the NTFS backend): the external data
        representation and the cache of parents. What is put is got back, decoding
        stays inside the message, a reply never outgrows its buffer, and the hash
        table of parents is a finite map that may forget (parent_cache_refines_map).
      - Mountd.v: the effects of the server, and the interface [Backend] (fs_* of the
        source) between the protocol and the file systems.
      - Nfsd.v, NfsdSpec.v (handle_mount_proc to dispatch_rpc_call): the MOUNT
        and NFS version 3 procedures over any backend. Every reply is a reply to
        its call (dispatch_reply_wf), a call that is refused touches nothing
        (rejected_call_inert), and a client that follows the cookies of READDIR
        receives each entry once, in order (readdir_complete).
      - Ext2fs.v, Ext2.v (the ext_ functions): the ext2/3/4 backend as sequences of libext2fs
        calls. Ext2Spec.v: what the library is given and what a success means.
        Ext2FileSpec.v: READ and WRITE against the contents of the file
        (ext_op_read_correct, ext_op_write_correct, write_then_read), every file
        handle is closed on every path (handles_balanced); a WRITE that was not
        flushed is called durable (unstable_write_claims_sync). Ext2DirSpec.v: link counts are the number
        of entries (link_counts_kept), except where LINK wraps around
        (link_count_wraps) and RENAME loses a directory inside itself
        (rename_into_itself). Contents.v: file contents, for both backends.
      - Ntfs3g.v, Ntfs.v (the ntfs_ functions): the NTFS backend as sequences of
        libntfs-3g calls. NtfsSpec.v: inodes and attributes are used while they
        are open, never twice in one call, and closed once, on every path
        (ntfs_handles_safe); a listing shows exactly the user's entries
        (ntfs_op_readdir_correct); and where the backend goes wrong, system files
        can be truncated and written (create_truncates_system_file,
        system_file_writable) and RENAME loses directories and files
        (ntfs_rename_into_itself, failed_rename_loses_target). NtfsFileSpec.v:
        READ and WRITE against the contents (ntfs_op_write_correct,
        ntfs_op_read_correct, ntfs_write_then_read), and the one difference from
        pwrite (empty_write_grows_file).
      - Rpc.v, RpcSpec.v (client_reset_slots to main): connections and main. The
        server, over either backend, asks the libraries only for what they may be
        asked for (library_calls_guarded) and answers every call
        (dispatch_answers); it dispatches the messages that the received bytes are the record
        marking of, however they are cut (record_marking_refined), gathers
        at most 2 MiB (message_buffer_bounded), and the table of clients holds
        the connections that are open (serve_invariant).

      - Macexec.v (platform_macos.c up to the environment of the bundle,
        exec.c): where the port finds its helpers, and running them.
      - Macdisk.v, MacdiskSpec.v (platform_macos.c from the BSD names on): the
        walk over the device registry is reachability, and the guard of the boot
        disk says yes exactly for the disks it is meant to protect
        (boot_disk_guard_correct), where a lineage fits 64 entries and 32 names.
      - Macmount.v (the mount table, labels, mount points), Macstate.v (state
        files, the process of a server), Macvolume.v (mounting, unmounting; all
        mount.c, and rufux_macos_unmount_disk of platform_macos.c). They call
        Macexec.v and Macdisk.v; the server they start is Rpc.v's main.
        MacstateSpec.v: a state file that was written is read back
        (mount_state_roundtrip), and a line feed in a path forges one
        (line_feed_forges_pid).
      - Macdevice.v (device.c): what the registry says of a whole disk, whether it
        is mounted, the list of disks, and rufux_check_target, which every writer
        starts with.
      - Macboot.v (boot.c), Macpartition.v (partition.c): the boot code and the
        partition tables, which the port writes byte by byte. MactableSpec.v: what
        a reader finds in the bytes of a header, an entry, a first sector.
        MacpartitionSpec.v: after a success rufux_part_offset_sectors finds every
        partition of the layout exactly and no other (mac_partition_roundtrip),
        with GPT also when the primary header is lost (mac_gpt_backup_recovers).
      - Macwriter.v (writer.c), MacwriterSpec.v: writing an image; the target holds
        it, filled up to whole sectors, flushed, and compared when asked
        (mac_write_image_correct), where a block is whole sectors; where it is not,
        everything behind the first block is misplaced (odd_sectors_shift_image).
      - MacguardSpec.v: no operation that takes a disk does anything to one the
        guard is meant to refuse (system_disk_protected): the operations of
        Macdisk.v, Macvolume.v, Macdevice.v, Macboot.v, Macpartition.v, Macwriter.v
        and Populate.v composed with the guard.
      - Populate.v (ntfs_populate.c): a tree or a file onto an NTFS volume.
        PopulateSpec.v: volume, inodes and attributes are used while they are open
        and released once on every path of both entry points
        (populate_volume_safe). PopulateFileSpec.v: a success means that every
        regular file and link of the tree was copied, and nothing else
        (populate_copies_tree), and each file whole (write_regular_file_correct).

    ** Parameters

    Code outside the repository is an argument of the definitions that use it:
    OpenSSL's digests ([EVP], [sha]), its PKCS#7 reader ([certs]), the version
    the build defines, whether native language support is compiled in. libext2fs
    and libntfs-3g are the environment: their functions are calls with any
    answer; but the two that convert times, which compute, are the parameters
    [to_timespec] and [of_timespec]; the text of an errno they leave is [strerr].
    Static variables are calls too ([StaticFlag], [StaticStr]). What the stack holds where a handler reads
    an attribute nobody wrote is the parameter [junk]. What a
    theorem needs of them is a hypothesis with a concrete instance in the
    theorem's witness.

    ** Not modelled

      - Drawing the progress line (cli_progress and dl_progress of main.c):
        formatting of already reported numbers.
      - Allocation failure: malloc, calloc and strdup succeed.
      - A signal other than an interrupted transfer, and other processes, except
        through the answers the system gives.
      - The mount server's signal handler: the flag it sets is read with the call
        [Stopped], at any time.
      - The rest of src/macos/src (main.c, create.c, wininstall.c, mkfs_task.c,
        dosboot.c, biosboot.c, persist.c and the probes): commands and flows of the
        Linux program ported to macOS (mjson.c and other files are copies).
      - On macOS, an error of readdir: it is the end of the directory, as the code
        takes it.
      - The Windows sources of Rufus under src/src and the libraries vendored with
        them (wimlib, bled, ext2fs, libcdio, syslinux, getopt): not part of either
        program. The boot records of ms-sys are data of dosboot.c and are in
        Dosboot.v. *)
From Stdlib Require Strings.Byte DecimalString.
From Stdlib Require Export ZArith Lia Bool Ascii String.
From stdpp Require Export base tactics list strings numbers.

(** string literals everywhere; [+:+] (stdpp) appends *)
#[global] Open Scope string_scope.
#[global] Open Scope list_scope.
#[global] Open Scope Z_scope.
Declare Scope rufux_scope.
Delimit Scope rufux_scope with rufux.
#[global] Open Scope rufux_scope.

Abbreviation byte := Corelib.Init.Byte.byte.

(** * Bytes

    A [byte] is the kernel's 256-constructor type, so a byte buffer is
    well formed by its type; [u8] is its unsigned value. *)
Definition u8 (b : byte) : Z := Z.of_N (Byte.to_N b).

(** [b8 z]: the low eight bits of [z] as a byte. *)
Definition b8 (z : Z) : byte :=
  match Byte.of_N (Z.to_N (z mod 256)) with Some b => b | None => Byte.x00 end.

Lemma u8_range b : 0 <= u8 b < 256.
Proof. destruct b; vm_compute; split; congruence. Qed.

Lemma b8_u8 b : b8 (u8 b) = b.
Proof. destruct b; reflexivity. Qed.

Lemma u8_b8 z : u8 (b8 z) = z mod 256.
Proof.
  pose proof (Z.mod_pos_bound z 256 eq_refl) as H.
  unfold b8, u8. destruct (Byte.of_N (Z.to_N (z mod 256))) as [b|] eqn:E.
  - apply Byte.to_of_N in E. rewrite E. lia.
  - apply Byte.of_N_None_iff in E. lia.
Qed.

Lemma u8_inj b c : u8 b = u8 c -> b = c.
Proof. intros H. rewrite <- (b8_u8 b), <- (b8_u8 c). by f_equal. Qed.

#[export] Instance byte_eq_dec : EqDecision byte := Byte.byte_eq_dec.

Definition bytes_eqb (a b : list byte) : bool := bool_decide (a = b).

(** Buffers are cut with [Z] offsets, as the C code indexes them. *)
Definition zlen {A} (l : list A) : Z := Z.of_nat (length l).
Definition ztake {A} (n : Z) (l : list A) : list A := take (Z.to_nat n) l.
Definition zdrop {A} (n : Z) (l : list A) : list A := drop (Z.to_nat n) l.
(** [slice off n l]: the at most [n] elements of [l] from [off] on. *)
Definition slice {A} (off n : Z) (l : list A) : list A := ztake n (zdrop off l).

(** Little- and big-endian values of a byte sequence. *)
Fixpoint le (l : list byte) : Z :=
  match l with [] => 0 | b :: t => u8 b + 256 * le t end.
Definition be (l : list byte) : Z := fold_left (fun v b => v * 256 + u8 b) l 0.

(** [to_le n z]: the [n] low-order bytes of [z], least significant first. *)
Fixpoint to_le (n : nat) (z : Z) : list byte :=
  match n with O => [] | S m => b8 z :: to_le m (z / 256) end.

(** A read of [n] bytes at [off], refused when it leaves the buffer. *)
Definition rd (b : list byte) (off n : Z) : option (list byte) :=
  if (0 <=? off) && (off + n <=? zlen b) then Some (slice off n b) else None.
Definition rd8 (b : list byte) (off : Z) : option Z := le <$> rd b off 1.
Definition rd16 (b : list byte) (off : Z) : option Z := le <$> rd b off 2.
Definition rd32 (b : list byte) (off : Z) : option Z := le <$> rd b off 4.
Definition rd64 (b : list byte) (off : Z) : option Z := le <$> rd b off 8.

(** ** Lemmas *)
Lemma zlen_nonneg {A} (l : list A) : 0 <= zlen l.
Proof. unfold zlen; lia. Qed.
Lemma zlen_nil {A} : zlen (@nil A) = 0.
Proof. done. Qed.
Lemma zlen_cons {A} (x : A) l : zlen (x :: l) = 1 + zlen l.
Proof. unfold zlen; cbn [length]; lia. Qed.
Lemma zlen_app {A} (l k : list A) : zlen (l ++ k) = zlen l + zlen k.
Proof. unfold zlen; rewrite length_app; lia. Qed.
Lemma zlen_ztake {A} n (l : list A) : 0 <= n -> zlen (ztake n l) = Z.min n (zlen l).
Proof. intros. unfold zlen, ztake. rewrite length_take. lia. Qed.
Lemma zlen_zdrop {A} n (l : list A) : 0 <= n -> zlen (zdrop n l) = Z.max 0 (zlen l - n).
Proof. intros. unfold zlen, zdrop. rewrite length_drop. lia. Qed.
Lemma zlen_replicate {A} n (x : A) : zlen (replicate n x) = Z.of_nat n.
Proof. unfold zlen. by rewrite length_replicate. Qed.
Lemma zlen_slice {A} off n (l : list A) :
  0 <= off -> 0 <= n -> zlen (slice off n l) = Z.min n (Z.max 0 (zlen l - off)).
Proof. intros. unfold slice. rewrite zlen_ztake, zlen_zdrop by lia. done. Qed.
Lemma ztake_zdrop {A} n (l : list A) : ztake n l ++ zdrop n l = l.
Proof. apply take_drop. Qed.
Lemma ztake_all {A} n (l : list A) : zlen l <= n -> ztake n l = l.
Proof. intros. apply take_ge. unfold zlen in *. lia. Qed.

Lemma ztake_app {A} n (l k : list A) : ztake n (l ++ k) = ztake n l ++ ztake (n - zlen l) k.
Proof.
  unfold ztake, zlen. rewrite firstn_app. do 2 f_equal. lia.
Qed.
Lemma zdrop_app {A} n (l k : list A) : zdrop n (l ++ k) = zdrop n l ++ zdrop (n - zlen l) k.
Proof. unfold zdrop, zlen. rewrite skipn_app. do 2 f_equal. lia. Qed.
Lemma ztake_neg {A} n (l : list A) : n <= 0 -> ztake n l = [].
Proof. intros. unfold ztake. by replace (Z.to_nat n) with O by lia. Qed.
Lemma zdrop_zdrop {A} m n (l : list A) : 0 <= m -> 0 <= n -> zdrop m (zdrop n l) = zdrop (n + m) l.
Proof. intros. unfold zdrop. rewrite skipn_skipn. f_equal. lia. Qed.
Lemma zdrop_all {A} n (l : list A) : zlen l <= n -> zdrop n l = [].
Proof. intros. unfold zdrop, zlen in *. apply skipn_all2. lia. Qed.

Lemma le_range l : 0 <= le l < 256 ^ zlen l.
Proof.
  induction l as [|b t IH]; [by vm_compute|].
  rewrite zlen_cons, Z.pow_add_r, Z.pow_1_r by (pose proof (zlen_nonneg t); lia).
  cbn [le]. pose proof (u8_range b). nia.
Qed.

Lemma length_to_le n z : length (to_le n z) = n.
Proof. revert z; induction n; cbn; auto. Qed.

Lemma le_to_le n z : le (to_le n z) = z mod 256 ^ Z.of_nat n.
Proof.
  revert z; induction n as [|n IH]; intros z; [cbn; by rewrite Z.mod_1_r|].
  cbn [to_le le]. rewrite IH, u8_b8, Nat2Z.inj_succ, Z.pow_succ_r by lia.
  rewrite (Z.rem_mul_r z 256) by lia. lia.
Qed.

Lemma to_le_le l : to_le (length l) (le l) = l.
Proof.
  induction l as [|b t IH]; [done|]. cbn [to_le le length]. f_equal.
  - apply u8_inj. rewrite u8_b8. rewrite (Z.mul_comm 256), Z_mod_plus_full.
    pose proof (u8_range b). by apply Z.mod_small.
  - rewrite (Z.mul_comm 256), Z_div_plus_full by lia.
    pose proof (u8_range b). by rewrite Z.div_small, Z.add_0_l by lia.
Qed.

Lemma rd_Some b off n l :
  rd b off n = Some l <-> 0 <= off /\ off + n <= zlen b /\ l = slice off n b.
Proof.
  unfold rd. destruct (Z.leb_spec 0 off), (Z.leb_spec (off + n) (zlen b)); cbn;
    split; intros; destruct_and?; simplify_eq; try done; try lia.
Qed.

Lemma rd_in_bounds b off n :
  0 <= off -> off + n <= zlen b -> rd b off n = Some (slice off n b).
Proof. intros. by apply rd_Some. Qed.

Lemma rd_zlen b off n l : 0 <= n -> rd b off n = Some l -> zlen l = n.
Proof. intros ? (?&?&->)%rd_Some. rewrite zlen_slice by lia. lia. Qed.

(** ** Bit fields: disjoint bits add up *)
Lemma lor_add a x k : 0 <= k -> 0 <= x < 2 ^ k -> Z.lor (a * 2 ^ k) x = a * 2 ^ k + x.
Proof.
  intros Hk Hx. symmetry. apply Z.add_nocarry_lor. apply Z.bits_inj'. intros n Hn.
  rewrite Z.land_spec, Z.bits_0. destruct (Z.lt_ge_cases n k).
  - by rewrite Z.mul_pow2_bits_low.
  - rewrite <- (Z.mod_small x (2 ^ k)) by done. by rewrite Z.mod_pow2_bits_high, andb_false_r.
Qed.
Lemma land_mask x k : 0 <= k -> Z.land x (2 ^ k - 1) = x mod 2 ^ k.
Proof. intros. rewrite <- Z.land_ones by done. by rewrite Z.ones_equiv. Qed.
