(* ===== verification/Cstr.v ===== *)
(** C strings and the parts of libc's string library the program uses.

    A C string is a Rocq [string]: the characters before the terminating NUL.
    A pointer into a string is the suffix it points at, so [strchr] and
    [strstr] return suffixes. *)
From S2P Require Import Prelude.

(** * Characters *)
Definition code (c : ascii) : Z := Z.of_N (N_of_ascii c).
Definition chr (z : Z) : ascii := ascii_of_N (Z.to_N (z mod 256)).

Definition is_digit (c : ascii) : bool := (48 <=? code c) && (code c <=? 57).
Definition is_upper_ch (c : ascii) : bool := (65 <=? code c) && (code c <=? 90).
Definition is_lower_ch (c : ascii) : bool := (97 <=? code c) && (code c <=? 122).
Definition isalnum (c : ascii) : bool := is_digit c || is_upper_ch c || is_lower_ch c.
Definition isprint (c : ascii) : bool := (32 <=? code c) && (code c <=? 126).
(** isspace in the C locale *)
Definition isspace (c : ascii) : bool := (code c =? 32) || ((9 <=? code c) && (code c <=? 13)).
Definition tolower (c : ascii) : ascii := if is_upper_ch c then chr (code c + 32) else c.
Definition toupper (c : ascii) : ascii := if is_lower_ch c then chr (code c - 32) else c.

(** * Strings *)
Definition strlen (s : string) : Z := Z.of_nat (String.length s).

Fixpoint stake (n : nat) (s : string) : string :=
  match n, s with S m, String c t => String c (stake m t) | _, _ => "" end.
Fixpoint sdrop (n : nat) (s : string) : string :=
  match n, s with S m, String _ t => sdrop m t | _, _ => s end.

(** What [snprintf (buf, cap, "%s", s)] leaves in [buf], for [cap > 0]. *)
Definition snprintf (cap : nat) (s : string) : string := stake (cap - 1) s.

Fixpoint smap (f : ascii -> ascii) (s : string) : string :=
  match s with "" => "" | String c t => String (f c) (smap f t) end.
Fixpoint sall (P : ascii -> bool) (s : string) : bool :=
  match s with "" => true | String c t => P c && sall P t end.
Definition slower : string -> string := smap tolower.

(** [starts_with p s]: [!strncmp (s, p, strlen (p))]. *)
Fixpoint starts_with (p s : string) : bool :=
  match p, s with
  | "", _ => true
  | String a p', String b s' => Ascii.eqb a b && starts_with p' s'
  | _, _ => false
  end.
Definition strcaseeq (a b : string) : bool := String.eqb (slower a) (slower b).
(** [!strncasecmp (a, b, n)] *)
Definition strncaseeq (n : nat) (a b : string) : bool := strcaseeq (stake n a) (stake n b).

Fixpoint strchr (c : ascii) (s : string) : option string :=
  match s with "" => None | String d t => if Ascii.eqb c d then Some s else strchr c t end.
Fixpoint strrchr (c : ascii) (s : string) : option string :=
  match s with
  | "" => None
  | String d t => match strrchr c t with Some r => Some r | None => if Ascii.eqb c d then Some s else None end
  end.
Fixpoint strstr (p s : string) : option string :=
  if starts_with p s then Some s
  else match s with "" => None | String _ t => strstr p t end.
Definition strcasestr (p s : string) : bool := bool_decide (is_Some (strstr (slower p) (slower s))).
Definition contains (p s : string) : bool := bool_decide (is_Some (strstr p s)).

(** The longest prefix of characters satisfying [P], and the rest
    (strspn, and strcspn with the complement). *)
Fixpoint span (P : ascii -> bool) (s : string) : string * string :=
  match s with
  | "" => ("", "")
  | String c t => if P c then let '(a, b) := span P t in (String c a, b) else ("", s)
  end.
Definition one_of (set : string) (c : ascii) : bool :=
  bool_decide (is_Some (strchr c set)).

(** What [strtok] yields, token by token: maximal runs of non-delimiters. *)
Fixpoint tokens_aux (delim : ascii -> bool) (s cur : string) : list string :=
  match s with
  | "" => if String.eqb cur "" then [] else [cur]
  | String c t =>
      if delim c then (if String.eqb cur "" then [] else [cur]) ++ tokens_aux delim t ""
      else tokens_aux delim t (cur +:+ String c "")
  end.
Definition tokens (delim : ascii -> bool) (s : string) : list string := tokens_aux delim s "".
Definition tok_char (c : ascii) : string -> list string := tokens (Ascii.eqb c).

(** The directory separator's last component: [strrchr (p, '/')] plus one. *)
Definition basename (p : string) : string :=
  match strrchr "/" p with Some (String _ b) => b | _ => p end.
(** The characters before the suffix [suf] of [s]. *)
Definition before (s suf : string) : string := stake (String.length s - String.length suf) s.

(** * Numbers *)
(** [qq s]: [s] with every apostrophe turned into a double quote, to write
    strings that contain double quotes. *)
Definition dquote : ascii := chr 34.
Definition qq (s : string) : string := smap (fun c => if Ascii.eqb c "'" then dquote else c) s.
Definition LF : string := String (chr 10) "".
(** printf's "%d", "%u" and "%llu": decimal digits, no padding. The fuel is the
    number of binary digits, which is enough ([dec_roundtrip]). *)
Fixpoint dec_aux (fuel : nat) (n : Z) (acc : string) : string :=
  match fuel with
  | O => acc
  | S f =>
      let acc' := String (chr (48 + n mod 10)) acc in
      if n <? 10 then acc' else dec_aux f (n / 10) acc'
  end.
Definition dec (z : Z) : string :=
  if z <? 0 then String "-" (dec_aux (S (Z.to_nat (Z.log2 (- z)))) (- z) "")
  else dec_aux (S (Z.to_nat (Z.log2 z))) z "".
(** [%0wd]-style padding to width [w] with zeros, for [z >= 0] *)
Definition zpad (w : nat) (s : string) : string :=
  String.concat "" (replicate (w - String.length s) "0") +:+ s.
Definition hexdigit (z : Z) : ascii :=
  if z <? 10 then chr (48 + z) else chr (87 + z).
Definition hexval (c : ascii) : option Z :=
  if is_digit c then Some (code c - 48)
  else if (97 <=? code c) && (code c <=? 102) then Some (code c - 87)
  else if (65 <=? code c) && (code c <=? 70) then Some (code c - 55)
  else None.

(** Value of the leading digits in [base] (digits above 9 are letters). *)
Fixpoint digits_val (base : Z) (s : string) (acc : Z) : Z :=
  match s with
  | "" => acc
  | String c t =>
      match hexval c with
      | Some d => if d <? base then digits_val base t (acc * base + d) else acc
      | None => acc
      end
  end.

Definition ULONG_MAX : Z := 2 ^ 64 - 1.
Definition UINT_MAX : Z := 2 ^ 32 - 1.
Definition INT_MAX : Z := 2 ^ 31 - 1.

(** The optional sign and the rest, after leading white space. *)
Definition strip_sign (s : string) : bool * string :=
  let s := (span isspace s).2 in
  match s with
  | String c t => if Ascii.eqb c "-" then (true, t) else if Ascii.eqb c "+" then (false, t) else (false, s)
  | "" => (false, s)
  end.

(** The radix prefix of base 0: "0x" (followed by a hex digit) or "0". *)
Definition radix (s : string) : Z * string :=
  match s with
  | String "0" (String x ((String d _) as t)) =>
      if (Ascii.eqb x "x" || Ascii.eqb x "X") && bool_decide (is_Some (hexval d)) then (16, t)
      else (8, s)
  | String "0" _ => (8, s)
  | _ => (10, s)
  end.

(** strtoul: saturates at ULONG_MAX; a minus sign negates modulo 2^64. *)
Definition strtoul_mag (neg : bool) (m : Z) : Z :=
  if ULONG_MAX <? m then ULONG_MAX else if neg then (- m) mod 2 ^ 64 else m.
Definition strtoul10 (s : string) : Z :=
  let '(neg, t) := strip_sign s in strtoul_mag neg (digits_val 10 t 0).
Definition strtoul0 (s : string) : Z :=
  let '(neg, t) := strip_sign s in
  let '(b, u) := radix t in strtoul_mag neg (digits_val b u 0).
(** strtoll: saturates at both ends. *)
Definition strtoll10 (s : string) : Z :=
  let '(neg, t) := strip_sign s in
  let m := digits_val 10 t 0 in
  if neg then Z.max (- 2 ^ 63) (- m) else Z.min (2 ^ 63 - 1) m.
(** atoi is (int) strtol; glibc's long is 64 bits wide, the int its low 32. *)
Definition to_int (z : Z) : Z := (z + 2 ^ 31) mod 2 ^ 32 - 2 ^ 31.
Definition atoi (s : string) : Z := to_int (strtoll10 s).

(** The bytes of a buffer as a C string: up to the first NUL. *)
Fixpoint cstr_of_bytes (l : list byte) : string :=
  match l with
  | [] => ""
  | b :: t => if u8 b =? 0 then "" else String (chr (u8 b)) (cstr_of_bytes t)
  end.
Fixpoint bytes_of_string (s : string) : list byte :=
  match s with "" => [] | String c t => b8 (code c) :: bytes_of_string t end.

(** [%-<n>s] and [%<n>s] *)
Definition spaces (n : nat) : string := String.concat "" (replicate n " ").
Definition padr (n : nat) (s : string) : string := s +:+ spaces (n - String.length s).
Definition padl (n : nat) (s : string) : string := spaces (n - String.length s) +:+ s.

(** What successive [fgets (line, cap, f)] return for the text [s]: lines with
    their newline, cut into pieces of at most [cap - 1] characters. *)
Fixpoint fgets_aux (cap left : nat) (s cur : string) : list string :=
  match s with
  | "" => if String.eqb cur "" then [] else [cur]
  | String c t =>
      let cur' := cur +:+ String c "" in
      if Ascii.eqb c (chr 10) || Nat.eqb left 1 then cur' :: fgets_aux cap (cap - 1) t ""
      else fgets_aux cap (left - 1) t cur'
  end.
Definition fgets_all (cap : nat) (s : string) : list string := fgets_aux cap (cap - 1) s "".
(** [line[strcspn (line, "\r\n")] = 0] *)
Definition is_eol (c : ascii) : bool := (code c =? 13) || (code c =? 10).
Definition chomp (s : string) : string := (span (fun c => negb (is_eol c)) s).1.

(** * Lemmas *)
Lemma code_range c : 0 <= code c < 256.
Proof. unfold code. pose proof (N_ascii_bounded c). lia. Qed.

Lemma chr_code c : chr (code c) = c.
Proof.
  unfold chr. rewrite Z.mod_small by apply code_range.
  unfold code. rewrite N2Z.id. apply ascii_N_embedding.
Qed.

Lemma code_chr z : code (chr z) = z mod 256.
Proof.
  pose proof (Z.mod_pos_bound z 256 eq_refl).
  unfold code, chr. rewrite N_ascii_embedding; lia.
Qed.

Lemma ascii_eqb_code a b : Ascii.eqb a b = (code a =? code b).
Proof.
  destruct (Ascii.eqb_spec a b) as [->|H]; [by rewrite Z.eqb_refl|].
  symmetry. apply Z.eqb_neq. intros E. apply H. by rewrite <- (chr_code a), E, chr_code.
Qed.

(** stdpp seals [+:+] against simplification; here it computes. *)
#[global] Arguments String.append !_ _ / : simpl nomatch.
Lemma sapp_nil_r s : s +:+ "" = s.
Proof. induction s as [|c s IH]; cbn; [done|by f_equal]. Qed.
Lemma sapp_assoc a b c : (a +:+ b) +:+ c = a +:+ (b +:+ c).
Proof. induction a as [|x a IH]; cbn; [done|by f_equal]. Qed.
Lemma sapp_cons c s t : String c s +:+ t = String c (s +:+ t).
Proof. done. Qed.
Lemma slength_app a b : String.length (a +:+ b) = (String.length a + String.length b)%nat.
Proof. induction a as [|x a IH]; cbn; [done|by rewrite IH]. Qed.
Lemma strlen_nonneg s : 0 <= strlen s.
Proof. unfold strlen; lia. Qed.
Lemma strlen_app a b : strlen (a +:+ b) = strlen a + strlen b.
Proof. unfold strlen. rewrite slength_app. lia. Qed.
Lemma strlen_cons c s : strlen (String c s) = 1 + strlen s.
Proof. unfold strlen. cbn [String.length]. lia. Qed.

Lemma stake_sdrop n s : stake n s +:+ sdrop n s = s.
Proof.
  revert s; induction n as [|n IH]; intros [|c s]; try done. cbn [stake sdrop].
  by rewrite sapp_cons, IH.
Qed.
Lemma slength_stake n s : String.length (stake n s) = Nat.min n (String.length s).
Proof. revert s; induction n as [|n IH]; intros [|c s]; cbn; auto. Qed.
Lemma stake_ge n s : (String.length s <= n)%nat -> stake n s = s.
Proof.
  revert s; induction n as [|n IH]; intros [|c s]; cbn; intros; try done; [lia|].
  f_equal. apply IH. lia.
Qed.
Lemma stake_app n a b : n = String.length a -> stake n (a +:+ b) = a.
Proof. intros ->. induction a as [|c a IH]; cbn; [by destruct b|by f_equal]. Qed.
Lemma sdrop_app n a b : n = String.length a -> sdrop n (a +:+ b) = b.
Proof. intros ->. induction a as [|c a IH]; cbn; [by destruct b|done]. Qed.

(** A string shorter than the buffer is copied whole; in any case the result
    fits with its terminator. *)
Lemma snprintf_fits cap s : strlen s < Z.of_nat cap -> snprintf cap s = s.
Proof. unfold strlen, snprintf. intros. apply stake_ge. lia. Qed.
Lemma snprintf_bound cap s : (0 < cap)%nat -> strlen (snprintf cap s) < Z.of_nat cap.
Proof. unfold strlen, snprintf. intros. rewrite slength_stake. lia. Qed.

Lemma sall_app P a b : sall P (a +:+ b) = sall P a && sall P b.
Proof. induction a as [|c a IH]; cbn; [done|]. by rewrite IH, andb_assoc. Qed.
Lemma sall_impl (P Q : ascii -> bool) s :
  (forall c, P c = true -> Q c = true) -> sall P s = true -> sall Q s = true.
Proof.
  intros H. induction s as [|c s IH]; cbn; [done|].
  intros [? ?]%andb_true_iff. by rewrite H, IH.
Qed.
Lemma sall_stake P n s : sall P s = true -> sall P (stake n s) = true.
Proof.
  revert s; induction n as [|n IH]; intros [|c s]; cbn; try done.
  intros [-> ?]%andb_true_iff. cbn. by apply IH.
Qed.
Lemma sall_sdrop P n s : sall P s = true -> sall P (sdrop n s) = true.
Proof.
  revert s; induction n as [|n IH]; intros [|c s]; cbn; try done.
  intros [_ ?]%andb_true_iff. by apply IH.
Qed.
Lemma sall_smap P f s : sall P (smap f s) = sall (fun c => P (f c)) s.
Proof. induction s as [|c s IH]; cbn; [done|by rewrite IH]. Qed.
Lemma slength_smap f s : String.length (smap f s) = String.length s.
Proof. induction s as [|c s IH]; cbn; auto. Qed.

Lemma starts_with_spec p s : starts_with p s = true <-> exists t, s = p +:+ t.
Proof.
  revert s; induction p as [|a p IH]; intros s; cbn; [split; [by exists s|done]|].
  destruct s as [|b s]; [split; [done|intros [? ?]; done]|].
  rewrite andb_true_iff, Ascii.eqb_eq, IH. split.
  - intros [-> [t ->]]. by exists t.
  - intros [t [= -> ->]]. eauto.
Qed.
Lemma starts_with_app p t : starts_with p (p +:+ t) = true.
Proof. apply starts_with_spec. eauto. Qed.

Lemma strstr_Some p s r :
  strstr p s = Some r -> exists a, s = a +:+ r /\ starts_with p r = true.
Proof.
  revert r; induction s as [|c s IH]; intros r; cbn [strstr];
    destruct (starts_with p _) eqn:E; intros H; simplify_eq; [by exists ""..|].
  destruct (IH _ H) as (a & -> & ?). by exists (String c a).
Qed.
Lemma strstr_None p s a b : strstr p s = None -> s <> a +:+ (p +:+ b).
Proof.
  revert a; induction s as [|c s IH]; intros a; cbn [strstr];
    destruct (starts_with p _) eqn:E; intros H Heq; simplify_eq.
  - destruct a as [|x a]; [|done]. cbn in Heq. rewrite Heq, starts_with_app in E. done.
  - destruct a as [|x a]; cbn in Heq.
    + rewrite Heq, starts_with_app in E. done.
    + injection Heq as -> ->. by eapply IH.
Qed.
Lemma contains_spec p s : contains p s = true <-> exists a b, s = a +:+ (p +:+ b).
Proof.
  unfold contains. rewrite bool_decide_eq_true. split.
  - intros [r H]. apply strstr_Some in H as (a & -> & (b & ->)%starts_with_spec). eauto.
  - intros (a & b & H). destruct (strstr p s) eqn:E; [eauto|].
    by eapply strstr_None in E.
Qed.

Lemma strchr_Some c s r :
  strchr c s = Some r -> exists a t, s = a +:+ r /\ r = String c t /\ sall (fun x => negb (Ascii.eqb c x)) a = true.
Proof.
  induction s as [|d s IH]; cbn; [done|].
  destruct (Ascii.eqb_spec c d) as [->|N]; intros H; simplify_eq.
  - by exists "", s.
  - destruct (IH H) as (a & t & -> & -> & Ha). exists (String d a), t. cbn.
    by rewrite (proj2 (Ascii.eqb_neq c d) N), Ha.
Qed.
Lemma strchr_None c s : strchr c s = None <-> sall (fun x => negb (Ascii.eqb c x)) s = true.
Proof.
  induction s as [|d s IH]; cbn; [done|]. destruct (Ascii.eqb c d); cbn; [done|exact IH].
Qed.

Lemma span_app P s : (span P s).1 +:+ (span P s).2 = s.
Proof.
  induction s as [|c s IH]; cbn; [done|]. destruct (P c); [|done].
  destruct (span P s); cbn in *. by f_equal.
Qed.
Lemma span_sall P s : sall P (span P s).1 = true.
Proof.
  induction s as [|c s IH]; cbn; [done|]. destruct (P c) eqn:E; [|done].
  destruct (span P s); cbn in *. by rewrite E.
Qed.
Lemma span_stop P s c t : (span P s).2 = String c t -> P c = false.
Proof.
  induction s as [|d s IH]; cbn; [done|]. destruct (P d) eqn:E; [|by intros [= -> ->]].
  destruct (span P s); cbn in *. done.
Qed.

Lemma tokens_aux_ok delim s cur :
  sall (fun c => negb (delim c)) cur = true ->
  Forall (fun t => t <> "" /\ sall (fun c => negb (delim c)) t = true) (tokens_aux delim s cur).
Proof.
  revert cur; induction s as [|c s IH]; intros cur Hc; cbn.
  - destruct (String.eqb_spec cur ""); repeat constructor; done.
  - destruct (delim c) eqn:E.
    + apply Forall_app; split; [|by apply IH].
      destruct (String.eqb_spec cur ""); repeat constructor; done.
    + apply IH. rewrite sall_app, Hc. cbn. by rewrite E.
Qed.
(** No token is empty and none holds a delimiter. *)
Lemma tokens_ok delim s :
  Forall (fun t => t <> "" /\ sall (fun c => negb (delim c)) t = true) (tokens delim s).
Proof. by apply tokens_aux_ok. Qed.

(** ** Decimal round trip *)
Lemma hexval_digit d : 0 <= d < 10 -> hexval (chr (48 + d)) = Some d.
Proof.
  intros H. unfold hexval, is_digit. rewrite code_chr, Z.mod_small by lia.
  destruct (Z.leb_spec 48 (48 + d)), (Z.leb_spec (48 + d) 57); try lia. cbn. f_equal; lia.
Qed.

Lemma digits_val_dec_aux f n rest :
  0 <= n < 10 ^ Z.of_nat f -> digits_val 10 (dec_aux f n rest) 0 = digits_val 10 rest n.
Proof.
  revert n rest; induction f as [|f IH]; intros n rest H.
  - cbn in *. by replace n with 0 by lia.
  - cbn [dec_aux]. rewrite Nat2Z.inj_succ, Z.pow_succ_r in H by lia.
    pose proof (Z.mod_pos_bound n 10 eq_refl). pose proof (Z.div_mod n 10 ltac:(lia)).
    destruct (Z.ltb_spec n 10).
    + cbn [digits_val]. rewrite hexval_digit by lia. rewrite (Z.mod_small n 10) in * by lia.
      by rewrite (proj2 (Z.ltb_lt n 10)).
    + rewrite IH by (split; [apply Z.div_pos; lia|apply Z.div_lt_upper_bound; lia]).
      cbn [digits_val]. rewrite hexval_digit by lia.
      rewrite (proj2 (Z.ltb_lt (n mod 10) 10)) by lia. f_equal. lia.
Qed.

Lemma dec_fuel n : 0 <= n -> n < 10 ^ Z.of_nat (S (Z.to_nat (Z.log2 n))).
Proof.
  intros H. rewrite Nat2Z.inj_succ, Z2Nat.id by apply Z.log2_nonneg.
  destruct (Z.eq_dec n 0) as [->|]; [done|].
  pose proof (Z.log2_spec n ltac:(lia)) as [_ Hlt].
  eapply Z.lt_le_trans; [exact Hlt|]. apply Z.pow_le_mono_l. lia.
Qed.

(** Printing and reading back the same number. *)
Lemma dec_roundtrip n : 0 <= n -> digits_val 10 (dec n) 0 = n.
Proof.
  intros H. unfold dec. rewrite (proj2 (Z.ltb_ge n 0)) by lia.
  rewrite digits_val_dec_aux; [done|]. split; [done|by apply dec_fuel].
Qed.

Lemma dec_aux_digits f n rest :
  0 <= n -> sall is_digit rest = true -> sall is_digit (dec_aux f n rest) = true.
Proof.
  revert n rest; induction f as [|f IH]; intros n rest Hn Hr; [done|]. cbn [dec_aux].
  pose proof (Z.mod_pos_bound n 10 eq_refl).
  assert (sall is_digit (String (chr (48 + n mod 10)) rest) = true) as Hd.
  { cbn [sall]. rewrite Hr, andb_true_r. unfold is_digit. rewrite code_chr, Z.mod_small by lia.
    apply andb_true_iff; rewrite !Z.leb_le; lia. }
  destruct (Z.ltb_spec n 10); [done|]. apply IH; [apply Z.div_pos; lia|done].
Qed.
Lemma dec_digits n : 0 <= n -> sall is_digit (dec n) = true.
Proof.
  intros H. unfold dec. rewrite (proj2 (Z.ltb_ge n 0)) by lia. by apply dec_aux_digits.
Qed.

(** A number below [10 ^ k] prints in at most [k] digits. *)
Lemma strlen_dec_aux f k n acc : 0 <= n < 10 ^ Z.of_nat (S k) ->
  strlen (dec_aux f n acc) <= Z.of_nat (S k) + strlen acc.
Proof.
  revert k n acc; induction f as [|f IH]; intros k n acc Hn; cbn [dec_aux]; [lia|].
  destruct (Z.ltb_spec n 10); [rewrite strlen_cons; lia|].
  destruct k as [|k]; [cbn in Hn; lia|].
  assert (Hd : 0 <= n / 10 < 10 ^ Z.of_nat (S k)).
  { rewrite (Nat2Z.inj_succ (S k)), Z.pow_succ_r in Hn by lia.
    split; [apply Z.div_pos; lia|apply Z.div_lt_upper_bound; lia]. }
  pose proof (IH k (n / 10) (String (chr (48 + n mod 10)) acc) Hd) as H'. rewrite strlen_cons in H'. lia.
Qed.
Lemma strlen_dec k n : 0 <= n < 10 ^ Z.of_nat (S k) -> strlen (dec n) <= Z.of_nat (S k).
Proof.
  intros H. unfold dec. rewrite (proj2 (Z.ltb_ge n 0)) by lia.
  pose proof (strlen_dec_aux (S (Z.to_nat (Z.log2 n))) k n "" H) as H'. change (strlen "") with 0 in H'. lia.
Qed.

Lemma sapp_inj_l a b c : a +:+ b = a +:+ c -> b = c.
Proof. induction a as [|x a IH]; cbn; [done|]. intros [= H]. auto. Qed.

(** Lengths of string literals, as numbers. *)
Ltac lit_len :=
  repeat match goal with
  | |- context [strlen (qq ?s)] => let n := eval vm_compute in (strlen (qq s)) in change (strlen (qq s)) with n
  | |- context [strlen LF] => change (strlen LF) with 1
  | |- context [strlen (String ?c ?s)] => rewrite (strlen_cons c s)
  | |- context [strlen ""] => change (strlen "") with 0
  end.

(** ** Strings and their bytes *)
Definition no_nul (s : string) : bool := sall (fun c => negb (code c =? 0)) s.
Lemma cstr_bytes_of_string s : no_nul s = true -> cstr_of_bytes (bytes_of_string s) = s.
Proof.
  unfold no_nul. induction s as [|c s IH]; cbn [sall bytes_of_string cstr_of_bytes]; [done|].
  intros [Hc Hs]%andb_true_iff. pose proof (code_range c). rewrite u8_b8, Z.mod_small by lia.
  destruct (code c =? 0); [done|]. by rewrite IH, chr_code.
Qed.
Lemma zlen_bytes_of_string s : zlen (bytes_of_string s) = strlen s.
Proof. induction s as [|c s IH]; [done|]. cbn [bytes_of_string]. by rewrite zlen_cons, strlen_cons, IH. Qed.
Lemma bytes_of_string_app a b : bytes_of_string (a +:+ b) = bytes_of_string a ++ bytes_of_string b.
Proof. induction a as [|c a IH]; [done|]. cbn. by rewrite IH. Qed.
