(* ===== verification/Ext2fs.v ===== *)
(** The data libext2fs exchanges with its caller: inodes, directory entries,
    error codes. The library itself is outside the repository; its functions
    are calls answered by the environment (Sys.v). *)
From S2P Require Import Prelude.

(** An inode. [i_other] is what the program never reads or writes (block
    count, flags, generation, ...). *)
Record ext2_inode := Inode {
  i_mode : Z; i_uid : Z; i_uid_high : Z; i_gid : Z; i_gid_high : Z;
  i_size : Z; i_size_high : Z; i_atime : Z; i_ctime : Z; i_mtime : Z; i_dtime : Z;
  i_links_count : Z; i_block : list byte; i_other : list byte }.
#[export] Instance ext2_inode_eq_dec : EqDecision ext2_inode.
Proof. solve_decision. Defined.

(** A directory entry as the iterator hands it to a callback: the name bytes
    are those of the block, [d_name_len] the 16-bit field (its high byte is the
    file type). *)
Record ext2_dirent := Dirent { d_inode : Z; d_name_len : Z; d_name : list byte }.
#[export] Instance ext2_dirent_eq_dec : EqDecision ext2_dirent.
Proof. solve_decision. Defined.

(** What the superblock and the volume say of the space in use. *)
Record ext2_usage := Usage {
  u_blocksize : Z; u_blocks : Z; u_free_blocks : Z; u_inodes : Z; u_free_inodes : Z }.

(** ** Setters *)
Definition set_mode (m : Z) (i : ext2_inode) : ext2_inode :=
  Inode m (i_uid i) (i_uid_high i) (i_gid i) (i_gid_high i) (i_size i) (i_size_high i) (i_atime i)
    (i_ctime i) (i_mtime i) (i_dtime i) (i_links_count i) (i_block i) (i_other i).
(** a 32-bit uid in its two halves *)
Definition set_uid (u : Z) (i : ext2_inode) : ext2_inode :=
  Inode (i_mode i) (Z.land u 65535) (Z.shiftr u 16 mod 65536) (i_gid i) (i_gid_high i) (i_size i)
    (i_size_high i) (i_atime i) (i_ctime i) (i_mtime i) (i_dtime i) (i_links_count i) (i_block i) (i_other i).
Definition set_gid (g : Z) (i : ext2_inode) : ext2_inode :=
  Inode (i_mode i) (i_uid i) (i_uid_high i) (Z.land g 65535) (Z.shiftr g 16 mod 65536) (i_size i)
    (i_size_high i) (i_atime i) (i_ctime i) (i_mtime i) (i_dtime i) (i_links_count i) (i_block i) (i_other i).
Definition set_size (lo hi : Z) (i : ext2_inode) : ext2_inode :=
  Inode (i_mode i) (i_uid i) (i_uid_high i) (i_gid i) (i_gid_high i) lo hi (i_atime i)
    (i_ctime i) (i_mtime i) (i_dtime i) (i_links_count i) (i_block i) (i_other i).
Definition set_times (a c m : Z) (i : ext2_inode) : ext2_inode :=
  Inode (i_mode i) (i_uid i) (i_uid_high i) (i_gid i) (i_gid_high i) (i_size i) (i_size_high i) a c m
    (i_dtime i) (i_links_count i) (i_block i) (i_other i).
Definition set_atime (a : Z) (i : ext2_inode) : ext2_inode := set_times a (i_ctime i) (i_mtime i) i.
Definition set_ctime (c : Z) (i : ext2_inode) : ext2_inode := set_times (i_atime i) c (i_mtime i) i.
Definition set_mtime (m : Z) (i : ext2_inode) : ext2_inode := set_times (i_atime i) (i_ctime i) m i.
Definition set_dtime (d : Z) (i : ext2_inode) : ext2_inode :=
  Inode (i_mode i) (i_uid i) (i_uid_high i) (i_gid i) (i_gid_high i) (i_size i) (i_size_high i) (i_atime i)
    (i_ctime i) (i_mtime i) d (i_links_count i) (i_block i) (i_other i).
(** a 16-bit field *)
Definition set_links (n : Z) (i : ext2_inode) : ext2_inode :=
  Inode (i_mode i) (i_uid i) (i_uid_high i) (i_gid i) (i_gid_high i) (i_size i) (i_size_high i) (i_atime i)
    (i_ctime i) (i_mtime i) (i_dtime i) (n mod 65536) (i_block i) (i_other i).
Definition set_block (b : list byte) (i : ext2_inode) : ext2_inode :=
  Inode (i_mode i) (i_uid i) (i_uid_high i) (i_gid i) (i_gid_high i) (i_size i) (i_size_high i) (i_atime i)
    (i_ctime i) (i_mtime i) (i_dtime i) (i_links_count i) b (i_other i).
(** memset(&nin, 0, sizeof(nin)) *)
Definition zero_inode : ext2_inode := Inode 0 0 0 0 0 0 0 0 0 0 0 0 (replicate 60 Byte.x00) [].

(** ** Modes *)
Definition LINUX_S_IFMT : Z := 0xF000.
Definition LINUX_S_IFREG : Z := 0x8000.
Definition LINUX_S_IFDIR : Z := 0x4000.
Definition s_is (kind m : Z) : bool := Z.land m LINUX_S_IFMT =? kind.
Definition LINUX_S_ISDIR : Z -> bool := s_is LINUX_S_IFDIR.
Definition LINUX_S_ISREG : Z -> bool := s_is LINUX_S_IFREG.
Definition LINUX_S_ISLNK : Z -> bool := s_is 0xA000.
Definition LINUX_S_ISBLK : Z -> bool := s_is 0x6000.
Definition LINUX_S_ISCHR : Z -> bool := s_is 0x2000.
Definition LINUX_S_ISFIFO : Z -> bool := s_is 0x1000.
Definition LINUX_S_ISSOCK : Z -> bool := s_is 0xC000.
(** EXT2_I_SIZE: the 64-bit size of a regular file *)
Definition EXT2_I_SIZE (i : ext2_inode) : Z := Z.lor (i_size i) (Z.shiftl (i_size_high i) 32).
Definition EXT2_ROOT_INO : Z := 2.

(** ** Error codes (errcode_t; ext2_err.h) *)
Definition EXT2_ET_RO_FILSYS : Z := 2133571349.
Definition EXT2_ET_DIR_NO_SPACE : Z := 2133571366.
Definition EXT2_ET_TOOSMALL : Z := 2133571372.
Definition EXT2_ET_INVALID_ARGUMENT : Z := 2133571399.
Definition EXT2_ET_FILE_NOT_FOUND : Z := 2133571404.
Definition EXT2_ET_DIR_NO_SPACE_FOR_CSUM : Z := 2133571477.
Definition EXT2_ET_FILE_EXISTS : Z := 2133571483.

(** ** File types in directory entries *)
Definition EXT2_FT_REG_FILE : Z := 1.
Definition EXT2_FT_DIR : Z := 2.
Definition EXT2_FT_CHRDEV : Z := 3.
Definition EXT2_FT_BLKDEV : Z := 4.
Definition EXT2_FT_FIFO : Z := 5.
Definition EXT2_FT_SOCK : Z := 6.
Definition EXT2_FT_SYMLINK : Z := 7.
