(* ===== verification/Ntfs3g.v ===== *)
(** The data libntfs-3g exchanges with its caller: what a look at an open inode
    shows, directory entries, what the volume says of its space. The library is
    outside the repository; its functions are calls answered by the environment
    (Sys.v). *)
From S2P Require Import Prelude.

(** The fields of an ntfs_inode and of its MFT record that the program reads.
    Times are in the unit of the volume. *)
Record ntfs_inode := NtfsInode {
  n_mft_no : Z; n_mrec_flags : Z; n_link_count : Z; n_flags : Z;
  n_data_size : Z; n_allocated_size : Z; n_atime : Z; n_mtime : Z; n_ctime : Z }.
(** what ntfs_readdir hands to its callback: the name is in UTF-16 units *)
Record ntfs_dirent := NtfsDirent { nd_name : list Z; nd_type : Z; nd_mref : Z }.
#[export] Instance ntfs_dirent_eq_dec : EqDecision ntfs_dirent.
Proof. solve_decision. Defined.
(** [v_mft_size]: the size of $MFT, None when it is not open *)
Record ntfs_volume := NtfsVolume {
  v_cluster_size : Z; v_nr_clusters : Z; v_free_clusters : Z;
  v_mft_size : option Z; v_mft_record_size : Z; v_free_mft_records : Z }.
Definition zero_ntfs_inode : ntfs_inode := NtfsInode 0 0 0 0 0 0 0 0 0.

(** ** layout.h *)
Definition MFT_RECORD_IS_DIRECTORY : Z := 2.
Definition FILE_ATTR_SYSTEM : Z := 4.
Definition FILE_ATTR_REPARSE_POINT : Z := 1024.
Definition FILE_root : Z := 5.
Definition FILE_first_user : Z := 16.
Definition FILE_NAME_DOS : Z := 2.
(** "IntxLNK" and a 1, little-endian *)
Definition INTX_SYMBOLIC_LINK : Z := 0x014B4E4C78746E49.
Definition NTFS_DT_LNK : Z := 10.
Definition S_IFREG : Z := 0x8000.
Definition S_IFDIR : Z := 0x4000.
(** the record number of a reference, without its sequence number *)
Definition MREF (r : Z) : Z := Z.land r (2 ^ 48 - 1).
(** a conversion to a signed 64-bit integer *)
Definition s64 (z : Z) : Z := if z mod 2 ^ 64 <? 2 ^ 63 then z mod 2 ^ 64 else z mod 2 ^ 64 - 2 ^ 64.
(** the UTF-16 units of a buffer, the odd byte at its end left out *)
Fixpoint le16_units (b : list byte) : list Z :=
  match b with
  | lo :: hi :: t => (u8 lo + 256 * u8 hi) :: le16_units t
  | _ => []
  end.
