(* ===== verification/Contents.v ===== *)
(** The contents of a file as a list of bytes: what is there of a range, a
    write at a position, in pieces or whole, and the growth of a file. *)
From S2P Require Import Prelude.

(** [b] written at [p], the hole before it zero *)
Definition splice (p : Z) (b d : list byte) : list byte :=
  match b with
  | [] => d
  | _ => ztake p (d ++ replicate (Z.to_nat (p - zlen d)) Byte.x00) ++ b ++ zdrop (p + zlen b) d
  end.
(** ** Writing in pieces *)
Lemma splice_nil p d : splice p [] d = d.
Proof. done. Qed.
Lemma splice_eq p b d : 0 < zlen b ->
  splice p b d = ztake p (d ++ replicate (Z.to_nat (p - zlen d)) Byte.x00) ++ b ++ zdrop (p + zlen b) d.
Proof. destruct b; [intros H; by cbn in H|done]. Qed.
Lemma zlen_pos {A} (l : list A) : l <> [] -> 0 < zlen l.
Proof. destruct l; [done|]. intros _. rewrite zlen_cons. pose proof (zlen_nonneg l). lia. Qed.
Lemma zdrop_zero {A} (l : list A) : zdrop 0 l = l.
Proof. done. Qed.
Lemma zlen_hole p (d : list byte) : 0 <= p -> zlen (ztake p (d ++ replicate (Z.to_nat (p - zlen d)) Byte.x00)) = p.
Proof.
  intros. rewrite zlen_ztake, zlen_app by lia.
  pose proof (zlen_nonneg d). unfold zlen at 2. rewrite length_replicate. lia.
Qed.
Lemma splice_splice p a b d : 0 <= p -> splice (p + zlen a) b (splice p a d) = splice p (a ++ b) d.
Proof.
  intros Hp. destruct (decide (a = [])) as [->|Ha]; [by rewrite zlen_nil, Z.add_0_r|].
  destruct (decide (b = [])) as [->|Hb]; [by rewrite app_nil_r|].
  pose proof (zlen_pos a Ha). pose proof (zlen_pos b Hb).
  rewrite (splice_eq p a), (splice_eq p (a ++ b)), splice_eq by (rewrite ?zlen_app; lia).
  set (hole := ztake p _). assert (Hh : zlen hole = p) by by apply zlen_hole.
  set (rest := zdrop (p + zlen a) d).
  replace (ztake (p + zlen a) _) with (hole ++ a).
  2: { rewrite <- !app_assoc, ztake_app, Hh, ztake_all by lia. f_equal.
       replace (p + zlen a - p) with (zlen a) by lia. by rewrite ztake_app, ztake_all, Z.sub_diag, ztake_neg, app_nil_r by lia. }
  rewrite <- !app_assoc. do 3 f_equal. rewrite zlen_app. unfold rest.
  rewrite zdrop_app, (zdrop_all _ hole), app_nil_l by lia.
  rewrite zdrop_app, (zdrop_all _ a), app_nil_l by lia.
  rewrite zdrop_zdrop by lia. f_equal. lia.
Qed.
Lemma slice_splice p b d : 0 <= p -> slice p (zlen b) (splice p b d) = b.
Proof.
  intros Hp. destruct (decide (b = [])) as [->|Hb]; [unfold slice; rewrite zlen_nil; by rewrite ztake_neg by lia|].
  pose proof (zlen_pos b Hb). rewrite splice_eq by lia. unfold slice.
  rewrite zdrop_app, zlen_hole, zdrop_all, Z.sub_diag, app_nil_l by (rewrite ?zlen_hole; lia).
  rewrite (zdrop_zero (b ++ _)). by rewrite ztake_app, ztake_all, Z.sub_diag, ztake_neg, app_nil_r by lia.
Qed.

(** the next [w] bytes of the buffer, when [k] are written *)
Lemma write_turn off buf data k w : 0 <= off -> 0 <= k <= zlen buf -> 0 <= w <= zlen (zdrop k buf) ->
  splice (off + k) (ztake w (zdrop k buf)) (splice off (ztake k buf) data) = splice off (ztake (k + w) buf) data.
Proof.
  intros Hoff Hk Hw. replace (off + k) with (off + zlen (ztake k buf)) by (rewrite zlen_ztake by lia; lia).
  rewrite splice_splice by done. f_equal. rewrite <- (ztake_zdrop k buf) at 3.
  rewrite ztake_app, zlen_ztake, (ztake_all (k + w)) by (rewrite ?zlen_ztake; lia).
  f_equal. f_equal. lia.
Qed.

Lemma zlen_splice p b d : 0 <= p -> zlen (splice p b d) = match b with [] => zlen d | _ => Z.max (p + zlen b) (zlen d) end.
Proof.
  intros Hp. destruct b as [|x b]; [done|]. set (l := x :: b). assert (0 < zlen l) by by apply zlen_pos.
  rewrite splice_eq by done. rewrite !zlen_app, zlen_hole, zlen_zdrop by lia. pose proof (zlen_nonneg d). lia.
Qed.
(** ** Reading in pieces *)
Lemma slice_app {A} (p a b : Z) (d : list A) : 0 <= p -> 0 <= a -> 0 <= b -> slice p a d ++ slice (p + a) b d = slice p (a + b) d.
Proof.
  intros. unfold slice. rewrite <- (zdrop_zdrop a p) by lia. set (l := zdrop p d).
  rewrite <- (ztake_zdrop a l) at 3. rewrite ztake_app, (ztake_all (a + b)) by (rewrite zlen_ztake; lia). f_equal.
  rewrite zlen_ztake by lia. destruct (Z.le_gt_cases a (zlen l)); [f_equal; lia|].
  rewrite (zdrop_all a) by lia. unfold ztake. by rewrite !take_nil.
Qed.

(** ** Growing *)
(** a file of at least [n] bytes, what is new zero *)
Definition grown (n : Z) (d : list byte) : list byte := d ++ replicate (Z.to_nat (n - zlen d)) Byte.x00.
Lemma zlen_grown n d : zlen (grown n d) = Z.max n (zlen d).
Proof. unfold grown. rewrite zlen_app, zlen_replicate. pose proof (zlen_nonneg d). lia. Qed.
Lemma grown_id n d : n <= zlen d -> grown n d = d.
Proof. intros H. unfold grown. replace (Z.to_nat (n - zlen d)) with 0%nat by lia. apply app_nil_r. Qed.
(** a write that leaves a gap fills it with zeros itself *)
Lemma splice_grown p b d : 0 <= p -> b <> [] -> splice p b (grown p d) = splice p b d.
Proof.
  intros Hp Hb. pose proof (zlen_pos b Hb). rewrite !splice_eq by done. f_equal; [|f_equal].
  - change (ztake p (grown p (grown p d)) = ztake p (grown p d)). pose proof (zlen_grown p d).
    by rewrite (grown_id p (grown p d)) by lia.
  - unfold grown. rewrite zdrop_app. destruct (Z.le_gt_cases p (zlen d)).
    + replace (Z.to_nat (p - zlen d)) with 0%nat by lia. cbn [replicate]. unfold zdrop at 2. by rewrite drop_nil, app_nil_r.
    + rewrite (zdrop_all _ (replicate _ _)) by (rewrite zlen_replicate; lia). apply app_nil_r.
Qed.
(** ** Writing inside *)
(** a write that stays inside, which is a store into a buffer *)
Lemma splice_in p b d : 0 <= p -> p + zlen b <= zlen d -> splice p b d = ztake p d ++ b ++ zdrop (p + zlen b) d.
Proof.
  intros Hp Hd. destruct b as [|x b]; [|].
  - rewrite splice_nil, app_nil_l, zlen_nil, Z.add_0_r. by rewrite ztake_zdrop.
  - pose proof (zlen_nonneg (x :: b)). rewrite splice_eq by (rewrite zlen_cons; pose proof (zlen_nonneg b); lia). 
    replace (Z.to_nat (p - zlen d)) with 0%nat by lia. by rewrite app_nil_r.
Qed.
Lemma zlen_splice_in p b d : 0 <= p -> p + zlen b <= zlen d -> zlen (splice p b d) = zlen d.
Proof.
  intros Hp Hd. pose proof (zlen_nonneg b). rewrite splice_in, !zlen_app, zlen_ztake, zlen_zdrop by lia. lia.
Qed.
Lemma zdrop_ztake {A} m n (l : list A) : 0 <= m -> zdrop m (ztake n l) = ztake (n - m) (zdrop m l).
Proof.
  intros. unfold zdrop, ztake. rewrite skipn_firstn_comm. f_equal. lia.
Qed.
Lemma slice_ztake {A} off n m (l : list A) : 0 <= off -> off + n <= m -> slice off n (ztake m l) = slice off n l.
Proof. intros. unfold slice. rewrite zdrop_ztake by lia. unfold ztake. rewrite take_take. f_equal. lia. Qed.
Lemma slice_zdrop {A} off n m (l : list A) : 0 <= off -> 0 <= m -> slice off n (zdrop m l) = slice (m + off) n l.
Proof. intros. unfold slice. by rewrite zdrop_zdrop by lia. Qed.
Lemma slice_slice {A} off n p m (l : list A) : 0 <= off -> 0 <= p -> off + n <= m -> slice off n (slice p m l) = slice (p + off) n l.
Proof. intros. unfold slice at 2. by rewrite slice_ztake, slice_zdrop by lia. Qed.
Lemma slice_app_l {A} off n (a b : list A) : 0 <= off -> off + n <= zlen a -> slice off n (a ++ b) = slice off n a.
Proof.
  intros. unfold slice. rewrite zdrop_app, ztake_app, zlen_zdrop by lia. rewrite (ztake_neg (n - _)) by lia. apply app_nil_r.
Qed.
Lemma slice_app_r {A} off n (a b : list A) : zlen a <= off -> slice off n (a ++ b) = slice (off - zlen a) n b.
Proof. intros. unfold slice. by rewrite zdrop_app, zdrop_all, app_nil_l by lia. Qed.
Lemma slice_here {A} (a b : list A) n : n = zlen a -> slice 0 n (a ++ b) = a.
Proof. intros ->. unfold slice. change (zdrop 0 (a ++ b)) with (a ++ b). by rewrite ztake_app, ztake_all, Z.sub_diag, ztake_neg, app_nil_r by lia. Qed.
(** what a write leaves alone *)
Lemma slice_splice_other q n p b d : 0 <= p -> p + zlen b <= zlen d -> 0 <= q -> 0 <= n ->
  q + n <= p \/ p + zlen b <= q -> slice q n (splice p b d) = slice q n d.
Proof.
  intros Hp Hd Hq Hn H. pose proof (zlen_nonneg b). rewrite splice_in by done. destruct H as [H|H].
  - rewrite slice_app_l by (rewrite ?zlen_ztake; lia). by rewrite slice_ztake by lia.
  - rewrite slice_app_r, slice_app_r, slice_zdrop by (rewrite ?zlen_ztake; lia). rewrite zlen_ztake by lia. f_equal. lia.
Qed.
Lemma ztake_splice n p b d : 0 <= p -> p + zlen b <= n <= zlen d -> ztake n (splice p b d) = splice p b (ztake n d).
Proof.
  intros Hp Hn. pose proof (zlen_nonneg b). rewrite !splice_in by (rewrite ?zlen_ztake; lia). rewrite !ztake_app, !zlen_ztake, zdrop_ztake by lia.
  f_equal; [unfold ztake; rewrite !take_take; f_equal; lia|]. f_equal; [by rewrite ztake_all by lia|f_equal; lia].
Qed.
Lemma splice_over p a b d : 0 <= p -> p + zlen a <= zlen d -> zlen b = zlen a -> splice p b (splice p a d) = splice p b d.
Proof.
  intros Hp Hd Hz. pose proof (zlen_nonneg a). rewrite splice_in by (rewrite ?zlen_splice_in; lia). rewrite (splice_in p b d) by lia.
  rewrite splice_in, Hz by lia. f_equal; [|f_equal].
  - rewrite ztake_app, zlen_ztake, (ztake_neg (p - _)), app_nil_r by lia. unfold ztake. rewrite take_take. f_equal. lia.
  - rewrite zdrop_app, zdrop_app, zlen_ztake, (zdrop_all _ (ztake p d)), (zdrop_all _ a) by (rewrite ?zlen_ztake; lia). cbn [app].
    rewrite zdrop_zdrop by lia. f_equal. lia.
Qed.
Lemma splice_same p b d : 0 <= p -> p + zlen b <= zlen d -> slice p (zlen b) d = b -> splice p b d = d.
Proof.
  intros Hp Hd Hs. pose proof (zlen_nonneg b). rewrite splice_in by done. rewrite <- (zdrop_zdrop (zlen b) p) by lia.
  rewrite <- (ztake_zdrop p d) at 3. f_equal. rewrite <- (ztake_zdrop (zlen b) (zdrop p d)) at 2. by f_equal.
Qed.
