(* ===== verification/Sys.v ===== *)
(** The operating system as the program sees it.

    A C function that makes system calls is an [io] tree: it returns, or makes
    one call and continues with the call's answer. Nothing is assumed of the
    answers: a property of an [io] tree speaks of every sequence of answers
    ([exec]), or of one environment given as a handler ([run]). Loops take
    fuel; [OutOfFuel] is the tree of a run that was cut short. *)
From Stdlib Require Import Eqdep.
From S2P Require Import Prelude Cstr Ext2fs Ntfs3g.

(** * Answers *)
Inductive errno := EINTR | EEXIST | ENOENT | EAGAIN | EBUSY | EACCES | EPERM | ESRCH | EOTHER (text : string).
#[export] Instance errno_eq_dec : EqDecision errno.
Proof. solve_decision. Defined.
Definition strerror (e : errno) : string :=
  match e with
  | EINTR => "Interrupted system call" | EEXIST => "File exists"
  | ENOENT => "No such file or directory" | EAGAIN => "Resource temporarily unavailable"
  | EBUSY => "Resource busy" | EACCES => "Permission denied"
  | EPERM => "Operation not permitted" | ESRCH => "No such process"
  | EOTHER t => t
  end.

Inductive fkind := KReg | KBlk | KChr | KDir | KLnk | KOther.
#[export] Instance fkind_eq_dec : EqDecision fkind.
Proof. solve_decision. Defined.
Record stat := StatFull {
  st_kind : fkind; st_size : Z; st_dev : Z; st_ino : Z; st_rdev : Z; st_mtime : Z * Z }.
#[export] Instance stat_eq_dec : EqDecision stat.
Proof. solve_decision. Defined.
(** one of a file with no device number, last written at the epoch *)
Definition Stat_ (k : fkind) (size dev ino : Z) : stat := StatFull k size dev ino 0 (0, 0).
Definition is_kind (k : fkind) (st : option stat) : bool :=
  match st with Some s => bool_decide (st_kind s = k) | None => false end.

(** How a child ended; [NoFork] when fork itself failed. *)
Inductive wstatus := Exited (code : Z) | Signaled (sig : Z) | NoFork.
Definition exited_ok (w : wstatus) : bool := match w with Exited c => c =? 0 | _ => false end.

Inductive amode := F_OK | R_OK | X_OK | W_X_OK.
Inductive omode := O_RDONLY | O_WRONLY | O_RDWR | O_TRUNC_W | O_TRUNC_RW | O_RDWR_EXCL | O_RDONLY_NB.

(** Results of the program's own functions: 0 with a value, or a negative
    return with the text left in [err] ("" when err is not written). *)
Inductive cres (A : Type) := Ok (a : A) | Fail (msg : string).
Arguments Ok {A}. Arguments Fail {A}.
Definition is_ok {A} (r : cres A) : bool := match r with Ok _ => true | Fail _ => false end.

(** An entry of macOS's mount table. *)
Record mounted_fs := MountedFs {
  f_mntfromname : string; f_mntonname : string; f_fstypename : string; f_rdonly : bool }.

(** * System calls, each with the type of its answer *)
Inductive ev : Set -> Set :=
(* metadata and directories *)
| Stat (p : string) : ev (option stat)
| Lstat (p : string) : ev (option stat)
| Access (p : string) (m : amode) : ev bool
| Readlink (p : string) : ev (option string)
| Realpath (p : string) : ev (errno + string)
| Opendir (p : string) : ev (option (list string))   (* opendir, every readdir, closedir *)
| Nftw (root : string) : ev (list (string * bool * Z)) (* what a physical walk visits: true = a file, and its size *)
| Mkdir (p : string) : ev (option errno)              (* None = success *)
| Rename (a b : string) : ev (option errno)
| Unlink (p : string) : ev (option errno)
| Rmdir (p : string) : ev (option errno)
| Truncate (p : string) (n : Z) : ev (option errno)
| Statvfs (p : string) : ev (option Z)                (* bytes available *)
| Mkstemp (template : string) : ev (option (string * Z))
| Mkdtemp (template : string) : ev (option string)
(* whole-file reads through stdio: None when fopen fails *)
| ReadText (p : string) : ev (option string)
| ReadBin (p : string) : ev (option (list byte))
(* streams *)
| Fopen (p mode : string) : ev (errno + Z)
| Fread (h n : Z) : ev (list byte)                    (* [] at end of file or on error *)
| Ferror (h : Z) : ev bool
| Fseek (h off : Z) : ev bool                         (* from the end when off < 0; true = success *)
| Fwrite (h : Z) (b : list byte) : ev bool            (* true = all of it *)
| Fputs (h : Z) (s : string) : ev unit
| Fflush (h : Z) : ev bool
| Fclose (h : Z) : ev bool
(* descriptors *)
| Open (p : string) (m : omode) : ev (errno + Z)
| Read (fd n : Z) : ev (errno + list byte)
| Write (fd : Z) (b : list byte) : ev (errno + Z)
| Pread (fd n off : Z) : ev (errno + list byte)
| Pwrite (fd : Z) (b : list byte) (off : Z) : ev (errno + Z)
| Lseek (fd off : Z) : ev bool
| Fsync (fd : Z) : ev (option errno)
| Close (fd : Z) : ev unit
| GetSize64 (fd : Z) : ev (option Z)                  (* ioctl BLKGETSIZE64 *)
| Flock (fd : Z) : ev bool
| RereadPart (fd : Z) : ev unit                       (* ioctl BLKRRPART *)
| FlushBuf (fd : Z) : ev unit                         (* ioctl BLKFLSBUF *)
| Sync : ev unit
(* processes *)
| Spawn (argv : list string) (stdin : option string) : ev wstatus  (* fork, exec, waitpid *)
| Execv (p : string) (argv : list string) : ev errno   (* returns only when it fails *)
| Fork (argv : list string) : ev (option Z)           (* fork and exec; the parent goes on *)
| PipeSpawn (argv : list string) : ev (option Z)      (* pipe, fork, exec with output piped back *)
| PipeRead (h n : Z) : ev (list byte)                 (* [] at end of file *)
| Waitpid (h : Z) : ev wstatus
| WaitNohang (h : Z) : ev (option wstatus)            (* None = still running *)
| Getenv (v : string) : ev (option string)
| Geteuid : ev Z
| Time : ev Z
| Rand : ev Z
(* output and waiting *)
| Log (s : string) : ev unit
| Progress (done total : Z) : ev unit
| VProgress (done total : Z) : ev unit                (* the callback of the verify phase *)
| Stderr (s : string) : ev unit
| Stdout (s : string) : ev unit
| Usleep (n : Z) : ev unit
(* sockets *)
| Socket : ev (errno + Z)                             (* AF_INET, SOCK_STREAM *)
| Nonblock (fd : Z) : ev (option errno)               (* O_NONBLOCK and FD_CLOEXEC; None = both set *)
| Setsockopt (fd : Z) (name : string) (v : Z) : ev unit
| BindLoopback (fd : Z) : ev (option errno)           (* 127.0.0.1, port 0 *)
| Listen (fd n : Z) : ev (option errno)
| Getsockname (fd : Z) : ev (errno + Z)               (* the port *)
| Accept (fd : Z) : ev (errno + Z * bool)             (* true = the peer is 127.0.0.1 *)
| Poll (fds : list Z) (ms : Z) : ev (errno + list Z)  (* POLLIN on each; [] = timeout; else the revents *)
| PollOut (fd ms : Z) : ev bool                       (* true = a positive answer *)
| Recv (fd n : Z) : ev (errno + list byte)            (* [] = the peer closed *)
| Send (fd : Z) (b : list byte) : ev (errno + Z)
| Stopped : ev bool                                   (* a read of the flag the signal handler sets *)
| LockDev (fd : Z) : ev (option errno)                (* fcntl F_SETLK of the whole device *)
| Getpid : ev Z
| Getegid : ev Z
| Realtime : ev Z                                     (* seconds of CLOCK_REALTIME *)
| Clock : ev (Z * Z)                                  (* CLOCK_REALTIME, seconds and nanoseconds *)
| Devnull : ev unit                                   (* standard streams to /dev/null *)
(* macOS: processes *)
| ExePath : ev (option string)                        (* _NSGetExecutablePath *)
| Setenv (v s : string) : ev unit
| SpawnAt (full : string) (argv : list string) : ev wstatus (* fork, execv of the file, waitpid *)
| PipeSpawnAt (full : string) (argv : list string) : ev (option Z)
| Pipe : ev (errno + Z * Z)                           (* the read end and the write end *)
| ForkExec (argv : list string) : ev (errno + Z)      (* fork, setsid, execv with stderr on a pipe; the child *)
| Kill (pid sig : Z) : ev (option errno)
| Errno : ev errno                                    (* a read of errno *)
| StaticFlag (v : string) : ev bool                   (* a read of a static flag, and setting it *)
| SetStaticFlag (v : string) : ev unit
| StaticStr (v : string) : ev string                  (* a static buffer *)
| SetStaticStr (v s : string) : ev unit
(* macOS: devices *)
| Devname (rdev : Z) (chr : bool) : ev (option string)
| Statfs (p : string) : ev (option string)            (* its f_mntfromname *)
| Getmntinfo : ev (list mounted_fs)                   (* [] when it fails *)
| BlockCount (fd : Z) : ev (option Z)                 (* ioctl DKIOCGETBLOCKCOUNT *)
| BlockSize (fd : Z) : ev (option Z)                  (* ioctl DKIOCGETBLOCKSIZE *)
| IOService (bsd : string) : ev (option Z)            (* the registry entry of a BSD name *)
| IOEntryId (h : Z) : ev Z                            (* 0 when it has none *)
| IOBsdName (h : Z) : ev (option string)              (* the property, when it is a string of at most 63 bytes *)
| IONumber (h : Z) (key : string) : ev (option Z)     (* the property, when it is a 64-bit number *)
| IOParents (h : Z) : ev (option (list Z))            (* every entry of the parent iterator *)
| IORelease (h : Z) : ev unit
| IORetain (h : Z) : ev unit
| IOString (h : Z) (key : string) : ev (option string) (* the property, when it is a string of at most 255 bytes *)
| IODictString (h : Z) (dict key : string) : ev (option string) (* one in a property that is a dictionary *)
| IOBool (h : Z) (key : string) : ev bool
| IOClass (h : Z) : ev (option string)
| IOConforms (h : Z) (cls : string) : ev bool
| IOName (h : Z) : ev (option string)
| IOWholeMedia : ev (option (list Z))                 (* the entries of whole media *)
| Fstat (fd : Z) : ev (option stat)
| FlockNb (fd : Z) : ev (option errno)                (* exclusive, without waiting *)
| FullFsync (fd : Z) : ev bool                        (* fcntl F_FULLFSYNC; true = success *)
| SyncCache (fd : Z) : ev unit                        (* ioctl DKIOCSYNCHRONIZECACHE *)
| CloseRc (fd : Z) : ev (option errno)                (* a close whose result is looked at *)
| Ftruncate (fd n : Z) : ev (option errno)
| RandBytes (n : Z) : ev (list byte)                  (* arc4random_buf *)
| Arc4random : ev Z
(* libntfs-3g; where a call fails, [inl] or [Some] is errno after it *)
| NMount (dev : string) (recover : bool) : ev (errno + unit)
| NMountRo (dev : string) : ev (errno + unit)
| NVolName : ev string                                (* "" when it has none *)
| NIgnoreCase : ev (option Z)                         (* ntfs_set_ignore_case *)
| NFreeSpace : ev unit
| NVolume : ev ntfs_volume                            (* a look at the volume's fields *)
| NHasSync : ev bool                                  (* the device has a sync function *)
| NSync : ev Z
| NUmount : ev bool                                   (* true = success *)
| NInodeOpen (mref : Z) : ev (Z + Z)
| NInodeClose (ni : Z) : ev Z
| NInodeCloseInDir (ni dir : Z) : ev Z
| NDirParent (ni : Z) : ev (option Z)                 (* ntfs_dir_parent_inode *)
| NInode (ni : Z) : ev ntfs_inode                     (* a look at the inode's fields *)
| NSetAtime (ni t : Z) : ev unit
| NSetMtime (ni t : Z) : ev unit
| NSetCtime (ni t : Z) : ev unit
| NDirty (ni : Z) : ev unit                           (* NInoFileNameSetDirty, NInoSetDirty *)
| NPossibleSymlink (ni : Z) : ev bool
| NInterixTypes (ni : Z) : ev Z
| NMakeSymlink (ni : Z) : ev (Z + string)
| NReadAll (ni : Z) : ev (Z + list byte)              (* ntfs_attr_readall of the data *)
| NUcstombs (u : list Z) : ev (option (list byte))
| NMbstoucs (s : string) : ev (option (list Z))
| NLookup (dir : Z) (u : list Z) : ev (Z + Z)
| NCreate (dir : Z) (u : list Z) (type : Z) : ev (Z + Z)
| NCreateSymlink (dir : Z) (u target : list Z) : ev (Z + Z)
| NLink (ni dir : Z) (u : list Z) : ev (option Z)
| NDelete (ni dir : Z) (u : list Z) : ev (option Z)   (* closes both *)
| NReaddir (dir : Z) : ev (list ntfs_dirent * option Z) (* the entries for the callback, and the outcome *)
| NAttrOpen (ni : Z) : ev (Z + Z)                     (* the unnamed data attribute *)
| NAttr (na : Z) : ev (Z * Z)                         (* its data_size and allocated_size *)
| NPread (na pos n : Z) : ev (Z + list byte)
| NPwrite (na pos : Z) (b : list byte) : ev (Z * Z)   (* the result, and errno *)
| NTruncate (na n : Z) : ev (option Z)
| NPclose (na : Z) : ev Z
| NAttrClose (na : Z) : ev unit
(* libext2fs; an errcode of 0 is success *)
| EOpen (dev : string) : ev Z
| EReadBitmaps : ev Z
| EWriteBitmaps : ev Z
| EFlush : ev Z
| EHasIo : ev bool
| EIoFlush : ev Z
| ECloseFree : ev Z
| EInodesCount : ev Z
| EUsage : ev ext2_usage
| ETestInodeBitmap (ino : Z) : ev (option bool)       (* None = no bitmap loaded *)
| EReadInode (ino : Z) : ev (Z * ext2_inode)
| EWriteInode (ino : Z) (i : ext2_inode) : ev Z
| EWriteNewInode (ino : Z) (i : ext2_inode) : ev Z
| ENewInode (dir mode : Z) : ev (Z * Z)
| EAllocStats (ino inuse isdir : Z) : ev unit
| EStatBlocks (i : ext2_inode) : ev Z
| EFastSymlink (i : ext2_inode) : ev bool
| EExtents : ev bool                                  (* the file system has the extents feature *)
| EExtentOpen (ino : Z) (i : ext2_inode) : ev (Z * Z * ext2_inode)
| EExtentFree (h : Z) : ev unit
| EPunch (ino : Z) (i : ext2_inode) : ev ext2_inode    (* from block 0 to the last *)
| ELookup (dir : Z) (name : string) : ev (Z * Z)
| ELink (dir : Z) (name : string) (ino ft : Z) : ev Z
| EUnlink (dir : Z) (name : string) (ino : Z) : ev Z
| EExpandDir (dir : Z) : ev Z
| EMkdir (dir : Z) (name : string) : ev (Z * Z)
| ESymlink (dir : Z) (name target : string) : ev Z
| EDirIterate (dir : Z) : ev (list ext2_dirent * Z)   (* the entries for the callback, and the errcode *)
| EDirentChanged (dir : Z) (d : ext2_dirent) : ev unit (* the callback changed the entry it was given *)
| EFileOpen (ino : Z) (write : bool) : ev (Z * Z)
| EFileSeek (h off : Z) : ev Z
| EFileRead (h n : Z) : ev (Z * list byte)
| EFileWrite (h : Z) (b : list byte) : ev (Z * Z)
| EFileSetSize (h n : Z) : ev Z
| EFileFlush (h : Z) : ev Z
| EFileClose (h : Z) : ev Z.

Inductive io (A : Type) : Type :=
| Ret (a : A)
| Do {X : Set} (e : ev X) (k : X -> io A)
| OutOfFuel.
Arguments Ret {A}. Arguments Do {A X}. Arguments OutOfFuel {A}.

Fixpoint bind {A B} (m : io A) (f : A -> io B) : io B :=
  match m with
  | Ret a => f a
  | Do e k => Do e (fun x => bind (k x) f)
  | OutOfFuel => OutOfFuel
  end.
Definition call {X : Set} (e : ev X) : io X := Do e Ret.
(** Early return of a failing callee. *)
Definition try {A B} (m : io (cres A)) (f : A -> io (cres B)) : io (cres B) :=
  bind m (fun r => match r with Ok a => f a | Fail e => Ret (Fail e) end).

Notation "x <- m ;; k" := (bind m (fun x => k))
  (at level 60, m at next level, right associativity) : rufux_scope.
Notation "m ;;; k" := (bind m (fun _ => k))
  (at level 60, right associativity) : rufux_scope.
Notation "x <-? m ;; k" := (try m (fun x => k))
  (at level 60, m at next level, right associativity) : rufux_scope.
Notation "m ?;; k" := (try m (fun _ => k))
  (at level 60, right associativity) : rufux_scope.

Definition fail {A} (msg : string) : io (cres A) := Ret (Fail msg).
Definition ok {A} (a : A) : io (cres A) := Ret (Ok a).
Definition when (b : bool) (m : io unit) : io unit := if b then m else Ret tt.

(** A loop: [body] either goes on with a new state or leaves with a result. *)
Fixpoint loop {S A} (fuel : nat) (body : S -> io (S + A)) (s : S) : io A :=
  match fuel with
  | O => OutOfFuel
  | Datatypes.S f => r <- body s ;; match r with inl s' => loop f body s' | inr a => Ret a end
  end.
(** [for (x in l)] with a state and an early exit. *)
Fixpoint fold_io {B S A} (body : S -> B -> io (S + A)) (l : list B) (s : S) : io (S + A) :=
  match l with
  | [] => Ret (inl s)
  | b :: t => r <- body s b ;; match r with inl s' => fold_io body t s' | inr a => Ret (inr a) end
  end.
(** The first element for which [f] answers. *)
Fixpoint first_io {B A} (f : B -> io (option A)) (l : list B) : io (option A) :=
  match l with
  | [] => Ret None
  | b :: t => r <- f b ;; match r with Some a => Ret (Some a) | None => first_io f t end
  end.

(** * Semantics *)

(** What was called and what came back. *)
Inductive obs : Type := | Obs {X : Set} (e : ev X) (x : X).

(** [exec m t a]: with the answers of [t], [m] makes the calls of [t] and returns [a]. *)
Fixpoint exec {A} (m : io A) (t : list obs) (a : A) : Prop :=
  match m with
  | Ret b => t = [] /\ a = b
  | Do e k => exists x t', t = Obs e x :: t' /\ exec (k x) t' a
  | OutOfFuel => False
  end.

(** One environment: a state and an answer for every call. *)
Definition handler (W : Type) := forall X : Set, ev X -> W -> X * W.
Fixpoint run {W A} (h : handler W) (m : io A) (w : W) : option A * list obs * W :=
  match m with
  | Ret a => (Some a, [], w)
  | Do e k =>
      let '(x, w1) := h _ e w in
      let '(r, t, w2) := run h (k x) w1 in (r, Obs e x :: t, w2)
  | OutOfFuel => (None, [], w)
  end.

(** A stateless environment. *)
Definition oracle := forall X : Set, ev X -> X.
Fixpoint eval {A} (E : oracle) (m : io A) : option A :=
  match m with
  | Ret a => Some a
  | Do e k => eval E (k (E _ e))
  | OutOfFuel => None
  end.

(** Weakest precondition over all answers. *)
Fixpoint wp {A} (m : io A) (Q : list obs -> A -> Prop) : Prop :=
  match m with
  | Ret a => Q [] a
  | Do e k => forall x, wp (k x) (fun t a => Q (Obs e x :: t) a)
  | OutOfFuel => True
  end.

(** Every call made satisfies [P], whatever the answers. *)
Fixpoint always {A} (P : forall X : Set, ev X -> Prop) (m : io A) : Prop :=
  match m with
  | Ret _ => True
  | Do e k => P _ e /\ forall x, always P (k x)
  | OutOfFuel => True
  end.

(** With the answers of [t], [m] runs out of fuel. *)
Fixpoint runs_out {A} (m : io A) (t : list obs) : Prop :=
  match m with
  | Ret _ => False
  | Do e k => exists x t', t = Obs e x :: t' /\ runs_out (k x) t'
  | OutOfFuel => t = []
  end.

(** ** Lemmas *)
Lemma wp_mono {A} (m : io A) (P Q : list obs -> A -> Prop) :
  (forall t a, P t a -> Q t a) -> wp m P -> wp m Q.
Proof.
  revert P Q; induction m as [a|X e k IH|]; cbn; intros P Q H; [auto| |done].
  intros Hk x. eapply IH; [|apply Hk]. cbn. auto.
Qed.

(** [wp] is exactly what holds of every execution. *)
Lemma wp_exec {A} (m : io A) Q : wp m Q <-> forall t a, exec m t a -> Q t a.
Proof.
  revert Q; induction m as [a|X e k IH|]; intros Q; cbn.
  - split; [by intros H t b [-> ->]|auto].
  - split.
    + intros H t a (x & t' & -> & He). by apply (proj1 (IH x _) (H x)).
    + intros H x. apply IH. intros t a He. apply H. eauto.
  - split; [by intros|done].
Qed.

Lemma exec_wp {A} (m : io A) (Q : list obs -> A -> Prop) : wp m Q -> forall t a, exec m t a -> Q t a.
Proof. apply wp_exec. Qed.

Lemma wp_bind {A B} (m : io A) (f : A -> io B) Q :
  wp (bind m f) Q <-> wp m (fun t a => wp (f a) (fun t' b => Q (t ++ t') b)).
Proof.
  revert Q; induction m as [a|X e k IH|]; intros Q; cbn; [done| |done].
  split; intros H x; [apply (IH x (fun t b => Q (Obs e x :: t) b)), H|apply IH, H].
Qed.

Lemma wp_seq {A B} (m : io A) (f : A -> io B) Q :
  wp m (fun t a => wp (f a) (fun t' b => Q (t ++ t') b)) -> wp (bind m f) Q.
Proof. apply wp_bind. Qed.
Lemma wp_true {A} (m : io A) : wp m (fun _ _ => True).
Proof. induction m; cbn; auto. Qed.
(** When nothing is known of what [m] returns. *)
Lemma wp_any {A B} (m : io A) (f : A -> io B) (Q : list obs -> B -> Prop) :
  (forall t a, wp (f a) (fun t' b => Q (t ++ t') b)) -> wp (bind m f) Q.
Proof.
  intros H. apply wp_seq. eapply wp_mono; [|apply wp_true]. intros t a _. apply H.
Qed.

Lemma exec_bind {A B} (m : io A) (f : A -> io B) t b :
  exec (bind m f) t b <-> exists t1 a t2, t = t1 ++ t2 /\ exec m t1 a /\ exec (f a) t2 b.
Proof.
  revert t; induction m as [a|X e k IH|]; intros t; cbn.
  - split; [intros H; by exists [], a, t|].
    by intros (t1 & a' & t2 & -> & [-> ->] & H).
  - split.
    + intros (x & t' & -> & (t1 & a & t2 & -> & H1 & H2)%IH).
      exists (Obs e x :: t1), a, t2. eauto 10.
    + intros (t1 & a & t2 & -> & (x & t' & -> & H1) & H2).
      exists x, (t' ++ t2). split; [done|]. apply IH. eauto 10.
  - split; [done|]. by intros (?&?&?&?&?&?).
Qed.

Lemma exec_try {A B} (m : io (cres A)) (f : A -> io (cres B)) t b :
  exec (try m f) t (Ok b) -> exists t1 a t2, t = t1 ++ t2 /\ exec m t1 (Ok a) /\ exec (f a) t2 (Ok b).
Proof.
  unfold try. intros (t1 & [a|m'] & t2 & -> & H1 & H2)%exec_bind; [eauto 10|]. by destruct H2.
Qed.

(** Running in one environment is one of the executions. *)
Lemma run_exec {W A} (h : handler W) (m : io A) w a t w' :
  run h m w = (Some a, t, w') -> exec m t a.
Proof.
  revert t w; induction m as [b|X e k IH|]; cbn; intros t w H; [by simplify_eq| |done].
  destruct (h X e w) as [x w1], (run h (k x) w1) as [[r t2] w2] eqn:E. simplify_eq.
  eauto.
Qed.

(** the same, for runs that are computed *)
Lemma run_computed {W A} (h : handler W) (m : io A) w a :
  (run h m w).1.1 = Some a -> exec m (run h m w).1.2 a.
Proof. destruct (run h m w) as [[r t] w'] eqn:E. cbn. intros ->. by eapply run_exec. Qed.

Lemma eval_bind {A B} E (m : io A) (f : A -> io B) :
  eval E (bind m f) = match eval E m with Some a => eval E (f a) | None => None end.
Proof. induction m as [a|X e k IH|]; cbn; auto. Qed.
Lemma eval_exec {A} (E : oracle) (m : io A) a :
  eval E m = Some a -> exists t, exec m t a.
Proof.
  induction m as [b|X e k IH|]; cbn; intros H; simplify_eq; [eauto|].
  destruct (IH _ H) as [t Ht]. eauto 10.
Qed.

Lemma always_bind {A B} P (m : io A) (f : A -> io B) :
  always P m -> (forall a, always P (f a)) -> always P (bind m f).
Proof. induction m as [a|X e k IH|]; cbn; intros Hm Hf; [auto| |done]. destruct Hm. auto. Qed.
(** with what is known of the values the first part can return *)
Lemma always_bind_exec {A B} P (m : io A) (f : A -> io B) :
  always P m -> (forall t a, exec m t a -> always P (f a)) -> always P (bind m f).
Proof.
  induction m as [a|X e k IH|]; cbn; intros Hm Hf; [by apply (Hf [])| |done].
  destruct Hm as [He Hk]. split; [done|]. intros x. apply IH; [done|]. intros t a Ha. eapply (Hf (Obs e x :: t)). eauto.
Qed.
Lemma always_try {A B} P (m : io (cres A)) (f : A -> io (cres B)) :
  always P m -> (forall a, always P (f a)) -> always P (try m f).
Proof. intros. apply always_bind; [done|]. intros [a|e]; cbn; auto. Qed.
Lemma always_call {X : Set} P (e : ev X) : P X e -> always P (call e).
Proof. cbn; auto. Qed.
Lemma always_when P b m : (b = true -> always P m) -> always P (when b m).
Proof. destruct b; cbn; auto. Qed.
Lemma always_loop {S A} P fuel (body : S -> io (S + A)) s :
  (forall s, always P (body s)) -> always P (loop fuel body s).
Proof.
  intros Hb. revert s; induction fuel as [|n IH]; intros s; cbn; [done|].
  apply always_bind; [done|]. intros [s'|a]; cbn; auto.
Qed.
Lemma always_fold {B S A} P (body : S -> B -> io (S + A)) l s :
  (forall s b, always P (body s b)) -> always P (fold_io body l s).
Proof.
  intros Hb. revert s; induction l as [|b l IH]; intros s; cbn; [done|].
  apply always_bind; [done|]. intros [s'|a]; cbn; auto.
Qed.
Lemma always_first {B A} P (f : B -> io (option A)) l :
  (forall b, always P (f b)) -> always P (first_io f l).
Proof.
  intros Hb. induction l as [|b l IH]; cbn; [done|].
  apply always_bind; [done|]. intros [a|]; cbn; auto.
Qed.
Lemma always_mono {A} (P Q : forall X : Set, ev X -> Prop) (m : io A) :
  (forall X e, P X e -> Q X e) -> always P m -> always Q m.
Proof. intros H. induction m as [a|X e k IH|]; cbn; [done| |done]. intros []. auto. Qed.

(** [always] speaks of the trace. *)
Lemma always_exec {A} P (m : io A) t a :
  always P m -> exec m t a -> Forall (fun o => match o with Obs e _ => P _ e end) t.
Proof.
  revert t; induction m as [b|X e k IH|]; cbn; intros t Hm; [by intros [-> _]| |done].
  intros (x & t' & -> & He). destruct Hm. constructor; eauto.
Qed.

(** Loop rule: [Inv] holds of the calls so far and the state at every turn. *)
Lemma wp_loop {S A} fuel (body : S -> io (S + A)) (Inv : list obs -> S -> Prop) Q t0 s :
  Inv t0 s ->
  (forall t s, Inv t s ->
     wp (body s) (fun t' r => match r with inl s' => Inv (t ++ t') s' | inr a => Q (t ++ t') a end)) ->
  wp (loop fuel body s) (fun t a => Q (t0 ++ t) a).
Proof.
  intros HI Hb. revert t0 s HI; induction fuel as [|n IH]; intros t0 s HI; cbn; [done|].
  apply wp_bind. eapply wp_mono; [|apply (Hb _ _ HI)]. cbn.
  intros t' [s'|a] H; cbn.
  - eapply wp_mono; [|apply (IH _ _ H)]. cbn. intros ??. by rewrite app_assoc.
  - by rewrite app_nil_r.
Qed.

Lemma runs_out_bind {A B} (m : io A) (f : A -> io B) t :
  runs_out (bind m f) t <->
  runs_out m t \/ exists t1 a t2, t = t1 ++ t2 /\ exec m t1 a /\ runs_out (f a) t2.
Proof.
  revert t; induction m as [a|X e k IH|]; intros t; cbn.
  - split; [intros H; right; by exists [], a, t|].
    by intros [[]|(t1 & a' & t2 & -> & [-> ->] & H)].
  - split.
    + intros (x & t' & -> & [H|(t1 & a & t2 & -> & H1 & H2)]%IH); [left; eauto|right].
      exists (Obs e x :: t1), a, t2. eauto 10.
    + intros [(x & t' & -> & H)|(t1 & a & t2 & -> & (x & t' & -> & H1) & H2)].
      * exists x, t'. split; [done|]. apply IH. by left.
      * exists x, (t' ++ t2). split; [done|]. apply IH. right. eauto 10.
  - split; [by left|]. by intros [?|(?&?&?&?&[]&?)].
Qed.

(** A loop runs out of fuel only when it was interrupted: a turn lowers the
    measure, or the answers it got contain an excuse for each unit by which it
    did not. *)
Lemma loop_runs_out {S A} (measure : S -> nat) (excuses : list obs -> nat) fuel
    (body : S -> io (S + A)) s t :
  (forall t1 t2, excuses (t1 ++ t2) = (excuses t1 + excuses t2)%nat) ->
  (forall s t, ~ runs_out (body s) t) ->
  (forall s s' t, exec (body s) t (inl s') -> (measure s' < measure s + excuses t)%nat) ->
  runs_out (loop fuel body s) t -> (fuel <= measure s + excuses t)%nat.
Proof.
  intros Hx Hb Hm. revert s t; induction fuel as [|n IH]; intros s t; cbn; [lia|].
  intros [H|(t1 & [s'|a] & t2 & -> & H1 & H2)]%runs_out_bind; [by apply Hb in H| |done].
  apply IH in H2. apply Hm in H1. rewrite Hx. lia.
Qed.

(** A run that stops early ran out of fuel. *)
Lemma run_runs_out {W A} (hd : handler W) (m : io A) w :
  (run hd m w).1.1 = None -> runs_out m (run hd m w).1.2.
Proof.
  revert w; induction m as [a|X e k IH|]; intros w; cbn; [done| |done].
  destruct (hd X e w) as [x w1]. specialize (IH x w1). destruct (run hd (k x) w1) as [[r t] w2].
  cbn in *. intros H. eauto.
Qed.

Lemma run_bind {W A B} (h : handler W) (m : io A) (f : A -> io B) w :
  run h (bind m f) w =
  let '(r, t, w1) := run h m w in
  match r with
  | Some a => let '(r2, t2, w2) := run h (f a) w1 in (r2, t ++ t2, w2)
  | None => (None, t, w1)
  end.
Proof.
  revert w; induction m as [a|X e k IH|]; intros w; cbn; [by destruct (run h (f a) w) as [[??]?]| |done].
  destruct (h X e w) as [x w1]. rewrite IH. destruct (run h (k x) w1) as [[[a|] t] w2]; [|done].
  by destruct (run h (f a) w2) as [[??]?].
Qed.

(** * Reading a trace *)

(** What POSIX, ISO C, libext2fs and libntfs-3g document of the transfer calls: no call
    moves more than it was asked to. *)
Definition posix (o : obs) : Prop :=
  match o with
  | Obs e x =>
      match e in ev X return X -> Prop with
      | Fread _ n => fun x => zlen x <= n
      | RandBytes n => fun x => zlen x = n
      | Read _ n | Pread _ n _ => fun x => match x with inr l => zlen l <= n | inl _ => True end
      | Write _ b | Pwrite _ b _ => fun x => match x with inr w => 0 <= w <= zlen b | inl _ => True end
      | PipeRead _ n => fun x => zlen x <= n
      | Recv _ n => fun x => match x with inr l => zlen l <= n | inl _ => True end
      | Send _ b => fun x => match x with inr w => 0 <= w <= zlen b | inl _ => True end
      | EFileRead _ n => fun x => zlen x.2 <= n
      | EFileWrite _ b => fun x => 0 <= x.2 <= zlen b
      | NPread _ _ n => fun x => match x with inr l => zlen l <= n | inl _ => True end
      | NPwrite _ _ b => fun x => x.1 <= zlen b
      | _ => fun _ => True
      end x
  end.

Definition posixb (o : obs) : bool :=
  match o with
  | Obs e x =>
      match e in ev X return X -> bool with
      | Fread _ n => fun x => zlen x <=? n
      | RandBytes n => fun x => zlen x =? n
      | Read _ n | Pread _ n _ => fun x => match x with inr l => zlen l <=? n | inl _ => true end
      | Write _ b | Pwrite _ b _ => fun x => match x with inr w => (0 <=? w) && (w <=? zlen b) | inl _ => true end
      | PipeRead _ n => fun x => zlen x <=? n
      | Recv _ n => fun x => match x with inr l => zlen l <=? n | inl _ => true end
      | Send _ b => fun x => match x with inr w => (0 <=? w) && (w <=? zlen b) | inl _ => true end
      | EFileRead _ n => fun x => zlen x.2 <=? n
      | EFileWrite _ b => fun x => (0 <=? x.2) && (x.2 <=? zlen b)
      | NPread _ _ n => fun x => match x with inr l => zlen l <=? n | inl _ => true end
      | NPwrite _ _ b => fun x => x.1 <=? zlen b
      | _ => fun _ => true
      end x
  end.
Lemma posixb_posix o : posixb o = true -> posix o.
Proof.
  destruct o as [X e x]. destruct e; cbn; try done; try (intros H; lia).
  all: destruct x; [done|intros H; lia].
Qed.
(** whether one environment behaves throughout a run *)
Fixpoint behaves {A} (E : oracle) (m : io A) : bool :=
  match m with
  | Do e k => posixb (Obs e (E _ e)) && behaves E (k (E _ e))
  | _ => true
  end.
Lemma eval_exec_posix {A} (E : oracle) (m : io A) a :
  behaves E m = true -> eval E m = Some a -> exists t, exec m t a /\ Forall posix t.
Proof.
  induction m as [b|X e k IH|]; cbn; intros Hb H; simplify_eq; [exists []; by repeat split; constructor|].
  apply andb_true_iff in Hb as [Ho Hb]. destruct (IH _ Hb H) as (t & Ht & Hp).
  exists (Obs e (E X e) :: t). split; [eauto|]. constructor; [by apply posixb_posix|done].
Qed.

(** The bytes one observation moved: read from a descriptor, from a stream, from
    a pipe, or accepted by a descriptor. *)
Definition read_by (fd : Z) (o : obs) : list byte :=
  match o with
  | Obs e x =>
      match e in ev X return X -> list byte with
      | Read fd' _ => fun x => match x with inr l => if fd' =? fd then l else [] | inl _ => [] end
      | _ => fun _ => []
      end x
  end.
Definition fread_by (h : Z) (o : obs) : list byte :=
  match o with
  | Obs e x =>
      match e in ev X return X -> list byte with
      | Fread h' _ => fun x => if h' =? h then x else []
      | _ => fun _ => []
      end x
  end.
Definition piped_by (h : Z) (o : obs) : list byte :=
  match o with
  | Obs e x =>
      match e in ev X return X -> list byte with
      | PipeRead h' _ => fun x => if h' =? h then x else []
      | _ => fun _ => []
      end x
  end.
Definition written_by (fd : Z) (o : obs) : list byte :=
  match o with
  | Obs e x =>
      match e in ev X return X -> list byte with
      | Write fd' b => fun x => match x with inr w => if fd' =? fd then ztake w b else [] | inl _ => [] end
      | _ => fun _ => []
      end x
  end.
Definition reads fd t := concat (map (read_by fd) t).
Definition freads h t := concat (map (fread_by h) t).
Definition pipes h t := concat (map (piped_by h) t).
Definition writes fd t := concat (map (written_by fd) t).

(** A transfer a signal interrupted. *)
Definition interrupted (o : obs) : bool :=
  match o with
  | Obs e x =>
      match e in ev X return X -> bool with
      | Read _ _ | Pread _ _ _ => fun x => match x with inl EINTR => true | _ => false end
      | Write _ _ | Pwrite _ _ _ => fun x => match x with inl EINTR => true | _ => false end
      | _ => fun _ => false
      end x
  end.
Definition interrupts (t : list obs) : nat := length (List.filter interrupted t).

Lemma reads_app fd t u : reads fd (t ++ u) = reads fd t ++ reads fd u.
Proof. unfold reads. by rewrite map_app, concat_app. Qed.
Lemma freads_app h t u : freads h (t ++ u) = freads h t ++ freads h u.
Proof. unfold freads. by rewrite map_app, concat_app. Qed.
Lemma pipes_app h t u : pipes h (t ++ u) = pipes h t ++ pipes h u.
Proof. unfold pipes. by rewrite map_app, concat_app. Qed.
Lemma writes_app h t u : writes h (t ++ u) = writes h t ++ writes h u.
Proof. unfold writes. by rewrite map_app, concat_app. Qed.
Lemma writes_skip fd o u : written_by fd o = [] -> writes fd (o :: u) = writes fd u.
Proof. intros H. unfold writes. cbn [map concat]. by rewrite H. Qed.
Lemma reads_skip fd o u : read_by fd o = [] -> reads fd (o :: u) = reads fd u.
Proof. intros H. unfold reads. cbn [map concat]. by rewrite H. Qed.
Lemma interrupts_app t u : interrupts (t ++ u) = (interrupts t + interrupts u)%nat.
Proof. unfold interrupts. by rewrite List.filter_app, length_app. Qed.

(** [posix] on every observation, as a hypothesis that [wp] proofs consume. *)
Lemma wp_posix {A} (m : io A) (Q : list obs -> A -> Prop) :
  wp m (fun t a => Forall posix t -> Q t a) <-> forall t a, exec m t a -> Forall posix t -> Q t a.
Proof. apply wp_exec. Qed.

(** The classes of calls that properties of whole programs speak of: a call
    that can change what is on disk or start another program. *)
Definition touches {X : Set} (e : ev X) : bool :=
  match e with
  | Mkdir _ | Rename _ _ | Unlink _ | Rmdir _ | Truncate _ _ | Mkstemp _ | Mkdtemp _
  | Fwrite _ _ | Fputs _ _ | Write _ _ | Pwrite _ _ _ | Spawn _ _ | Fork _ | PipeSpawn _ | Execv _ _ => true
  | SpawnAt _ _ | PipeSpawnAt _ _ | ForkExec _ | Kill _ _ | NMountRo _ => true
  | Open _ (O_WRONLY | O_RDWR | O_TRUNC_W | O_TRUNC_RW | O_RDWR_EXCL) => true
  | Ftruncate _ _ => true
  | Send _ _ | NMount _ _ | NSync | NUmount | EOpen _ | EWriteBitmaps | EFlush | EIoFlush | ECloseFree | EWriteInode _ _ | EWriteNewInode _ _
  | ENewInode _ _ | EAllocStats _ _ _ | EExtentOpen _ _ | EPunch _ _ | ELink _ _ _ _ | EUnlink _ _ _
  | EExpandDir _ | EMkdir _ _ | ESymlink _ _ _ | EDirentChanged _ _ | EFileWrite _ _ | EFileSetSize _ _
  | EFileFlush _ | EFileClose _ => true
  | NInodeClose _ | NInodeCloseInDir _ _ | NCreate _ _ _ | NCreateSymlink _ _ _ | NLink _ _ _ | NDelete _ _ _
  | NPwrite _ _ _ | NTruncate _ _ | NPclose _ => true
  | Fopen _ mode => negb (String.eqb mode "r") && negb (String.eqb mode "rb")
  | _ => false
  end.
Definition harmless : forall X : Set, ev X -> Prop := fun X e => touches e = false.

(** Two observations of the same kind of call agree on it and on the answer. *)
Definition stat_of (o : obs) : option (string * option stat) :=
  match o with
  | Obs e x =>
      match e in ev X return X -> option (string * option stat) with
      | Stat p => fun x => Some (p, x)
      | _ => fun _ => None
      end x
  end.
Lemma obs_stat_inj p q x y t u : Obs (Stat p) x :: t = Obs (Stat q) y :: u -> x = y /\ t = u.
Proof. intros H. assert (H' := f_equal (fun l => stat_of <$> head l) H). cbn in H'. by simplify_eq. Qed.

(** in general, of any call *)
Lemma obs_inj {X : Set} (e : ev X) x y t u : Obs e x :: t = Obs e y :: u -> x = y /\ t = u.
Proof. intros H. injection H as H ->. by apply inj_pair2 in H. Qed.

Lemma harmless_writes fd t :
  Forall (fun o => match o with Obs e _ => harmless _ e end) t -> writes fd t = [].
Proof.
  intros H. induction H as [|[X e x] t Ho Ht IH]; [done|]. unfold writes in *. cbn [map concat]. rewrite IH.
  destruct e; try reflexivity. discriminate Ho.
Qed.

(** An uneventful answer to every call, for building concrete environments. *)
Definition default_answer {X : Set} (e : ev X) : X :=
  match e in ev X return X with
  | Stat _ | Lstat _ => None | Access _ _ => false
  | Readlink _ | Mkdtemp _ | ReadText _ | Getenv _ => None
  | Realpath _ => inl ENOENT
  | Opendir _ => None | Nftw _ => [] | Mkdir _ | Rename _ _ | Truncate _ _ | Fsync _ => None
  | Unlink _ | Rmdir _ => None
  | ExePath | PipeSpawnAt _ _ | Devname _ _ | Statfs _ | BlockCount _ | BlockSize _ | IOService _ | IOBsdName _
  | IONumber _ _ | IOParents _ | Kill _ _ | NIgnoreCase => None
  | IOString _ _ | IODictString _ _ _ | IOClass _ | IOName _ | IOWholeMedia | Fstat _ | FlockNb _ | CloseRc _
  | Ftruncate _ _ => None
  | IOBool _ _ | IOConforms _ _ | FullFsync _ => false
  | RandBytes n => replicate (Z.to_nat n) Byte.x00 | Arc4random => 0
  | Setenv _ _ | SetStaticFlag _ | SetStaticStr _ _ | IORelease _ | IORetain _ | SyncCache _ => tt
  | SpawnAt _ _ => Exited 0 | Pipe | ForkExec _ | NMountRo _ => inl ENOENT
  | Errno => ENOENT | IOEntryId _ => 0 | StaticFlag _ => false | StaticStr _ | NVolName => "" | Getmntinfo => []
  | Fputs _ _ | Close _ | RereadPart _ | FlushBuf _ | Sync => tt
  | Statvfs _ | GetSize64 _ | PipeSpawn _ | Fork _ => None
  | Mkstemp _ => None | ReadBin _ => None
  | Fopen _ _ | Open _ _ | Read _ _ | Write _ _ | Pread _ _ _ | Pwrite _ _ _ => inl ENOENT
  | Fread _ _ | PipeRead _ _ => []
  | Ferror _ => false | Fseek _ _ | Fwrite _ _ | Fflush _ | Fclose _ | Lseek _ _ | Flock _ => true
  | Spawn _ _ | Waitpid _ => Exited 0 | WaitNohang _ => Some (Exited 0)
  | Execv _ _ => ENOENT
  | Geteuid | Time | Rand => 0
  | Log _ | Progress _ _ | VProgress _ _ | Stderr _ | Stdout _ | Usleep _ => tt
  | NMount _ _ => inl ENOENT | NFreeSpace => tt | NUmount => true
  | Socket | Getsockname _ | Accept _ | Poll _ _ | Recv _ _ | Send _ _ => inl EAGAIN
  | PollOut _ _ | Stopped | EHasIo | EExtents | EFastSymlink _ => false
  | NVolume => NtfsVolume 0 0 0 None 0 0 | NSync | NInodeClose _ | NInodeCloseInDir _ _ | NPclose _ | NInterixTypes _ => 0
  | NHasSync | NPossibleSymlink _ => false
  | NInodeOpen _ | NMakeSymlink _ | NReadAll _ | NLookup _ _ | NCreate _ _ _ | NCreateSymlink _ _ _
  | NAttrOpen _ | NPread _ _ _ => inl 2
  | NDirParent _ | NUcstombs _ | NMbstoucs _ | NLink _ _ _ | NDelete _ _ _ | NTruncate _ _ => None
  | NInode _ => zero_ntfs_inode
  | NSetAtime _ _ | NSetMtime _ _ | NSetCtime _ _ | NDirty _ | NAttrClose _ => tt
  | NReaddir _ => ([], None) | NAttr _ => (0, 0) | NPwrite _ _ b => (zlen b, 0)
  | Clock => (0, 0)
  | Setsockopt _ _ _ | Devnull | EAllocStats _ _ _ | EExtentFree _ | EDirentChanged _ _ => tt
  | Nonblock _ | BindLoopback _ | Listen _ _ | LockDev _ => None
  | Getpid | Getegid | Realtime | EOpen _ | EReadBitmaps | EWriteBitmaps | EFlush | EIoFlush
  | ECloseFree | EInodesCount | EWriteInode _ _ | EWriteNewInode _ _ | EStatBlocks _
  | ELink _ _ _ _ | EUnlink _ _ _ | EExpandDir _ | ESymlink _ _ _ | EFileSeek _ _
  | EFileSetSize _ _ | EFileFlush _ | EFileClose _ => 0
  | EUsage => Usage 0 0 0 0 0
  | ETestInodeBitmap _ => None
  | EReadInode _ => (0, zero_inode)
  | ENewInode _ _ | ELookup _ _ | EMkdir _ _ | EFileOpen _ _ => (0, 0)
  | EExtentOpen _ i => (0, 0, i)
  | EPunch _ i => i
  | EDirIterate _ => ([], 0)
  | EFileRead _ _ => (0, [])
  | EFileWrite _ b => (0, zlen b)
  end.

(** * Automation *)
Create HintDb rufux.
#[export] Hint Resolve always_bind always_try always_call always_when always_loop always_fold
  always_first : rufux.

(** [always_tac]: walks an [io] tree call by call; the calls themselves are
    left to [auto] with the development's hints. *)
Ltac always_step :=
  match goal with
  | |- always _ (bind _ _) => apply always_bind
  | |- always _ (try _ _) => apply always_try
  | |- always _ (call _) => apply always_call
  | |- always _ (when _ _) => apply always_when; intros
  | |- always _ (loop _ _ _) => apply always_loop
  | |- always _ (fold_io _ _ _) => apply always_fold
  | |- always _ (first_io _ _) => apply always_first
  | |- always _ (Ret _) => exact I
  | |- always _ (fail _) => exact I
  | |- always _ (ok _) => exact I
  | |- always _ OutOfFuel => exact I
  | |- forall _, _ => intro
  | |- always _ (match ?x with _ => _ end) => destruct x eqn:?
  | |- always _ (let '_ := ?x in _) => destruct x eqn:?
  | |- _ => solve [auto with rufux]
  end.
Ltac always_tac := repeat (cbv beta zeta; always_step).

(** Concrete traces: [exec_tac] replays one, [posix_tac] checks its answers. *)
Ltac exec_tac := repeat (hnf; eexists _, _; split; [reflexivity|]); hnf; split; vm_compute; reflexivity.
Ltac posix_tac :=
  cbv zeta; repeat (apply List.Forall_cons; [vm_compute; repeat split; congruence|]); apply List.Forall_nil.

(** * Observers

    A state that every call and its answer move ([step]), and what the answers
    must be in it ([law]): the contents of a file, counts of what was allocated.
    [ofrom s m Q]: observed from [s], with answers in [law], [m] ends with [Q]. *)
Section Observer.
Context {St : Type} (step : obs -> St -> St) (law : obs -> St -> Prop).
Fixpoint observe (t : list obs) (s : St) : St :=
  match t with [] => s | o :: t => observe t (step o s) end.
Fixpoint abides (t : list obs) (s : St) : Prop :=
  match t with [] => True | o :: t => law o s /\ abides t (step o s) end.
Lemma observe_app t u s : observe (t ++ u) s = observe u (observe t s).
Proof. revert s; induction t as [|o t IH]; intros s; cbn; [done|]. apply IH. Qed.
Lemma abides_app t u s : abides (t ++ u) s <-> abides t s /\ abides u (observe t s).
Proof. revert s; induction t as [|o t IH]; intros s; cbn; [tauto|]. rewrite IH. tauto. Qed.
Lemma abides_true t s : (forall o s, law o s) -> abides t s.
Proof. intros H. revert s; induction t; cbn; auto. Qed.
#[export] Instance abides_dec `{!forall o s, Decision (law o s)} t s : Decision (abides t s).
Proof. revert s; induction t as [|o t IH]; intros s; cbn; [left; exact I|]. apply and_dec; [apply _|apply IH]. Defined.

Definition ofrom (s : St) {A} (m : io A) (Q : A -> St -> Prop) : Prop :=
  forall t a, exec m t a -> abides t s -> Q a (observe t s).
(** a call that moves no state *)
Definition unseen : forall X : Set, ev X -> Prop := fun X e => forall x s, step (Obs e x) s = s.

Lemma ofrom_ret {A} s (a : A) (Q : A -> St -> Prop) : Q a s -> ofrom s (Ret a) Q.
Proof. by intros H t b [-> ->] _. Qed.
Lemma ofrom_bind {A B} s (m : io A) (f : A -> io B) P Q :
  ofrom s m P -> (forall a s', P a s' -> ofrom s' (f a) Q) -> ofrom s (bind m f) Q.
Proof.
  intros Hm Hf t b (t1 & a & t2 & -> & H1 & H2)%exec_bind [Hl1 Hl2]%abides_app.
  rewrite observe_app. eapply Hf; eauto.
Qed.
Lemma ofrom_step {X : Set} {B} s (e : ev X) (f : X -> io B) Q :
  (forall x, law (Obs e x) s -> ofrom (step (Obs e x) s) (f x) Q) -> ofrom s (bind (call e) f) Q.
Proof. intros Hf t b (x & t2 & -> & H2) [Hx Hl]. apply (Hf x Hx _ _ H2 Hl). Qed.
Lemma ofrom_mono {A} s (m : io A) (P Q : A -> St -> Prop) : (forall a s, P a s -> Q a s) -> ofrom s m P -> ofrom s m Q.
Proof. intros H Hm t a Hx Hl. eauto. Qed.
Lemma ofrom_unseen {A} s (m : io A) : always unseen m -> ofrom s m (fun _ s' => s' = s).
Proof.
  intros Hm t a Ha _. apply (always_exec _ _ _ _ Hm) in Ha. revert s.
  induction Ha as [|[X e x] t He _ IH]; intros s; cbn; [done|]. by rewrite IH, He.
Qed.
Lemma ofrom_skip {A B} s (m : io A) (f : A -> io B) Q :
  always unseen m -> (forall a, ofrom s (f a) Q) -> ofrom s (bind m f) Q.
Proof. intros Hm Hf. eapply ofrom_bind; [by apply ofrom_unseen|]. by intros a ? ->. Qed.
Lemma ofrom_loop {T A} (Inv : T -> St -> Prop) (Q : A -> St -> Prop) n (body : T -> io (T + A)) x s :
  (forall x s, Inv x s -> ofrom s (body x) (fun r s' => match r with inl x' => Inv x' s' | inr a => Q a s' end)) ->
  Inv x s -> ofrom s (loop n body x) Q.
Proof.
  intros Hb. revert x s; induction n as [|n IH]; intros x s Hi; [by intros t a []|]. cbn [loop].
  eapply ofrom_bind; [by apply Hb|]. intros [x'|a] s' H; [by apply IH|by apply ofrom_ret].
Qed.
Lemma ofrom_fold {B T A} (Inv : list B -> T -> St -> Prop) (Q : A -> St -> Prop) (body : T -> B -> io (T + A)) l x s :
  (forall b l x s, Inv (b :: l) x s ->
     ofrom s (body x b) (fun r s' => match r with inl x' => Inv l x' s' | inr a => Q a s' end)) ->
  Inv l x s -> ofrom s (fold_io body l x) (fun r s' => match r with inl x' => Inv [] x' s' | inr a => Q a s' end).
Proof.
  intros Hb. revert x s; induction l as [|b l IH]; intros x s Hi; [by apply ofrom_ret|]. cbn [fold_io].
  eapply ofrom_bind; [by apply Hb|]. intros [x'|a] s' H; [by apply IH|by apply ofrom_ret].
Qed.
End Observer.
Arguments abides_app {St step law}.
Arguments ofrom_ret {St step law A}.
Arguments ofrom_bind {St step law A B}.
Arguments ofrom_step {St step law X B}.
Arguments ofrom_mono {St step law A}.
Arguments ofrom_skip {St step law A B}.
Arguments ofrom_unseen {St step law A}.
Arguments ofrom_loop {St step law T A}.
Arguments ofrom_fold {St step law B T A}.

(** [finishes L m]: with answers in [L], the fuel of [m] suffices *)
Definition finishes (L : obs -> Prop) {A} (m : io A) : Prop := forall t, Forall L t -> ~ runs_out m t.
Lemma finishes_ret {A} L (a : A) : finishes L (Ret a).
Proof. by intros t _ H. Qed.
Lemma finishes_call {X : Set} L (e : ev X) : finishes L (call e).
Proof. by intros t _ (x & t' & -> & []). Qed.
Lemma finishes_bind {A B} L (m : io A) (f : A -> io B) :
  finishes L m -> (forall a, finishes L (f a)) -> finishes L (bind m f).
Proof.
  intros Hm Hf t Ht [H|(t1 & a & t2 & -> & H1 & H2)]%runs_out_bind; [by apply (Hm t)|].
  apply Forall_app in Ht as [_ Ht2]. by apply (Hf a t2).
Qed.
Lemma finishes_when L b m : finishes L m -> finishes L (when b m).
Proof. intros H. destruct b; [done|apply finishes_ret]. Qed.
Lemma finishes_fold {B T A} L (body : T -> B -> io (T + A)) l s :
  (forall s b, finishes L (body s b)) -> finishes L (fold_io body l s).
Proof.
  intros Hb. revert s; induction l as [|b l IH]; intros s; [apply finishes_ret|]. cbn.
  apply finishes_bind; [done|]. intros [s'|a]; [apply IH|apply finishes_ret].
Qed.
Lemma finishes_first {B A} L (f : B -> io (option A)) l :
  (forall b, finishes L (f b)) -> finishes L (first_io f l).
Proof.
  intros Hb. induction l as [|b l IH]; [apply finishes_ret|]. cbn.
  apply finishes_bind; [done|]. intros [a|]; [apply finishes_ret|apply IH].
Qed.
(** a loop every turn of which lowers a measure *)
Lemma finishes_loop {T A} L (measure : T -> nat) fuel (body : T -> io (T + A)) s :
  (forall s, finishes L (body s)) ->
  (forall t s s', Forall L t -> exec (body s) t (inl s') -> (measure s' < measure s)%nat) ->
  (measure s < fuel)%nat -> finishes L (loop fuel body s).
Proof.
  intros Hb Hm. revert s; induction fuel as [|n IH]; intros s Hs t Ht; [lia|]. cbn [loop].
  intros [H|(t1 & [s'|a] & t2 & -> & H1 & H2)]%runs_out_bind; [by apply (Hb s t)| |done].
  apply Forall_app in Ht as [Ht1 Ht2]. pose proof (Hm _ _ _ Ht1 H1). apply (IH s') in H2; [done|lia|done].
Qed.
Ltac finishes_step :=
  match goal with
  | |- finishes _ (bind _ _) => apply finishes_bind
  | |- finishes _ (call _) => apply finishes_call
  | |- finishes _ (Do _ _) => apply (finishes_bind _ (call _))
  | |- finishes _ (when _ _) => apply finishes_when
  | |- finishes _ (fold_io _ _ _) => apply finishes_fold
  | |- finishes _ (first_io _ _) => apply finishes_first
  | |- finishes _ (Ret _) => apply finishes_ret
  | |- forall _, _ => intro
  | |- finishes _ (match ?x with _ => _ end) => destruct x eqn:?
  | |- finishes _ (let '_ := ?x in _) => destruct x eqn:?
  | |- _ => solve [auto with rufux]
  end.
Ltac finishes_tac := repeat (cbv beta zeta; finishes_step).

(** [ends L m Q]: with answers in [L], what [m] returns satisfies [Q] *)
Definition ends (L : obs -> Prop) {A} (m : io A) (Q : A -> Prop) : Prop :=
  forall t a, exec m t a -> Forall L t -> Q a.
Lemma ends_ret {A} L (a : A) (Q : A -> Prop) : Q a -> ends L (Ret a) Q.
Proof. by intros H t b [_ ->] _. Qed.
Lemma ends_bind {A B} L (m : io A) (f : A -> io B) (P : A -> Prop) Q :
  ends L m P -> (forall a, P a -> ends L (f a) Q) -> ends L (bind m f) Q.
Proof. intros Hm Hf t b (t1 & a & t2 & -> & H1 & H2)%exec_bind [Hl1 Hl2]%Forall_app. eapply Hf; eauto. Qed.
Lemma ends_step {X : Set} {B} L (e : ev X) (f : X -> io B) Q :
  (forall x, L (Obs e x) -> ends L (f x) Q) -> ends L (bind (call e) f) Q.
Proof. intros Hf t b (x & t2 & -> & H2) Hl. apply Forall_cons_1 in Hl as [Hx Hl]. exact (Hf x Hx t2 b H2 Hl). Qed.
Lemma ends_any {A B} L (m : io A) (f : A -> io B) Q : (forall a, ends L (f a) Q) -> ends L (bind m f) Q.
Proof. intros Hf. by apply (ends_bind _ _ _ (fun _ => True)). Qed.
Lemma ends_mono {A} L (m : io A) (P Q : A -> Prop) : (forall a, P a -> Q a) -> ends L m P -> ends L m Q.
Proof. intros H Hm t a Ha Ht. eauto. Qed.
Lemma ends_loop {T A} L (Inv : T -> Prop) (Q : A -> Prop) n (body : T -> io (T + A)) x :
  (forall x, Inv x -> ends L (body x) (fun r => match r with inl x' => Inv x' | inr a => Q a end)) ->
  Inv x -> ends L (loop n body x) Q.
Proof.
  intros Hb. revert x; induction n as [|n IH]; intros x Hi; [by intros t a []|]. cbn [loop].
  eapply ends_bind; [by apply Hb|]. intros [x'|a] H; [by apply IH|by apply ends_ret].
Qed.

(** one environment whose answers are in [L] *)
Lemma eval_ends {A} (E : oracle) (L : obs -> Prop) (m : io A) (Q : A -> Prop) :
  (forall X (e : ev X), L (Obs e (E X e))) -> finishes L m -> ends L m Q -> exists a, eval E m = Some a /\ Q a.
Proof.
  intros HL. revert Q; induction m as [a|X e k IH|]; intros Q Hf He; cbn.
  - exists a. split; [done|]. by apply (He [] a).
  - apply IH.
    + intros t Ht Hr. apply (Hf (Obs e (E X e) :: t)); [by constructor|]. cbn. eauto.
    + intros t a Ha Ht. apply (He (Obs e (E X e) :: t)); [cbn; eauto|by constructor].
  - by destruct (Hf [] (List.Forall_nil _)).
Qed.
