(* ===== verification/Double.v ===== *)
(** IEEE 754 doubles and libc's [strtod], as far as the JSON reader relies on
    them: correctly rounded decimal and hexadecimal conversion in a locale
    with decimal point [point], and truncation back to an integer. *)
From Corelib Require Export Floats.SpecFloat.
From S2P Require Import Prelude Cstr.

Abbreviation double := spec_float.

(** * Values *)
Definition ratio_to_double (neg : bool) (num den : positive) : double :=
  let '(q, e, l) := SFdiv_core_binary 53 1024 (Zpos num) 0 (Zpos den) 0 in
  binary_round_aux 53 1024 neg q e l.

(** [m * 10 ^ e], correctly rounded, for [m >= 0] *)
Definition dec_to_double (neg : bool) (m e : Z) : double :=
  match m with
  | Zpos p =>
      if 0 <=? e then binary_round 53 1024 neg (Z.to_pos (m * 10 ^ e)) 0
      else ratio_to_double neg p (Z.to_pos (10 ^ (- e)))
  | _ => S754_zero neg
  end.
(** [m * 2 ^ e] *)
Definition hex_to_double (neg : bool) (m e : Z) : double :=
  match m with Zpos p => binary_round 53 1024 neg p e | _ => S754_zero neg end.

(** Conversion of an integer, and back by truncation toward zero. *)
Definition Z2double (n : Z) : double := binary_normalize 53 1024 n 0 false.
Definition dtrunc (d : double) : Z :=
  match d with
  | S754_finite s m e =>
      let a := if 0 <=? e then Zpos m * 2 ^ e else Zpos m / 2 ^ (- e) in
      if s then - a else a
  | _ => 0
  end.
Definition double_zero : double := S754_zero false.
(** [d <= 0] (false for NaN) *)
Definition dle0 (d : double) : bool := SFleb d double_zero.

(** Correctly rounded division (x / 1024.0 in C). *)
Definition ddiv (x y : double) : double := SFdiv 53 1024 x y.
Definition dmul (x y : double) : double := SFmul 53 1024 x y.
Definition dge (x y : double) : bool := SFleb y x.

(** printf's "%.<n>f" for finite values: exact decimal value of the double,
    rounded half to even at [n] places. *)
Definition div_half_even (a b : Z) : Z :=
  let q := a / b in let r := a mod b in
  if 2 * r <? b then q else if b <? 2 * r then q + 1 else if Z.even q then q else q + 1.
Definition fmt_f (point : ascii) (n : nat) (d : double) : string :=
  let body (v : Z) :=
    let p := 10 ^ Z.of_nat n in
    dec (v / p) +:+ (if Nat.eqb n 0 then "" else String point (zpad n (dec (v mod p)))) in
  match d with
  | S754_zero s => (if s then "-" else "") +:+ body 0
  | S754_finite s m e =>
      let v := if 0 <=? e then Zpos m * 2 ^ e * 10 ^ Z.of_nat n
               else div_half_even (Zpos m * 10 ^ Z.of_nat n) (2 ^ (- e)) in
      (if s then "-" else "") +:+ body v
  | S754_infinity s => (if s then "-" else "") +:+ "inf"
  | S754_nan => "nan"
  end.

(** * strtod *)
Section Strtod.
Variable point : ascii.

(** The digits in [base] at the front of [s]: value, how many, rest. *)
Fixpoint scan (base : Z) (s : string) (acc : Z) (n : Z) : Z * Z * string :=
  match s with
  | "" => (acc, n, s)
  | String c t =>
      match hexval c with
      | Some d => if d <? base then scan base t (acc * base + d) (n + 1) else (acc, n, s)
      | None => (acc, n, s)
      end
  end.

(** digits, optionally with the radix character among them: the value of
    all digits, the number after the radix character, and the rest *)
Definition mantissa (base : Z) (s : string) : option (Z * Z * string) :=
  let '(a, n, r) := scan base s 0 0 in
  match r with
  | String p t =>
      if Ascii.eqb p point then
        let '(b, k, u) := scan base t a 0 in
        if n + k =? 0 then None else Some (b, k, u)
      else if n =? 0 then None else Some (a, 0, r)
  | "" => if n =? 0 then None else Some (a, 0, r)
  end.

(** The optional exponent: marker, sign, digits. *)
Definition exponent (marker : ascii) (s : string) : Z * string :=
  match s with
  | String c t =>
      if Ascii.eqb (tolower c) marker then
        let '(neg, u) :=
          match t with
          | String g v => if Ascii.eqb g "-" then (true, v) else if Ascii.eqb g "+" then (false, v) else (false, t)
          | "" => (false, t)
          end in
        let '(e, n, r) := scan 10 u 0 0 in
        if n =? 0 then (0, s) else (if neg then - e else e, r)
      else (0, s)
  | "" => (0, s)
  end.

Definition strtod_dec (neg : bool) (s : string) : option (double * string) :=
  match mantissa 10 s with
  | Some (m, k, r) => let '(e, u) := exponent "e" r in Some (dec_to_double neg m (e - k), u)
  | None => None
  end.
Definition strtod_hex (neg : bool) (s : string) : option (double * string) :=
  match mantissa 16 s with
  | Some (m, k, r) => let '(e, u) := exponent "p" r in Some (hex_to_double neg m (e - 4 * k), u)
  | None => None
  end.

(** The optional [(chars)] after "nan". *)
Definition nan_tail (s : string) : string :=
  match s with
  | String "(" t =>
      match (span (fun c => isalnum c || Ascii.eqb c "_") t).2 with
      | String ")" u => u
      | _ => s
      end
  | _ => s
  end.

(** The value and the suffix [endptr] points at; [None] when nothing converts. *)
Definition strtod (s : string) : option (double * string) :=
  let '(neg, t) := strip_sign s in
  if strncaseeq 8 t "infinity" then Some (S754_infinity neg, sdrop 8 t)
  else if strncaseeq 3 t "inf" then Some (S754_infinity neg, sdrop 3 t)
  else if strncaseeq 3 t "nan" then Some (S754_nan, nan_tail (sdrop 3 t))
  else
    match t with
    | String z (String x u) =>
        if Ascii.eqb z "0" && Ascii.eqb (tolower x) "x" then
          match strtod_hex neg u with
          | Some r => Some r
          | None => strtod_dec neg t
          end
        else strtod_dec neg t
    | _ => strtod_dec neg t
    end.
End Strtod.

Example strtod_ex1 : strtod "." "1.5e1," = Some (Z2double 15, ",").
Proof. reflexivity. Qed.
Example strtod_ex2 : strtod "." "0x1F]" = Some (Z2double 31, "]").
Proof. reflexivity. Qed.
Example strtod_ex3 : strtod "," "1,b" = Some (Z2double 1, "b").
Proof. reflexivity. Qed.
Example strtod_ex4 : strtod "." "0.1" = Some (S754_finite false 7205759403792794 (-56), "").
Proof. reflexivity. Qed.

Example fmt_f_ex : fmt_f "." 2 (ddiv (Z2double 1536) (Z2double 1024)) = "1.50".
Proof. vm_compute. reflexivity. Qed.
