(* ===== verification/Mjson.v ===== *)
(** src/src/linux/mjson.c: the bounded JSON reader used on the output of
    qemu-img and smartctl and on web replies.

    The parser's pointer is the rest of the text; [mj_parse] is the C function
    on a NUL-terminated text, with the locale's decimal point as a parameter
    because numbers go through strtod. Allocation is taken to succeed. *)
From S2P Require Import Prelude Cstr Double.

(** * Data *)
Definition MJ_MAX_DEPTH : nat := 64.
Definition MJ_MAX_TEXT : Z := 64 * 2 ^ 20.

Unset Elimination Schemes.
Inductive MJ :=
| MJ_NULL
| MJ_BOOL (b : bool)
| MJ_NUM (num : double)
| MJ_STR (str : string)
| MJ_ARR (kid : list MJ)
| MJ_OBJ (kid : list (string * MJ)).
Set Elimination Schemes.

(** Result of a parsing function: a value and the rest of the text, or the
    message of [fail]. *)
Inductive pres (A : Type) := Parsed (a : A) (rest : string) | PFail (msg : string).
Arguments Parsed {A}. Arguments PFail {A}.

(** * Lexing *)
Definition is_ws (c : ascii) : bool := one_of (String " " (String (chr 9) (String (chr 10) (String (chr 13) "")))) c.
Fixpoint skip_ws (s : string) : string :=
  match s with String c t => if is_ws c then skip_ws t else s | "" => "" end.

(** hex4: the value of four hex digits *)
Definition hex4 (a b c d : ascii) : option Z :=
  x ← hexval a; y ← hexval b; z ← hexval c; w ← hexval d;
  Some (Z.lor (Z.shiftl (Z.lor (Z.shiftl (Z.lor (Z.shiftl x 4) y) 4) z) 4) w).

Definition put_utf8 (cp : Z) : string :=
  let b z := String (chr z) "" in
  if cp <? 0x80 then b cp
  else if cp <? 0x800 then b (Z.lor 0xC0 (Z.shiftr cp 6)) +:+ b (Z.lor 0x80 (Z.land cp 0x3F))
  else if cp <? 0x10000 then
    b (Z.lor 0xE0 (Z.shiftr cp 12)) +:+ b (Z.lor 0x80 (Z.land (Z.shiftr cp 6) 0x3F)) +:+
    b (Z.lor 0x80 (Z.land cp 0x3F))
  else
    b (Z.lor 0xF0 (Z.shiftr cp 18)) +:+ b (Z.lor 0x80 (Z.land (Z.shiftr cp 12) 0x3F)) +:+
    b (Z.lor 0x80 (Z.land (Z.shiftr cp 6) 0x3F)) +:+ b (Z.lor 0x80 (Z.land cp 0x3F)).

(** The simple escapes of the switch in parse_string. *)
Definition escape_char (e : ascii) : option ascii :=
  if Ascii.eqb e dquote then Some dquote
  else if Ascii.eqb e "\" then Some ("\"%char)
  else if Ascii.eqb e "/" then Some ("/"%char)
  else if Ascii.eqb e "b" then Some (chr 8)
  else if Ascii.eqb e "f" then Some (chr 12)
  else if Ascii.eqb e "n" then Some (chr 10)
  else if Ascii.eqb e "r" then Some (chr 13)
  else if Ascii.eqb e "t" then Some (chr 9)
  else None.

(** [high_surrogate cp], and the code point of a surrogate pair *)
Definition is_high (cp : Z) : bool := (0xD800 <=? cp) && (cp <? 0xDC00).
Definition is_low (cp : Z) : bool := (0xDC00 <=? cp) && (cp <? 0xE000).
Definition surrogates (hi lo : Z) : Z := 0x10000 + Z.shiftl (hi - 0xD800) 10 + (lo - 0xDC00).
(** an embedded NUL would truncate the string *)
Definition nonul (cp : Z) : Z := if cp =? 0 then 0xFFFD else cp.

(** The low half of a surrogate pair at the front of [t], with what follows it. *)
Definition low_half (t : string) : option (Z * string) :=
  match t with
  | String bs (String u (String a (String b (String c (String d r))))) =>
      if Ascii.eqb bs "\" && Ascii.eqb u "u" then
        match hex4 a b c d with Some lo => if is_low lo then Some (lo, r) else None | None => None end
      else None
  | _ => None
  end.

(** The loop of parse_string, after the opening quote; [out] is what has been
    written so far. *)
Fixpoint string_body (s : string) (out : string) : pres string :=
  match s with
  | "" => PFail "unterminated string"
  | String c t =>
      if Ascii.eqb c dquote then Parsed out t
      else if code c <? 0x20 then PFail "control character in string"
      else if negb (Ascii.eqb c "\") then string_body t (out +:+ String c "")
      else
        match t with
        | "" => PFail "unterminated string"
        | String e t1 =>
            if Ascii.eqb e "u" then
              match t1 with
              | String h1 (String h2 (String h3 (String h4 t2))) =>
                  match hex4 h1 h2 h3 h4 with
                  | None => PFail "bad \u escape"
                  | Some cp =>
                      match t2 with
                      | String bs (String u (String l1 (String l2 (String l3 (String l4 t3))))) =>
                          match (if is_high cp then low_half t2 else None) with
                          | Some (lo, _) => string_body t3 (out +:+ put_utf8 (nonul (surrogates cp lo)))
                          | None => string_body t2 (out +:+ put_utf8 (nonul cp))
                          end
                      | _ => string_body t2 (out +:+ put_utf8 (nonul cp))
                      end
                  end
              | _ => PFail "bad \u escape"
              end
            else
              match escape_char e with
              | Some x => string_body t1 (out +:+ String x "")
              | None => PFail "bad escape"
              end
        end
  end.

(** parse_string, called at the opening quote *)
Definition parse_string (s : string) : pres string :=
  match s with String _ t => string_body t "" | "" => PFail "unterminated string" end.

(** * Values *)
Section Parser.
(** the decimal point of the process's locale, which strtod uses *)
Variable point : ascii.

(** The [for (;;)] of an object or array after its opening bracket; [value]
    parses a member one level deeper. Every turn consumes a character, so
    the length of the text is fuel enough. *)
Section Members.
Variable value : string -> pres MJ.
Variable obj : bool.

Definition close : ascii := if obj then "}" else "]".
Definition container (kids : list (string * MJ)) : MJ :=
  if obj then MJ_OBJ kids else MJ_ARR (map snd kids).

(** the member name and its colon; an array member has neither *)
Definition member_key (s : string) : pres string :=
  if obj then
    match s with
    | String q _ =>
        if Ascii.eqb q dquote then
          match parse_string s with
          | PFail e => PFail e
          | Parsed key r =>
              match skip_ws r with
              | String ":" r' => Parsed key r'
              | _ => PFail "expected ':'"
              end
          end
        else PFail "expected a member name"
    | "" => PFail "expected a member name"
    end
  else Parsed "" s.

Fixpoint members (fuel : nat) (kids : list (string * MJ)) (s : string) : pres MJ :=
  match fuel with
  | O => PFail "out of fuel"
  | S f =>
      match member_key (skip_ws s) with
      | PFail e => PFail e
      | Parsed key r =>
          match value r with
          | PFail e => PFail e
          | Parsed kid r1 =>
              let kids' := kids ++ [(key, kid)] in
              match skip_ws r1 with
              | String c r2 =>
                  if Ascii.eqb c "," then members f kids' r2
                  else if Ascii.eqb c close then Parsed (container kids') r2
                  else PFail (if obj then "expected ',' or '}'" else "expected ',' or ']'")
              | "" => PFail (if obj then "expected ',' or '}'" else "expected ',' or ']'")
              end
          end
      end
  end.
End Members.

Definition parse_number (s : string) : pres MJ :=
  match strtod point s with
  | Some (d, r) => Parsed (MJ_NUM d) r
  | None => PFail "bad number"
  end.

Definition parse_scalar (s : string) : pres MJ :=
  match s with
  | "" => PFail "unexpected end"
  | String c _ =>
      if Ascii.eqb c dquote then
        match parse_string s with Parsed x r => Parsed (MJ_STR x) r | PFail e => PFail e end
      else if starts_with "true" s then Parsed (MJ_BOOL true) (sdrop 4 s)
      else if starts_with "false" s then Parsed (MJ_BOOL false) (sdrop 5 s)
      else if starts_with "null" s then Parsed MJ_NULL (sdrop 4 s)
      else if Ascii.eqb c "-" || is_digit c then parse_number s
      else PFail "unexpected character"
  end.

(** [parse_value n]: [n] levels of nesting are left, [depth = 65 - n] *)
Fixpoint parse_value (n : nat) (s : string) : pres MJ :=
  match n with
  | O => PFail "nesting too deep"
  | S m =>
      match skip_ws s with
      | "" => PFail "unexpected end"
      | String c t =>
          if Ascii.eqb c "{" || Ascii.eqb c "[" then
            let obj := Ascii.eqb c "{" in
            match skip_ws t with
            | String k u =>
                if Ascii.eqb k (close obj) then Parsed (container obj []) u
                else members (parse_value m) obj (S (String.length t)) [] (skip_ws t)
            | "" => members (parse_value m) obj (S (String.length t)) [] (skip_ws t)
            end
          else parse_scalar (skip_ws s)
      end
  end.

Definition BOM : string := String (chr 0xEF) (String (chr 0xBB) (String (chr 0xBF) "")).
Definition skip_bom (s : string) : string := if starts_with BOM s then sdrop 3 s else s.

(** mj_parse: the document, or the text left in [err] *)
Definition mj_parse (text : option string) : MJ + string :=
  match text with
  | None => inr "JSON: no input"
  | Some s =>
      if MJ_MAX_TEXT <? strlen s then inr "JSON: document too large"
      else
        match parse_value (S MJ_MAX_DEPTH) (skip_bom s) with
        | PFail e => inr ("JSON: " +:+ e)
        | Parsed j r =>
            match skip_ws r with
            | "" => inl j
            | _ => inr "JSON: trailing data after the document"
            end
        end
  end.
End Parser.

(** * Access *)
Definition mj_type (j : option MJ) : Z :=
  match j with
  | None | Some MJ_NULL => 0 | Some (MJ_BOOL _) => 1 | Some (MJ_NUM _) => 2
  | Some (MJ_STR _) => 3 | Some (MJ_ARR _) => 4 | Some (MJ_OBJ _) => 5
  end.
Definition mj_kids (j : option MJ) : list MJ :=
  match j with Some (MJ_ARR l) => l | Some (MJ_OBJ l) => map snd l | _ => [] end.
Definition mj_len (j : option MJ) : Z := zlen (mj_kids j).
Definition mj_at (j : option MJ) (i : nat) : option MJ := mj_kids j !! i.
Definition mj_key_at (j : option MJ) (i : nat) : option string :=
  match j with Some (MJ_OBJ l) => fst <$> l !! i | _ => None end.
Definition mj_str (j : option MJ) : option string := match j with Some (MJ_STR s) => Some s | _ => None end.
Definition mj_num (j : option MJ) : double := match j with Some (MJ_NUM d) => d | _ => double_zero end.
Definition mj_bool (j : option MJ) : bool := match j with Some (MJ_BOOL b) => b | _ => false end.

(** the first member with that name *)
Fixpoint find_key (key : string) (l : list (string * MJ)) : option MJ :=
  match l with
  | [] => None
  | (k, v) :: t => if String.eqb k key then Some v else find_key key t
  end.
Definition mj_get (obj : option MJ) (key : string) : option MJ :=
  match obj with Some (MJ_OBJ l) => find_key key l | _ => None end.
Definition mj_get_str (obj : option MJ) (key def : string) : string := default def (mj_str (mj_get obj key)).
Definition mj_get_num (obj : option MJ) (key : string) (def : double) : double :=
  match mj_get obj key with Some (MJ_NUM d) => d | _ => def end.

Example parse_ex1 :
  mj_parse "." (Some (qq " {'a': [1, true ,null], 'b':'x\u0041\ud83d\ude00'} ")) =
  inl (MJ_OBJ [("a", MJ_ARR [MJ_NUM (Z2double 1); MJ_BOOL true; MJ_NULL]);
               ("b", MJ_STR ("xA" +:+ put_utf8 0x1F600))]).
Proof. vm_compute. reflexivity. Qed.
Example parse_ex2 : mj_parse "," (Some (qq "{'a': 1, 'b': 2}")) = inr "JSON: expected ',' or '}'".
Proof. vm_compute. reflexivity. Qed.
