(* ===== verification/Exec.v ===== *)
(** src/src/linux/exec.c: looking programs up on PATH, running them, and the
    transfers that retry short reads and writes. *)
From S2P Require Import Prelude Cstr Sys.

(** * PATH *)
Definition DEFAULT_PATH : string := "/usr/local/bin:/usr/bin:/bin:/usr/local/sbin:/usr/sbin:/sbin".
Definition has_slash (name : string) : bool := bool_decide (is_Some (strchr "/" name)).

(** the directories of PATH, or of the default when it is unset or empty *)
Definition path_dirs : io (list string) :=
  p <- call (Getenv "PATH") ;;
  Ret (tok_char ":" (match p with Some (String c t) => String c t | _ => DEFAULT_PATH end)).

(** [snprintf (full, sizeof full, "%s/%s", dir, name)] *)
Definition full_path (dir name : string) : string := snprintf 1024 (dir +:+ "/" +:+ name).

Definition rufux_have (name : string) : io bool :=
  if String.eqb name "" then Ret false
  else if has_slash name then call (Access name X_OK)
  else
    dirs <- path_dirs ;;
    found <- first_io (fun dir =>
      a <- call (Access (full_path dir name) X_OK) ;; Ret (if a then Some tt else None)) dirs ;;
    Ret (bool_decide (is_Some found)).

(** The error of the last execv; nothing is returned when one succeeds. *)
Definition rufux_execvp (file : string) (argv : list string) : io errno :=
  if String.eqb file "" then Ret ENOENT
  else if has_slash file then call (Execv file argv)
  else
    dirs <- path_dirs ;;
    r <- fold_io (fun err dir =>
      let full := full_path (if String.eqb dir "" then "." else dir) file in
      a <- call (Access full X_OK) ;;
      if a then e <- call (Execv full (full :: tail argv)) ;; Ret (inl e) else Ret (inl err)) dirs ENOENT ;;
    Ret (match r with inl err => err | inr err => err end).

(** * Transfers *)
Section Transfers.
Variable fuel : nat.

Definition rufux_pwrite_all (fd : Z) (buf : list byte) (off : Z) : io (cres unit) :=
  loop fuel (fun '(p, o) =>
    match p with
    | [] => Ret (inr (Ok tt))
    | _ =>
        w <- call (Pwrite fd p o) ;;
        match w with
        | inl EINTR => Ret (inl (p, o))
        | inl _ => Ret (inr (Fail ""))
        | inr w => if w <=? 0 then Ret (inr (Fail "")) else Ret (inl (zdrop w p, o + w))
        end
    end) (buf, off).

(** [inl e] is the return value -1 with errno [e] *)
Definition rufux_read_full (fd n : Z) : io (errno + list byte) :=
  loop fuel (fun got =>
    if zlen got <? n then
      r <- call (Read fd (n - zlen got)) ;;
      match r with
      | inl EINTR => Ret (inl got)
      | inl e => Ret (inr (inl e))
      | inr [] => Ret (inr (inr got))
      | inr l => Ret (inl (got ++ l))
      end
    else Ret (inr (inr got))) [].

(** The body of rufux_capture's read loop: [out] keeps at most [cap - 1] bytes. *)
Definition capture_add (cap : Z) (out chunk : list byte) : list byte :=
  let n := zlen out in
  if n <? cap - 1 then
    let take := if cap <=? n + zlen chunk then cap - 1 - n else zlen chunk in
    out ++ ztake take chunk
  else out.

Definition rufux_capture (av : list string) (cap : Z) : io (bool * string) :=
  if cap =? 0 then Ret (false, "")
  else
    p <- call (PipeSpawn av) ;;
    match p with
    | None => Ret (false, "")
    | Some h =>
        out <- loop fuel (fun out =>
          chunk <- call (PipeRead h 512) ;;
          match chunk with
          | [] => Ret (inr out)
          | _ => Ret (inl (capture_add cap out chunk))
          end) [] ;;
        st <- call (Waitpid h) ;;
        Ret (exited_ok st, cstr_of_bytes out)
    end.
End Transfers.

(** Directory of the running executable, "" when it cannot be told. *)
Definition rufux_exe_dir : io string :=
  l <- call (Readlink "/proc/self/exe") ;;
  Ret (match l with
       | None | Some "" => ""
       | Some p =>
           let p := stake 1023 p in
           match strrchr "/" p with Some s => before p s | None => "" end
       end).

(** * Running *)
Definition shown (argv : list string) : string :=
  "+" +:+ String.concat "" (map (fun a => " " +:+ a) argv) +:+ LF.
(** [true] is the C function's 0 *)
Definition rufux_run (argv : list string) (dry_run : bool) : io bool :=
  call (Stderr (shown argv)) ;;;
  if dry_run then Ret true
  else st <- call (Spawn argv None) ;; Ret (exited_ok st).
