(* ===== verification/ExecSpec.v ===== *)
(** What the helpers of exec.c promise: rufux_have answers as rufux_execvp
    would act, transfers move every byte in order however the kernel splits
    them, and captured output is cut to the caller's buffer. *)
From S2P Require Import Prelude Cstr Sys Exec.

(** An environment without state, as a handler. *)
Definition stateless (E : oracle) : handler unit := fun X e w => (E X e, w).
Definition execv_of (o : obs) : list string :=
  match o with Obs e _ => match e with Execv p _ => [p] | _ => [] end end.
Definition execs (t : list obs) : list string := concat (map execv_of t).

Lemma execs_app t u : execs (t ++ u) = execs t ++ execs u.
Proof. unfold execs. by rewrite map_app, concat_app. Qed.
Lemma eval_run E {A} (m : io A) r t w : run (stateless E) m tt = (r, t, w) -> eval E m = r.
Proof.
  revert t w; induction m as [a|X e k IH|]; intros t w; cbn; [by intros [= <- _ _]| |by intros [= <- _ _]].
  destruct (run _ _ _) as [[r' t'] w'] eqn:H. intros [= <- _ _]. by eapply IH.
Qed.

(** The search of rufux_execvp and of rufux_have over one list of directories. *)
Lemma search_agree E name argv dirs err r t w :
  Forall (fun d => d <> "") dirs ->
  run (stateless E) (fold_io (fun err dir =>
      let full := full_path (if String.eqb dir "" then "." else dir) name in
      a <- call (Access full X_OK) ;;
      if a then e <- call (Execv full (full :: tail argv)) ;; Ret (inl e) else Ret (@inl errno errno err)) dirs err) tt
    = (r, t, w) ->
  (exists x, eval E (first_io (fun dir =>
      a <- call (Access (full_path dir name) X_OK) ;; Ret (if a then Some tt else None)) dirs) = Some x /\
    (is_Some x <-> execs t <> [])) /\
  Forall (fun p => E _ (Access p X_OK) = true) (execs t).
Proof.
  intros Hd. revert err r t w; induction Hd as [|d dirs Hd _ IH]; intros err r t w.
  { cbn. intros [= <- <- _]. split; [exists None; split; [done|split; by intros []]|constructor]. }
  cbn [fold_io first_io]. rewrite (proj2 (String.eqb_neq d "") Hd). cbn -[full_path].
  destruct (E bool (Access (full_path d name) X_OK)) eqn:Ea; cbn -[full_path].
  - destruct (run _ _ _) as [[r' t'] w'] eqn:H. intros [= <- <- _]. apply IH in H as [_ H].
    split; [exists (Some tt); split; [done|split; [|by eauto]]; by cbn|]. by constructor.
  - destruct (run _ _ _) as [[r' t'] w'] eqn:H. intros [= <- <- _]. cbn. by apply IH in H.
Qed.

(** rufux_have answers yes exactly when rufux_execvp, in the same
    environment, finds something to execute; everything it tries is executable. *)
Theorem rufux_have_execvp E name argv r t w :
  has_slash name = false ->
  run (stateless E) (rufux_execvp name argv) tt = (r, t, w) ->
  eval E (rufux_have name) = Some (bool_decide (execs t <> [])) /\
  Forall (fun p => E _ (Access p X_OK) = true) (execs t).
Proof.
  intros Hs. unfold rufux_execvp, rufux_have. rewrite Hs.
  destruct (String.eqb name "") eqn:He; [by intros [= <- <- _]|].
  rewrite run_bind, eval_bind.
  assert (exists ds, eval E path_dirs = Some (tok_char ":" ds) /\
    run (stateless E) path_dirs tt = (Some (tok_char ":" ds), [Obs (Getenv "PATH") (E _ (Getenv "PATH"))], tt))
    as (ds & -> & ->) by (eexists; split; reflexivity).
  set (dirs := tok_char ":" ds). rewrite run_bind, eval_bind.
  assert (Hd : Forall (fun d => d <> "") dirs).
  { unfold dirs, tok_char. eapply Forall_impl; [|apply tokens_ok]. by intros d []. }
  destruct (run _ _ _) as [[r1 t1] w1] eqn:H.
  apply search_agree in H as [(x & Hx & Hi) Ht]; [|done]. rewrite Hx. cbn [eval].
  assert (Hb : bool_decide (is_Some x) = bool_decide (execs t1 <> [])) by by apply bool_decide_ext.
  destruct r1 as [a|]; cbn [run]; intros [= <- <- _]; rewrite ?app_nil_r; cbn; by rewrite ?Hb.
Qed.
Lemma rufux_have_execvp_witness :
  let E : oracle := fun X e => match e in ev X return X with
    | Getenv _ => Some "/opt:/bin" | Access p _ => String.eqb p "/bin/dd" | Execv _ _ => ENOENT
    | e => default_answer e end in
  eval E (rufux_have "dd") = Some true.
Proof.
  intros E. destruct (run (stateless E) (rufux_execvp "dd" ["dd"]) tt) as [[r t] w] eqn:H.
  destruct (rufux_have_execvp E "dd" ["dd"] r t w eq_refl H) as [Ha _]. rewrite Ha.
  vm_compute in H. injection H as <- <- _. reflexivity.
Defined.

(** * Transfers *)

(** The file region a sequence of pwrites fills: every accepted write must start
    where the previous one ended. *)
Definition pwrite_step (fd : Z) (acc : option (Z * list byte)) (o : obs) : option (Z * list byte) :=
  match o with
  | Obs e x =>
      match e in ev X return X -> option (Z * list byte) with
      | Pwrite fd' b off => fun x =>
          match x, acc with
          | inr w, Some (pos, out) =>
              if w <=? 0 then acc
              else if (fd' =? fd) && (off =? pos) then Some (pos + w, out ++ ztake w b) else None
          | inl _, _ => acc
          | _, None => None
          end
      | _ => fun _ => None
      end x
  end.
Definition pwritten (fd off : Z) (t : list obs) : option (Z * list byte) :=
  fold_left (pwrite_step fd) t (Some (off, [])).
Lemma pwritten_snoc fd off t o : pwritten fd off (t ++ [o]) = pwrite_step fd (pwritten fd off t) o.
Proof. unfold pwritten. by rewrite fold_left_app. Qed.

(** On success rufux_pwrite_all has stored the whole buffer, contiguously
    from the given offset, however the kernel split or interrupted the writes;
    on failure what it stored is a prefix of the buffer. *)
Theorem rufux_pwrite_all_correct fuel fd buf off t r :
  exec (rufux_pwrite_all fuel fd buf off) t r -> Forall posix t ->
  exists out rest, pwritten fd off t = Some (off + zlen out, out) /\ buf = out ++ rest /\
    (r = Ok tt -> rest = []).
Proof.
  revert t r. refine (exec_wp _ _ _). unfold rufux_pwrite_all.
  refine (wp_loop _ _ (fun t '(p, o) => Forall posix t ->
    exists out, pwritten fd off t = Some (o, out) /\ buf = out ++ p /\ o = off + zlen out)
    (fun t r => Forall posix t -> exists out rest, pwritten fd off t = Some (off + zlen out, out) /\
      buf = out ++ rest /\ (r = Ok tt -> rest = [])) [] _ _ _).
  { intros _. exists []. rewrite zlen_nil, Z.add_0_r. done. }
  intros t [p o] HI. destruct p as [|b p].
  { cbn. rewrite app_nil_r. intros Hp. destruct (HI Hp) as (out & -> & -> & ->). exists out, []. done. }
  set (l := b :: p) in *. change (match l with [] => _ | _ => _ end) with
    (w <- call (Pwrite fd l o) ;; match w with inl EINTR => Ret (inl (l, o)) | inl _ => Ret (inr (Fail ""))
      | inr w => if w <=? 0 then Ret (inr (Fail "")) else Ret (inl (zdrop w l, o + w)) end).
  cbn -[zdrop]. intros x.
  assert (Hstep : Forall posix (t ++ [Obs (Pwrite fd l o) x]) -> exists out,
    pwritten fd off t = Some (o, out) /\ buf = out ++ l /\ o = off + zlen out).
  { intros [Hp _]%Forall_app. by apply HI. }
  destruct x as [[]|w].
  1: { cbn. intros Hp. destruct (Hstep Hp) as (out & H & ? & ?). exists out. by rewrite pwritten_snoc, H. }
  1-8: cbn; intros Hp; destruct (Hstep Hp) as (out & H & -> & ->); exists out, l; by rewrite pwritten_snoc, H.
  destruct (Z.leb_spec w 0) as [Hw|Hw]; cbn -[zdrop]; intros Hp.
  - destruct (Hstep Hp) as (out & H & -> & ->). exists out, l. rewrite pwritten_snoc, H. cbn.
    by rewrite (proj2 (Z.leb_le w 0)).
  - destruct (Hstep Hp) as (out & H & -> & ->). exists (out ++ ztake w l).
    apply Forall_app in Hp as [_ Hp]. apply Forall_inv in Hp. change (0 <= w <= zlen l) in Hp.
    rewrite pwritten_snoc, H. cbn. rewrite (proj2 (Z.leb_gt w 0)), !Z.eqb_refl by lia. cbn.
    rewrite <- app_assoc, ztake_zdrop, zlen_app, zlen_ztake by lia.
    rewrite Z.min_l by lia. split_and!; [done|done|lia].
Qed.
Lemma rufux_pwrite_all_correct_witness :
  let b := bytes_of_string "abc" in
  let t := [Obs (Pwrite 5 b 10) (inr 1); Obs (Pwrite 5 (zdrop 1 b) 11) (inl EINTR);
            Obs (Pwrite 5 (zdrop 1 b) 11) (inr 2)] in
  exists out rest, pwritten 5 10 t = Some (10 + zlen out, out) /\ b = out ++ rest /\ (Ok tt = Ok tt -> rest = []).
Proof.
  intros b t. apply (rufux_pwrite_all_correct 9 5 b 10 t (Ok tt)).
  - exec_tac.
  - posix_tac.
Defined.

(** The read loop alone gives the bytes read, and stops short only at the end
    of the file. *)
Definition eof_last (t : list obs) (fd : Z) : Prop :=
  exists t' n, t = t' ++ [Obs (Read fd n) (inr [])].

(** rufux_read_full returns every byte the kernel delivered, in order, never
    more than asked; fewer only when the file ended. *)
Theorem rufux_read_full_correct fuel fd n t got :
  0 <= n -> exec (rufux_read_full fuel fd n) t (inr got) -> Forall posix t ->
  got = reads fd t /\ zlen got <= n /\ (zlen got < n -> eof_last t fd).
Proof.
  intros Hn. revert t got.
  enough (H : forall t r, exec (rufux_read_full fuel fd n) t r -> Forall posix t ->
    match r with inr got => got = reads fd t /\ zlen got <= n /\ (zlen got < n -> eof_last t fd) | inl _ => True end)
    by (intros t got He; exact (H t _ He)).
  refine (exec_wp _ _ _). unfold rufux_read_full.
  refine (wp_loop _ _ (fun t got => Forall posix t -> got = reads fd t /\ zlen got <= n)
    (fun t r => Forall posix t -> match r with
      | inr got => got = reads fd t /\ zlen got <= n /\ (zlen got < n -> eof_last t fd) | inl _ => True end)
    [] _ _ _); [done|].
  intros t got HI. destruct (Z.ltb_spec (zlen got) n) as [Hl|Hl]; cbn.
  2: { rewrite app_nil_r. intros Hp. destruct (HI Hp) as [-> ?]. repeat split; [done|]. lia. }
  intros [[]|l]; cbn; [|done..|].
  - intros [Hp _]%Forall_app. destruct (HI Hp) as [-> ?]. by rewrite reads_app, app_nil_r.
  - destruct l as [|b l]; cbn.
    + intros [Hp _]%Forall_app. destruct (HI Hp) as [-> ?]. rewrite reads_app. cbn.
      rewrite Z.eqb_refl. cbn. rewrite app_nil_r. repeat split; [done|]. intros _. by exists t, (n - zlen (reads fd t)).
    + intros [Hp Hx%Forall_inv]%Forall_app. destruct (HI Hp) as [-> ?]. cbn in Hx. rewrite reads_app. cbn.
      rewrite Z.eqb_refl, app_nil_r, zlen_app. split; [done|lia].
Qed.
Lemma rufux_read_full_correct_witness :
  let b := bytes_of_string "ab" in let t := [Obs (Read 3 4) (inr b); Obs (Read 3 2) (inl EINTR); Obs (Read 3 2) (inr [])] in
  b = reads 3 t /\ zlen b <= 4 /\ (zlen b < 4 -> eof_last t 3).
Proof.
  intros b t. apply (rufux_read_full_correct 9 3 4 t b); [lia| |].
  - exec_tac.
  - posix_tac.
Defined.

Lemma read_full_turn fd n s s' t :
  exec (if zlen s <? n then r <- call (Read fd (n - zlen s)) ;;
      match r with
      | inl EINTR => Ret (inl s) | inl e => Ret (inr (inl e))
      | inr [] => Ret (inr (inr s)) | inr l => Ret (inl (s ++ l)) end
    else Ret (inr (@inr errno _ s))) t (inl s') ->
  (Z.to_nat (n - zlen s') < Z.to_nat (n - zlen s) + interrupts t)%nat.
Proof.
  destruct (Z.ltb_spec (zlen s) n); cbn; [|by intros []].
  intros (x & t' & -> & He). destruct x as [[]|[|b l]]; cbn in He; destruct He as [-> He]; simplify_eq; cbn.
  - lia.
  - rewrite zlen_app, zlen_cons. pose proof (zlen_nonneg l). lia.
Qed.

(** rufux_read_full terminates: with fuel for each byte asked for plus
    each interrupted call, the loop is never cut short. *)
Theorem rufux_read_full_terminates fuel fd n t :
  runs_out (rufux_read_full fuel fd n) t -> (fuel <= Z.to_nat n + interrupts t)%nat.
Proof.
  intros H. eapply (loop_runs_out (fun got => Z.to_nat (n - zlen got)) interrupts) in H.
  - by rewrite zlen_nil, Z.sub_0_r in H.
  - apply interrupts_app.
  - intros s u. destruct (_ <? _); cbn; [|tauto]. by intros ([[]|[|]] & ? & _ & ?).
  - intros s s' u. apply read_full_turn.
Qed.
Lemma rufux_read_full_terminates_witness :
  (1 <= Z.to_nat 0 + interrupts [Obs (Read 3 1) (inl EINTR)])%nat \/
  (2 <= Z.to_nat 1 + interrupts [Obs (Read 3 1) (inl EINTR); Obs (Read 3 1) (inl EINTR)])%nat.
Proof.
  right. apply (rufux_read_full_terminates 2 3 1).
  exec_tac.
Defined.

(** * Captured output *)
Lemma capture_add_spec cap all chunk :
  0 < cap -> capture_add cap (ztake (cap - 1) all) chunk = ztake (cap - 1) (all ++ chunk).
Proof.
  intros Hc. unfold capture_add. rewrite zlen_ztake, ztake_app by lia.
  destruct (Z.ltb_spec (Z.min (cap - 1) (zlen all)) (cap - 1)) as [H|H].
  - f_equal. rewrite Z.min_r by lia.
    destruct (Z.leb_spec cap (zlen all + zlen chunk)); [done|]. by rewrite !ztake_all by lia.
  - by rewrite (ztake_neg _ chunk), app_nil_r by lia.
Qed.

(** Rufux_capture hands back the first [cap - 1] bytes of everything the
    child printed, draining the pipe to its end before it reaps the child, so
    the buffer never overflows and the child is never left blocked. *)
Theorem rufux_capture_correct fuel av cap t ok out :
  0 < cap -> exec (rufux_capture fuel av cap) t (ok, out) ->
  (t = [Obs (PipeSpawn av) None] /\ ok = false /\ out = "") \/
  exists h t' st, t = Obs (PipeSpawn av) (Some h) :: t' ++ [Obs (PipeRead h 512) []; Obs (Waitpid h) st] /\
    out = cstr_of_bytes (ztake (cap - 1) (pipes h t')) /\ ok = exited_ok st.
Proof.
  intros Hc. unfold rufux_capture. rewrite (proj2 (Z.eqb_neq cap 0)) by lia.
  intros (x & u & -> & He). destruct x as [h|]; cbn in He; [right|left; destruct He as [-> ?]; by simplify_eq].
  apply exec_bind in He as (t1 & got & t2 & -> & Hl & He).
  assert (Hg : exists t', t1 = t' ++ [Obs (PipeRead h 512) []] /\ got = ztake (cap - 1) (pipes h t')).
  { clear He. revert t1 got Hl. refine (exec_wp _ _ _).
    refine (wp_loop _ _ (fun t got => got = ztake (cap - 1) (pipes h t))
      (fun t got => exists t', t = t' ++ [Obs (PipeRead h 512) []] /\ got = ztake (cap - 1) (pipes h t')) [] _ _ _).
    { unfold pipes, ztake. cbn. by rewrite take_nil. }
    intros t got ->. cbn. intros [|b l]; cbn; [by exists t|].
    rewrite capture_add_spec, pipes_app by done. cbn. by rewrite Z.eqb_refl, app_nil_r. }
  destruct Hg as (t' & -> & ->). cbn in He. destruct He as (st & u & -> & -> & He). simplify_eq.
  exists h, t', st. by rewrite <- app_assoc.
Qed.
Lemma rufux_capture_correct_witness :
  let b := bytes_of_string "hello" in let av := ["qemu-img"; "info"] in
  let t := [Obs (PipeSpawn av) (Some 7); Obs (PipeRead 7 512) b; Obs (PipeRead 7 512) []; Obs (Waitpid 7) (Exited 0)] in
  (t = [Obs (PipeSpawn av) None] /\ true = false /\ "hel" = "") \/
  exists h t' st, t = Obs (PipeSpawn av) (Some h) :: t' ++ [Obs (PipeRead h 512) []; Obs (Waitpid h) st] /\
    "hel" = cstr_of_bytes (ztake (4 - 1) (pipes h t')) /\ true = exited_ok st.
Proof.
  intros b av t. apply (rufux_capture_correct 9 av 4 t true "hel"); [lia|].
  exec_tac.
Defined.
