(* ===== verification/Device.v ===== *)
(** src/src/linux/device.c: the list of disks and the guard every destructive
    operation passes its target through.

    sysfs and /proc are read through [ReadText], a directory through [Opendir];
    [point] is the locale's decimal point (rufux_human_size prints a double). *)
From S2P Require Import Prelude Cstr Double Sys.

(** * Data *)
Record RufuxDevice := Device_ {
  sysname : string; devnode : string; vendor : string; model : string; serial : string;
  transport : string; size_bytes : Z; removable : bool; is_usb : bool; mounted : bool }.

(** * Reading sysfs *)

(** 0 and the first line without its end, or -1 *)
Definition read_first_line (path : string) (cap : nat) : io (option string) :=
  t <- call (ReadText path) ;;
  Ret (match t with
       | Some (String c s) => Some (chomp (stake (cap - 1) (String c s)))
       | _ => None
       end).

(** the paths, printed into char p[256] *)
Definition sys_path (name leaf : string) : string := snprintf 256 ("/sys/block/" +:+ name +:+ "/" +:+ leaf).

Definition dev_size_bytes (sys node : string) : io Z :=
  fd <- call (Open node O_RDONLY_NB) ;;
  b <- match fd with
       | inr fd =>
           b <- call (GetSize64 fd) ;; call (Close fd) ;;;
           Ret (match b with Some b => if 0 <? b then Some b else None | None => None end)
       | inl _ => Ret None
       end ;;
  match b with
  | Some b => Ret b
  | None =>
      l <- read_first_line (sys_path sys "size") 64 ;;
      Ret (match l with Some buf => (strtoul10 buf * 512) mod 2 ^ 64 | None => 0 end)
  end.

(** whether a line of /proc/mounts starts with /dev/<sys> *)
Definition dev_is_mounted (sys : string) : io bool :=
  t <- call (ReadText "/proc/mounts") ;;
  Ret (match t with
       | None => false
       | Some text => existsb (starts_with (snprintf 96 ("/dev/" +:+ sys))) (fgets_all 1024 text)
       end).

Definition detect_transport (sys : string) (rem : bool) : io string :=
  if starts_with "nvme" sys then Ret "nvme"
  else if starts_with "mmcblk" sys then Ret "mmc"
  else if starts_with "vd" sys then Ret "virt"
  else
    l <- call (Readlink (sys_path sys "device")) ;;
    let target := match l with Some t => stake 511 t | None => "" end in
    if contains "usb" target then Ret "usb"
    else if contains "ata" target || contains "sata" target then Ret "sata"
    else if rem then Ret "usb"
    else read_first_line (sys_path sys "queue/rotational") 128 ;;; Ret "unknown".

Definition blank_unprintable (s : string) : string := smap (fun c => if isprint c then c else " "%char) s.

(** * The list of disks *)
Definition dot_name (n : string) : bool := starts_with "." n.
Definition virtual_name (n : string) : bool :=
  starts_with "loop" n || starts_with "ram" n || starts_with "dm-" n || starts_with "zram" n.

(** One turn of the readdir loop: the entry's record, or [None] where the C
    code continues without counting it. *)
Definition list_entry (include_fixed : bool) (name : string) : io (option RufuxDevice) :=
  if dot_name name || virtual_name name then Ret None
  else
    r <- read_first_line (sys_path name "removable") 128 ;;
    match r with
    | None => Ret None
    | Some buf =>
        let rem := starts_with "1" buf in
        if negb rem && negb include_fixed then Ret None
        else
          ven <- read_first_line (sys_path name "device/vendor") 128 ;;
          mdl <- read_first_line (sys_path name "device/model") 128 ;;
          ser <- read_first_line (sys_path name "device/serial") 128 ;;
          ser <- match ser with
                 | Some s => Ret (Some s)
                 | None => read_first_line (sys_path name "serial") 128
                 end ;;
          l <- call (Readlink (sys_path name "device")) ;;
          let usb := match l with Some t => contains "usb" (stake 511 t) | None => false end in
          tr <- detect_transport name rem ;;
          mnt <- dev_is_mounted name ;;
          sz <- dev_size_bytes (snprintf 64 name) (snprintf 128 ("/dev/" +:+ name)) ;;
          if sz =? 0 then Ret None
          else Ret (Some {|
            sysname := snprintf 64 name; devnode := snprintf 128 ("/dev/" +:+ name);
            vendor := blank_unprintable (default "" ven); model := blank_unprintable (default "" mdl);
            serial := default "" ser; transport := snprintf 32 tr; size_bytes := sz;
            removable := rem; is_usb := usb; mounted := mnt |})
    end.

(** [while ((e = readdir (d)) && n < max)] over the names of /sys/block *)
Fixpoint list_loop (max : Z) (include_fixed : bool) (names : list string) (out : list RufuxDevice)
    : io (list RufuxDevice) :=
  match names with
  | [] => Ret out
  | name :: rest =>
      if zlen out <? max then
        d <- list_entry include_fixed name ;;
        list_loop max include_fixed rest (match d with Some d => out ++ [d] | None => out end)
      else Ret out
  end.

(** [None] is the return value -1 *)
Definition rufux_list_devices (max : Z) (include_fixed : bool) : io (option (list RufuxDevice)) :=
  d <- call (Opendir "/sys/block") ;;
  match d with
  | None => Ret None
  | Some names => l <- list_loop max include_fixed names [] ;; Ret (Some l)
  end.

(** * Printing *)
Definition UNITS : list string := ["B"; "KB"; "MB"; "GB"; "TB"].
Fixpoint scale_down (n : nat) (v : double) (i : nat) : double * nat :=
  match n with
  | O => (v, i)
  | S m => if dge v (Z2double 1024) then scale_down m (ddiv v (Z2double 1024)) (S i) else (v, i)
  end.
Definition rufux_human_size (point : ascii) (bytes : Z) : string :=
  let '(v, i) := scale_down 4 (Z2double bytes) 0 in
  fmt_f point 2 v +:+ " " +:+ default "" (UNITS !! i).

Definition yes_no (b : bool) : string := if b then "yes" else "no".
Definition print_device (point : ascii) (d : RufuxDevice) : string :=
  padr 10 (devnode d) +:+ " " +:+ padr 8 (sysname d) +:+ " " +:+
  padl 10 (snprintf 32 (rufux_human_size point (size_bytes d))) +:+ "  " +:+
  padr 6 (yes_no (is_usb d)) +:+ " " +:+ padr 7 (yes_no (mounted d)) +:+ " " +:+
  vendor d +:+ " " +:+ model d +:+ " [" +:+ transport d +:+ "]" +:+ LF.
Definition rufux_print_devices (point : ascii) (devs : list RufuxDevice) : string :=
  padr 10 "NODE" +:+ " " +:+ padr 8 "SYS" +:+ " " +:+ padl 10 "SIZE" +:+ "  " +:+
  padr 6 "USB" +:+ " " +:+ padr 7 "MOUNTED" +:+ " MODEL" +:+ LF +:+
  String.concat "" (map (print_device point) devs).

(** device.c's json_escape *)
Fixpoint json_escape (s : string) : string :=
  match s with
  | "" => ""
  | String c t =>
      if Ascii.eqb c dquote || Ascii.eqb c "\" then String "\" (String c (json_escape t))
      else String c (json_escape t)
  end.
Definition json_bool (b : bool) : string := if b then "true" else "false".
Definition json_device (d : RufuxDevice) : string :=
  qq "{'node':'" +:+ devnode d +:+ qq "','sys':'" +:+ sysname d +:+ qq "','size_bytes':" +:+
  dec (size_bytes d) +:+ qq ",'removable':" +:+ json_bool (removable d) +:+
  qq ",'usb':" +:+ json_bool (is_usb d) +:+ qq ",'mounted':" +:+ json_bool (mounted d) +:+
  qq ",'transport':'" +:+ transport d +:+ qq "','vendor':'" +:+ json_escape (vendor d) +:+
  qq "','model':'" +:+ json_escape (model d) +:+ qq "','serial':'" +:+ json_escape (serial d) +:+ qq "'}".
Fixpoint json_lines (devs : list RufuxDevice) : string :=
  match devs with
  | [] => ""
  | d :: rest =>
      "  " +:+ json_device d +:+ (match rest with [] => "" | _ => "," end) +:+ LF +:+ json_lines rest
  end.
Definition rufux_print_devices_json (devs : list RufuxDevice) : string := "[" +:+ LF +:+ json_lines devs +:+ "]" +:+ LF.

(** * The guard *)

(** The longest entry of /sys/block that is a prefix of [base]. *)
Fixpoint best_match (base : string) (names : list string) (best : Z) (disk : string) : string :=
  match names with
  | [] => disk
  | n :: rest =>
      if negb (dot_name n) && starts_with n base && (best <? strlen n)
      then best_match base rest (strlen n) (snprintf 64 n)
      else best_match base rest best disk
  end.

Definition disk_of (path : string) (entries : option (list string)) : string :=
  match entries with Some names => best_match (basename path) names 0 "" | None => "" end.

Definition rufux_check_target (path : string) (allow_fixed allow_file : bool) : io (cres unit) :=
  st <- call (Stat path) ;;
  match st with
  | None => fail ("target '" +:+ path +:+ "' does not exist")
  | Some _ =>
      if is_kind KReg st then
        if allow_file then ok tt
        else fail ("target '" +:+ path +:+ "' is a regular file (need --allow-file for tests)")
      else if negb (is_kind KBlk st) then fail ("target '" +:+ path +:+ "' is not a block device or file")
      else
        d <- call (Opendir "/sys/block") ;;
        let disk := disk_of path d in
        if String.eqb disk "" then fail ("cannot map '" +:+ path +:+ "' to a disk")
        else
          r <- read_first_line (sys_path disk "removable") 64 ;;
          match r with
          | None => fail ("cannot read removable flag for '" +:+ disk +:+ "'")
          | Some buf =>
              if negb (starts_with "1" buf) && negb allow_fixed
              then fail ("refusing fixed disk '" +:+ path +:+ "' without --allow-fixed")
              else
                m <- dev_is_mounted disk ;;
                if m then fail ("refusing mounted disk '" +:+ disk +:+ "' (unmount first)")
                else
                  sz <- dev_size_bytes disk path ;;
                  if sz =? 0 then
                    fail ("'" +:+ path +:+ "' reports a capacity of 0 bytes: an empty card-reader slot, or a drive the "
                          +:+ "kernel cannot read. Replug it or choose another entry.")
                  else ok tt
          end
  end.
