(* ===== verification/DeviceSpec.v ===== *)
(** What device.c promises: the target guard lets through only what it says,
    the list holds no unusable disk, and the JSON listing is JSON. *)
From S2P Require Import Prelude Cstr Double Sys Mjson MjsonSpec Device.

(** * Reading is all the guard and the list do *)
Lemma read_first_line_harmless p n : always harmless (read_first_line p n).
Proof. unfold read_first_line. always_tac. reflexivity. Qed.
Lemma dev_size_bytes_harmless s n : always harmless (dev_size_bytes s n).
Proof.
  unfold dev_size_bytes. pose proof read_first_line_harmless.
  always_tac; try reflexivity. all: auto.
Qed.
Lemma dev_is_mounted_harmless s : always harmless (dev_is_mounted s).
Proof. unfold dev_is_mounted. always_tac. reflexivity. Qed.
#[export] Hint Resolve read_first_line_harmless dev_size_bytes_harmless dev_is_mounted_harmless : rufux.
#[export] Hint Extern 1 (harmless _ _) => reflexivity : rufux.

Lemma rufux_check_target_harmless p a f : always harmless (rufux_check_target p a f).
Proof. unfold rufux_check_target. always_tac. Qed.
#[export] Hint Resolve rufux_check_target_harmless : rufux.

(** * The guard *)
Section Guard.
Variable E : oracle.

(** The facts of the environment the guard is about. *)
Definition entries : list string := default [] (E _ (Opendir "/sys/block")).
Definition mounts : list string :=
  match E _ (ReadText "/proc/mounts") with Some t => fgets_all 1024 t | None => [] end.
(** [name] is the longest disk whose name starts that of [path]. *)
Definition whole_disk (path name : string) : Prop :=
  name ∈ entries /\ dot_name name = false /\ starts_with name (basename path) = true /\ name <> "" /\
  forall n, n ∈ entries -> dot_name n = false -> starts_with n (basename path) = true -> strlen n <= strlen name.
Definition removable_flag (disk : string) : Prop :=
  exists s, E _ (ReadText (sys_path disk "removable")) = Some (String "1" s).
Definition unmounted (disk : string) : Prop :=
  forall line, line ∈ mounts -> starts_with (snprintf 96 ("/dev/" +:+ disk)) line = false.

Lemma best_match_spec base names best disk :
  (best_match base names best disk = disk /\
    (forall n, n ∈ names -> dot_name n = false -> starts_with n base = true -> strlen n <= best)) \/
  exists name, best_match base names best disk = snprintf 64 name /\ name ∈ names /\ dot_name name = false /\
    starts_with name base = true /\ best < strlen name /\
    forall n, n ∈ names -> dot_name n = false -> starts_with n base = true -> strlen n <= strlen name.
Proof.
  revert best disk; induction names as [|n rest IH]; intros best disk; cbn [best_match].
  { left. split; [done|]. intros n Hn. by apply not_elem_of_nil in Hn. }
  destruct (negb (dot_name n) && starts_with n base && (best <? strlen n)) eqn:Hc.
  - apply andb_true_iff in Hc as [Hc Hb%Z.ltb_lt]. apply andb_true_iff in Hc as [Hd%negb_true_iff Hs]. right.
    destruct (IH (strlen n) (snprintf 64 n)) as [[-> Hm]|(name & -> & Hin & Hd' & Hs' & Hl & Hm)].
    + exists n. split_and!; try done; [by left|].
      intros m Hm1 ? ?. apply elem_of_cons in Hm1 as [->|]; [lia|auto].
    + exists name. split_and!; try done; [by right|lia|].
      intros m Hm1 ? ?. apply elem_of_cons in Hm1 as [->|]; [lia|auto].
  - assert (Hn : dot_name n = false -> starts_with n base = true -> strlen n <= best).
    { intros Hd Hs. rewrite Hd, Hs in Hc. cbn in Hc. by apply Z.ltb_ge in Hc. }
    destruct (IH best disk) as [[-> Hm]|(name & -> & Hin & Hd' & Hs' & Hl & Hm)]; [left|right].
    + split; [done|]. intros m Hm1 ? ?. apply elem_of_cons in Hm1 as [->|]; auto.
    + exists name. split_and!; try done; [by right|].
      intros m Hm1 ? ?. apply elem_of_cons in Hm1 as [->|]; [specialize (Hn ltac:(done) ltac:(done)); lia|auto].
Qed.

Lemma eval_first_line p n :
  eval E (read_first_line p n) =
  Some (match E _ (ReadText p) with Some (String c s) => Some (chomp (stake (n - 1) (String c s))) | _ => None end).
Proof. reflexivity. Qed.
Lemma chomp_first c s : starts_with "1" (chomp (String c s)) = true -> c = "1"%char.
Proof.
  unfold chomp. cbn [span]. destruct (negb (is_eol c)); [|done]. destruct (span _ s). cbn [fst starts_with].
  by intros [<-%Ascii.eqb_eq _]%andb_true_iff.
Qed.
Lemma eval_dev_is_mounted disk :
  eval E (dev_is_mounted disk) = Some (existsb (starts_with (snprintf 96 ("/dev/" +:+ disk))) mounts).
Proof. unfold mounts. cbn -[snprintf]. destruct (E _ (ReadText "/proc/mounts")); reflexivity. Qed.

(** C1: rufux_check_target accepts a target only when it is a regular file and
    those were allowed, or a block device that belongs to a disk of /sys/block
    (the longest matching name), that disk being removable unless fixed disks
    were allowed, not mounted, and of non-zero capacity. *)
Theorem rufux_check_target_safe path allow_fixed allow_file :
  eval E (rufux_check_target path allow_fixed allow_file) = Some (Ok tt) ->
  (is_kind KReg (E _ (Stat path)) = true /\ allow_file = true) \/
  (is_kind KBlk (E _ (Stat path)) = true /\
   exists disk, let sys := snprintf 64 disk in
     whole_disk path disk /\ (removable_flag sys \/ allow_fixed = true) /\ unmounted sys /\
     exists n, eval E (dev_size_bytes sys path) = Some n /\ n <> 0).
Proof.
  unfold rufux_check_target. intros H. cbn [bind call eval] in H.
  destruct (E _ (Stat path)) as [st|] eqn:Est; [|done].
  destruct (is_kind KReg (Some st)) eqn:Er.
  { destruct allow_file; [by left|done]. }
  destruct (is_kind KBlk (Some st)) eqn:Eb; [|done]. right. split; [done|].
  cbn [negb bind call eval] in H. cbv zeta in H. set (disk := disk_of path _) in H.
  destruct (String.eqb_spec disk "") as [|Hd]; [done|].
  assert (Hw : exists name, disk = snprintf 64 name /\ whole_disk path name).
  { unfold whole_disk, entries, disk, disk_of in *. destruct (E _ (Opendir _)) as [names|]; [|done].
    destruct (best_match_spec (basename path) names 0 "") as [[Hb _]|(name & Hb & Hin & Hdot & Hs & Hl & Hm)]; [done|].
    exists name. split_and!; try done. by intros ->. }
  destruct Hw as (name & -> & Hw). exists name. cbv zeta. split; [done|].
  rewrite eval_bind, eval_first_line in H.
  destruct (E _ (ReadText (sys_path (snprintf 64 name) "removable"))) as [[|c s]|] eqn:Erm; try done.
  assert (Hrem : removable_flag (snprintf 64 name) \/ allow_fixed = true).
  { destruct allow_fixed; [by right|left]. destruct (starts_with "1" _) eqn:E1; [|done].
    exists s. rewrite Erm. do 2 f_equal. cbn [Nat.sub stake] in E1. by apply chomp_first in E1 as ->. }
  split; [exact Hrem|]. destruct (_ && _); [done|].
  rewrite eval_bind, eval_dev_is_mounted in H.
  destruct (existsb _ mounts) eqn:Em; [done|]. split.
  { intros line Hl. destruct (starts_with _ line) eqn:E1; [|done].
    rewrite <- Em. symmetry. apply existsb_exists. exists line. split; [by apply list_elem_of_In|done]. }
  rewrite eval_bind in H. destruct (eval E (dev_size_bytes _ _)) as [n|] eqn:Es; [|done].
  exists n. split; [done|]. by destruct (Z.eqb_spec n 0).
Qed.
End Guard.
Lemma rufux_check_target_safe_witness :
  let E : oracle := fun X e => match e in ev X return X with
    | Stat _ => Some (Stat_ KBlk 0 1 2) | Opendir _ => Some ["."; ".."; "sda"; "sdaa"]
    | ReadText p => if String.eqb p "/sys/block/sdaa/removable" then Some ("1" +:+ LF)
                    else if String.eqb p "/sys/block/sdaa/size" then Some ("2048" +:+ LF) else Some ""
    | e => default_answer e end in
  exists disk, whole_disk E "/dev/sdaa1" disk /\ unmounted E (snprintf 64 disk).
Proof.
  intros E.
  destruct (rufux_check_target_safe E "/dev/sdaa1" false false eq_refl) as [[H _]|(_ & disk & Hw & _ & Hu & _)];
    [discriminate H|eauto].
Defined.

(** * The list *)
Lemma exec_call {X : Set} (e : ev X) {A} (f : X -> io A) t a :
  exec (bind (call e) f) t a <-> exists x t', t = Obs e x :: t' /\ exec (f x) t' a.
Proof. done. Qed.

Lemma list_entry_ok fx name :
  wp (list_entry fx name) (fun _ r => match r with
    | Some d => size_bytes d <> 0 /\ (removable d = true \/ fx = true) /\ virtual_name name = false /\
        dot_name name = false /\ sysname d = snprintf 64 name /\ devnode d = snprintf 128 ("/dev/" +:+ name) /\
        sall isprint (vendor d) = true /\ sall isprint (model d) = true
    | None => True end).
Proof.
  unfold list_entry. destruct (dot_name name) eqn:Hd; [done|]. destruct (virtual_name name) eqn:Hv; [done|].
  cbn [orb]. apply wp_any. intros _ [buf|]; [|done].
  destruct (negb _ && negb fx) eqn:Hf; [done|].
  do 4 (apply wp_any; intros _ ?). intros l. cbn [bind]. do 2 (apply wp_any; intros _ ?).
  apply wp_any; intros _ sz.
  destruct (Z.eqb_spec sz 0); cbn -[starts_with]; [done|].
  assert (Hp : forall s, sall isprint (blank_unprintable s) = true).
  { intros s. unfold blank_unprintable. rewrite sall_smap. induction s as [|c s IH]; cbn [sall]; [done|].
    rewrite IH, andb_true_r. destruct (isprint c) eqn:E; [done|reflexivity]. }
  split_and!; auto. revert Hf. destruct (starts_with "1" buf), fx; cbn; auto.
Qed.

(** Rufux_list_devices returns at most [max] disks; each has a non-zero
    size, is removable unless fixed disks were asked for, is no loop, ram,
    zram or device-mapper device, and its vendor and model are printable. *)
Theorem rufux_list_devices_ok max fx t l :
  0 <= max -> exec (rufux_list_devices max fx) t (Some l) ->
  zlen l <= max /\
  Forall (fun d => size_bytes d <> 0 /\ (removable d = true \/ fx = true) /\
    sall isprint (vendor d) = true /\ sall isprint (model d) = true /\
    exists name, virtual_name name = false /\ dot_name name = false /\
      sysname d = snprintf 64 name /\ devnode d = snprintf 128 ("/dev/" +:+ name)) l.
Proof.
  intros Hmax. set (good := fun d => _).
  enough (H : wp (rufux_list_devices max fx) (fun _ r => match r with
    | Some l => zlen l <= max /\ Forall good l | None => True end)).
  { intros He. exact (exec_wp _ _ H t (Some l) He). }
  intros [names|]; [|done]. cbn [bind]. apply wp_seq. cbn [wp].
  assert (Hl : forall names out, zlen out <= max -> Forall good out ->
    wp (list_loop max fx names out) (fun _ l => zlen l <= max /\ Forall good l)); [|apply Hl; [done|constructor]].
  clear names. induction names as [|n names IH]; intros out Ho Hg; cbn [list_loop]; [by cbn|].
  destruct (Z.ltb_spec (zlen out) max); [|by cbn]. apply wp_seq.
  eapply wp_mono; [|apply list_entry_ok]. intros _ [d|] Hd; cbn beta.
  - apply IH; [rewrite zlen_app, zlen_cons, zlen_nil; lia|].
    apply Forall_app. split; [done|]. constructor; [|constructor]. unfold good. destruct Hd as (?&?&?&?&?&?&?&?). eauto 10.
  - by apply IH.
Qed.
Lemma rufux_list_devices_ok_witness : zlen (@nil RufuxDevice) <= 3.
Proof.
  refine (proj1 (rufux_list_devices_ok 3 false [Obs (Opendir "/sys/block") (Some ["loop0"])] [] _ _)); [lia|].
  exec_tac.
Defined.

(** * The JSON listing *)

(** The value a device is printed as. *)
Definition device_mj (d : RufuxDevice) : MJ :=
  MJ_OBJ [("node", MJ_STR (devnode d)); ("sys", MJ_STR (sysname d));
          ("size_bytes", MJ_NUM (dec_to_double false (size_bytes d) 0)); ("removable", MJ_BOOL (removable d));
          ("usb", MJ_BOOL (is_usb d)); ("mounted", MJ_BOOL (mounted d)); ("transport", MJ_STR (transport d));
          ("vendor", MJ_STR (vendor d)); ("model", MJ_STR (model d)); ("serial", MJ_STR (serial d))].
(** No control characters; names are printed without escapes. *)
Definition no_control (s : string) : bool := sall (fun c => 0x20 <=? code c) s.
Definition printable_device (d : RufuxDevice) : Prop :=
  sall plain (devnode d) = true /\ sall plain (sysname d) = true /\ sall plain (transport d) = true /\
  no_control (vendor d) = true /\ no_control (model d) = true /\ no_control (serial d) = true /\
  0 <= size_bytes d.

Lemma jchars_plain s : sall plain s = true -> jchars s s.
Proof. induction s as [|c s IH]; cbn [sall]; [constructor|]. intros [? ?]%andb_true_iff. constructor; auto. Qed.
Lemma jchars_escape s : no_control s = true -> jchars (json_escape s) s.
Proof.
  unfold no_control. induction s as [|c s IH]; cbn [sall json_escape]; [constructor|].
  intros [Hc Hs]%andb_true_iff.
  destruct (Ascii.eqb_spec c dquote) as [->|N1]; [by apply (jc_escape dquote dquote), IH|].
  destruct (Ascii.eqb_spec c "\") as [->|N2]; [by apply (jc_escape "\" "\"), IH|].
  cbn [orb]. apply jc_plain; [|by apply IH]. unfold plain. rewrite Hc, andb_true_r.
  by rewrite (proj2 (Ascii.eqb_neq _ _) N1), (proj2 (Ascii.eqb_neq _ _) N2).
Qed.
Lemma jnum_dec n : 0 <= n -> jnum (dec n) (dec_to_double false n 0).
Proof.
  intros Hn. pose proof (jn_int false (dec n)) as H. cbn [append] in H. rewrite dec_roundtrip in H by done.
  apply H. unfold digits. rewrite dec_digits by done. cbn [andb].
  destruct (String.eqb_spec (dec n) "") as [E|]; [|done].
  unfold dec in E. destruct (_ <? 0); [done|]. exfalso. revert E.
  generalize (Z.to_nat (Z.log2 n)). intros f. cbn [dec_aux]. destruct (n <? 10); [done|].
  assert (Hne : forall f m a, a <> "" -> dec_aux f m a <> "").
  { clear. intros f. induction f as [|f IH]; intros m a Ha; [done|]. cbn [dec_aux].
    destruct (m <? 10); [done|]. by apply IH. }
  by apply Hne.
Qed.
Lemma jseq_field n key s j rest l :
  sall plain key = true -> jval n s j -> jseq (jval n) true rest l ->
  jseq (jval n) true (quoted key +:+ String ":" (s +:+ String "," rest)) ((key, j) :: l).
Proof.
  intros Hk Hs Hr.
  pose proof (jseq_more (jval n) true "" (quoted key +:+ ":") key "" s j "" rest l) as H.
  cbn [append] in H. rewrite sapp_assoc in H. cbn [append] in H. apply H; try done.
  exists key, "". split_and!; [done|done|by apply jchars_plain].
Qed.
Lemma jseq_field_last n key s j :
  sall plain key = true -> jval n s j ->
  jseq (jval n) true (quoted key +:+ String ":" (s +:+ "}")) [(key, j)].
Proof.
  intros Hk Hs.
  pose proof (jseq_last (jval n) true "" (quoted key +:+ ":") key "" s j "") as H.
  cbn [append close] in H. rewrite sapp_assoc in H. cbn [append] in H. apply H; try done.
  exists key, "". split_and!; [done|done|by apply jchars_plain].
Qed.
Lemma jval_scalar n s j : jscalar s j -> jval (S n) s j.
Proof. by left. Qed.
Lemma jval_bool n b : jval (S n) (json_bool b) (MJ_BOOL b).
Proof. left. destruct b; constructor. Qed.

Lemma json_device_val n d : printable_device d -> jval (S (S n)) (json_device d) (device_mj d).
Proof.
  intros (Hn & Hs & Ht & Hv & Hm & Hse & Hz). right; right.
  eexists true, _, _. split; [|split; [|reflexivity]].
  { do 9 (apply jseq_field; [reflexivity|first [apply jval_bool|apply jval_scalar; first [
      apply js_str, jchars_plain; eassumption | apply js_str, jchars_escape; eassumption
      | apply js_num, jnum_dec; exact Hz]]|]).
    apply jseq_field_last; [reflexivity|]. apply jval_scalar, js_str, jchars_escape; eassumption. }
  unfold json_device, quoted. rewrite ?sapp_assoc. cbn. rewrite ?sapp_assoc. reflexivity.
Qed.

Lemma json_lines_seq n devs w :
  devs <> [] -> Forall printable_device devs -> ws w = true ->
  jseq (jval (S (S n))) false (w +:+ json_lines devs +:+ "]") (map (fun d => ("", device_mj d)) devs).
Proof.
  intros Hne Hd. revert w Hne; induction Hd as [|d devs Hd Hds IH]; intros w Hne Hw; [done|].
  cbn [json_lines map].
  assert (Hw2 : ws (w +:+ "  ") = true) by (unfold ws in *; by rewrite sall_app, Hw).
  assert (Hs : jkey false "" "") by done. destruct devs as [|d' devs].
  - pose proof (jseq_last (jval (S (S n))) false (w +:+ "  ") "" "" "" (json_device d) _ LF Hw2 Hs eq_refl
      (json_device_val n d Hd) eq_refl) as H.
    rewrite !sapp_assoc in H. cbn [append close json_lines] in *. rewrite !sapp_assoc. exact H.
  - pose proof (jseq_more (jval (S (S n))) false (w +:+ "  ") "" "" "" (json_device d) _ "" _ _ Hw2 Hs eq_refl
      (json_device_val n d Hd) eq_refl (IH LF ltac:(done) eq_refl)) as H.
    rewrite !sapp_assoc in H. rewrite !sapp_assoc. cbn [append] in *. exact H.
Qed.

(** What rufux_print_devices_json prints is a JSON document, the array of
    the devices with every field as it is in the record (escapes included),
    provided vendor, model and serial hold no control characters. *)
Theorem rufux_print_devices_json_wf devs :
  Forall printable_device devs ->
  jdoc (rufux_print_devices_json devs) (MJ_ARR (map device_mj devs)).
Proof.
  intros Hd. exists "", "", ("[" +:+ LF +:+ json_lines devs +:+ "]"), LF.
  split_and!; [by left|reflexivity| |reflexivity|].
  2: { unfold rufux_print_devices_json. cbn. by rewrite !sapp_assoc. }
  destruct devs as [|d devs]; right; [left; exists false, LF; done|right].
  eexists false, _, _. split; [|split; [reflexivity|]].
  - by apply (json_lines_seq 62).
  - cbn [container]. by rewrite map_map.
Qed.
Lemma rufux_print_devices_json_wf_witness :
  let d := {| sysname := "sdb"; devnode := "/dev/sdb"; vendor := "A\B"; model := qq "X 'Y'"; serial := "1";
              transport := "usb"; size_bytes := 1024; removable := true; is_usb := true; mounted := false |} in
  jdoc (rufux_print_devices_json [d]) (MJ_ARR [device_mj d]).
Proof.
  intros d. apply (rufux_print_devices_json_wf [d]). constructor; [|constructor].
  repeat split; vm_compute; congruence.
Defined.

(** dev_is_mounted takes any line that merely begins with /dev/<name>, so a
    mounted /dev/sdaa1 makes the unrelated disk sda count as mounted. *)
Theorem dev_is_mounted_prefix (E : oracle) :
  E _ (ReadText "/proc/mounts") = Some ("/dev/sdaa1 /mnt ext4 rw 0 0" +:+ LF) ->
  eval E (dev_is_mounted "sda") = Some true /\ eval E (dev_is_mounted "sdb") = Some false.
Proof. intros H. unfold dev_is_mounted. cbn [bind call eval]. rewrite H. split; vm_compute; reflexivity. Qed.
Lemma dev_is_mounted_prefix_witness :
  let E : oracle := fun X e => match e in ev X return X with
    | ReadText _ => Some ("/dev/sdaa1 /mnt ext4 rw 0 0" +:+ LF) | e => default_answer e end in
  eval E (dev_is_mounted "sda") = Some true /\ eval E (dev_is_mounted "sdb") = Some false.
Proof. intros E. apply dev_is_mounted_prefix. reflexivity. Defined.
