(* ===== verification/Writer.v ===== *)
(** src/src/linux/writer.c: copying an image onto a target, with the optional
    read-back comparison.

    The progress callbacks are [Progress] events; they are taken to be there,
    as both front ends pass them. Allocation is taken to succeed. *)
From S2P Require Import Prelude Cstr Sys Exec Device.

(** * Data *)
Record RufuxWriteOpts := WriteOpts_ {
  dry_run : bool; verify : bool; allow_fixed : bool; allow_file : bool; yes : bool; src_len : Z }.
Definition set_src_len (o : RufuxWriteOpts) (n : Z) : RufuxWriteOpts :=
  WriteOpts_ (dry_run o) (verify o) (allow_fixed o) (allow_file o) (yes o) n.
Definition CHUNK : Z := 2 ^ 20.

(** fread capped at the [remaining] byte budget *)
Definition read_capped (f remaining : Z) : io (list byte) :=
  let want := Z.min CHUNK remaining in
  if want =? 0 then Ret [] else call (Fread f want).

Section Writer.
Variable fuel : nat.

(** ** The dry run: read the source, report, write nothing *)
Definition dry_loop (fin total : Z) : io unit :=
  loop fuel (fun '(done, rem) =>
    l <- read_capped fin rem ;;
    match l with
    | [] => Ret (inr tt)
    | _ => call (Progress (done + zlen l) total) ;;; Ret (inl (done + zlen l, rem - zlen l))
    end) (0, total).

(** ** The copy *)

(** [while (off < n)]: one chunk, however many writes it takes *)
Definition write_chunk (fd done : Z) (buf : list byte) : io (cres unit) :=
  loop fuel (fun off =>
    if off <? zlen buf then
      w <- call (Write fd (zdrop off buf)) ;;
      match w with
      | inl EINTR => Ret (inl off)
      | inl e => Ret (inr (Fail ("write failed at " +:+ dec (done + off) +:+ ": " +:+ strerror e)))
      | inr w => Ret (inl (off + w))
      end
    else Ret (inr (Ok tt))) 0.

(** The copy loop: how much was done and whether a write failed. *)
Definition copy_loop (fin fd total : Z) : io (Z * cres unit) :=
  loop fuel (fun '(done, rem) =>
    l <- read_capped fin rem ;;
    match l with
    | [] => Ret (inr (done, Ok tt))
    | _ =>
        r <- write_chunk fd done l ;;
        match r with
        | Fail m => Ret (inr (done, Fail m))
        | Ok _ => call (Progress (done + zlen l) total) ;;; Ret (inl (done + zlen l, rem - zlen l))
        end
    end) (0, total).

(** ** The read-back *)
Definition verify_loop (fa fb total : Z) : io (cres unit) :=
  loop fuel (fun '(vdone, vrem) =>
    ba <- read_capped fa vrem ;;
    match ba with
    | [] => Ret (inr (Ok tt))
    | _ =>
        rr <- rufux_read_full fuel fb (zlen ba) ;;
        match rr with
        | inl e => Ret (inr (Fail ("verify: read error at offset " +:+ dec vdone +:+ ": " +:+ strerror e)))
        | inr bb =>
            if negb (zlen bb =? zlen ba) || negb (bytes_eqb ba bb)
            then Ret (inr (Fail ("verify mismatch at offset " +:+ dec vdone)))
            else call (VProgress (vdone + zlen ba) total) ;;; Ret (inl (vdone + zlen ba, vrem - zlen ba))
        end
    end) (0, total).

Definition verify_phase (src dst : string) (fd total : Z) : io (cres unit) :=
  fa <- call (Fopen src "rb") ;;
  fb <- call (Open dst O_RDONLY) ;;
  match fa, fb with
  | inr fa, inr fb =>
      call (Lseek fb 0) ;;;
      r <- verify_loop fa fb total ;;
      call (Fclose fa) ;;; call (Close fb) ;;; call (Close fd) ;;; Ret r
  | _, _ =>
      match fa with inr fa => call (Fclose fa) ;;; Ret tt | inl _ => Ret tt end ;;;
      match fb with inr fb => call (Close fb) | inl _ => Ret tt end ;;;
      call (Close fd) ;;; fail "verify: cannot reopen src/dst"
  end.

(** From the open target on: copy, flush, rescan, verify. *)
Definition write_phase (src dst : string) (opts : RufuxWriteOpts) (fin fd total : Z) (dst_is_reg : bool)
    : io (cres unit) :=
  dr <- copy_loop fin fd total ;;
  let '(done, r) := dr in
  bad <- match r with Ok _ => call (Ferror fin) | Fail _ => Ret false end ;;
  let r := if bad then Fail ("read error on '" +:+ src +:+ "'") else r in
  call (Fclose fin) ;;;
  s <- call (Fsync fd) ;;
  let r := match s with None => r | Some e => Fail ("fsync failed: " +:+ strerror e) end in
  when (is_ok r && negb dst_is_reg) (call (RereadPart fd)) ;;;
  call (Progress done total) ;;;
  if is_ok r && verify opts then verify_phase src dst fd total
  else call (Close fd) ;;; Ret r.

(** Opening the target: a regular file is truncated, a device is locked. *)
Definition open_target (dst : string) (dst_is_reg : bool) : io (cres Z) :=
  if dst_is_reg then
    fd <- call (Open dst O_TRUNC_W) ;;
    match fd with
    | inr fd => ok fd
    | inl e => fail ("cannot open target '" +:+ dst +:+ "': " +:+ strerror e +:+ " (need sudo?)")
    end
  else
    fd <- call (Open dst O_WRONLY) ;;
    match fd with
    | inr fd =>
        l <- call (Flock fd) ;;
        if l then ok fd else call (Close fd) ;;; fail ("target '" +:+ dst +:+ "' is busy/locked")
    | inl e => fail ("cannot open target '" +:+ dst +:+ "': " +:+ strerror e +:+ " (need sudo?)")
    end.

Definition same_file (a b : option stat) : bool :=
  match a, b with Some a, Some b => (st_dev b =? st_dev a) && (st_ino b =? st_ino a) | _, _ => false end.

Definition rufux_write_image (src dst : string) (opts : RufuxWriteOpts) : io (cres unit) :=
  sst <- call (Stat src) ;;
  if negb (is_kind KReg sst) then fail ("source '" +:+ src +:+ "' is not a readable file")
  else
    let size := match sst with Some s => st_size s | None => 0 end in
    if (0 <? src_len opts) && (size <? src_len opts) then fail "payload size exceeds file size"
    else
      let total := if 0 <? src_len opts then src_len opts else size in
      if total =? 0 then fail ("source '" +:+ src +:+ "' is empty")
      else
        rufux_check_target dst (allow_fixed opts) (allow_file opts) ?;;
        d <- call (Stat dst) ;;
        if same_file sst d then fail ("source and target are the same file ('" +:+ src +:+ "')")
        else
          fin <- call (Fopen src "rb") ;;
          match fin with
          | inl e => fail ("cannot open source '" +:+ src +:+ "': " +:+ strerror e)
          | inr fin =>
              if dry_run opts then
                dry_loop fin total ;;;
                bad <- call (Ferror fin) ;;
                call (Fclose fin) ;;;
                if bad then fail ("read error on '" +:+ src +:+ "'")
                else call (Progress total total) ;;; ok tt
              else if negb (yes opts) then
                call (Fclose fin) ;;;
                fail "refusing real write without --yes (use --dry-run to simulate)"
              else
                d <- call (Stat dst) ;;
                let dst_is_reg := is_kind KReg d in
                fd <- open_target dst dst_is_reg ;;
                match fd with
                | Fail m => call (Fclose fin) ;;; fail m
                | Ok fd =>
                    cap <- (if dst_is_reg then Ret None else call (GetSize64 fd)) ;;
                    match cap with
                    | Some cap =>
                        if cap <? total then
                          call (Close fd) ;;; call (Fclose fin) ;;;
                          fail ("image (" +:+ dec total +:+ " B) larger than target (" +:+ dec cap +:+ " B)")
                        else write_phase src dst opts fin fd total dst_is_reg
                    | None => write_phase src dst opts fin fd total dst_is_reg
                    end
                end
          end.
End Writer.
