(* ===== verification/WriterSpec.v ===== *)
(** What writer.c promises: a simulated or unconfirmed run changes nothing; a
    successful run has put every byte it read from the source on the target, in
    order and flushed; with verification, what it read back is what it read from
    the source. *)
From S2P Require Import Prelude Cstr Sys Exec ExecSpec Device DeviceSpec Writer.

(** fread returned nothing on [h]: the source ended (or failed). *)
Definition ended (h : Z) (t : list obs) : Prop := exists n, Obs (Fread h n) [] ∈ t.
(** The bytes moved by a copy (a comparison) of at most [total] bytes. *)
Definition copied (fin fd total : Z) (t : list obs) : Prop :=
  writes fd t = freads fin t /\ zlen (freads fin t) <= total /\
  (zlen (freads fin t) = total \/ ended fin t).
Definition compared (fa fb total : Z) (t : list obs) : Prop :=
  reads fb t = freads fa t /\ zlen (freads fa t) <= total /\
  (zlen (freads fa t) = total \/ ended fa t).

Lemma read_capped_exec f rem t l :
  0 <= rem -> exec (read_capped f rem) t l -> Forall posix t ->
  freads f t = l /\ zlen l <= rem /\ (forall fd, writes fd t = []) /\ (forall fd, reads fd t = []) /\
  (l = [] -> rem = 0 \/ ended f t).
Proof.
  intros Hr. unfold read_capped. destruct (Z.eqb_spec (Z.min CHUNK rem) 0) as [H|H].
  - intros [-> ->] _. split_and!; try done. intros _. left. unfold CHUNK in *. lia.
  - intros (x & u & -> & -> & ->) Hp%Forall_inv. cbn in Hp. split_and!; try done; [|lia|].
    + unfold freads. cbn. rewrite Z.eqb_refl. apply app_nil_r.
    + intros ->. right. eexists. by apply list_elem_of_singleton.
Qed.

Lemma write_chunk_exec fuel fd done buf t :
  exec (write_chunk fuel fd done buf) t (Ok tt) -> Forall posix t ->
  writes fd t = buf /\ forall h, freads h t = [].
Proof.
  enough (H : forall t r, exec (write_chunk fuel fd done buf) t r -> Forall posix t -> r = Ok tt ->
    writes fd t = buf /\ forall h, freads h t = []) by (intros He Hp; exact (H t _ He Hp eq_refl)).
  clear t. refine (exec_wp _ _ _). unfold write_chunk.
  refine (wp_loop _ _ (fun t off => Forall posix t -> 0 <= off <= zlen buf /\ writes fd t = ztake off buf /\
      forall h, freads h t = [])
    (fun t r => Forall posix t -> r = Ok tt -> writes fd t = buf /\ forall h, freads h t = []) [] _ _ _).
  { intros _. pose proof (zlen_nonneg buf). split_and!; [lia|lia|done|done]. }
  intros t off HI. destruct (Z.ltb_spec off (zlen buf)) as [Hl|Hl].
  2: { cbn. rewrite app_nil_r. intros Hp _. destruct (HI Hp) as (? & -> & ?).
       split; [by apply ztake_all|done]. }
  intros [[]|w]; cbn; try done.
  - intros [Hp _]%Forall_app. destruct (HI Hp) as (? & Hw & Hf). split; [done|].
    rewrite writes_app, Hw. split; [apply app_nil_r|]. intros h. by rewrite freads_app, Hf.
  - intros [Hp Hx%Forall_inv]%Forall_app. destruct (HI Hp) as (? & Hw & Hf).
    change (0 <= w <= zlen (zdrop off buf)) in Hx. rewrite zlen_zdrop in Hx by lia. split; [lia|].
    rewrite writes_app, Hw. unfold writes. cbn. rewrite Z.eqb_refl, app_nil_r. split.
    + unfold ztake, zdrop. rewrite <- firstn_skipn with (n := Z.to_nat off) (l := take (Z.to_nat (off + w)) buf).
      rewrite firstn_firstn, skipn_firstn_comm. f_equal; f_equal; lia.
    + intros h. by rewrite freads_app, Hf.
Qed.

Lemma copy_loop_exec fuel fin fd total t done :
  0 <= total -> exec (copy_loop fuel fin fd total) t (done, Ok tt) -> Forall posix t ->
  copied fin fd total t /\ done = zlen (freads fin t).
Proof.
  intros Ht.
  enough (H : forall t dr, exec (copy_loop fuel fin fd total) t dr -> Forall posix t -> dr.2 = Ok tt ->
    copied fin fd total t /\ dr.1 = zlen (freads fin t)) by (intros He Hp; exact (H t _ He Hp eq_refl)).
  clear t done. refine (exec_wp _ _ _). unfold copy_loop.
  refine (wp_loop _ _ (fun t '(done, rem) => Forall posix t ->
      writes fd t = freads fin t /\ done = zlen (freads fin t) /\ done + rem = total /\ 0 <= rem)
    (fun t dr => Forall posix t -> dr.2 = Ok tt -> copied fin fd total t /\ dr.1 = zlen (freads fin t)) [] _ _ _).
  { intros _. cbn. split_and!; try done; lia. }
  intros t [done rem] HI. apply wp_exec. intros u r (t1 & l & t2 & -> & H1 & H2)%exec_bind.
  assert (Hrd : Forall posix (t ++ t1) -> writes fd t = freads fin t /\ done = zlen (freads fin t) /\
    done + rem = total /\ 0 <= rem /\ freads fin t1 = l /\ zlen l <= rem /\ writes fd t1 = [] /\
    (l = [] -> rem = 0 \/ ended fin t1)).
  { intros [Hp Hp1]%Forall_app. destruct (HI Hp) as (? & ? & ? & ?).
    destruct (read_capped_exec fin rem t1 l ltac:(lia) H1 Hp1) as (? & ? & Hw & _ & ?). split_and!; auto. }
  destruct l as [|b l'].
  - cbn in H2. destruct H2 as [-> ->]. rewrite app_nil_r. intros Hp _.
    destruct (Hrd Hp) as (Hw & -> & Hd & Hr & Hf & _ & Hw1 & He).
    unfold copied. rewrite writes_app, freads_app, Hf, Hw1, !app_nil_r. split_and!; try done; [lia|].
    destruct (He eq_refl) as [->|(n & Hn)]; [left; lia|right]. exists n. apply elem_of_app. by right.
  - set (l := b :: l') in *. change (exec (r <- write_chunk fuel fd done l ;; match r with
      | Fail m => Ret (inr (done, Fail m))
      | Ok _ => call (Progress (done + zlen l) total) ;;; Ret (inl (done + zlen l, rem - zlen l)) end) t2 r) in H2.
    apply exec_bind in H2 as (u1 & [[]|m] & u2 & -> & H2 & H3).
    2: { cbn in H3. destruct H3 as [-> ->]. done. }
    cbn in H3. destruct H3 as (x & u3 & -> & -> & ->).
    rewrite !app_assoc. intros Hp.
    assert (Hp' := Hp). apply Forall_app in Hp' as [Hp' _]. apply Forall_app in Hp' as [Hpt Hpu].
    destruct (Hrd Hpt) as (Hw & -> & Hd & Hr & Hf & Hz & Hw1 & _).
    apply write_chunk_exec in H2 as [Hc Hh]; [|done].
    rewrite !writes_app, !freads_app, Hw, Hw1, Hf, Hc, Hh. cbn. rewrite !app_nil_r, zlen_app.
    split_and!; try done; lia.
Qed.

Lemma read_full_freads fuel fd n t r : exec (rufux_read_full fuel fd n) t r -> forall h, freads h t = [].
Proof.
  revert t r. refine (exec_wp _ _ _). unfold rufux_read_full.
  refine (wp_loop _ _ (fun t _ => forall h, freads h t = []) (fun t _ => forall h, freads h t = []) [] _ _ _); [done|].
  intros t got HI. destruct (_ <? _); cbn; [|intros h; by rewrite app_nil_r].
  intros [[]|[|]]; cbn; intros h; by rewrite freads_app, HI.
Qed.
(** What rufux_read_full returns is what it read. *)
Lemma read_full_reads fuel fd n t got : exec (rufux_read_full fuel fd n) t (inr got) -> got = reads fd t.
Proof.
  enough (H : forall t r, exec (rufux_read_full fuel fd n) t r -> match r with inr got => got = reads fd t | _ => True end)
    by exact (H t _).
  clear t got. refine (exec_wp _ _ _). unfold rufux_read_full.
  refine (wp_loop _ _ (fun t got => got = reads fd t)
    (fun t r => match r with inr got => got = reads fd t | _ => True end) [] _ _ _); [done|].
  intros t got ->. destruct (_ <? _); cbn; [|by rewrite app_nil_r].
  intros [[]|[|b l]]; cbn; try done; rewrite reads_app; unfold reads; cbn; rewrite ?Z.eqb_refl, ?app_nil_r; done.
Qed.

Lemma verify_loop_exec fuel fa fb total t :
  0 <= total -> exec (verify_loop fuel fa fb total) t (Ok tt) -> Forall posix t -> compared fa fb total t.
Proof.
  intros Ht.
  enough (H : forall t r, exec (verify_loop fuel fa fb total) t r -> Forall posix t -> r = Ok tt ->
    compared fa fb total t) by (intros He Hp; exact (H t _ He Hp eq_refl)).
  clear t. refine (exec_wp _ _ _). unfold verify_loop.
  refine (wp_loop _ _ (fun t '(done, rem) => Forall posix t ->
      reads fb t = freads fa t /\ done = zlen (freads fa t) /\ done + rem = total /\ 0 <= rem)
    (fun t r => Forall posix t -> r = Ok tt -> compared fa fb total t) [] _ _ _).
  { intros _. cbn. split_and!; try done; lia. }
  intros t [done rem] HI. apply wp_exec. intros u r (t1 & l & t2 & -> & H1 & H2)%exec_bind.
  assert (Hrd : Forall posix (t ++ t1) -> reads fb t = freads fa t /\ done = zlen (freads fa t) /\
    done + rem = total /\ 0 <= rem /\ freads fa t1 = l /\ zlen l <= rem /\ reads fb t1 = [] /\
    (l = [] -> rem = 0 \/ ended fa t1)).
  { intros [Hp Hp1]%Forall_app. destruct (HI Hp) as (? & ? & ? & ?).
    destruct (read_capped_exec fa rem t1 l ltac:(lia) H1 Hp1) as (? & ? & _ & Hr & ?). split_and!; auto. }
  destruct l as [|b l'].
  - cbn in H2. destruct H2 as [-> ->]. rewrite app_nil_r. intros Hp _.
    destruct (Hrd Hp) as (Hw & -> & Hd & Hr & Hf & _ & Hw1 & He).
    unfold compared. rewrite reads_app, freads_app, Hf, Hw1, !app_nil_r. split_and!; try done; [lia|].
    destruct (He eq_refl) as [->|(n & Hn)]; [left; lia|right]. exists n. apply elem_of_app. by right.
  - set (l := b :: l') in *.
    apply exec_bind in H2 as (u1 & rr & u2 & -> & H2 & H3).
    pose proof (read_full_freads _ _ _ _ _ H2) as Hh.
    destruct rr as [e|bb]; [cbn in H3; destruct H3 as [-> ->]; done|].
    apply read_full_reads in H2. destruct (_ || _) eqn:Hc; [cbn in H3; destruct H3 as [-> ->]; done|].
    apply orb_false_iff in Hc as [_ Hc%negb_false_iff]. unfold bytes_eqb in Hc.
    apply bool_decide_eq_true in Hc as Hc.
    cbn in H3. destruct H3 as (x & u3 & -> & -> & ->).
    rewrite !app_assoc. intros Hp.
    assert (Hp' := Hp). apply Forall_app in Hp' as [Hp' _]. apply Forall_app in Hp' as [Hpt Hpu].
    destruct (Hrd Hpt) as (Hw & -> & Hd & Hr & Hf & Hz & Hw1 & _).
    rewrite !reads_app, !freads_app, Hw, Hw1, Hf, Hh, <- H2, <- Hc. cbn. rewrite !app_nil_r, zlen_app.
    split_and!; try done; lia.
Qed.

(** ** Whole runs *)
Lemma dry_loop_harmless fuel fin total : always harmless (dry_loop fuel fin total).
Proof. unfold dry_loop, read_capped. always_tac. Qed.
#[export] Hint Resolve dry_loop_harmless : rufux.

(** C2: without --yes, or in a dry run, rufux_write_image makes no call that
    could change the target: nothing is opened for writing, written or run,
    whatever the system answers. *)
Theorem rufux_write_image_safe fuel src dst opts :
  dry_run opts = true \/ yes opts = false -> always harmless (rufux_write_image fuel src dst opts).
Proof.
  intros H. unfold rufux_write_image. always_tac. all: destruct H as [H|H]; rewrite H in *; discriminate.
Qed.
Lemma rufux_write_image_safe_witness :
  always harmless (rufux_write_image 5 "a.img" "/dev/sdb" (WriteOpts_ false true true true false 0)).
Proof. apply rufux_write_image_safe. by right. Defined.

(** The bytes asked for: the payload length, or the whole file. *)
Definition payload (opts : RufuxWriteOpts) (st : stat) : Z :=
  if 0 <? src_len opts then src_len opts else st_size st.

Lemma verify_phase_exec fuel src dst fd total t :
  0 <= total -> exec (verify_phase fuel src dst fd total) t (Ok tt) -> Forall posix t ->
  exists fa fb u1 u2 u3, t = u1 ++ u2 ++ u3 /\ Obs (Fopen src "rb") (inr fa) ∈ u1 /\
    Obs (Open dst O_RDONLY) (inr fb) ∈ u1 /\ compared fa fb total u2.
Proof.
  intros Ht. unfold verify_phase. intros (fa & t1 & -> & (fb & t2 & -> & H)) Hp.
  destruct fa as [e|fa], fb as [e'|fb].
  1-3: exfalso; cbn in H; repeat (destruct H as (?&?&->&H)); by destruct H.
  destruct H as (b & t3 & -> & H). cbn [bind] in H.
  apply exec_bind in H as (u2 & r & u3 & -> & H1 & H2).
  cbn in H2. destruct H2 as (?&?&->&?&?&->&?&?&->&->&<-).
  exists fa, fb, [Obs (Fopen src "rb") (inr fa); Obs (Open dst O_RDONLY) (inr fb); Obs (Lseek fb 0) b], u2.
  eexists. split_and!; [reflexivity|by left|by right; left|].
  eapply verify_loop_exec; [done|done|].
  do 3 apply List.Forall_inv_tail in Hp. by apply Forall_app in Hp as [? _].
Qed.

Lemma write_phase_exec fuel src dst opts fin fd total reg t :
  0 <= total -> exec (write_phase fuel src dst opts fin fd total reg) t (Ok tt) -> Forall posix t ->
  exists t1 t2, t = t1 ++ t2 /\ copied fin fd total t1 /\ Obs (Fsync fd) None ∈ t2 /\
    (verify opts = true -> exists fa fb u1 u2 u3, t2 = u1 ++ u2 ++ u3 /\ Obs (Fopen src "rb") (inr fa) ∈ u1 /\
      Obs (Open dst O_RDONLY) (inr fb) ∈ u1 /\ compared fa fb total u2).
Proof.
  intros Ht. unfold write_phase. intros (t1 & [done r] & t2 & -> & H1 & H2)%exec_bind [Hp1 Hp2]%Forall_app.
  exists t1, t2. split; [done|].
  apply exec_bind in H2 as (v1 & bad & v2 & -> & H2 & H3).
  cbn [bind call] in H3. destruct H3 as (x & v3 & -> & (s & v4 & -> & H3)).
  set (r1 := if bad then _ else r) in H3. destruct s as [e|].
  { exfalso. cbn in H3. destruct H3 as (?&?&->&H3). cbn in H3. destruct H3 as (?&?&->&[_ ?]). done. }
  destruct r1 as [[]|m] eqn:Er.
  2: { exfalso. cbn in H3. destruct H3 as (?&?&->&H3). cbn in H3. destruct H3 as (?&?&->&[_ ?]). done. }
  assert (bad = false /\ r = Ok tt) as [-> ->] by (subst r1; by destruct bad, r as [[]|]).
  split; [by eapply copy_loop_exec|]. split.
  { apply elem_of_app. right. right. by left. }
  intros Hv. rewrite Hv in H3. cbn [is_ok andb] in H3.
  apply exec_bind in H3 as (w1 & [] & w2 & -> & _ & H3). destruct H3 as (y & w3 & -> & H3). cbn [bind] in H3.
  apply verify_phase_exec in H3 as (fa & fb & u1 & u2 & u3 & -> & ? & ? & ?); [|done|].
  - exists fa, fb. eexists (v1 ++ _ :: _ :: w1 ++ _ :: u1), u2, u3.
    split_and!; [by rewrite <- !app_assoc; cbn; rewrite <- app_assoc|..|done];
      apply elem_of_app; right; do 2 right; apply elem_of_app; right; by right.
  - apply Forall_app in Hp2 as [_ Hp2]. do 2 apply List.Forall_inv_tail in Hp2.
    apply Forall_app in Hp2 as [_ Hp2]. by apply List.Forall_inv_tail in Hp2.
Qed.

(** How a successful real write runs: it opened source and target, copied,
    flushed and, when asked, compared. *)
Definition written (src dst : string) (opts : RufuxWriteOpts) (st : stat) (t : list obs) : Prop :=
  exists fin fd t0 t1 t2, t = t0 ++ t1 ++ t2 /\
    Obs (Fopen src "rb") (inr fin) ∈ t0 /\
    (Obs (Open dst O_TRUNC_W) (inr fd) ∈ t0 \/ Obs (Open dst O_WRONLY) (inr fd) ∈ t0) /\
    copied fin fd (payload opts st) t1 /\ Obs (Fsync fd) None ∈ t2 /\
    (verify opts = true -> exists fa fb u1 u2 u3, t2 = u1 ++ u2 ++ u3 /\
      Obs (Fopen src "rb") (inr fa) ∈ u1 /\ Obs (Open dst O_RDONLY) (inr fb) ∈ u1 /\
      compared fa fb (payload opts st) u2).

Lemma open_target_exec dst reg t fd :
  exec (open_target dst reg) t (Ok fd) -> Obs (Open dst O_TRUNC_W) (inr fd) ∈ t \/ Obs (Open dst O_WRONLY) (inr fd) ∈ t.
Proof.
  unfold open_target. destruct reg; intros (x & u & -> & H).
  - destruct x as [e|fd']; cbn in H; destruct H as [-> H]; simplify_eq. left. by left.
  - destruct x as [e|fd']; [cbn in H; destruct H as [_ ?]; done|]. destruct H as (l & v & -> & H).
    destruct l; cbn in H; [|by destruct H as (?&?&?&?&?)]. destruct H as [-> H]. simplify_eq. right. by left.
Qed.
Lemma write_phase_written fuel src dst opts fin fd st reg t0 t :
  0 <= payload opts st -> Obs (Fopen src "rb") (inr fin) ∈ t0 ->
  Obs (Open dst O_TRUNC_W) (inr fd) ∈ t0 \/ Obs (Open dst O_WRONLY) (inr fd) ∈ t0 ->
  exec (write_phase fuel src dst opts fin fd (payload opts st) reg) t (Ok tt) -> Forall posix t ->
  written src dst opts st (t0 ++ t).
Proof.
  intros Ht Hf Ho H Hp. apply write_phase_exec in H as (t1 & t2 & -> & Hc & Hs & Hv); [|done..].
  exists fin, fd, t0, t1, t2. done.
Qed.
Lemma written_cons o src dst opts st t : written src dst opts st t -> written src dst opts st (o :: t).
Proof.
  intros (fin & fd & t0 & t1 & t2 & -> & Hf & Ho & H). exists fin, fd, (o :: t0), t1, t2.
  split; [done|]. split; [by right|]. split; [|done]. destruct Ho; [left|right]; by right.
Qed.
Lemma written_app u src dst opts st t : written src dst opts st t -> written src dst opts st (u ++ t).
Proof. induction u as [|o u IH]; cbn; auto using written_cons. Qed.

