(* ===== verification/Vhd.v ===== *)
(** src/src/linux/vhd.c: recognising a Virtual PC disk by its 512-byte footer,
    and limiting the write to the payload of a fixed one. *)
From S2P Require Import Prelude Cstr Sys Writer.

Record RufuxVhdInfo := VhdInfo_ { is_vhd : bool; is_fixed : bool; payload_bytes : Z; kind : string }.

(** one's complement of the byte sum, the checksum field taken as zero *)
Fixpoint sum_bytes (i : Z) (l : list byte) : Z :=
  match l with
  | [] => 0
  | b :: t => (if (64 <=? i) && (i <? 68) then 0 else u8 b) + sum_bytes (i + 1) t
  end.
Definition vhd_checksum (foot : list byte) : Z := 2 ^ 32 - 1 - sum_bytes 0 foot mod 2 ^ 32.

(** [memcmp (buf, s, strlen (s)) == 0] *)
Definition has_prefix (s : string) (buf : list byte) : bool :=
  bytes_eqb (ztake (strlen s) buf) (bytes_of_string s).

(** What the last 512 bytes say of a file of [size] bytes. *)
Definition vhd_classify (size : Z) (foot : list byte) : RufuxVhdInfo :=
  if has_prefix "vhdxfile" foot then VhdInfo_ false false 0 "vhdx"
  else if negb (has_prefix "conectix" foot) then VhdInfo_ false false 0 "unknown"
  else if negb (vhd_checksum foot =? be (slice 64 4 foot)) then VhdInfo_ true false 0 "corrupt"
  else
    let type := be (slice 60 4 foot) in
    if type =? 2 then VhdInfo_ true true (size - 512) "fixed"
    else if type =? 3 then VhdInfo_ true false 0 "dynamic"
    else if type =? 4 then VhdInfo_ true false 0 "differencing"
    else VhdInfo_ true false 0 "unknown".

(** [None] is the return value -1 *)
Definition rufux_vhd_probe (path : string) : io (option RufuxVhdInfo) :=
  st <- call (Stat path) ;;
  match st with
  | Some s =>
      if negb (is_kind KReg st) then Ret None
      else if st_size s <? 1024 then Ret (Some (VhdInfo_ false false 0 "unknown"))
      else
        f <- call (Fopen path "rb") ;;
        match f with
        | inl _ => Ret None
        | inr f =>
            sk <- call (Fseek f (-512)) ;;
            if negb sk then call (Fclose f) ;;; Ret None
            else
              foot <- call (Fread f 512) ;;
              call (Fclose f) ;;;
              if negb (zlen foot =? 512) then Ret None else Ret (Some (vhd_classify (st_size s) foot))
        end
  | None => Ret None
  end.

(** The options the writer is to be called with. *)
Definition rufux_vhd_adjust (src : string) (o : RufuxWriteOpts) : io (cres RufuxWriteOpts) :=
  i <- rufux_vhd_probe src ;;
  match i with
  | None => ok o
  | Some info =>
      if negb (is_vhd info) && negb (String.eqb (kind info) "vhdx") && negb (String.eqb (kind info) "corrupt")
      then ok o
      else if String.eqb (kind info) "vhdx" then
        fail ("VHDX is not directly writable; convert first: qemu-img convert -O raw '" +:+ src +:+ "' out.img")
      else if String.eqb (kind info) "corrupt" then
        fail ("'" +:+ src +:+ "' has a VHD cookie but a bad footer checksum")
      else if negb (is_fixed info) then
        fail (kind info +:+ " VHD is not directly writable (only fixed type is); convert first: qemu-img convert -O raw '"
              +:+ src +:+ "' out.img")
      else
        call (Log (snprintf 256 ("Fixed VHD detected: writing " +:+ dec (payload_bytes info)
                                 +:+ " payload bytes (512B footer skipped)."))) ;;;
        ok (set_src_len o (payload_bytes info))
  end.

(** * Properties *)
Lemma sum_bytes_bound i l : 0 <= sum_bytes i l <= 255 * zlen l.
Proof.
  revert i; induction l as [|b l IH]; intros i; cbn [sum_bytes]; [done|].
  specialize (IH (i + 1)). pose proof (u8_range b). rewrite zlen_cons. destruct (_ && _); lia.
Qed.
Lemma sum_bytes_app i l k : sum_bytes i (l ++ k) = sum_bytes i l + sum_bytes (i + zlen l) k.
Proof.
  revert i; induction l as [|b l IH]; intros i; cbn [sum_bytes app].
  - replace (i + zlen []) with i by (unfold zlen; cbn; lia). lia.
  - rewrite IH, zlen_cons. replace (i + (1 + zlen l)) with (i + 1 + zlen l) by lia. lia.
Qed.

(** Changing one byte outside the checksum field changes the checksum. *)
Lemma vhd_checksum_flip l b b' r :
  zlen l + 1 + zlen r <= 2 ^ 24 -> ~ (64 <= zlen l < 68) -> b <> b' ->
  vhd_checksum (l ++ b :: r) <> vhd_checksum (l ++ b' :: r).
Proof.
  intros Hlen Hi Hb Heq. unfold vhd_checksum in Heq. apply Hb, u8_inj.
  rewrite !sum_bytes_app in Heq. cbn [sum_bytes] in Heq.
  replace ((64 <=? 0 + zlen l) && (0 + zlen l <? 68)) with false in Heq.
  2: { symmetry. apply andb_false_iff. rewrite Z.leb_gt, Z.ltb_ge. lia. }
  pose proof (sum_bytes_bound 0 l). pose proof (sum_bytes_bound (0 + zlen l + 1) r).
  pose proof (u8_range b). pose proof (u8_range b').
  rewrite !Z.mod_small in Heq by lia. lia.
Qed.

(** A footer whose checksum is right no longer passes after any one of its
    bytes outside the checksum field changes: rufux_vhd_probe then calls the
    file corrupt, or no VHD when the cookie was hit; never a writable disk. *)
Theorem vhd_classify_detects size l b b' r :
  zlen l + 1 + zlen r = 512 -> ~ (64 <= zlen l < 68) -> b <> b' ->
  is_fixed (vhd_classify size (l ++ b :: r)) = true ->
  is_fixed (vhd_classify size (l ++ b' :: r)) = false.
Proof.
  intros Hlen Hi Hb. unfold vhd_classify.
  assert (Hs : slice 64 4 (l ++ b :: r) = slice 64 4 (l ++ b' :: r)).
  { unfold slice. destruct (Z.le_gt_cases 68 (zlen l)).
    - rewrite !zdrop_app, !(ztake_app 4). rewrite !(ztake_neg (4 - _)); [done|..]; rewrite zlen_zdrop; lia.
    - rewrite !zdrop_app. f_equal. f_equal. unfold zdrop.
      destruct (Z.to_nat (64 - zlen l)) eqn:E; [lia|done]. }
  pose proof (vhd_checksum_flip l b b' r ltac:(lia) Hi Hb) as Hc. rewrite <- Hs.
  destruct (has_prefix "vhdxfile" (l ++ b :: r)); [done|].
  destruct (has_prefix "conectix" (l ++ b :: r)); [cbn [negb]|done].
  destruct (Z.eqb_spec (vhd_checksum (l ++ b :: r)) (be (slice 64 4 (l ++ b :: r)))) as [Heq|]; [|done].
  intros _. destruct (has_prefix "vhdxfile" _); [done|]. destruct (has_prefix "conectix" _); [cbn [negb]|done].
  destruct (Z.eqb_spec (vhd_checksum (l ++ b' :: r)) (be (slice 64 4 (l ++ b :: r)))) as [Heq'|]; [|done].
  congruence.
Qed.
(** a fixed-disk footer: cookie, type 2 at offset 60, checksum at 64 *)
Definition fixed_footer : list byte :=
  bytes_of_string "conectix" ++ replicate 52 Byte.x00 ++ [Byte.x00; Byte.x00; Byte.x00; Byte.x02]
  ++ [Byte.xff; Byte.xff; Byte.xfc; Byte.xa0] ++ replicate 444 Byte.x00.
Lemma vhd_classify_detects_witness :
  is_fixed (vhd_classify 2048 fixed_footer) = true /\
  is_fixed (vhd_classify 2048 (ztake 100 fixed_footer ++ Byte.x01 :: zdrop 101 fixed_footer)) = false.
Proof.
  assert (H : is_fixed (vhd_classify 2048 fixed_footer) = true) by reflexivity. split; [exact H|].
  apply (vhd_classify_detects 2048 (ztake 100 fixed_footer) Byte.x00 Byte.x01 (zdrop 101 fixed_footer));
    [reflexivity|change (zlen (ztake 100 fixed_footer)) with 100; lia|discriminate|exact H].
Defined.

(** The writer is handed a length only for a fixed disk whose footer
    verifies, and that length is the file without its footer, so the footer
    never reaches the drive; any other VHD is refused and anything that is not
    one is written whole. *)
Theorem rufux_vhd_adjust_correct src o t o' :
  exec (rufux_vhd_adjust src o) t (Ok o') ->
  o' = o \/ exists st f foot, Obs (Stat src) (Some st) ∈ t /\ Obs (Fread f 512) foot ∈ t /\
    zlen foot = 512 /\ is_fixed (vhd_classify (st_size st) foot) = true /\
    o' = set_src_len o (st_size st - 512).
Proof.
  intros (t1 & i & t2 & -> & H1 & H2)%exec_bind. destruct i as [info|]; [|left; destruct H2 as [_ ?]; by simplify_eq].
  destruct (negb (is_vhd info) && _ && _) eqn:E0; [left; destruct H2 as [_ ?]; by simplify_eq|].
  destruct (String.eqb (kind info) "vhdx") eqn:E1; [by destruct H2|].
  destruct (String.eqb (kind info) "corrupt") eqn:E2; [by destruct H2|].
  destruct (is_fixed info) eqn:E3; [|by destruct H2]. right.
  destruct H2 as (x & u & -> & [-> H2]). simplify_eq.
  destruct H1 as (st & u & -> & H1). cbn [bind] in H1. destruct st as [s|]; [|by destruct H1 as [_ ?]].
  destruct (negb _); [by destruct H1|]. destruct (_ <? _); [destruct H1 as [_ ?]; by simplify_eq|].
  destruct H1 as (f & v & -> & H1). cbn [bind] in H1. destruct f as [|f]; [by destruct H1|].
  destruct H1 as (sk & w & -> & H1). cbn [bind] in H1. destruct sk; [|by destruct H1 as (?&?&?&?&?)].
  destruct H1 as (foot & y & -> & H1). cbn [bind] in H1. destruct H1 as (? & z & -> & H1). cbn [bind] in H1.
  destruct (Z.eqb_spec (zlen foot) 512) as [Hl|]; [|by destruct H1]. destruct H1 as [-> H1]. simplify_eq.
  exists s, f, foot. split_and!; [by left|by do 3 right; left|done|done|].
  f_equal. revert E3. unfold vhd_classify. repeat case_match; by intros.
Qed.
Lemma rufux_vhd_adjust_correct_witness :
  let o := WriteOpts_ false false false false true 0 in let s := Stat_ KReg 2048 1 1 in
  let o' := set_src_len o 1536 in
  let t := [Obs (Stat "d.vhd") (Some s); Obs (Fopen "d.vhd" "rb") (inr 3); Obs (Fseek 3 (-512)) true;
     Obs (Fread 3 512) fixed_footer; Obs (Fclose 3) true;
     Obs (Log "Fixed VHD detected: writing 1536 payload bytes (512B footer skipped).") tt] in
  o' = o \/ exists st f foot, Obs (Stat "d.vhd") (Some st) ∈ t /\ Obs (Fread f 512) foot ∈ t /\
    zlen foot = 512 /\ is_fixed (vhd_classify (st_size st) foot) = true /\
    o' = set_src_len o (st_size st - 512).
Proof. intros o s o' t. apply rufux_vhd_adjust_correct. exec_tac. Defined.
