(* ===== verification/Checksum.v ===== *)
(** src/src/linux/checksum.c: file digests. The digest itself is OpenSSL's EVP
    interface, a parameter: a context that is started for an algorithm, fed
    buffers and finished. *)
From S2P Require Import Prelude Cstr Sys.

Inductive RufuxHashAlg := RUFUX_MD5 | RUFUX_SHA1 | RUFUX_SHA256 | RUFUX_SHA512.
(** the enumeration's values are the digest lengths *)
Definition alg_len (a : RufuxHashAlg) : Z :=
  match a with RUFUX_MD5 => 16 | RUFUX_SHA1 => 20 | RUFUX_SHA256 => 32 | RUFUX_SHA512 => 64 end.
Definition rufux_alg_name (a : RufuxHashAlg) : string :=
  match a with RUFUX_MD5 => "MD5" | RUFUX_SHA1 => "SHA-1" | RUFUX_SHA512 => "SHA-512" | RUFUX_SHA256 => "SHA-256" end.

Fixpoint rufux_hex (l : list byte) : string :=
  match l with
  | [] => ""
  | b :: t => String (hexdigit (Z.shiftr (u8 b) 4)) (String (hexdigit (Z.land (u8 b) 15)) (rufux_hex t))
  end.

(** EVP_DigestInit_ex, EVP_DigestUpdate, EVP_DigestFinal_ex; [None] is failure *)
Record EVP := EVP_ {
  ctx : Type;
  digest_init : RufuxHashAlg -> option ctx;
  digest_update : ctx -> list byte -> option ctx;
  digest_final : ctx -> option (list byte) }.

Section Hash.
Variable evp : EVP.
Variable fuel : nat.

(** The read loop: the context after the file, or [None] when an update failed. *)
Definition hash_loop (f total : Z) (c : ctx evp) : io (option (ctx evp)) :=
  loop fuel (fun '(c, done) =>
    l <- call (Fread f (2 ^ 16)) ;;
    match l with
    | [] => Ret (inr (Some c))
    | _ =>
        match digest_update evp c l with
        | None => Ret (inr None)
        | Some c' => call (Progress (done + zlen l) total) ;;; Ret (inl (c', done + zlen l))
        end
    end) (c, 0).

Definition rufux_hash_file (path : string) (alg : RufuxHashAlg) : io (cres (list byte)) :=
  st <- call (Stat path) ;;
  match st with
  | None => fail ("cannot stat '" +:+ path +:+ "'")
  | Some st =>
      f <- call (Fopen path "rb") ;;
      match f with
      | inl _ => fail ("cannot open '" +:+ path +:+ "'")
      | inr f =>
          let total := st_size st in
          r <- match digest_init evp alg with
               | None => fail "EVP init failed"
               | Some c =>
                   c' <- hash_loop f total c ;;
                   bad <- call (Ferror f) ;;
                   if bad then fail ("read error on '" +:+ path +:+ "'")
                   else
                     match c' with
                     | None => fail ""
                     | Some c' =>
                         match digest_final evp c' with
                         | None => fail ""
                         | Some out => if zlen out =? alg_len alg then ok out else fail ""
                         end
                     end
               end ;;
          call (Fclose f) ;;;
          match r with
          | Ok out => call (Progress total total) ;;; ok out
          | Fail m => fail m
          end
      end
  end.
Definition rufux_sha256_file (path : string) : io (cres (list byte)) := rufux_hash_file path RUFUX_SHA256.
End Hash.

(** * Properties *)

(** What OpenSSL documents: updates are concatenated; the digest is a function
    of the algorithm and the bytes. *)
Record evp_spec (evp : EVP) (H : RufuxHashAlg -> list byte -> list byte) (abs : ctx evp -> RufuxHashAlg * list byte) : Prop := {
  spec_init : forall a c, digest_init evp a = Some c -> abs c = (a, []);
  spec_update : forall c l c', digest_update evp c l = Some c' -> abs c' = ((abs c).1, (abs c).2 ++ l);
  spec_final : forall c d, digest_final evp c = Some d -> d = H (abs c).1 (abs c).2 }.

Lemma hash_loop_exec evp H abs fuel f total c t c' :
  evp_spec evp H abs -> exec (hash_loop evp fuel f total c) t (Some c') ->
  abs c' = ((abs c).1, (abs c).2 ++ freads f t).
Proof.
  intros Hs.
  enough (Hw : forall t r, exec (hash_loop evp fuel f total c) t r ->
    match r with Some c' => abs c' = ((abs c).1, (abs c).2 ++ freads f t) | None => True end) by exact (Hw t (Some c')).
  clear t c'. refine (exec_wp _ _ _). unfold hash_loop.
  refine (wp_loop _ _ (fun t '(c', done) => abs c' = ((abs c).1, (abs c).2 ++ freads f t))
    (fun t r => match r with Some c' => abs c' = ((abs c).1, (abs c).2 ++ freads f t) | None => True end) [] _ _ _).
  { cbn. rewrite app_nil_r. by destruct (abs c). }
  intros t [c1 done] HI. cbn [wp bind call]. intros l. destruct l as [|b l]; cbn [wp bind].
  - rewrite freads_app. unfold freads at 2. cbn. by rewrite Z.eqb_refl, app_nil_r.
  - destruct (digest_update evp c1 (b :: l)) as [c2|] eqn:Eu; [|done]. cbn [wp bind call]. intros ?.
    rewrite (spec_update _ _ _ Hs _ _ _ Eu), HI, freads_app. unfold freads at 4. cbn.
    rewrite Z.eqb_refl, app_nil_r. cbn. by rewrite app_assoc.
Qed.

(** A digest that is reported is the algorithm's digest of exactly the bytes
    read from the file, however they were split into buffers, and has the
    algorithm's length. *)
Theorem rufux_hash_file_correct evp H abs fuel path alg t out :
  evp_spec evp H abs -> exec (rufux_hash_file evp fuel path alg) t (Ok out) ->
  zlen out = alg_len alg /\ exists f, Obs (Fopen path "rb") (inr f) ∈ t /\ out = H alg (freads f t).
Proof.
  intros Hs (st & t1 & -> & He). cbn [bind] in He. destruct st as [st|]; [|by destruct He].
  destruct He as (f & t2 & -> & He). cbn [bind] in He. destruct f as [|f]; [by destruct He|].
  apply exec_bind in He as (t3 & r & t4 & -> & H1 & H2). destruct r as [o|m]; [|by destruct H2 as (?&?&_&_&?)].
  destruct H2 as (? & ? & -> & (? & ? & -> & [-> H2])). simplify_eq.
  destruct (digest_init evp alg) as [c|] eqn:Ei; [|by destruct H1].
  apply exec_bind in H1 as (t5 & c' & t6 & -> & Hl & H1). destruct H1 as (bad & t7 & -> & H1). cbn [bind] in H1.
  destruct bad; [by destruct H1|]. destruct c' as [c'|]; [|by destruct H1].
  destruct (digest_final evp c') as [d|] eqn:Ef; [|by destruct H1].
  destruct (Z.eqb_spec (zlen d) (alg_len alg)) as [Hz|]; [|by destruct H1]. destruct H1 as [-> H1]. simplify_eq.
  split; [done|]. exists f. split; [by right; left|].
  rewrite (spec_final _ _ _ Hs _ _ Ef), (hash_loop_exec _ _ _ _ _ _ _ _ _ Hs Hl), (spec_init _ _ _ Hs _ _ Ei).
  cbn [fst snd app]. f_equal. unfold freads. cbn [map concat fread_by app].
  rewrite !map_app, !concat_app. cbn. by rewrite !app_nil_r.
Qed.
(** A context that remembers what it was fed, finished by taking the first
    bytes: enough to run the code. *)
Definition toy_evp : EVP :=
  EVP_ (RufuxHashAlg * list byte) (fun a => Some (a, [])) (fun c l => Some (c.1, c.2 ++ l))
    (fun c => Some (ztake (alg_len c.1) c.2)).
Lemma rufux_hash_file_correct_witness :
  let d := replicate 20 Byte.x61 in
  let t := [Obs (Stat "f") (Some (Stat_ KReg 20 1 1)); Obs (Fopen "f" "rb") (inr 3); Obs (Fread 3 65536) d;
     Obs (Progress 20 20) tt; Obs (Fread 3 65536) []; Obs (Ferror 3) false; Obs (Fclose 3) true; Obs (Progress 20 20) tt] in
  zlen (ztake 16 d) = 16 /\ exists f, Obs (Fopen "f" "rb") (inr f) ∈ t /\ ztake 16 d = ztake 16 (freads f t).
Proof.
  intros d t. apply (rufux_hash_file_correct toy_evp (fun a l => ztake (alg_len a) l) (fun c => c) 9 "f" RUFUX_MD5 t).
  - split; cbn; intros; by simplify_eq.
  - exec_tac.
Defined.

(** Reading the hexadecimal digits back. *)
Fixpoint unhex (s : string) : option (list byte) :=
  match s with
  | "" => Some []
  | String a (String b t) =>
      h ← hexval a; l ← hexval b; r ← unhex t; Some (b8 (16 * h + l) :: r)
  | _ => None
  end.
Lemma hexval_hexdigit z : 0 <= z < 16 -> hexval (hexdigit z) = Some z.
Proof.
  intros H. assert (Hz : z = 0 \/ z = 1 \/ z = 2 \/ z = 3 \/ z = 4 \/ z = 5 \/ z = 6 \/ z = 7 \/ z = 8 \/
    z = 9 \/ z = 10 \/ z = 11 \/ z = 12 \/ z = 13 \/ z = 14 \/ z = 15) by lia.
  repeat (destruct Hz as [->|Hz]; [reflexivity|]). by rewrite Hz.
Qed.
(** The hexadecimal form of a digest determines it and fills exactly two
    characters per byte, so a 65-byte buffer holds a SHA-256 digest. *)
Theorem rufux_hex_roundtrip l : unhex (rufux_hex l) = Some l /\ strlen (rufux_hex l) = 2 * zlen l.
Proof.
  induction l as [|b l [IH1 IH2]]; [done|]. cbn [rufux_hex unhex].
  pose proof (u8_range b) as Hb.
  assert (Hs : Z.shiftr (u8 b) 4 = u8 b / 16) by by rewrite Z.shiftr_div_pow2.
  assert (Hl : Z.land (u8 b) 15 = u8 b mod 16) by exact (land_mask (u8 b) 4 ltac:(lia)).
  rewrite Hs, Hl, !hexval_hexdigit, IH1 by (try apply Z.mod_pos_bound; try split; try apply Z.div_pos; try apply Z.div_lt_upper_bound; lia).
  cbn [mbind option_bind]. rewrite <- Z.div_mod, b8_u8, !strlen_cons, IH2, zlen_cons by lia.
  split; [done|lia].
Qed.
