(* ===== verification/Badblocks.v ===== *)
(** src/src/linux/badblocks.c: the read scan and the pattern write/verify scan. *)
From S2P Require Import Prelude Cstr Sys Exec Device DeviceSpec.

Definition PATTERNS : list byte := [Byte.xaa; Byte.x55; Byte.xff; Byte.x00].
(** [patterns[(first + p) % 4]], for [0 <= first] *)
Definition pattern (first p : Z) : byte := nth (Z.to_nat (Z.rem (first + p) 4)) PATTERNS Byte.x00.
Definition BLOCK : Z := 2 ^ 20.
(** passes below 1 or above 4 are clamped *)
Definition clamp_passes (n : Z) : Z := Z.min 4 (Z.max 1 n).

Section Badblocks.
Variable fuel : nat.
(** the text of whatever errno held before a write that returned 0 *)
Variable stale_errno : string.

(** The size of a regular file, by stat; whether it is one. *)
Definition regular_size (path : string) : io (bool * Z) :=
  st <- call (Stat path) ;;
  Ret (is_kind KReg st, match st with Some s => if is_kind KReg st then st_size s else 0 | None => 0 end).

(** The read scan; [inl] is the end of the loop by an error. *)
Definition scan_loop (fd total : Z) : io (bool * Z) :=
  loop fuel (fun done =>
    r <- call (Read fd BLOCK) ;;
    match r with
    | inl _ => Ret (inr (true, done))
    | inr [] => Ret (inr (false, done))
    | inr l => call (Progress (done + zlen l) total) ;;; Ret (inl (done + zlen l))
    end) 0.

(** The number of bad regions found. *)
Definition rufux_badblocks (path : string) (allow_file : bool) : io (cres Z) :=
  rufux_check_target path true allow_file ?;;
  rs <- regular_size path ;;
  let '(is_reg, total) := rs in
  fd <- call (Open path O_RDONLY) ;;
  match fd with
  | inl e => fail ("cannot open '" +:+ path +:+ "': " +:+ strerror e)
  | inr fd =>
      total <- (if is_reg then Ret total
                else b <- call (GetSize64 fd) ;; Ret (default total b)) ;;
      rd <- scan_loop fd total ;;
      let '(err, done) := rd in
      call (Close fd) ;;;
      call (Progress done total) ;;;
      ok (if err then 1 else 0)
  end.

(** [while (lft > 0)] of the write phase; state: lft, done *)
Definition fill_loop (fd pass grand : Z) (pt : byte) (total done : Z) : io (Z * cres unit) :=
  loop fuel (fun '(lft, done) =>
    if 0 <? lft then
      w <- call (Write fd (replicate (Z.to_nat (Z.min BLOCK lft)) pt)) ;;
      match w with
      | inl EINTR => Ret (inl (lft, done))
      | inl e => Ret (inr (done, Fail ("write failed at pass " +:+ dec (pass + 1) +:+ ": " +:+ strerror e)))
      | inr w =>
          if w =? 0 then Ret (inr (done, Fail ("write failed at pass " +:+ dec (pass + 1) +:+ ": " +:+ stale_errno)))
          else call (Progress (done + w) grand) ;;; Ret (inl (lft - w, done + w))
      end
    else Ret (inr (done, Ok tt))) (total, done).

(** The verify phase; state: lft, done, bad *)
Definition check_loop (fd grand : Z) (pt : byte) (total done bad : Z) : io (Z * Z) :=
  loop fuel (fun '(lft, done, bad) =>
    if 0 <? lft then
      r <- call (Read fd (Z.min BLOCK lft)) ;;
      match r with
      | inl EINTR => Ret (inl (lft, done, bad))
      | inl _ | inr [] => Ret (inr (done, bad + 1))
      | inr l =>
          let bad' := if forallb (fun b => u8 b =? u8 pt) l then bad else bad + 1 in
          call (Progress (done + zlen l) grand) ;;;
          Ret (inl (lft - zlen l, done + zlen l, bad'))
      end
    else Ret (inr (done, bad))) (total, done, bad).

(** One pass: the state (done, bad) afterwards, or the failure. *)
Definition run_pass (fd first total grand p : Z) (st : Z * Z) : io (Z * Z * cres unit) :=
  let '(done, bad) := st in
  let pt := pattern first p in
  s <- call (Lseek fd 0) ;;
  if negb s then Ret (done, bad, Fail "seek failed")
  else
    wr <- fill_loop fd p grand pt total done ;;
    let '(done, r) := wr in
    match r with
    | Fail m => Ret (done, bad, Fail m)
    | Ok _ =>
        f <- call (Fsync fd) ;;
        match f with
        | Some _ => Ret (done, bad, Fail "fsync failed")
        | None =>
            s <- call (Lseek fd 0) ;;
            if negb s then Ret (done, bad, Fail "seek failed")
            else
              db <- check_loop fd grand pt total done bad ;;
              let '(done, bad) := db in Ret (done, bad, Ok tt)
        end
    end.

(** [for (p = 0; p < passes && !rc; p++)] *)
Fixpoint passes_loop (fd first total grand : Z) (n : nat) (p : Z) (st : Z * Z) : io (Z * cres unit) :=
  match n with
  | O => Ret (st.2, Ok tt)
  | S m =>
      r <- run_pass fd first total grand p st ;;
      match r with
      | (_, bad, Fail e) => Ret (bad, Fail e)
      | (done, bad, Ok _) => passes_loop fd first total grand m (p + 1) (done, bad)
      end
  end.

(** The number of bad regions, which the C code also sets on failure. *)
Definition rufux_badblocks_write (path : string) (allow_file : bool) (passes first : Z) : io (cres Z) :=
  let passes := clamp_passes passes in
  rufux_check_target path true allow_file ?;;
  rs <- regular_size path ;;
  let '(is_reg, total) := rs in
  fd <- call (Open path O_RDWR) ;;
  match fd with
  | inl e => fail ("cannot open '" +:+ path +:+ "': " +:+ strerror e)
  | inr fd =>
      total <- (if is_reg then ok total
                else
                  b <- call (GetSize64 fd) ;;
                  match b with
                  | Some b => if b =? 0 then call (Close fd) ;;; fail ("cannot size '" +:+ path +:+ "'") else ok b
                  | None => call (Close fd) ;;; fail ("cannot size '" +:+ path +:+ "'")
                  end) ;;
      match total with
      | Fail m => fail m
      | Ok total =>
          if total =? 0 then call (Close fd) ;;; fail ("target '" +:+ path +:+ "' is empty")
          else
            let grand := (2 * passes * total) mod 2 ^ 64 in
            br <- passes_loop fd first total grand (Z.to_nat passes) 0 (0, 0) ;;
            let '(bad, r) := br in
            call (Close fd) ;;;
            match r with
            | Fail m => fail m
            | Ok _ => call (Progress grand grand) ;;; ok bad
            end
      end
  end.
End Badblocks.

(** * Properties *)

(** The read scan changes nothing. *)
Lemma rufux_badblocks_harmless fuel path af : always harmless (rufux_badblocks fuel path af).
Proof. unfold rufux_badblocks, regular_size, scan_loop. always_tac. Qed.
#[export] Hint Resolve rufux_badblocks_harmless : rufux.

Definition full (n : Z) (b : byte) : list byte := replicate (Z.to_nat n) b.
Lemma full_add n m b : 0 <= n -> 0 <= m -> full n b ++ full m b = full (n + m) b.
Proof. intros. unfold full. rewrite <- replicate_add. f_equal. lia. Qed.
Lemma ztake_full n m b : 0 <= n <= m -> ztake n (full m b) = full n b.
Proof. intros. unfold ztake, full. rewrite take_replicate. f_equal. lia. Qed.
Lemma forallb_full l b : forallb (fun x => u8 x =? u8 b) l = true -> l = full (zlen l) b.
Proof.
  intros H. unfold full, zlen. rewrite Nat2Z.id. induction l as [|x l IH]; [done|].
  cbn in *. apply andb_true_iff in H as [Hx%Z.eqb_eq%u8_inj Hl]. f_equal; auto.
Qed.

Lemma fill_loop_exec fuel se fd pass grand pt total done t done' :
  0 <= total -> exec (fill_loop fuel se fd pass grand pt total done) t (done', Ok tt) -> Forall posix t ->
  writes fd t = full total pt /\ reads fd t = [].
Proof.
  intros Ht.
  enough (H : forall t r, exec (fill_loop fuel se fd pass grand pt total done) t r -> Forall posix t -> r.2 = Ok tt ->
    writes fd t = full total pt /\ reads fd t = []) by (intros He Hp; exact (H t _ He Hp eq_refl)).
  clear t done'. refine (exec_wp _ _ _). unfold fill_loop.
  refine (wp_loop _ _ (fun t '(lft, done) => Forall posix t ->
      0 <= lft <= total /\ writes fd t = full (total - lft) pt /\ reads fd t = [])
    (fun t r => Forall posix t -> r.2 = Ok tt -> writes fd t = full total pt /\ reads fd t = []) [] _ _ _).
  { intros _. rewrite Z.sub_diag. split_and!; (done || lia). }
  intros t [lft dn] HI. destruct (Z.ltb_spec 0 lft) as [Hl|Hl].
  2: { cbn. rewrite app_nil_r. intros Hp _. destruct (HI Hp) as (? & -> & ->).
       by replace (total - lft) with total by lia. }
  intros [[]|w]; cbn -[replicate]; try done.
  - intros [Hp _]%Forall_app. destruct (HI Hp) as (? & Hw & Hr). rewrite writes_app, reads_app, Hw, Hr.
    split_and!; try done; [lia|lia|apply app_nil_r].
  - destruct (Z.eqb_spec w 0); cbn -[replicate]; [done|]. intros ?.
    intros [Hp Hx%Forall_inv]%Forall_app. destruct (HI Hp) as (? & Hw & Hr).
    change (0 <= w <= zlen (replicate (Z.to_nat (Z.min BLOCK lft)) pt)) in Hx.
    rewrite zlen_replicate, Z2Nat.id in Hx by (unfold BLOCK; lia).
    split; [unfold BLOCK in *; lia|]. rewrite writes_app, reads_app, Hw, Hr. split; [|done].
    unfold writes. cbn -[replicate]. rewrite Z.eqb_refl, app_nil_r. fold (full (Z.min BLOCK lft) pt).
    rewrite ztake_full, full_add by (unfold BLOCK in *; lia). f_equal. lia.
Qed.

Lemma check_loop_exec fuel fd grand pt total done bad t r :
  0 <= total -> exec (check_loop fuel fd grand pt total done bad) t r -> Forall posix t ->
  bad <= r.2 /\ writes fd t = [] /\ (r.2 = bad -> reads fd t = full total pt).
Proof.
  intros Ht. revert t r. refine (exec_wp _ _ _). unfold check_loop.
  refine (wp_loop _ _ (fun t '(lft, done, bd) => Forall posix t ->
      0 <= lft <= total /\ bad <= bd /\ writes fd t = [] /\ (bd = bad -> reads fd t = full (total - lft) pt))
    (fun t r => Forall posix t -> bad <= r.2 /\ writes fd t = [] /\ (r.2 = bad -> reads fd t = full total pt)) [] _ _ _).
  { intros _. rewrite Z.sub_diag. split_and!; (done || lia). }
  intros t [[lft dn] bd] HI. destruct (Z.ltb_spec 0 lft) as [Hl|Hl].
  2: { cbn. rewrite app_nil_r. intros Hp. destruct (HI Hp) as (? & ? & ? & Hr).
       replace (total - lft) with total in Hr by lia. done. }
  assert (Hbad : forall x, Forall posix (t ++ [Obs (Read fd (Z.min BLOCK lft)) x]) ->
    bad <= bd + 1 /\ writes fd (t ++ [Obs (Read fd (Z.min BLOCK lft)) x]) = [] /\
    (bd + 1 = bad -> reads fd (t ++ [Obs (Read fd (Z.min BLOCK lft)) x]) = full total pt)).
  { intros x [Hp _]%Forall_app. destruct (HI Hp) as (? & ? & Hw & Hr). rewrite writes_app, Hw.
    split_and!; try done; lia. }
  intros [[]|l]; cbn; [|exact (Hbad _)..|].
  - intros [Hp _]%Forall_app. destruct (HI Hp) as (? & ? & Hw & Hr). rewrite writes_app, Hw, reads_app.
    split_and!; try done; [lia|lia|]. intros Hb. rewrite Hr by done. apply app_nil_r.
  - destruct l as [|b l]; [exact (Hbad _)|]. set (l' := b :: l). cbn -[l' forallb]. intros ?.
    intros [Hp Hx%Forall_inv]%Forall_app. destruct (HI Hp) as (? & ? & Hw & Hr).
    change (zlen l' <= Z.min BLOCK lft) in Hx. rewrite writes_app, Hw, reads_app. pose proof (zlen_nonneg l').
    split; [lia|]. destruct (forallb _ l') eqn:Hf; (split; [lia|]; split; [done|]; [intros Hb]).
    + rewrite Hr by done. unfold reads. cbn -[l']. rewrite Z.eqb_refl, app_nil_r.
      rewrite (forallb_full _ _ Hf) at 1. rewrite full_add by lia. f_equal. lia.
    + lia.
Qed.

(** A pass that found nothing bad wrote the pattern over the whole target and
    read it back. *)
Definition pass_ok (fd first total p : Z) (t : list obs) : Prop :=
  writes fd t = full total (pattern first p) /\ reads fd t = full total (pattern first p).

Lemma run_pass_exec fuel se fd first total grand p dn bad t dn' bad' :
  0 <= total -> exec (run_pass fuel se fd first total grand p (dn, bad)) t (dn', bad', Ok tt) -> Forall posix t ->
  bad <= bad' /\ (bad' = bad -> pass_ok fd first total p t).
Proof.
  intros Ht. unfold run_pass. intros (s & t1 & -> & H) Hp. cbn [bind] in H. apply List.Forall_inv_tail in Hp.
  destruct s; [|by destruct H]. cbn [negb] in H.
  apply exec_bind in H as (t2 & [d1 [[]|m]] & t3 & -> & H1 & H2); [|by destruct H2].
  destruct H2 as (f & t4 & -> & H2). cbn [bind] in H2. destruct f; [by destruct H2|].
  destruct H2 as (s & t5 & -> & H2). cbn [bind] in H2. destruct s; [|by destruct H2]. cbn [negb] in H2.
  apply exec_bind in H2 as (t6 & [d2 b2] & t7 & -> & H2 & H3). destruct H3 as [-> H3]. simplify_eq.
  apply Forall_app in Hp as [Hp1 Hp]. do 2 apply List.Forall_inv_tail in Hp. apply Forall_app in Hp as [Hp2 _].
  apply fill_loop_exec in H1 as [Hw Hr]; [|done..].
  apply check_loop_exec in H2 as (Hb & Hw2 & Hr2); [|done..]. cbn [snd] in Hb, Hr2.
  split; [done|]. intros Hbb. specialize (Hr2 Hbb). unfold pass_ok.
  rewrite !writes_skip, !reads_skip, !writes_app, !reads_app by reflexivity.
  rewrite !writes_skip, !reads_skip, !writes_app, !reads_app by reflexivity.
  by rewrite Hw, Hr, Hw2, Hr2, !app_nil_r.
Qed.

Inductive passes_ok (fd first total : Z) : Z -> nat -> list obs -> Prop :=
| passes_nil p : passes_ok fd first total p O []
| passes_cons p n t u : pass_ok fd first total p t -> passes_ok fd first total (p + 1) n u ->
    passes_ok fd first total p (S n) (t ++ u).

Lemma passes_loop_exec fuel se fd first total grand n p dn bad t bad' :
  0 <= total -> exec (passes_loop fuel se fd first total grand n p (dn, bad)) t (bad', Ok tt) -> Forall posix t ->
  bad <= bad' /\ (bad' = bad -> passes_ok fd first total p n t).
Proof.
  intros Ht. revert p dn bad t; induction n as [|n IH]; intros p dn bad t; cbn [passes_loop].
  { intros [-> H] _. simplify_eq. split; [cbn; lia|]. constructor. }
  intros (t1 & [[d b] [[]|m]] & t2 & -> & H1 & H2)%exec_bind [Hp1 Hp2]%Forall_app; [|by destruct H2].
  apply run_pass_exec in H1 as [Hb1 Hok1]; [|done..]. apply IH in H2 as [Hb2 Hok2]; [|done].
  split; [lia|]. intros ->. constructor; [apply Hok1|apply Hok2]; lia.
Qed.

(** When the destructive scan reports no bad blocks, every one of its one
    to four passes wrote its pattern over every byte of the target and read
    exactly that pattern back. *)
Theorem rufux_badblocks_write_correct fuel se path af passes first t :
  exec (rufux_badblocks_write fuel se path af passes first) t (Ok 0) -> Forall posix t ->
  (forall st, Obs (Stat path) (Some st) ∈ t -> 0 <= st_size st) ->
  (forall fd n, Obs (GetSize64 fd) (Some n) ∈ t -> 0 <= n) ->
  exists fd total t0 t1 t2, t = t0 ++ t1 ++ t2 /\ Obs (Open path O_RDWR) (inr fd) ∈ t0 /\ 0 < total /\
    passes_ok fd first total 0 (Z.to_nat (clamp_passes passes)) t1.
Proof.
  unfold rufux_badblocks_write. cbv zeta.
  intros (t1 & [] & t2 & -> & _ & (st & t3 & -> & H))%exec_try Hp Hs Hg. cbn [bind] in H.
  destruct H as (fd & t4 & -> & H). cbn [bind] in H. destruct fd as [|fd]; [by destruct H|].
  apply exec_bind in H as (t5 & [total|m] & t6 & -> & Hsz & H); [|by destruct H].
  assert (Htot : 0 <= total).
  { destruct (is_kind KReg st) eqn:Er.
    - destruct Hsz as [_ Hsz]. simplify_eq. destruct st as [s|]; [|done].
      assert (0 <= st_size s) by (apply Hs, elem_of_app; right; by left). repeat case_match; lia.
    - destruct Hsz as (b & t7 & -> & Hsz). cbn [bind] in Hsz.
      destruct b as [b|]; [|by destruct Hsz as (?&?&_&_&?)]. destruct (b =? 0); [by destruct Hsz as (?&?&_&_&?)|].
      destruct Hsz as [-> ?]. simplify_eq. apply (Hg fd). apply elem_of_app. right. do 2 right. by left. }
  destruct (Z.eqb_spec total 0) as [|Hne]; [by destruct H as (?&?&_&_&?)|].
  apply exec_bind in H as (t7 & [bad [[]|m]] & t8 & -> & H1 & H2); [|by destruct H2 as (?&?&_&_&?)].
  destruct H2 as (x & t9 & -> & (y & t10 & -> & [-> ?])). simplify_eq.
  exists fd, total, (t1 ++ Obs (Stat path) st :: Obs (Open path O_RDWR) (inr fd) :: t5), t7. eexists. split; [by rewrite <- app_assoc; cbn|].
  split; [apply elem_of_app; right; right; by left|]. split; [lia|].
  apply passes_loop_exec in H1 as [_ Hok]; [by apply Hok|done|].
  apply Forall_app in Hp as [_ Hp]. do 2 apply List.Forall_inv_tail in Hp.
  apply Forall_app in Hp as [_ Hp]. by apply Forall_app in Hp as [? _].
Qed.
Lemma rufux_badblocks_write_correct_witness :
  let p := [Byte.xaa; Byte.xaa] in let s := Stat_ KReg 2 1 1 in
  let t := [Obs (Stat "f") (Some s); Obs (Stat "f") (Some s); Obs (Open "f" O_RDWR) (inr 3); Obs (Lseek 3 0) true;
    Obs (Write 3 p) (inr 2); Obs (Progress 2 4) tt; Obs (Fsync 3) None; Obs (Lseek 3 0) true;
    Obs (Read 3 2) (inr p); Obs (Progress 4 4) tt; Obs (Close 3) tt; Obs (Progress 4 4) tt] in
  exists fd total t0 t1 t2, t = t0 ++ t1 ++ t2 /\ Obs (Open "f" O_RDWR) (inr fd) ∈ t0 /\ 0 < total /\
    passes_ok fd 0 total 0 1 t1.
Proof.
  intros p s t. apply (rufux_badblocks_write_correct 9 "" "f" true 1 0).
  - exec_tac.
  - posix_tac.
  - intros st H. repeat (apply elem_of_cons in H as [H|H]; [apply (f_equal stat_of) in H; cbn in H; simplify_eq; cbn; lia|]).
    by apply not_elem_of_nil in H.
  - intros fd n H. exfalso. repeat (apply elem_of_cons in H as [H|H]; [discriminate H|]). by apply not_elem_of_nil in H.
Defined.
