(* ===== verification/Vdisk.v ===== *)
(** src/src/linux/vdisk.c: virtual disk images, which qemu-img converts onto the
    target. Its report is JSON, read with the parser of [Mjson]. *)
From S2P Require Import Prelude Cstr Double Sys Exec Device Writer Vhd Mjson.

Record RufuxVdisk := Vdisk_ { format : string; label : string; virtual_size : Z }.
Definition PATH_MAX : nat := 4096.

(** * What the first bytes say *)
Definition vdisk_magic (h : list byte) : option (string * string) :=
  if zlen h <? 8 then None
  else if bytes_eqb (ztake 4 h) [Byte.x51; Byte.x46; Byte.x49; Byte.xfb] then Some ("qcow2", "QCOW2")
  else if has_prefix "KDMV" h then Some ("vmdk", "VMDK")
  else if has_prefix "# Disk DescriptorFile" h then Some ("vmdk", "VMDK")
  else if has_prefix "vhdxfile" h then Some ("vhdx", "VHDX")
  else if (0x44 <=? zlen h) && bytes_eqb (slice 0x40 4 h) [Byte.x7f; Byte.x10; Byte.xda; Byte.xbe]
       then Some ("vdi", "VDI")
  else None.

(** [fread (h, 1, n, f)] of a file opened and closed around it *)
Definition read_head (path : string) (n : Z) : io (option (list byte)) :=
  f <- call (Fopen path "rb") ;;
  match f with
  | inl _ => Ret None
  | inr f => h <- call (Fread f n) ;; call (Fclose f) ;;; Ret (Some h)
  end.
Definition sniff (path : string) : io (option (string * string)) :=
  h <- read_head path 512 ;;
  Ret (match h with Some h => vdisk_magic h | None => None end).

(** * Which files the image refers to *)
Definition is_backing_key (k : string) : bool :=
  String.eqb k "backing-filename" || String.eqb k "full-backing-filename" ||
  String.eqb k "data-file" || String.eqb k "parent-filename".

(** One member of an object: the offending name, if it is one. *)
Definition ref_member (self dir k : string) (v : MJ) : io (option string) :=
  if is_backing_key k then
    match mj_str (Some v) with
    | Some s => Ret (if String.eqb s "" then None else Some (stake (PATH_MAX - 1) s))
    | None => Ret None
    end
  else if String.eqb k "filename" then
    match mj_str (Some v) with
    | Some s =>
        if String.eqb s self then Ret None
        else
          let same_dir := match strrchr "/" s with
                          | Some slash => String.eqb (before s slash) dir
                          | None => false
                          end in
          if negb same_dir then Ret (Some (stake (PATH_MAX - 1) s))
          else
            st <- call (Lstat s) ;;
            Ret (if is_kind KReg st then None else Some (stake (PATH_MAX - 1) s))
    | None => Ret None
    end
  else Ret None.

(** [None]: every file named is the image itself or beside it. *)
Fixpoint refs_ok (j : MJ) (self dir : string) : io (option string) :=
  match j with
  | MJ_OBJ l =>
      (fix go (l : list (string * MJ)) : io (option string) :=
         match l with
         | [] => Ret None
         | (k, v) :: t =>
             m <- ref_member self dir k v ;;
             match m with
             | Some bad => Ret (Some bad)
             | None =>
                 r <- refs_ok v self dir ;;
                 match r with Some bad => Ret (Some bad) | None => go t end
             end
         end) l
  | MJ_ARR l =>
      (fix go (l : list MJ) : io (option string) :=
         match l with
         | [] => Ret None
         | v :: t =>
             r <- refs_ok v self dir ;;
             match r with Some bad => Ret (Some bad) | None => go t end
         end) l
  | _ => Ret None
  end.

(** * Detection *)
Section Vdisk.
Variable point : ascii.
Variable fuel : nat.

(** the number after the colon that follows [key] in [out], or -1 *)
Definition check_count (key out : string) : Z :=
  match strstr key out with
  | Some p => match strchr ":" p with Some (String _ n) => strtoll10 n | _ => -1 end
  | None => -1
  end.

(** qemu-img check: whether the image is damaged *)
Definition damaged (fmt real : string) : io bool :=
  c <- rufux_capture fuel ["qemu-img"; "check"; "--output=json"; "-f"; fmt; real] 8192 ;;
  let '(okc, cout) := c in
  Ret (negb okc && negb (contains "does not support checks" cout) &&
       (negb (check_count (qq "'corruptions'") cout =? 0) || negb (check_count (qq "'check-errors'") cout =? 0))).

(** What the file's first bytes and its footer make of it. *)
Definition vdisk_kind (src : string) : io (cres (option (string * string))) :=
  h <- read_head src 8 ;;
  cut <- (if match h with Some h => bytes_eqb h (bytes_of_string "conectix") | None => false end then
            vi <- rufux_vhd_probe src ;;
            Ret (match vi with Some vi => negb (is_vhd vi) | None => false end)
          else Ret false) ;;
  if cut then fail ("'" +:+ src +:+ "' looks like a dynamic VHD but its footer is missing: the file is truncated or damaged")
  else
    s <- sniff src ;;
    match s with
    | Some fl => ok (Some fl)
    | None =>
        vi <- rufux_vhd_probe src ;;
        match vi with
        | Some vi =>
            if is_vhd vi && negb (is_fixed vi) && negb (String.eqb (kind vi) "corrupt")
            then ok (Some ("vpc", stake 12 (kind vi) +:+ " VHD"))
            else ok None
        | None => ok None
        end
    end.

(** The part after the kind is known: ask qemu-img and judge its answer. *)
Definition vdisk_inspect (src fmt lbl : string) : io (cres RufuxVdisk) :=
  if String.eqb lbl "differencing VHD" then
    fail ("'" +:+ src +:+ "' is a differencing VHD (it depends on a parent disk); merge it into a standalone image first")
  else
    have <- rufux_have "qemu-img" ;;
    if negb have then
      fail ("'" +:+ src +:+ "' is a " +:+ lbl +:+ " image and needs qemu-img to be converted, which is not installed "
            +:+ "(install qemu-utils / qemu-img)")
    else
      real <- call (Realpath src) ;;
      match real with
      | inl e => fail ("cannot resolve '" +:+ src +:+ "': " +:+ strerror e)
      | inr real =>
          let dir := match strrchr "/" real with Some s => before real s | None => real end in
          c <- rufux_capture fuel ["qemu-img"; "info"; "--output=json"; "-f"; fmt; real] (2 ^ 20) ;;
          let '(rc, out) := c in
          match (if rc then mj_parse point (Some out) else inr "") with
          | inr jerr =>
              let first := (span (fun c => negb (Ascii.eqb c (chr 10))) out).1 in
              fail ("cannot read the " +:+ lbl +:+ " image '" +:+ src +:+ "': " +:+
                    (if negb (String.eqb first "") then first
                     else if negb (String.eqb jerr "") then snprintf 160 jerr else "qemu-img failed"))
          | inl j =>
              bad <- refs_ok j real dir ;;
              match bad with
              | Some bad =>
                  fail ("the " +:+ lbl +:+ " image '" +:+ src +:+ "' refers to another file ('" +:+ bad +:+
                        "'); refusing to copy it onto a drive. " +:+ "Convert it to a standalone image first")
              | None =>
                  let vs := mj_get_num (Some j) "virtual-size" double_zero in
                  if dle0 vs || negb (String.eqb (mj_get_str (Some j) "format" "") fmt)
                  then fail ("'" +:+ src +:+ "' does not look like a valid " +:+ lbl +:+ " image")
                  else
                    d <- damaged fmt real ;;
                    if d then
                      fail ("the " +:+ lbl +:+ " image '" +:+ src +:+ "' failed its consistency check (truncated or corrupted); "
                            +:+ "not writing it to a drive")
                    else ok (Vdisk_ fmt lbl (dtrunc vs))
              end
          end
      end.

(** [Ok None] is the return value 0, [Ok (Some vd)] is 1. *)
Definition rufux_vdisk_detect (src : string) : io (cres (option RufuxVdisk)) :=
  st <- call (Stat src) ;;
  if negb (is_kind KReg st) then ok None
  else
    k <-? vdisk_kind src ;;
    match k with
    | None => ok None
    | Some (fmt, lbl) => vd <-? vdisk_inspect src fmt lbl ;; ok (Some vd)
    end.

(** * Writing *)
Definition target_size (dst : string) : io Z :=
  st <- call (Stat dst) ;;
  match st with
  | None => Ret 0
  | Some s =>
      if is_kind KReg st then Ret (st_size s)
      else
        fd <- call (Open dst O_RDONLY) ;;
        match fd with
        | inl _ => Ret 0
        | inr fd => b <- call (GetSize64 fd) ;; call (Close fd) ;;; Ret (default 0 b)
        end
  end.

(** A finished line of qemu-img's output: the percentage it announces, if any.
    (sscanf's %lf is read as strtod reads it.) *)
Definition progress_of (line : string) : option double :=
  match strchr "(" line with
  | Some (String _ t) => match strtod point t with Some (d, _) => Some d | None => None end
  | _ => None
  end.
Definition add_tail (tl line : string) : string :=
  snprintf 512 (tl +:+ (if String.eqb tl "" then "" else " ") +:+ stake 200 line).

(** The child's output character by character; state: the line so far and the
    text kept for the error message. The exit status, -1 when it has none. *)
Definition run_progress (av : list string) : io (Z * string) :=
  p <- call (PipeSpawn av) ;;
  match p with
  | None => Ret (-1, "")
  | Some h =>
      tl <- loop fuel (fun '(line, tl) =>
        c <- call (PipeRead h 1) ;;
        match c with
        | [] => Ret (inr tl)
        | b :: _ =>
            if (u8 b =? 13) || (u8 b =? 10) then
              let l := cstr_of_bytes line in
              match progress_of l with
              | Some pct =>
                  call (Progress (dtrunc (dmul pct (Z2double 100))) 10000) ;;; Ret (inl ([], tl))
              | None => Ret (inl ([], if String.eqb l "" then tl else add_tail tl l))
              end
            else Ret (inl (if zlen line <? 511 then line ++ [b] else line, tl))
        end) ([], "") ;;
      st <- call (Waitpid h) ;;
      Ret (match st with Exited c => c | _ => -1 end, tl)
  end.

(** vdisk.c's json_escape: stops when the next character might not fit *)
Fixpoint json_escape_to (s : string) (n cap : Z) : string :=
  match s with
  | "" => ""
  | String c t =>
      if n + 3 <? cap then
        if Ascii.eqb c dquote || Ascii.eqb c "\" then String "\" (String c (json_escape_to t (n + 2) cap))
        else String c (json_escape_to t (n + 1) cap)
      else ""
  end.

(** the image specification given to qemu-img compare *)
Definition compare_spec (vs : Z) (drv esc : string) : string :=
  qq "json:{'driver':'raw','offset':0,'size':" +:+ dec vs +:+ qq ",'file':{'driver':'" +:+ drv
  +:+ qq "','filename':'" +:+ esc +:+ qq "'}}".

Definition gib (n : Z) : string := fmt_f point 1 (ddiv (Z2double n) (Z2double (2 ^ 30))).

(** verification: compare the first virtual-size bytes of the target *)
Definition vdisk_verify (vd : RufuxVdisk) (real dst : string) : io (cres unit) :=
  let esc := json_escape_to dst 0 (2 * Z.of_nat PATH_MAX) in
  ds <- call (Stat dst) ;;
  let drv := if is_kind KBlk ds then "host_device" else "file" in
  let spec := snprintf (2 * PATH_MAX + 160) (compare_spec (virtual_size vd) drv esc) in
  c <- rufux_capture fuel ["qemu-img"; "compare"; "-f"; format vd; "-F"; "raw"; real; spec] 512 ;;
  if negb c.1 then
    fail ("verification failed: what was written to '" +:+ dst +:+ "' differs from the " +:+ label vd +:+ " image")
  else call (VProgress 1 1) ;;; ok tt.

Definition rufux_vdisk_write (src : string) (vd : RufuxVdisk) (dst : string) (opts : RufuxWriteOpts) : io (cres unit) :=
  rufux_check_target dst (allow_fixed opts) (allow_file opts) ?;;
  tsz <- target_size dst ;;
  if negb (tsz =? 0) && (tsz <? virtual_size vd) then
    fail ("the " +:+ label vd +:+ " image is " +:+ gib (virtual_size vd) +:+ " GiB once expanded, but '" +:+ dst
          +:+ "' holds only " +:+ gib tsz +:+ " GiB")
  else
    real <- call (Realpath src) ;;
    match real with
    | inl _ => fail ("cannot resolve '" +:+ src +:+ "'")
    | inr real =>
        a <- call (Stat real) ;;
        same <- match a with
                | Some _ => b <- call (Stat dst) ;; Ret (same_file a b)
                | None => Ret false
                end ;;
        if same then fail ("source and target are the same file ('" +:+ src +:+ "')")
        else if dry_run opts then
          call (Stderr ("+ qemu-img convert -p -f " +:+ format vd +:+ " -O raw -n " +:+ real +:+ " " +:+ dst +:+ LF)) ;;;
          call (Progress 1 1) ;;; ok tt
        else if negb (yes opts) then fail "refusing real write without --yes (use --dry-run to simulate)"
        else
          d <- call (Stat dst) ;;
          tr <- (if is_kind KReg d then call (Truncate dst (virtual_size vd)) else Ret None) ;;
          match tr with
          | Some e => fail ("cannot size '" +:+ dst +:+ "': " +:+ strerror e)
          | None =>
              rt <- run_progress ["qemu-img"; "convert"; "-p"; "-f"; format vd; "-O"; "raw"; "-n"; real; dst] ;;
              let '(rc, tl) := rt in
              if negb (rc =? 0) then
                fail ("qemu-img could not write the " +:+ label vd +:+ " image: " +:+
                      stake 300 (if String.eqb tl "" then "unknown error" else tl))
              else
                call Sync ;;;
                if verify opts then vdisk_verify vd real dst else ok tt
          end
    end.
End Vdisk.
