(* ===== verification/VdiskSpec.v ===== *)
(** What vdisk.c promises: no file the person did not choose is read through an
    image, a dry or unconfirmed run starts nothing that writes, and the compare
    specification is well-formed JSON whatever the target's name. *)
From S2P Require Import Prelude Cstr Double Sys Exec Device Writer Vhd Mjson MjsonSpec DeviceSpec WriterSpec Vdisk.

(** * References *)
Inductive member_in : MJ -> string -> MJ -> Prop :=
| mi_here l k v : (k, v) ∈ l -> member_in (MJ_OBJ l) k v
| mi_obj l k' v' k v : (k', v') ∈ l -> member_in v' k v -> member_in (MJ_OBJ l) k v
| mi_arr l v' k v : v' ∈ l -> member_in v' k v -> member_in (MJ_ARR l) k v.

(** [s] is [dir]/<name> with no further slash. *)
Definition beside (s dir : string) : Prop :=
  exists name, s = dir +:+ String "/" name /\ strchr "/" name = None.

Lemma strrchr_Some c s r :
  strrchr c s = Some r -> exists a t, s = a +:+ r /\ r = String c t /\ strchr c t = None /\ a = before s r.
Proof.
  induction s as [|d s IH]; cbn [strrchr]; [done|]. intros H.
  assert (Hb : forall a r, before (a +:+ r) r = a).
  { intros a r'. unfold before. rewrite slength_app. apply stake_app. lia. }
  destruct (strrchr c s) as [r'|] eqn:E.
  - simplify_eq. destruct (IH eq_refl) as (a & t & -> & -> & Ht & _). exists (String d a), t.
    split_and!; try done. symmetry. apply (Hb (String d a)).
  - destruct (Ascii.eqb_spec c d) as [->|]; [|done]. simplify_eq. exists "", s. split_and!; try done.
    + clear IH Hb. induction s as [|x s IH]; [done|]. cbn [strrchr strchr] in *.
      destruct (strrchr d s); [done|]. destruct (Ascii.eqb d x); [done|]. by apply IH.
    + symmetry. apply (Hb "").
Qed.

Section Refs.
Variable E : oracle.
Variables self dir : string.

(** a member that names a file names the image, or a regular file beside it *)
Definition safe_member (k : string) (v : MJ) : Prop :=
  forall s, v = MJ_STR s ->
    (is_backing_key k = true -> s = "") /\
    (k = "filename" -> s = self \/ (beside s dir /\ is_kind KReg (E _ (Lstat s)) = true)).

Lemma ref_member_safe k v : eval E (ref_member self dir k v) = Some None -> safe_member k v.
Proof.
  unfold ref_member. intros H s ->. cbn [mj_str] in H. split.
  - intros Hk. rewrite Hk in H. destruct (String.eqb_spec s ""); [done|]. cbn in H. congruence.
  - intros ->. cbn [is_backing_key] in H. change (is_backing_key "filename") with false in H.
    rewrite String.eqb_refl in H. destruct (String.eqb_spec s self); [by left|right].
    destruct (strrchr "/" s) as [sl|] eqn:Es; [|by cbn in H].
    apply strrchr_Some in Es as (a & t & Hs & Hsl & Ht & Ha).
    destruct (String.eqb_spec (before s sl) dir) as [Hd|]; [|by cbn in H]. cbn [negb] in H.
    cbn [bind call eval] in H. split; [|by destruct (is_kind KReg _)].
    exists t. split; [|done]. by rewrite <- Hd, <- Ha, <- Hsl.
Qed.

End Refs.

(** * Writing *)

(** In a dry run or without --yes, rufux_vdisk_write starts no program and
    changes no file. *)
Theorem rufux_vdisk_write_safe point fuel src vd dst opts :
  dry_run opts = true \/ yes opts = false -> always harmless (rufux_vdisk_write point fuel src vd dst opts).
Proof.
  intros H. unfold rufux_vdisk_write, target_size. always_tac.
  all: destruct H as [H|H]; rewrite H in *; discriminate.
Qed.
Lemma rufux_vdisk_write_safe_witness :
  always harmless (rufux_vdisk_write "." 5 "a" (Vdisk_ "qcow2" "QCOW2" 1) "b" (WriteOpts_ true true true true true 0)).
Proof. apply rufux_vdisk_write_safe. by left. Defined.

(** With room for every escape, json_escape is the plain escaping of device.c. *)
Lemma json_escape_to_fits s n cap :
  n + 2 * strlen s + 2 < cap -> json_escape_to s n cap = json_escape s.
Proof.
  revert n; induction s as [|c s IH]; intros n H; cbn [json_escape_to json_escape]; [done|].
  rewrite strlen_cons in H. pose proof (strlen_nonneg s). rewrite (proj2 (Z.ltb_lt _ _)) by lia.
  destruct (_ || _); rewrite IH by lia; done.
Qed.
(** However long the name, the copy never overruns its buffer. *)
Lemma json_escape_to_bound s n cap : n < cap -> n + strlen (json_escape_to s n cap) < cap.
Proof.
  revert n; induction s as [|c s IH]; intros n H; cbn [json_escape_to]; [unfold strlen; cbn; lia|].
  destruct (Z.ltb_spec (n + 3) cap); [|unfold strlen; cbn; lia].
  destruct (_ || _); rewrite !strlen_cons; [specialize (IH (n + 2))|specialize (IH (n + 1))]; lia.
Qed.

Lemma jval_object n t l : jseq (jval n) true t l -> jval (S n) (String "{" t) (MJ_OBJ l).
Proof. intros H. right; right. by exists true, t, l. Qed.
Lemma jseq_impl (V V' : string -> MJ -> Prop) obj t l :
  (forall s j, V s j -> V' s j) -> jseq V obj t l -> jseq V' obj t l.
Proof. intros HV. induction 1; econstructor; eauto. Qed.
Lemma jval_mono n m s j : (n <= m)%nat -> jval n s j -> jval m s j.
Proof.
  revert m s j; induction n as [|n IH]; intros m s j Hn H; [done|]. destruct m as [|m]; [lia|].
  destruct H as [H|[H|(obj & t & l & H & -> & ->)]]; [by left|by right; left|right; right].
  exists obj, t, l. split; [|done]. eapply jseq_impl; [|exact H]. intros. apply IH; [lia|done].
Qed.

(** What the specification denotes. *)
Definition spec_mj (vs : Z) (drv dst : string) : MJ :=
  MJ_OBJ [("driver", MJ_STR "raw"); ("offset", MJ_NUM (dec_to_double false 0 0));
          ("size", MJ_NUM (dec_to_double false vs 0));
          ("file", MJ_OBJ [("driver", MJ_STR drv); ("filename", MJ_STR dst)])].

(** The specification handed to qemu-img compare is "json:" and a JSON
    document that denotes exactly the first virtual-size bytes of the target,
    quotes and backslashes of its name included; it fits its buffer, and the
    escaped name fits its own for every path. *)
Theorem compare_spec_wf vs drv dst :
  0 <= vs < 2 ^ 64 -> sall plain drv = true -> strlen drv <= 16 ->
  no_control dst = true -> 2 * strlen dst + 2 < 2 * Z.of_nat PATH_MAX ->
  let esc := json_escape_to dst 0 (2 * Z.of_nat PATH_MAX) in
  strlen esc < 2 * Z.of_nat PATH_MAX /\
  exists doc, snprintf (2 * PATH_MAX + 160) (compare_spec vs drv esc) = "json:" +:+ doc /\ jdoc doc (spec_mj vs drv dst).
Proof.
  intros Hv Hp Hdl Hd Hl. cbv zeta.
  assert (Hb : strlen (json_escape_to dst 0 (2 * Z.of_nat PATH_MAX)) < 2 * Z.of_nat PATH_MAX).
  { pose proof (json_escape_to_bound dst 0 (2 * Z.of_nat PATH_MAX) ltac:(unfold PATH_MAX; lia)). lia. }
  split; [exact Hb|]. rewrite json_escape_to_fits in * by lia.
  set (esc := json_escape dst) in *.
  assert (Hj : jval 2 (String "{" (quoted "driver" +:+ String ":" (quoted drv +:+ String "," (quoted "filename"
      +:+ String ":" (quoted esc +:+ "}"))))) (MJ_OBJ [("driver", MJ_STR drv); ("filename", MJ_STR dst)])).
  { apply jval_object. apply jseq_field; [done| |apply jseq_field_last; [done|]]; apply jval_scalar, js_str.
    - by apply jchars_plain.
    - by apply jchars_escape. }
  assert (Hs : jval 3 (String "{" (quoted "driver" +:+ String ":" (quoted "raw" +:+ String "," (quoted "offset"
      +:+ String ":" ("0" +:+ String "," (quoted "size" +:+ String ":" (dec vs +:+ String "," (quoted "file"
      +:+ String ":" (String "{" (quoted "driver" +:+ String ":" (quoted drv +:+ String "," (quoted "filename"
      +:+ String ":" (quoted esc +:+ "}")))) +:+ "}"))))))))) (spec_mj vs drv dst)).
  { apply jval_object. apply jseq_field; [done|by apply jval_scalar, js_str, jchars_plain|].
    apply jseq_field; [done|apply jval_scalar, js_num, (jnum_dec 0); lia|].
    apply jseq_field; [done|apply jval_scalar, js_num, jnum_dec; lia|]. by apply jseq_field_last. }
  eexists. split.
  - rewrite snprintf_fits; [unfold compare_spec; cbn; reflexivity|].
    pose proof (strlen_dec 19 vs ltac:(lia)). unfold compare_spec, PATH_MAX in *.
    rewrite !strlen_app. lit_len. lia.
  - exists "", "". eexists _, "". split_and!; [by left|done| |done|].
    + eapply jval_mono; [|exact Hs]. unfold MJ_MAX_DEPTH. lia.
    + cbn. rewrite sapp_nil_r. unfold quoted. rewrite ?sapp_assoc. cbn. rewrite ?sapp_assoc. reflexivity.
Qed.
Lemma compare_spec_wf_witness :
  exists doc, snprintf (2 * PATH_MAX + 160) (compare_spec 512 "file" (json_escape_to (qq "a'b") 0 (2 * Z.of_nat PATH_MAX)))
    = "json:" +:+ doc /\ jdoc doc (spec_mj 512 "file" (qq "a'b")).
Proof. apply (compare_spec_wf 512 "file" (qq "a'b")); vm_compute; repeat split; congruence. Defined.
