(* ===== verification/Partition.v ===== *)
(** src/src/linux/partition.c: the sfdisk script for each layout, running it,
    and the boot code of MBR disks.

    A layout is a list of [part] lines; [render] prints them as the C code's
    format strings do. *)
From S2P Require Import Prelude Cstr Sys Exec Device.

Record RufuxPartOpts := PartOpts_ {
  po_scheme : string; po_layout : string; po_fs_main : option string; po_bios_boot : bool;
  po_dry_run : bool; po_allow_fixed : bool; po_allow_file : bool; po_yes : bool }.

Definition BIOS_BOOT_GUID : string := "21686148-6449-6E6F-744E-656564454649".
Definition BASIC_DATA_GUID : string := "EBD0A0A2-B9E5-4433-87C0-68B6B72699C7".
Definition LINUX_GUID : string := "0FC63DAF-8483-4772-8E79-3D69D8477DE4".
Definition ESP_GUID : string := "C12A7328-F81F-11D2-BA4B-00A0C93EC93B".

(** One line of an sfdisk script; sizes in MiB. *)
Record part := Part_ {
  pt_start : option Z; pt_size : option Z; pt_type : string;
  pt_name : option string; pt_attrs : option string; pt_boot : bool }.

Definition fields (p : part) : list string :=
  match pt_start p with Some n => ["start=" +:+ dec n +:+ "MiB"] | None => [] end ++
  match pt_size p with Some n => ["size=" +:+ dec n +:+ "MiB"] | None => [] end ++
  ["type=" +:+ pt_type p] ++
  match pt_name p with Some n => [qq "name='" +:+ n +:+ qq "'"] | None => [] end ++
  match pt_attrs p with Some a => [qq "attrs='" +:+ a +:+ qq "'"] | None => [] end ++
  (if pt_boot p then ["bootable"] else []).
Definition render_part (p : part) : string := String.concat ", " (fields p) +:+ LF.
Definition render (scheme : string) (l : list part) : string :=
  "label: " +:+ scheme +:+ LF +:+ String.concat "" (map render_part l).

(** the MBR type byte of the data partition *)
Definition mbr_type (fs : option string) : string :=
  match fs with
  | Some f =>
      if String.eqb f "fat16" then "0e"
      else if String.eqb f "ntfs" || String.eqb f "exfat" || String.eqb f "udf" then "07"
      else if String.eqb f "ext4" || String.eqb f "ext2" || String.eqb f "ext3" then "83"
      else "0c"
  | None => "0c"
  end.

Definition bios_part_line : part := Part_ None (Some 1) BIOS_BOOT_GUID (Some "BIOS boot") None false.
(** data partition first, 1 MiB UEFI:NTFS after it, BIOS boot last *)
Definition uefintfs_layout (gpt bios : bool) (mib : Z) (mt : string) : list part :=
  let main_mib := mib - 3 - (if bios then 1 else 0) in
  if gpt then
    [Part_ (Some 1) (Some main_mib) BASIC_DATA_GUID (Some "Windows") None false;
     Part_ None (Some 1) BASIC_DATA_GUID (Some "UEFI:NTFS") (Some "GUID:63") false] ++
    (if bios then [bios_part_line] else [])
  else
    [Part_ (Some 1) (Some main_mib) mt None None true; Part_ None (Some 1) "ef" None None false].
Definition single_layout (gpt bios : bool) (mib : Z) (mt : string) : list part :=
  if gpt then
    let gtype := if String.eqb mt "83" then LINUX_GUID else BASIC_DATA_GUID in
    if bios then [Part_ (Some 1) (Some (mib - 3)) gtype None None false; bios_part_line]
    else [Part_ (Some 1) None gtype None None false]
  else [Part_ (Some 1) None mt None None true].
Definition esp_layout (gpt : bool) (mt : string) : list part :=
  if gpt then [Part_ None (Some 512) ESP_GUID None None false; Part_ None None BASIC_DATA_GUID None None false]
  else [Part_ None (Some 512) "ef" None None false; Part_ None None mt None None true].

Section Partition.
Variable fuel : nat.
(** the text of whatever errno holds when the boot code could not be written *)
Variable stale_errno : string.

(** size of a block device or image file in bytes, 0 on failure *)
Definition target_bytes (path : string) : io Z :=
  st <- call (Stat path) ;;
  match st with
  | None => Ret 0
  | Some s =>
      if is_kind KReg st then Ret (st_size s)
      else
        fd <- call (Open path O_RDONLY) ;;
        b <- match fd with
             | inr fd => b <- call (GetSize64 fd) ;; call (Close fd) ;;; Ret (default 0 b)
             | inl _ => Ret 0
             end ;;
        if b =? 0 then
          t <- call (ReadText (snprintf 256 ("/sys/class/block/" +:+ basename path +:+ "/size"))) ;;
          Ret (match t with
               | Some (String c s) => (strtoul10 (stake 63 (String c s)) * 512) mod 2 ^ 64
               | _ => 0
               end)
        else Ret b
  end.

(** The script for the layout, or the message of a refusal. *)
Definition make_script (dst : string) (o : RufuxPartOpts) (scheme : string) : io (cres string) :=
  let gpt := String.eqb scheme "gpt" in
  let bios := po_bios_boot o && gpt in
  let mt := mbr_type (po_fs_main o) in
  if String.eqb (po_layout o) "main+uefintfs" then
    bytes <- target_bytes dst ;;
    let mib := Z.shiftr bytes 20 in
    if mib <? 64 then
      fail ("target '" +:+ dst +:+ "' reports " +:+ dec mib +:+ " MiB; the Windows layout needs at least 64 MiB "
            +:+ "(an empty card-reader slot reports 0)")
    else ok (snprintf 1024 (render scheme (uefintfs_layout gpt bios mib mt)))
  else if String.eqb (po_layout o) "single" then
    if bios then
      bytes <- target_bytes dst ;;
      let mib := Z.shiftr bytes 20 in
      if mib <? 64 then
        fail ("target '" +:+ dst +:+ "' reports " +:+ dec mib +:+ " MiB; a GPT layout with a BIOS boot "
              +:+ "partition needs at least 64 MiB (an empty card-reader slot reports 0)")
      else ok (snprintf 1024 (render scheme (single_layout gpt bios mib mt)))
    else ok (snprintf 1024 (render scheme (single_layout gpt bios 0 mt)))
  else ok (snprintf 1024 (render scheme (esp_layout gpt mt))).

(** the first of the candidate files that has content, cut to 440 bytes and
    padded with zeros *)
Definition MBR_CANDIDATES : list string :=
  ["/usr/lib/syslinux/mbr/mbr.bin"; "/usr/lib/syslinux/bios/mbr.bin"; "/usr/share/syslinux/mbr.bin";
   "/usr/lib/SYSLINUX/mbr.bin"].
Definition load_bootcode : io (option (list byte)) :=
  ed <- rufux_exe_dir ;;
  let cands := (if String.eqb ed "" then [] else [snprintf 1152 (ed +:+ "/../share/syslinux/mbr.bin")]) ++ MBR_CANDIDATES in
  first_io (fun c =>
    f <- call (Fopen c "rb") ;;
    match f with
    | inl _ => Ret None
    | inr f =>
        l <- call (Fread f 440) ;;
        call (Fclose f) ;;;
        Ret (if 0 <? zlen l then Some (l ++ replicate (440 - length l) Byte.x00) else None)
    end) cands.
(** [true] is the return value 0 *)
Definition write_mbr_bootcode (dst : string) : io bool :=
  code <- load_bootcode ;;
  match code with
  | None => Ret true
  | Some code =>
      fd <- call (Open dst O_WRONLY) ;;
      match fd with
      | inl _ => Ret false
      | inr fd =>
          w <- rufux_pwrite_all fuel fd code 0 ;;
          bad <- (if is_ok w then s <- call (Fsync fd) ;; Ret (negb (bool_decide (s = None))) else Ret true) ;;
          call (Close fd) ;;;
          Ret (negb bad)
      end
  end.

(** sfdisk on the temporary file that holds the script *)
Definition run_sfdisk (dst script : string) : io (cres bool) :=
  t <- call (Mkstemp "/tmp/rufux-sfdisk-XXXXXX") ;;
  match t with
  | None => fail "mkstemp failed"
  | Some (tmpl, fd) =>
      w <- call (Write fd (bytes_of_string script)) ;;
      if negb (match w with inr n => n =? strlen script | inl _ => false end)
      then call (Close fd) ;;; call (Unlink tmpl) ;;; fail "tmp write failed"
      else
        call (Close fd) ;;;
        st <- call (Spawn ["sfdisk"; "--wipe"; "always"; "--wipe-partitions"; "always"; dst] (Some tmpl)) ;;
        call (Unlink tmpl) ;;;
        ok (exited_ok st)
  end.
(** tell the kernel (best effort) *)
Definition rescan (dst : string) : io unit :=
  pp <- rufux_have "partprobe" ;;
  (if pp then rufux_run ["partprobe"; dst] false ;;; Ret tt else Ret tt) ;;;
  ua <- rufux_have "udevadm" ;;
  (if ua then rufux_run ["udevadm"; "settle"] false ;;; Ret tt else Ret tt).

(** the checks after a successful sfdisk *)
Definition after_sfdisk (dst scheme : string) : io (cres unit) :=
  if String.eqb scheme "dos" then
    b <- write_mbr_bootcode dst ;;
    if b then ok tt
    else fail ("could not write the MBR boot code to '" +:+ dst +:+ "': " +:+ stale_errno)
  else
    h <- rufux_have "sfdisk" ;;
    if h then
      c <- rufux_capture fuel ["sfdisk"; "-l"; dst] 8192 ;;
      if c.1 && contains " unknown" c.2
      then fail ("the partition table on '" +:+ dst +:+ "' has a partition type Windows would not recognise")
      else ok tt
    else ok tt.

Definition valid_scheme (s : string) : bool := String.eqb s "gpt" || String.eqb s "dos" || String.eqb s "mbr".
Definition valid_layout (s : string) : bool :=
  String.eqb s "single" || String.eqb s "esp+main" || String.eqb s "main+uefintfs".

Definition rufux_partition (dst : string) (o : RufuxPartOpts) : io (cres unit) :=
  if negb (valid_scheme (po_scheme o)) then fail "scheme must be gpt|dos (mbr alias dos)"
  else
    let scheme := if String.eqb (po_scheme o) "mbr" then "dos" else po_scheme o in
    if negb (valid_layout (po_layout o)) then fail "layout must be single|esp+main|main+uefintfs"
    else if negb (po_dry_run o) && negb (po_yes o) then fail "refusing real partition without --yes"
    else
      rufux_check_target dst (po_allow_fixed o) (po_allow_file o) ?;;
      h <- rufux_have "sfdisk" ;;
      if negb h then fail "sfdisk not found"
      else
        script <-? make_script dst o scheme ;;
        if po_dry_run o then
          call (Stderr ("+ sfdisk --wipe always --wipe-partitions always " +:+ dst +:+ " <<'" +:+ script +:+ "'" +:+ LF)) ;;;
          ok tt
        else
          done <-? run_sfdisk dst script ;;
          rescan dst ;;;
          if negb done then fail ("sfdisk failed on '" +:+ dst +:+ "'")
          else after_sfdisk dst scheme.

Definition rufux_partition_plan (dst : string) (o : RufuxPartOpts) : string :=
  "partition " +:+ dst +:+ " as " +:+ po_scheme o +:+ "/" +:+ po_layout o +:+ " (sfdisk)" +:+
  (if po_dry_run o then " [dry-run]" else "").
End Partition.

Example render_ex :
  render "gpt" (uefintfs_layout true true 100 "07") =
  "label: gpt" +:+ LF +:+
  qq "start=1MiB, size=96MiB, type=EBD0A0A2-B9E5-4433-87C0-68B6B72699C7, name='Windows'" +:+ LF +:+
  qq "size=1MiB, type=EBD0A0A2-B9E5-4433-87C0-68B6B72699C7, name='UEFI:NTFS', attrs='GUID:63'" +:+ LF +:+
  qq "size=1MiB, type=21686148-6449-6E6F-744E-656564454649, name='BIOS boot'" +:+ LF.
Proof. vm_compute. reflexivity. Qed.
