(* ===== verification/Mkfs.v ===== *)
(** src/src/linux/mkfs_task.c: the mkfs command line for each file system, and
    the check that an NTFS volume fits its partition. src/src/linux/persist.c:
    the persistence file of live systems. *)
From S2P Require Import Prelude Cstr Double Sys Exec Device DeviceSpec.

Record RufuxMkfsOpts := MkfsOpts_ {
  mf_fs : string;              (* "" also stands for NULL *)
  mf_label : string;           (* "" also stands for NULL *)
  mf_cluster_sectors : Z;
  mf_dry_run : bool; mf_allow_fixed : bool; mf_allow_file : bool; mf_yes : bool }.

Definition rufux_fs_is_fat16 (fs : string) : bool := String.eqb fs "fat16".
Definition rufux_fs_is_fat (fs : string) : bool :=
  String.eqb fs "vfat" || String.eqb fs "fat32" || String.eqb fs "fat16".
Definition is_ext (fs : string) : bool := String.eqb fs "ext4" || String.eqb fs "ext2" || String.eqb fs "ext3".

(** * Sizes from sysfs *)

(** [fgets (buf, 64)] and strtoull of one attribute; 0 when it cannot be read *)
Definition sysfs_value (path : string) : io Z :=
  t <- call (ReadText path) ;;
  Ret (match t with
       | Some s => strtoul10 (match fgets_all 64 s with l :: _ => l | [] => "" end)
       | None => 0
       end).
Definition part_start_sector (dev : string) : io Z :=
  sysfs_value (snprintf 256 ("/sys/class/block/" +:+ basename dev +:+ "/start")).
Definition sysfs_num (name file : string) : io Z :=
  sysfs_value (snprintf 300 ("/sys/class/block/" +:+ name +:+ "/" +:+ file)).

(** up to [n] looks, 0.2 s apart, until the partition lies inside its disk *)
Fixpoint settle (n : nat) (base disk : string) : io Z :=
  match n with
  | O => Ret 0
  | S m =>
      sz <- sysfs_num base "size" ;;
      st <- sysfs_num base "start" ;;
      dk <- sysfs_num disk "size" ;;
      if (0 <? sz) && (0 <? dk) && ((st + sz) mod 2 ^ 64 <=? dk) then Ret sz
      else call (Usleep 200000) ;;; settle m base disk
  end.
Definition settled_part_sectors (dev : string) : io Z :=
  real <- call (Realpath (snprintf 300 ("/sys/class/block/" +:+ basename dev +:+ "/.."))) ;;
  match real with
  | inl _ => Ret 0
  | inr real => settle 25 (basename dev) (basename real)
  end.

Definition dev_bytes (path : string) : io Z :=
  st <- call (Stat path) ;;
  match st with
  | None => Ret 0
  | Some s =>
      if is_kind KReg st then Ret (st_size s)
      else
        fd <- call (Open path O_RDONLY) ;;
        match fd with
        | inr fd => b <- call (GetSize64 fd) ;; call (Close fd) ;;; Ret (default 0 b)
        | inl _ => Ret 0
        end
  end.

(** * Command lines *)
Definition opt_arg (flag value : string) : list string := if String.eqb value "" then [] else [flag; value].
(** labels are printed into char[160] *)
Definition label_arg (flag label : string) : list string := opt_arg flag (snprintf 160 label).

Definition argv_vfat (o : RufuxMkfsOpts) (spc : Z) (dst : string) : list string :=
  ["mkfs.vfat"; "-F"; if rufux_fs_is_fat16 (mf_fs o) then "16" else "32"] ++
  (if 0 <? spc then ["-s"; dec spc] else []) ++ label_arg "-n" (mf_label o) ++ [dst].
Definition argv_ntfs (o : RufuxMkfsOpts) (start count : Z) (dst : string) : list string :=
  ["mkfs.ntfs"; "-F"; "-Q"; "-p"; dec (if start =? 0 then 2048 else start); "-H"; "255"; "-S"; "63"] ++
  (if 0 <? mf_cluster_sectors o then ["-c"; dec (to_int (mf_cluster_sectors o * 512))] else []) ++
  label_arg "-L" (mf_label o) ++ [dst] ++ (if count =? 0 then [] else [dec count]).
Definition argv_exfat (o : RufuxMkfsOpts) (dst : string) : list string :=
  ["mkfs.exfat"] ++ label_arg "-n" (mf_label o) ++ [dst].
Definition argv_ext (o : RufuxMkfsOpts) (dst : string) : list string :=
  ["mkfs.ext4"; "-t"; mf_fs o; "-F"] ++ label_arg "-L" (mf_label o) ++ [dst].

Definition max_label (fs : string) : Z :=
  if rufux_fs_is_fat fs then 11 else if String.eqb fs "exfat" then 15 else if is_ext fs then 16 else 32.

Section Format.
Variable point : ascii.

(** sectors per cluster for FAT, or the refusal of an oversized FAT16 volume *)
Definition vfat_spc (o : RufuxMkfsOpts) (dst : string) : io (cres Z) :=
  if rufux_fs_is_fat16 (mf_fs o) then
    bytes <- dev_bytes dst ;;
    if 4 * 2 ^ 30 <? bytes then
      fail ("FAT16 volumes are limited to 4 GiB ('" +:+ dst +:+ "' is " +:+
            fmt_f point 1 (ddiv (Z2double bytes) (Z2double (2 ^ 30))) +:+ " GiB); use FAT32")
    else ok (if (mf_cluster_sectors o <=? 0) && (2 * 2 ^ 30 <? bytes) then 128 else mf_cluster_sectors o)
  else ok (mf_cluster_sectors o).

(** The command line, with the sector count an NTFS volume was limited to. *)
Definition build_argv (o : RufuxMkfsOpts) (dst : string) : io (cres (list string * Z)) :=
  let fs := mf_fs o in
  if rufux_fs_is_fat fs then
    h <- rufux_have "mkfs.vfat" ;;
    if negb h then fail "mkfs.vfat missing"
    else spc <-? vfat_spc o dst ;; ok (argv_vfat o spc dst, 0)
  else if String.eqb fs "ntfs" then
    h <- rufux_have "mkfs.ntfs" ;;
    if negb h then fail "mkfs.ntfs missing (ntfsprogs)"
    else
      st <- part_start_sector dst ;;
      if mf_dry_run o then ok (argv_ntfs o st 0 dst, 0)
      else
        n <- settled_part_sectors dst ;;
        if (n =? 0) && contains "/dev/" dst then
          fail ("the kernel reports an inconsistent size for '" +:+ dst +:+ "' (partition table not re-read); "
                +:+ "unplug and replug the drive and try again")
        else ok (argv_ntfs o st n dst, n)
  else if String.eqb fs "exfat" then
    h <- rufux_have "mkfs.exfat" ;;
    if negb h then fail "mkfs.exfat missing" else ok (argv_exfat o dst, 0)
  else if is_ext fs then
    h <- rufux_have "mkfs.ext4" ;;
    if negb h then fail "mkfs.ext4 missing" else ok (argv_ext o dst, 0)
  else if String.eqb fs "udf" then
    h <- rufux_have "mkfs.udf" ;;
    if negb h then fail "mkfs.udf missing" else ok (["mkfs.udf"; dst], 0)
  else if String.eqb fs "refs" || String.eqb fs "refsv1" then
    fail "ReFS has no Linux formatter (proprietary filesystem); use ntfs"
  else fail ("unsupported fs '" +:+ fs +:+ "' (vfat|fat16|ntfs|exfat|ext2|ext3|ext4|udf)").

(** total sectors of the NTFS boot sector against the partition *)
Definition check_ntfs (dst : string) (part_sectors : Z) : io (cres unit) :=
  fd <- call (Open dst O_RDONLY) ;;
  match fd with
  | inl _ => ok tt
  | inr fd =>
      r <- call (Pread fd 512 0) ;;
      call (Close fd) ;;;
      match r with
      | inr bs =>
          let total := le (slice 0x28 8 bs) in
          if (zlen bs =? 512) && (part_sectors <? total) then
            fail ("NTFS volume (" +:+ dec total +:+ " sectors) is larger than its partition (" +:+ dec part_sectors
                  +:+ "): " +:+ "Windows would not mount it. Replug the drive and retry.")
          else ok tt
      | inl _ => ok tt
      end
  end.

Definition rufux_format (dst : string) (o : RufuxMkfsOpts) : io (cres unit) :=
  if String.eqb (mf_fs o) "" then fail "need --fs"
  else if negb (mf_dry_run o) && negb (mf_yes o) then fail "refusing real format without --yes"
  else if negb (String.eqb (mf_label o) "") && (max_label (mf_fs o) <? strlen (mf_label o)) then
    fail ("label '" +:+ mf_label o +:+ "' too long for " +:+ mf_fs o +:+ " (max " +:+ dec (max_label (mf_fs o)) +:+ " chars)")
  else
    rufux_check_target dst (mf_allow_fixed o) (mf_allow_file o) ?;;
    an <-? build_argv o dst ;;
    let '(av, part_sectors) := an in
    r <- rufux_run av (mf_dry_run o) ;;
    if negb r then
      if mf_dry_run o then ok tt else fail ("mkfs." +:+ mf_fs o +:+ " failed on '" +:+ dst +:+ "'")
    else if negb (mf_dry_run o) && String.eqb (mf_fs o) "ntfs" && negb (part_sectors =? 0)
    then check_ntfs dst part_sectors
    else ok tt.
End Format.

(** * persist.c *)
Definition rufux_create_persist (dir label : string) (size_mb : Z) (dry : bool) : io (cres unit) :=
  let label := if String.eqb label "" then "casper-rw" else label in
  if (size_mb =? 0) || (16384 <? size_mb) then fail "size must be 1..16384 MB"
  else
    st <- call (Stat dir) ;;
    if negb (is_kind KDir st) then fail ("dir '" +:+ dir +:+ "' missing")
    else
      let path := snprintf 1024 (dir +:+ "/" +:+ label) in
      let sz := dec size_mb +:+ "M" in
      if dry then
        call (Stderr ("+ truncate -s " +:+ sz +:+ " " +:+ path +:+ " && mkfs.ext4 -F -L " +:+ label +:+ " " +:+ path +:+ LF)) ;;;
        ok tt
      else
        h <- rufux_have "truncate" ;;
        if negb h then fail "truncate missing"
        else
          h <- rufux_have "mkfs.ext4" ;;
          if negb h then fail "mkfs.ext4 missing"
          else
            r <- rufux_run ["truncate"; "-s"; sz; path] false ;;
            if negb r then fail "truncate failed"
            else
              r <- rufux_run ["mkfs.ext4"; "-F"; "-L"; snprintf 256 label; path] false ;;
              if negb r then fail "mkfs.ext4 persist failed" else ok tt.

(** * Properties *)

(** A size that settle reports was seen inside the disk, with no wrap-around,
    and was not zero. *)
Lemma settle_inside E n base disk sz :
  eval E (settle n base disk) = Some sz -> sz <> 0 ->
  exists st dk, eval E (sysfs_num base "start") = Some st /\ eval E (sysfs_num disk "size") = Some dk /\
    eval E (sysfs_num base "size") = Some sz /\ (st + sz) mod 2 ^ 64 <= dk.
Proof.
  induction n as [|n IH]; cbn [settle]; [by intros [= <-]|]. rewrite !eval_bind.
  destruct (eval E (sysfs_num base "size")) as [s|] eqn:E1; [|done]. rewrite eval_bind.
  destruct (eval E (sysfs_num base "start")) as [st|] eqn:E2; [|done]. rewrite eval_bind.
  destruct (eval E (sysfs_num disk "size")) as [dk|] eqn:E3; [|done].
  destruct (_ && _) eqn:Hc; [|by apply IH].
  intros [= <-] _. apply andb_true_iff in Hc as [_ Hc%Z.leb_le]. exists st, dk. auto.
Qed.

(** The arrays of the C function, with room for the final NULL. *)
Definition slots (fs : string) : nat :=
  if rufux_fs_is_fat fs then 9 else if String.eqb fs "ntfs" then 18 else if String.eqb fs "exfat" then 5
  else if is_ext fs then 9 else 4.

Lemma label_arg_length f l : (length (label_arg f l) <= 2)%nat.
Proof. unfold label_arg, opt_arg. case_match; cbn; lia. Qed.

(** Whatever the options, the command line rufux_format builds fits the
    argument array reserved for its file system together with the final NULL,
    it names the target, and for NTFS the sector count given to mkntfs is one
    that sysfs showed inside the disk. *)
Theorem build_argv_fits point E o dst av n :
  eval E (build_argv point o dst) = Some (Ok (av, n)) ->
  (length av + 1 <= slots (mf_fs o))%nat /\ dst ∈ av /\
  (n <> 0 -> eval E (settled_part_sectors dst) = Some n /\ dec n ∈ av).
Proof.
  unfold build_argv, slots. cbv zeta.
  assert (Hin : forall (a b : list string), dst ∈ a ++ dst :: b).
  { intros. apply elem_of_app. right. by left. }
  pose proof (label_arg_length "-n" (mf_label o)). pose proof (label_arg_length "-L" (mf_label o)).
  assert (Hh : forall (name : string) (k : io (cres (list string * Z))) m r,
    eval E (h <- rufux_have name ;; if negb h then fail m else k) = Some (Ok r) -> eval E k = Some (Ok r)).
  { intros name k m r. rewrite eval_bind. destruct (eval E (rufux_have name)) as [[]|]; cbn; try done. }
  destruct (rufux_fs_is_fat (mf_fs o)).
  { intros Hv%Hh. unfold try in Hv. rewrite eval_bind in Hv.
    destruct (eval E (vfat_spc point o dst)) as [[spc|m]|]; [|done..]. cbn [eval ok] in Hv. simplify_eq.
    unfold argv_vfat. split_and!; [|do 3 right; rewrite app_assoc; apply Hin|done].
    cbn [app length]. rewrite !length_app. destruct (0 <? spc); cbn [length]; lia. }
  destruct (String.eqb (mf_fs o) "ntfs").
  { intros Hv%Hh. rewrite eval_bind in Hv.
    destruct (eval E (part_start_sector dst)) as [st|]; [|done].
    assert (Hb : forall c, (length (argv_ntfs o st c dst) + 1 <= 18)%nat /\ dst ∈ argv_ntfs o st c dst).
    { intros c. unfold argv_ntfs. split; [|rewrite !app_assoc, <- (app_assoc _ [dst]); apply Hin].
      rewrite !length_app. destruct (0 <? _), (c =? 0); cbn [length]; lia. }
    destruct (mf_dry_run o); [cbn [eval ok] in Hv; simplify_eq; by destruct (Hb 0)|].
    rewrite eval_bind in Hv. destruct (eval E (settled_part_sectors dst)) as [c|]; [|done].
    destruct (_ && _); [done|]. cbn [eval ok] in Hv. simplify_eq. destruct (Hb n) as [H1 H2].
    split_and!; [done|done|]. intros Hn. split; [done|]. unfold argv_ntfs.
    rewrite (proj2 (Z.eqb_neq n 0) Hn), !app_assoc. apply elem_of_app. right. by left. }
  destruct (String.eqb (mf_fs o) "exfat").
  { intros Hv%Hh. cbn [eval ok] in Hv. simplify_eq. unfold argv_exfat.
    split_and!; [rewrite !length_app; cbn [length]; lia|right; apply Hin|done]. }
  destruct (is_ext (mf_fs o)).
  { intros Hv%Hh. cbn [eval ok] in Hv. simplify_eq. unfold argv_ext.
    split_and!; [rewrite !length_app; cbn [length]; lia|do 4 right; apply Hin|done]. }
  destruct (String.eqb (mf_fs o) "udf").
  { intros Hv%Hh. cbn [eval ok] in Hv. simplify_eq. split_and!; [cbn; lia|right; by left|done]. }
  by destruct (_ || _).
Qed.
Lemma build_argv_fits_witness :
  let E : oracle := fun X e => match e in ev X return X with
    | Access _ _ => true | Realpath _ => inr "/sys/block/sdb"
    | ReadText p => if contains "start" p then Some "2048" else if contains "sdb1" p then Some "1000" else Some "9999"
    | e => default_answer e end in
  let o := MkfsOpts_ "ntfs" "WIN" 8 false true true true in
  eval E (settled_part_sectors "/dev/sdb1") = Some 1000.
Proof.
  intros E o.
  destruct (build_argv_fits "." E o "/dev/sdb1"
    ["mkfs.ntfs"; "-F"; "-Q"; "-p"; "2048"; "-H"; "255"; "-S"; "63"; "-c"; "4096"; "-L"; "WIN"; "/dev/sdb1"; "1000"] 1000)
    as (_ & _ & H); [vm_compute; reflexivity|]. by apply H.
Defined.

(** A dry run formats nothing. *)
Lemma settle_harmless n b d : always harmless (settle n b d).
Proof. induction n as [|n IH]; cbn [settle]; unfold sysfs_num, sysfs_value; always_tac. Qed.
#[export] Hint Resolve settle_harmless : rufux.
Lemma rufux_have_harmless n : always harmless (rufux_have n).
Proof. unfold rufux_have, path_dirs. always_tac. Qed.
#[export] Hint Resolve rufux_have_harmless : rufux.
Lemma rufux_run_dry av : always harmless (rufux_run av true).
Proof. unfold rufux_run. always_tac. Qed.
#[export] Hint Resolve rufux_run_dry : rufux.
Lemma rufux_format_dry point dst o : mf_dry_run o = true -> always harmless (rufux_format point dst o).
Proof.
  intros H. unfold rufux_format, build_argv, vfat_spc, dev_bytes, part_start_sector, sysfs_value. rewrite H.
  always_tac. all: discriminate.
Qed.
