(* ===== verification/Host.v ===== *)
(** The small helpers around a write: mount.c, priv.c, secureboot.c, smart.c,
    update.c and boot.c of src/src/linux/. *)
From S2P Require Import Prelude Cstr Sys Exec Device DeviceSpec Mkfs Vhd.

(** * mount.c *)

(** the node of a disk's first partition *)
Fixpoint last_char (s : string) : option ascii :=
  match s with "" => None | String c "" => Some c | String _ t => last_char t end.
Definition rufux_part1 (disk : string) : string :=
  disk +:+ (match last_char disk with Some c => if is_digit c then "p" else "" | None => "" end) +:+ "1".

Definition dry_log (prog op dev : string) : io unit :=
  call (Stderr ("+ " +:+ prog +:+ " " +:+ op +:+ " -b " +:+ dev +:+ " --no-user-interaction" +:+ LF)).

(** drop the characters of [P] at the end *)
Fixpoint rtrim (P : ascii -> bool) (s : string) : string :=
  match s with
  | "" => ""
  | String c t => let t' := rtrim P t in if P c && String.eqb t' "" then "" else String c t'
  end.
Definition drop_period (s : string) : string :=
  match last_char s with
  | Some c => if Ascii.eqb c "." then stake (String.length s - 1) s else s
  | None => s
  end.
(** The path in "Mounted /dev/sda1 at /run/media/user/LABEL." *)
Definition mount_point (cap : nat) (out : string) : option string :=
  match strstr " at " out with
  | None => None
  | Some at_ =>
      let line := snprintf cap (span (fun c => negb (Ascii.eqb c (chr 10))) (sdrop 4 at_)).1 in
      Some (drop_period (rtrim (fun c => Ascii.eqb c " " || Ascii.eqb c (chr 13)) line))
  end.

Section Mount.
Variable fuel : nat.
Definition rufux_mount (dev : string) (dry : bool) (cap : nat) : io (cres string) :=
  h <- rufux_have "udisksctl" ;;
  if negb h then fail "udisksctl not found (install udisks2)"
  else if dry then dry_log "udisksctl" "mount" dev ;;; ok (snprintf cap "(dry-run)")
  else
    c <- rufux_capture fuel ["udisksctl"; "mount"; "-b"; dev; "--no-user-interaction"] 1024 ;;
    if negb c.1 then fail ("udisksctl mount failed: " +:+ stake 400 c.2)
    else
      match mount_point cap c.2 with
      | None => fail ("cannot parse mount output: " +:+ stake 400 c.2)
      | Some "" => fail "empty mountpoint"
      | Some m => ok m
      end.
Definition rufux_unmount (dev : string) (dry : bool) : io (cres unit) :=
  h <- rufux_have "udisksctl" ;;
  if negb h then fail "udisksctl not found (install udisks2)"
  else if dry then dry_log "udisksctl" "unmount" dev ;;; ok tt
  else
    c <- rufux_capture fuel ["udisksctl"; "unmount"; "-b"; dev; "--no-user-interaction"] 1024 ;;
    if negb c.1 then fail ("udisksctl unmount failed: " +:+ stake 400 c.2) else ok tt.
End Mount.

(** * priv.c *)
Definition rufux_need_root_for_block (path : string) : io (cres unit) :=
  st <- call (Stat path) ;;
  if negb (is_kind KBlk st) then ok tt
  else
    u <- call Geteuid ;;
    if u =? 0 then ok tt
    else fail ("target '" +:+ path +:+ "' is a block device: re-run as root "
               +:+ "(sudo rufux ... or pkexec rufux ...)").

(** * secureboot.c *)
Inductive RufuxSbState := RUFUX_SB_ENABLED | RUFUX_SB_DISABLED | RUFUX_SB_UNKNOWN.
Definition rufux_sb_string (s : RufuxSbState) : string :=
  match s with RUFUX_SB_ENABLED => "enabled" | RUFUX_SB_DISABLED => "disabled" | RUFUX_SB_UNKNOWN => "unknown" end.

(** the value byte of an EFI variable, after four bytes of attributes *)
Definition efivar_byte (name : string) : io (option Z) :=
  f <- call (Fopen (snprintf 256 ("/sys/firmware/efi/efivars/" +:+ name)) "rb") ;;
  match f with
  | inl _ => Ret None
  | inr f => b <- call (Fread f 8) ;; call (Fclose f) ;;; Ret (if zlen b <? 5 then None else rd8 b 4)
  end.
Definition SB_VAR : string := "SecureBoot-8be4df61-93ca-11d2-aa0d-00e098032b8c".
Definition SETUP_VAR : string := "SetupMode-8be4df61-93ca-11d2-aa0d-00e098032b8c".

(** the first line of bootctl's output about Secure Boot *)
Fixpoint bootctl_state (lines : list string) : RufuxSbState :=
  match lines with
  | [] => RUFUX_SB_UNKNOWN
  | l :: t =>
      if strcasestr "secure boot" l then
        if contains "enabled" l then RUFUX_SB_ENABLED
        else if contains "disabled" l then RUFUX_SB_DISABLED else RUFUX_SB_UNKNOWN
      else bootctl_state t
  end.
Definition rufux_sb_state (fuel : nat) : io RufuxSbState :=
  sb <- efivar_byte SB_VAR ;;
  match sb with
  | Some b =>
      if b =? 0 then Ret RUFUX_SB_DISABLED
      else
        setup <- efivar_byte SETUP_VAR ;;
        Ret (match setup with
             | Some s => if s =? 1 then RUFUX_SB_DISABLED else RUFUX_SB_ENABLED
             | None => RUFUX_SB_ENABLED
             end)
  | None =>
      h <- rufux_have "bootctl" ;;
      if h then
        c <- rufux_capture fuel ["bootctl"; "status"] 4096 ;;
        Ret (if c.1 then bootctl_state (tok_char (chr 10) c.2) else RUFUX_SB_UNKNOWN)
      else Ret RUFUX_SB_UNKNOWN
  end.

(** A field of [n] bytes at [off] of an open file; [None]: seek or read failed. *)
Definition file_field (f off n : Z) : io (option (list byte)) :=
  s <- call (Fseek f off) ;;
  if s then b <- call (Fread f n) ;; Ret (if zlen b =? n then Some b else None) else Ret None.

(** The subsystem of an EFI program, or why the file is not one. *)
Definition efi_subsystem (f : Z) (path : string) : io (cres Z) :=
  mz <- call (Fread f 2) ;;
  if negb (bytes_eqb mz (bytes_of_string "MZ")) then fail ("'" +:+ path +:+ "' is not a PE binary (no MZ header)")
  else
    l <- file_field f 0x3C 4 ;;
    match l with
    | None => fail "cannot read PE offset"
    | Some l =>
        let lfanew := le l in
        if 2 ^ 20 <? lfanew then fail "bogus PE offset"
        else
          s <- call (Fseek f lfanew) ;;
          if negb s then fail "seek failed"
          else
            sig <- call (Fread f 4) ;;
            if negb (bytes_eqb sig [Byte.x50; Byte.x45; Byte.x00; Byte.x00])
            then fail ("'" +:+ path +:+ "' has no PE signature")
            else
              s <- call (Fseek f (lfanew + 24)) ;;
              if negb s then fail "seek failed"
              else
                magic <- call (Fread f 2) ;;
                if negb (zlen magic =? 2) then fail "cannot read optional magic"
                else
                  let m := le magic in
                  if negb (m =? 0x20b) && negb (m =? 0x10b) then
                    fail ("unknown optional magic " +:+ String (hexdigit (Z.shiftr (m mod 256) 4))
                      (String (hexdigit (Z.land (m mod 256) 15)) (String (hexdigit (Z.shiftr (m / 256) 4))
                      (String (hexdigit (Z.land (m / 256) 15)) ""))))
                  else
                    s <- call (Fseek f (lfanew + 92)) ;;
                    if negb s then fail "seek failed"
                    else
                      ss <- call (Fread f 2) ;;
                      if negb (zlen ss =? 2) then fail "cannot read subsystem" else ok (le ss)
    end.
Definition rufux_validate_efi (path : string) : io (cres Z) :=
  f <- call (Fopen path "rb") ;;
  match f with
  | inl _ => fail ("cannot open '" +:+ path +:+ "'")
  | inr f =>
      r <- efi_subsystem f path ;;
      call (Fclose f) ;;;
      Ret (match r with
           | Ok sub =>
               if (10 <=? sub) && (sub <=? 13) then Ok sub
               else Fail ("'" +:+ path +:+ "' is PE but subsystem " +:+ dec sub +:+ " is not EFI (10/11/12/13)")
           | Fail m => Fail m
           end)
  end.

(** * smart.c *)
Inductive RufuxSmartState := RUFUX_SMART_NA | RUFUX_SMART_PASSED | RUFUX_SMART_WARN | RUFUX_SMART_FAILED.
#[export] Instance smart_eq_dec : EqDecision RufuxSmartState.
Proof. solve_decision. Defined.

Definition has_verdict (j : string) : bool := contains (qq "'smart_status'") j.
Fixpoint skip_spaces (s : string) : string :=
  match s with String c t => if Ascii.eqb c " " then skip_spaces t else s | "" => "" end.
(** 1, 0 or -1 *)
Definition passed_flag (j : string) : Z :=
  match strstr (qq "'smart_status'") j with
  | None => -1
  | Some s =>
      match strstr (qq "'passed'") s with
      | None => -1
      | Some p =>
          match strchr ":" p with
          | Some (String _ v) =>
              let v := skip_spaces v in
              if starts_with "true" v then 1 else if starts_with "false" v then 0 else -1
          | _ => -1
          end
      end
  end.

(** [a > b] for two pointers into the same string: [a] is the shorter suffix *)
Definition after (a b : string) : bool := (String.length a <? String.length b)%nat.
(** raw value of ATA attribute [id], or -1 *)
Definition ata_raw (j : string) (id : Z) : Z :=
  let p := match strstr (qq "'id': " +:+ dec id +:+ ",") j with
           | Some p => Some p
           | None => strstr (qq "'id':" +:+ dec id +:+ ",") j
           end in
  match p with
  | None => -1
  | Some p =>
      let stop := strstr (qq "'id':") (sdrop 1 p) in
      let beyond q := match stop with Some e => after q e | None => false end in
      match strstr (qq "'raw'") p with
      | None => -1
      | Some raw =>
          if beyond raw then -1
          else
            match strstr (qq "'value'") raw with
            | None => -1
            | Some v =>
                if beyond v then -1
                else match strchr ":" v with Some (String _ n) => strtoll10 n | _ => -1 end
            end
      end
  end.

(** What smartctl's report says. *)
Definition smart_verdict (out : string) : RufuxSmartState * string :=
  if negb (has_verdict out) then
    (RUFUX_SMART_NA, "SMART: the drive does not report health data (normal for USB sticks and SD cards)")
  else
    let pf := passed_flag out in
    if pf =? 0 then (RUFUX_SMART_FAILED, "SMART: the drive reports that it is FAILING; its data is not safe on it")
    else if pf =? 1 then
      let realloc := ata_raw out 5 in let pending := ata_raw out 197 in let uncorr := ata_raw out 198 in
      if (0 <? realloc) || (0 <? pending) || (0 <? uncorr) then
        (RUFUX_SMART_WARN, "SMART: overall status passed, but the drive has bad sectors "
          +:+ "(reallocated " +:+ dec (Z.max 0 realloc) +:+ ", pending " +:+ dec (Z.max 0 pending)
          +:+ ", uncorrectable " +:+ dec (Z.max 0 uncorr) +:+ ")")
      else (RUFUX_SMART_PASSED, "SMART: overall health self-assessment passed")
    else (RUFUX_SMART_NA, "SMART: the drive returned no usable verdict").

Definition rufux_smart_check (fuel : nat) (dev : string) : io (RufuxSmartState * string) :=
  st <- call (Stat dev) ;;
  if negb (is_kind KBlk st) then Ret (RUFUX_SMART_NA, "SMART: skipped (not a block device)")
  else
    h <- rufux_have "smartctl" ;;
    if negb h then Ret (RUFUX_SMART_NA, "SMART: skipped (smartctl is not installed)")
    else
      c <- rufux_capture fuel ["smartctl"; "-H"; "-A"; "-j"; dev] 65536 ;;
      if has_verdict c.2 then Ret (smart_verdict c.2)
      else
        c <- rufux_capture fuel ["smartctl"; "-H"; "-A"; "-j"; "-d"; "sat"; dev] 65536 ;;
        Ret (smart_verdict c.2).

(** * update.c *)

(** the text between the next two double quotes after the first [n] *)
Definition next_quote (s : string) : option string :=
  match strchr dquote s with Some (String _ t) => Some t | _ => None end.
Definition quoted_after (s : string) : option string :=
  t ← next_quote s; e ← strchr dquote t; Some (before t e).
Definition strip_v (s : string) : string := match s with String "v" t => t | _ => s end.

(** What GitHub's answer says: the latest version, cut to [cap - 1] characters. *)
Definition parse_release (cap : nat) (buf : string) : cres string :=
  match strstr "tag_name" buf with
  | Some t =>
      match (k ← next_quote t; quoted_after k) with
      | Some v => Ok (strip_v (stake (cap - 1) v))
      | None => Fail "cannot parse tag_name"
      end
  | None =>
      match (m ← strstr (qq "'message'") buf; a ← strchr ":" m; quoted_after a) with
      | Some msg => Fail ("GitHub: " +:+ stake 127 msg)
      | None => Fail "unexpected API response"
      end
  end.
Definition rufux_update_check (fuel cap : nat) : io (cres string) :=
  h <- rufux_have "curl" ;;
  if negb h then fail "curl not found, cannot check for updates"
  else
    c <- rufux_capture fuel ["curl"; "-sL"; "--max-time"; "15"; "-H"; "User-Agent: rufux";
           "-H"; "Accept: application/vnd.github+json";
           "https://api.github.com/repos/Hultwl/Rufux/releases/latest"] 8192 ;;
    if negb c.1 || String.eqb c.2 "" then fail "network unavailable (offline?)"
    else Ret (parse_release cap c.2).

(** * boot.c *)
Record RufuxBootOpts := BootOpts_ {
  bt_kind : string; bt_dry_run : bool; bt_allow_fixed : bool; bt_allow_file : bool; bt_yes : bool }.
Definition is_dir (p : string) : io bool := st <- call (Stat p) ;; Ret (is_kind KDir st).

(** the walk's callback over what nftw visits: the first readable file called
    [base] *)
Definition want_cb (base : string) (visit : string * bool * Z) : io (option string) :=
  let '(path, is_file, _) := visit in
  if is_file && String.eqb (basename path) base then
    a <- call (Access path R_OK) ;; Ret (if a then Some (snprintf 512 path) else None)
  else Ret None.
Definition SYS_ROOTS : list string :=
  ["/usr/lib/syslinux"; "/usr/share/syslinux"; "/usr/local/share/syslinux"; "/usr/local/lib/syslinux"].
Definition find_mbr_file (base : string) : io (option string) :=
  ed <- rufux_exe_dir ;;
  bundled <- (if String.eqb ed "" then Ret []
              else
                let rel := snprintf 1152 (ed +:+ "/../share/syslinux") in
                d <- is_dir rel ;; Ret (if d then [rel] else [])) ;;
  first_io (fun root =>
    d <- is_dir root ;;
    if d then l <- call (Nftw root) ;; first_io (want_cb base) l else Ret None) (bundled ++ SYS_ROOTS).
Definition mbr_base (kind : string) : string := if String.eqb kind "gpt" then "gptmbr.bin" else "mbr.bin".
Definition mbr_known (kind : string) : list string :=
  if String.eqb kind "gpt" then
    ["/usr/lib/syslinux/bios/gptmbr.bin"; "/usr/lib/syslinux/gptmbr.bin"; "/usr/share/syslinux/gptmbr.bin"]
  else
    ["/usr/lib/syslinux/bios/mbr.bin"; "/usr/lib/syslinux/mbr.bin"; "/usr/share/syslinux/bios/mbr.bin";
     "/usr/share/syslinux/mbr.bin"].
Definition readable (p : string) : io (option string) :=
  a <- call (Access p R_OK) ;; Ret (if a then Some p else None).
Definition mbr_path (kind : string) : io (option string) :=
  ed <- rufux_exe_dir ;;
  b <- (if String.eqb ed "" then Ret None
        else readable (snprintf 1152 (ed +:+ "/../share/syslinux/" +:+ mbr_base kind))) ;;
  match b with
  | Some p => Ret (Some p)
  | None =>
      k <- first_io readable (mbr_known kind) ;;
      match k with Some p => Ret (Some p) | None => find_mbr_file (mbr_base kind) end
  end.

Definition rufux_install_mbr (dst : string) (o : RufuxBootOpts) : io (cres unit) :=
  if negb (bt_dry_run o) && negb (bt_yes o) then fail "refusing real MBR write without --yes"
  else
    rufux_check_target dst (bt_allow_fixed o) (bt_allow_file o) ?;;
    mbr <- mbr_path (bt_kind o) ;;
    match mbr with
    | None => fail "syslinux MBR binary not found (looked in /usr/lib|share/syslinux; install syslinux)"
    | Some mbr =>
        if bt_dry_run o then
          call (Stderr ("+ dd MBR " +:+ mbr +:+ " -> " +:+ dst +:+ " (first 440 bytes, table preserved)" +:+ LF)) ;;; ok tt
        else
          fm <- call (Open mbr O_RDONLY) ;;
          match fm with
          | inl _ => fail ("cannot open " +:+ mbr)
          | inr fm =>
              code <- call (Read fm 440) ;;
              call (Close fm) ;;;
              match code with
              | inr code =>
                  if negb (zlen code =? 440) then fail "bad MBR binary size"
                  else
                    fd <- call (Open dst O_WRONLY) ;;
                    match fd with
                    | inl e => fail ("cannot open '" +:+ dst +:+ "': " +:+ strerror e)
                    | inr fd =>
                        w <- call (Write fd code) ;;
                        call (Fsync fd) ;;; call (Close fd) ;;;
                        if (match w with inr n => n =? 440 | inl _ => false end) then ok tt else fail "MBR write failed"
                    end
              | inl _ => fail "bad MBR binary size"
              end
          end
    end.
Definition rufux_install_syslinux (part_dev : string) (dry : bool) : io (cres unit) :=
  h <- rufux_have "syslinux" ;;
  if negb h then fail "syslinux missing"
  else
    r <- rufux_run ["syslinux"; "--install"; part_dev] dry ;;
    if r || dry then ok tt else fail ("syslinux --install failed on '" +:+ part_dev +:+ "'").

(** * Properties *)

Lemma last_char_app s c : last_char (s +:+ String c "") = Some c.
Proof. induction s as [|d s IH]; [done|]. cbn [append last_char]. rewrite IH. by destruct s. Qed.

(** The node of the first partition: disks whose name ends in a digit get
    the separator "p", so a partition is never confused with a disk number. *)
Theorem rufux_part1_spec base c :
  rufux_part1 (base +:+ String c "") =
  base +:+ String c (if is_digit c then "p1" else "1").
Proof.
  unfold rufux_part1. rewrite last_char_app, sapp_assoc. cbn [append]. by destruct (is_digit c).
Qed.

(** The mount point udisksctl announces: everything after " at ", dots included,
    but for the final period. *)
Lemma rtrim_none P s c : P c = false -> rtrim P (s +:+ String c "") = s +:+ String c "".
Proof.
  intros H. induction s as [|d s IH]; cbn [append rtrim]; [by rewrite H|]. rewrite IH.
  destruct (P d); [|done]. cbn [andb]. by destruct s.
Qed.
Lemma span_all P s r : sall P s = true -> (forall c t, r = String c t -> P c = false) -> (span P (s +:+ r)).1 = s.
Proof.
  intros H Hr. induction s as [|c s IH]; cbn [append span].
  - destruct r as [|c r]; [done|]. cbn [append span]. by rewrite (Hr c r eq_refl).
  - cbn in H. apply andb_true_iff in H as [-> H]. specialize (IH H). by destruct (span P (s +:+ r)) as [a b]; cbn in *; subst.
Qed.

Lemma mount_point_correct cap dev path :
  strlen path + 1 < Z.of_nat cap ->
  strstr " at " ("Mounted " +:+ dev +:+ " at " +:+ path +:+ "." +:+ LF) = Some (" at " +:+ path +:+ "." +:+ LF) ->
  sall (fun c => negb (Ascii.eqb c (chr 10))) path = true ->
  mount_point cap ("Mounted " +:+ dev +:+ " at " +:+ path +:+ "." +:+ LF) = Some path.
Proof.
  intros Hlen Hs Hp. unfold mount_point. rewrite Hs.
  change (sdrop 4 (" at " +:+ path +:+ "." +:+ LF)) with (path +:+ "." +:+ LF).
  rewrite <- sapp_assoc, span_all; [|by rewrite sall_app, Hp|by intros c t [= <- _]].
  rewrite snprintf_fits by (rewrite strlen_app; exact Hlen).
  f_equal. rewrite rtrim_none by done. unfold drop_period. rewrite last_char_app. rewrite Ascii.eqb_refl.
  apply stake_app. rewrite slength_app. cbn [String.length]. lia.
Qed.
Example mount_point_ex : mount_point 256 ("Mounted /dev/sdb1 at /run/media/u/Win11.ISO 22.04." +:+ LF) = Some "/run/media/u/Win11.ISO 22.04".
Proof. reflexivity. Qed.

(** A dry run of rufux_install_mbr only reads. *)
Lemma first_io_harmless {A B} (f : A -> io (option B)) l :
  (forall a, always harmless (f a)) -> always harmless (first_io f l).
Proof. apply always_first. Qed.
Lemma rufux_exe_dir_harmless : always harmless rufux_exe_dir.
Proof. unfold rufux_exe_dir. always_tac. Qed.
#[export] Hint Resolve rufux_exe_dir_harmless : rufux.
Lemma mbr_path_harmless k : always harmless (mbr_path k).
Proof. unfold mbr_path, find_mbr_file, readable, is_dir, want_cb. always_tac. Qed.
#[export] Hint Resolve mbr_path_harmless : rufux.
Lemma rufux_install_mbr_dry dst o : bt_dry_run o = true -> always harmless (rufux_install_mbr dst o).
Proof. intros H. unfold rufux_install_mbr. rewrite H. always_tac. Qed.

(** An MBR installation that succeeds has written exactly the 440 bytes of
    boot code at the start of the target, so the partition table that follows
    them is untouched. *)
Theorem rufux_install_mbr_correct dst o t :
  exec (rufux_install_mbr dst o) t (Ok tt) -> bt_dry_run o = false -> Forall posix t ->
  bt_yes o = true /\ exists fm fd code, Obs (Read fm 440) (inr code) ∈ t /\ zlen code = 440 /\
    Obs (Open dst O_WRONLY) (inr fd) ∈ t /\ Obs (Write fd code) (inr 440) ∈ t /\ writes fd t = code.
Proof.
  unfold rufux_install_mbr. intros H Hd Hp. rewrite Hd in H.
  destruct (bt_yes o) eqn:Hy; cbn [negb andb] in H; [|by destruct H]. split; [done|].
  apply exec_try in H as (t1 & [] & t2 & -> & H1 & H).
  apply exec_bind in H as (t3 & mbr & t4 & -> & H2 & H). destruct mbr as [mbr|]; [|by destruct H].
  destruct H as (fm & t5 & -> & H). cbn [bind] in H. destruct fm as [|fm]; [by destruct H|].
  destruct H as (code & t6 & -> & H). cbn [bind] in H. destruct H as (c & t7 & -> & H). cbn [bind] in H.
  destruct code as [|code]; [by destruct H|]. destruct (Z.eqb_spec (zlen code) 440) as [Hl|]; [|by destruct H].
  cbn [negb] in H. destruct H as (fd & t8 & -> & H). cbn [bind] in H. destruct fd as [|fd]; [by destruct H|].
  destruct H as (w & t9 & -> & H). cbn [bind] in H. destruct H as (f & t10 & -> & H). cbn [bind] in H.
  destruct H as (c' & t11 & -> & H). cbn [bind] in H. destruct w as [|w]; [by destruct H|].
  destruct (Z.eqb_spec w 440) as [->|]; [|by destruct H]. destruct H as [-> _].
  exists fm, fd, code.
  assert (Hq : forall A (m : io A) u a, always harmless m -> exec m u a -> writes fd u = []).
  { intros A m u a Hm He. apply (always_exec _ _ _ _ Hm) in He. by apply harmless_writes. }
  split_and!; try done; try (apply elem_of_app; right; apply elem_of_app; right).
  - right. by left.
  - do 3 right. by left.
  - do 4 right. by left.
  - rewrite !writes_app, (Hq _ _ _ _ (rufux_check_target_harmless _ _ _) H1), (Hq _ _ _ _ (mbr_path_harmless _) H2).
    cbn [app]. unfold writes. cbn [map concat written_by app]. rewrite Z.eqb_refl. cbn [app].
    rewrite app_nil_r. apply ztake_all. lia.
Qed.
Lemma rufux_install_mbr_correct_witness :
  let code := replicate 440 Byte.x90 in let s := Stat_ KReg 512 1 1 in
  let t := [Obs (Stat "d") (Some s); Obs (Readlink "/proc/self/exe") None;
     Obs (Access "/usr/lib/syslinux/bios/mbr.bin" R_OK) true; Obs (Open "/usr/lib/syslinux/bios/mbr.bin" O_RDONLY) (inr 3);
     Obs (Read 3 440) (inr code); Obs (Close 3) tt; Obs (Open "d" O_WRONLY) (inr 4); Obs (Write 4 code) (inr 440);
     Obs (Fsync 4) None; Obs (Close 4) tt] in
  exists fm fd c, Obs (Read fm 440) (inr c) ∈ t /\ zlen c = 440 /\
    Obs (Open "d" O_WRONLY) (inr fd) ∈ t /\ Obs (Write fd c) (inr 440) ∈ t /\ writes fd t = c.
Proof.
  intros code s t. refine (proj2 (rufux_install_mbr_correct "d" (BootOpts_ "bios" false false true true) t _ _ _)).
  - exec_tac.
  - reflexivity.
  - posix_tac.
Defined.
