(* ===== verification/Bootcheck.v ===== *)
(** src/src/linux/bootcheck.c: whether Secure Boot firmware would refuse a UEFI
    program, from its PE structure, signature, SBAT section and version resource
    and from the DBX.

    Every read of the file goes through [rd16], [rd32] and [rd] of the prelude,
    so a pure function returns [None] exactly when the C code would read outside
    the buffer. SHA-256 and the PKCS#7 parser are OpenSSL's, parameters here. *)
From S2P Require Import Prelude Cstr Sys Exec Device Vhd.

(** * Data *)
Inductive RufuxBootState :=
| RUFUX_BOOT_NOTPE | RUFUX_BOOT_UNSIGNED | RUFUX_BOOT_OK
| RUFUX_BOOT_REVOKED_DBX | RUFUX_BOOT_REVOKED_SBAT | RUFUX_BOOT_REVOKED_SVN.
#[export] Instance boot_state_eq_dec : EqDecision RufuxBootState.
Proof. solve_decision. Defined.
Record RufuxBootCheck := BootCheck_ {
  bc_state : RufuxBootState; bc_arch : string; bc_signer : string; bc_detail : string }.
Definition rufux_bootcheck_state_name (s : RufuxBootState) : string :=
  match s with
  | RUFUX_BOOT_NOTPE => "not-efi" | RUFUX_BOOT_UNSIGNED => "unsigned" | RUFUX_BOOT_OK => "ok"
  | RUFUX_BOOT_REVOKED_DBX => "revoked-dbx" | RUFUX_BOOT_REVOKED_SBAT => "revoked-sbat"
  | RUFUX_BOOT_REVOKED_SVN => "revoked-svn"
  end.

Record Pe := Pe_ {
  pb : list byte; plus : bool; machine : Z; nsec : Z; opt : Z; dd : Z; secs : Z; size_of_headers : Z }.
Definition plen (pe : Pe) : Z := zlen (pb pe).
Definition MAX_EFI : Z := 64 * 2 ^ 20.

(** * The PE header *)
Definition PE_SIG : list byte := [Byte.x50; Byte.x45; Byte.x00; Byte.x00].
(** [Some None] is the return value -1 *)
Definition pe_open (b : list byte) : option (option Pe) :=
  let len := zlen b in
  if len <? 0x100 then Some None
  else
    mz ← rd b 0 2;
    if negb (bytes_eqb mz (bytes_of_string "MZ")) then Some None
    else
      pe ← rd32 b 0x3c;
      if len <? pe + 24 + 96 then Some None
      else
        sig ← rd b pe 4;
        if negb (bytes_eqb sig PE_SIG) then Some None
        else
          machine ← rd16 b (pe + 4);
          nsec ← rd16 b (pe + 6);
          osz ← rd16 b (pe + 20);
          let opt := pe + 24 in
          magic ← rd16 b opt;
          if negb (magic =? 0x10b) && negb (magic =? 0x20b) then Some None
          else
            let plus := magic =? 0x20b in
            let dd := opt + (if plus then 112 else 96) in
            soh ← rd32 b (opt + 60);
            let secs := opt + osz in
            if (len <? dd + 8 * 16) || (len <? secs + nsec * 40) then Some None
            else Some (Some (Pe_ b plus machine nsec opt dd secs soh)).

Definition pe_arch (pe : Pe) : string :=
  if machine pe =? 0x8664 then "x64"
  else if machine pe =? 0x14c then "ia32"
  else if (machine pe =? 0x1c0) || (machine pe =? 0x1c4) then "arm"
  else if machine pe =? 0xaa64 then "aarch64"
  else "other".

(** a 32-bit field of section header [i] *)
Definition sec_hdr (pe : Pe) (i : Z) : Z := secs pe + i * 40.
Definition sec_field (pe : Pe) (i field : Z) : option Z := rd32 (pb pe) (sec_hdr pe i + field).
Definition RAW_SIZE : Z := 16.
Definition RAW_PTR : Z := 20.

(** * The Authenticode digest *)

(** the inner loop of the insertion sort, on the sorted indices from the last
    to the first *)
Fixpoint insert_sec (pe : Pe) (i : Z) (sorted : list Z) : option (list Z) :=
  match sorted with
  | [] => Some [i]
  | j :: t =>
      rj ← sec_field pe j RAW_PTR;
      ri ← sec_field pe i RAW_PTR;
      if ri <? rj then t' ← insert_sec pe i t; Some (j :: t') else Some (i :: j :: t)
  end.
Fixpoint sort_secs (pe : Pe) (idx sorted : list Z) : option (list Z) :=
  match idx with
  | [] => Some (rev sorted)
  | i :: t => s ← insert_sec pe i sorted; sort_secs pe t s
  end.
Definition zseq (n : Z) : list Z := map Z.of_nat (seq 0 (Z.to_nat n)).

(** The sections' contents in file order, with the running total; [Some None]
    when one lies outside the file. *)
Fixpoint hash_secs (pe : Pe) (idx : list Z) (total : Z) : option (option (list (list byte) * Z)) :=
  match idx with
  | [] => Some (Some ([], total))
  | i :: t =>
      rs ← sec_field pe i RAW_SIZE;
      rp ← sec_field pe i RAW_PTR;
      if rs =? 0 then hash_secs pe t total
      else if plen pe <? rp + rs then Some None
      else
        c ← rd (pb pe) rp rs;
        r ← hash_secs pe t (total + rs);
        Some (match r with Some (l, n) => Some (c :: l, n) | None => None end)
  end.

(** The byte ranges fed to SHA-256; [Some None] is the return value -1. *)
Definition pe_sha256_input (pe : Pe) : option (option (list (list byte))) :=
  let b := pb pe in
  let chk := opt pe + 64 in
  let sec_dir := dd pe + 4 * 8 in
  cert_size ← rd32 b (sec_dir + 4);
  if (plen pe <? size_of_headers pe) || (size_of_headers pe <? sec_dir + 8) then Some None
  else
    c1 ← rd b 0 chk;
    c2 ← rd b (chk + 4) (sec_dir - (chk + 4));
    c3 ← rd b (sec_dir + 8) (size_of_headers pe - (sec_dir + 8));
    idx ← sort_secs pe (zseq (Z.min 96 (nsec pe))) [];
    r ← hash_secs pe idx (size_of_headers pe);
    match r with
    | None => Some None
    | Some (chunks, total) =>
        let stop := if negb (cert_size =? 0) && (cert_size <=? plen pe) then plen pe - cert_size else plen pe in
        if (total <? plen pe) && (total <? stop) then
          c4 ← rd b total (stop - total);
          Some (Some ([c1; c2; c3] ++ chunks ++ [c4]))
        else Some (Some ([c1; c2; c3] ++ chunks))
    end.

(** * Sections and resources *)

(** the text of the section called [name] (shorter than 8 characters) *)
Fixpoint section_text (pe : Pe) (name : string) (idx : list Z) : option (option string) :=
  match idx with
  | [] => Some None
  | i :: t =>
      h ← rd (pb pe) (sec_hdr pe i) 8;
      if negb (String.eqb (cstr_of_bytes h) name) then section_text pe name t
      else
        vs ← sec_field pe i 8;
        rs ← sec_field pe i RAW_SIZE;
        rp ← sec_field pe i RAW_PTR;
        let n := if negb (vs =? 0) && (vs <? rs) then vs else rs in
        if plen pe <? rp + n then Some None
        else c ← rd (pb pe) rp n; Some (Some (cstr_of_bytes c))
  end.
Definition pe_section_text (pe : Pe) (name : string) : option (option string) :=
  section_text pe name (zseq (nsec pe)).

(** [Some None] is the return value -1 *)
Fixpoint rva_scan (pe : Pe) (rva : Z) (idx : list Z) : option (option Z) :=
  match idx with
  | [] => Some None
  | i :: t =>
      va ← sec_field pe i 12;
      vs ← sec_field pe i 8;
      rs ← sec_field pe i RAW_SIZE;
      rp ← sec_field pe i RAW_PTR;
      if (va <=? rva) && (rva - va <? Z.max vs rs) then
        let off := rp + (rva - va) in Some (if off <? plen pe then Some off else None)
      else rva_scan pe rva t
  end.
Definition rva_to_off (pe : Pe) (rva : Z) : option (option Z) := rva_scan pe rva (zseq (nsec pe)).

(** the UTF-16 characters at [off] against [name] *)
Fixpoint utf16_eq (b : list byte) (off : Z) (name : string) : option bool :=
  match name with
  | "" => Some true
  | String c t => w ← rd16 b off; if w =? code c then utf16_eq b (off + 2) t else Some false
  end.
Definition bit31 (z : Z) : bool := Z.testbit z 31.
Definition low31 (z : Z) : Z := Z.land z 0x7fffffff.

Section Rsrc.
Variable pe : Pe.
Variable root : Z.
Variable name : string.

(** whether a named entry carries [name] *)
Definition rsrc_match (inside : bool) (nm : Z) : option bool :=
  if negb inside && bit31 nm then
    let so := root + low31 nm in
    if so + 2 <=? plen pe then
      l ← rd16 (pb pe) so;
      if (l =? strlen name) && (so + 2 + l * 2 <=? plen pe) then utf16_eq (pb pe) (so + 2) name else Some false
    else Some false
  else Some inside.

(** [n] levels are left; the result is the leaf's RVA and size *)
Fixpoint rsrc_find (n : nat) (dir : Z) (inside : bool) : option (option (Z * Z)) :=
  match n with
  | O => Some None
  | S m =>
      if plen pe <? dir + 16 then Some None
      else
        named ← rd16 (pb pe) (dir + 12);
        ids ← rd16 (pb pe) (dir + 14);
        if 512 <? named + ids then Some None
        else
          (fix go (k : nat) (i : Z) : option (option (Z * Z)) :=
             match k with
             | O => Some None
             | S k' =>
                 let e := dir + 16 + i * 8 in
                 if plen pe <? e + 8 then Some None
                 else
                   nm ← rd32 (pb pe) e;
                   of_ ← rd32 (pb pe) (e + 4);
                   hit ← rsrc_match inside nm;
                   if bit31 of_ then
                     r ← rsrc_find m (root + low31 of_) hit;
                     match r with Some x => Some (Some x) | None => go k' (i + 1) end
                   else if (hit : bool) then
                     let de := root + of_ in
                     if plen pe <? de + 16 then Some None
                     else rva ← rd32 (pb pe) de; size ← rd32 (pb pe) (de + 4); Some (Some (rva, size))
                   else go k' (i + 1)
             end) (Z.to_nat (named + ids)) 0
  end.
End Rsrc.

(** * Policy *)
Definition sbat_level : string :=
  "sbat,1,2025051000" +:+ LF +:+ "shim,4" +:+ LF +:+ "grub,5" +:+ LF +:+ "grub.proxmox,2" +:+ LF +:+
  "BOOTMGRSECURITYVERSIONNUMBER,0x70000".
(** [product], [version] *)
Definition Level : Type := string * Z.
(** a line cut at its first comma *)
Definition cut_comma (ln : string) : option (string * string) :=
  match strchr "," ln with
  | Some (String c t) => Some (before ln (String c t), t)
  | _ => None
  end.
Fixpoint levels_of (lines : list string) (room : nat) : list Level :=
  match lines, room with
  | ln :: t, S n =>
      match cut_comma ln with
      | Some (p, v) => (snprintf 64 p, strtoul0 v mod 2 ^ 32) :: levels_of t n
      | None => levels_of t (S n)
      end
  | _, _ => []
  end.
Definition load_levels : list Level := levels_of (tok_char (chr 10) sbat_level) 16.
Definition is_upper (s : string) : bool := sall is_upper_ch s.

Fixpoint sbat_hit (nm : string) (ver : Z) (lv : list Level) : option string :=
  match lv with
  | [] => None
  | (p, v) :: t =>
      if negb (is_upper p) && String.eqb nm p && (ver <? v) then
        Some ("SBAT: '" +:+ nm +:+ "' generation " +:+ dec ver +:+ " is below the current minimum " +:+ dec v)
      else sbat_hit nm ver t
  end.
Fixpoint sbat_lines (lines : list string) : option string :=
  match lines with
  | [] => None
  | ln :: t =>
      match cut_comma ln with
      | Some (nm, v) =>
          match sbat_hit nm (strtoul10 v mod 2 ^ 32) load_levels with Some w => Some w | None => sbat_lines t end
      | None => sbat_lines t
      end
  end.
Definition sbat_text (txt : string) : option string := sbat_lines (tok_char (chr 10) txt).
Definition revoked_by_sbat (pe : Pe) : option (option string) :=
  t ← pe_section_text pe ".sbat"; Some (match t with Some txt => sbat_text txt | None => None end).

Fixpoint svn_levels (pe : Pe) (root : Z) (lv : list Level) : option (option string) :=
  match lv with
  | [] => Some None
  | (p, v) :: t =>
      if negb (is_upper p) then svn_levels pe root t
      else
        leaf ← rsrc_find pe root p 5 root false;
        match leaf with
        | Some (rva, size) =>
            if negb (size =? 4) then svn_levels pe root t
            else
              o ← rva_to_off pe rva;
              match o with
              | Some o =>
                  if plen pe <? o + 4 then svn_levels pe root t
                  else
                    x ← rd32 (pb pe) o;
                    if x <? v then
                      Some (Some ("boot manager security version " +:+ dec (Z.shiftr x 16) +:+ "." +:+ dec (Z.land x 0xffff)
                        +:+ " is below the required " +:+ dec (Z.shiftr v 16) +:+ "." +:+ dec (Z.land v 0xffff)))
                    else svn_levels pe root t
              | None => svn_levels pe root t
              end
        | None => svn_levels pe root t
        end
  end.
Definition revoked_by_svn (pe : Pe) : option (option string) :=
  rr ← rd32 (pb pe) (dd pe + 2 * 8);
  rs ← rd32 (pb pe) (dd pe + 2 * 8 + 4);
  if (rr =? 0) || (rs =? 0) then Some None
  else
    root ← rva_to_off pe rr;
    match root with None => Some None | Some root => svn_levels pe root load_levels end.

(** * DBX *)
Definition GUID_SHA256 : list byte :=
  map b8 [0x26;0x16;0xc4;0xc1;0x4c;0x50;0x92;0x40;0xac;0xa9;0x41;0xf9;0x36;0x93;0x43;0x28].
Definition GUID_X509_SHA256 : list byte :=
  map b8 [0x92;0xa4;0xd2;0x3b;0xc0;0x96;0x79;0x40;0xb4;0x20;0xfc;0xf9;0x8e;0xf1;0x03;0xed].
Definition DBX_HASH : string := "its hash is in the UEFI DBX (revoked binary)".
Definition DBX_CERT : string := "a certificate in its signature chain is revoked by the UEFI DBX".

(** One signature list: [cnt] entries of [ssz] bytes from [e] on. *)
Fixpoint dbx_entries (d : list byte) (is_sha is_x509 : bool) (hash : list byte) (tbs : list (list byte))
    (ssz : Z) (cnt : nat) (e : Z) : option (option string) :=
  match cnt with
  | O => Some None
  | S n =>
      if (is_sha || is_x509) && (48 - (if is_sha then 16 else 0) <=? ssz) then
        v ← rd d (e + 16) 32;
        if is_sha && bytes_eqb v hash then Some (Some DBX_HASH)
        else if is_x509 && existsb (bytes_eqb v) tbs then Some (Some DBX_CERT)
        else dbx_entries d is_sha is_x509 hash tbs ssz n (e + ssz)
      else dbx_entries d is_sha is_x509 hash tbs ssz n (e + ssz)
  end.
(** The lists from [off] on; each is at least 28 bytes, so the length of the
    file is fuel enough. *)
Fixpoint dbx_lists (d hash : list byte) (tbs : list (list byte)) (fuel : nat) (off : Z) : option (option string) :=
  match fuel with
  | O => Some None
  | S f =>
      if zlen d <? off + 28 then Some None
      else
        g ← rd d off 16;
        lsz ← rd32 d (off + 16);
        hsz ← rd32 d (off + 20);
        ssz ← rd32 d (off + 24);
        if (lsz <? 28) || (zlen d <? off + lsz) || (ssz <? 16) || (lsz <? hsz + 28) then Some None
        else
          let cnt := (lsz - 28 - hsz) / ssz in
          r ← dbx_entries d (bytes_eqb g GUID_SHA256) (bytes_eqb g GUID_X509_SHA256) hash tbs ssz
                (Z.to_nat cnt) (off + 28 + hsz);
          match r with Some w => Some (Some w) | None => dbx_lists d hash tbs f (off + lsz) end
  end.
Definition dbx_scan (d hash : list byte) (tbs : list (list byte)) : option (option string) :=
  if 16 + 24 <? zlen d then
    n ← rd32 d 16;
    dbx_lists d hash tbs (S (length d)) (16 + n)
  else Some None.

(** the whole file, refused when empty or longer than [max] *)
Definition read_all (path : string) (max : Z) : io (option (list byte)) :=
  b <- call (ReadBin path) ;;
  Ret (match b with
       | Some b => if (zlen b <=? 0) || (max <? zlen b) then None else Some b
       | None => None
       end).

Definition dbx_dir : io (option string) :=
  env <- call (Getenv "RUFUX_DBX_DIR") ;;
  ed <- rufux_exe_dir ;;
  let c := (match env with Some (String c t) => [snprintf 1152 (String c t)] | _ => [] end) ++
           (if String.eqb ed "" then []
            else [snprintf 1152 (ed +:+ "/../share/rufux/dbx"); snprintf 1152 (ed +:+ "/../res/dbx")]) ++
           ["/usr/share/rufux/dbx"; "/usr/local/share/rufux/dbx"] in
  first_io (fun p => d <- call (Opendir p) ;; Ret (match d with Some _ => Some p | None => None end)) c.

(** What the DBX for [arch] says; the outer [None] is a read out of bounds. *)
Definition dbx_has (arch : string) (hash : list byte) (tbs : list (list byte)) : io (option (option string)) :=
  dir <- dbx_dir ;;
  match dir with
  | None => Ret (Some None)
  | Some dir =>
      if String.eqb arch "other" then Ret (Some None)
      else
        d <- read_all (snprintf 1300 (dir +:+ "/dbx_" +:+ arch +:+ ".efiauth2")) (8 * 2 ^ 20) ;;
        Ret (match d with Some d => dbx_scan d hash tbs | None => Some None end)
  end.

Section Check.
(** SHA-256 *)
Variable sha256 : list byte -> list byte.
(** d2i_PKCS7 and what the code takes from its result: when it is signed data,
    the first signer's issuer name and the certificates' to-be-signed parts *)
Variable pkcs7 : list byte -> option (string * list (list byte)).

(** the issuer and the certificate digests; [Some None]: not signed *)
Definition read_sig (pe : Pe) : option (option (string * list (list byte))) :=
  let sd := dd pe + 4 * 8 in
  off ← rd32 (pb pe) sd;
  sz ← rd32 (pb pe) (sd + 4);
  if (off =? 0) || (sz <? 16) || (plen pe <? off + sz) then Some None
  else
    dl ← rd32 (pb pe) off;
    ty ← rd16 (pb pe) (off + 6);
    if (dl <? 8) || (sz <? dl) || negb (ty =? 2) then Some None
    else
      p ← rd (pb pe) (off + 8) (dl - 8);
      Some (match pkcs7 p with
            | Some (issuer, tbs) => Some (snprintf 128 issuer, map sha256 (take 16 tbs))
            | None => None
            end).

Definition issuer_note (issuer : string) : string :=
  if String.eqb issuer "Microsoft Windows Production PCA 2011" then
    "may fail Secure Boot on systems updated to the 'Windows UEFI CA 2023' certificate"
  else if String.eqb issuer "Windows UEFI CA 2023" then
    "will fail Secure Boot on systems that have not received the 2023 certificates"
  else "".

(** The verdict once the DBX has answered. *)
Definition policy_verdict (pe : Pe) (arch issuer : string) (dbx : option string) : option RufuxBootCheck :=
  match dbx with
  | Some w => Some (BootCheck_ RUFUX_BOOT_REVOKED_DBX arch issuer (snprintf 256 w))
  | None =>
      sb ← revoked_by_sbat pe;
      match sb with
      | Some w => Some (BootCheck_ RUFUX_BOOT_REVOKED_SBAT arch issuer (snprintf 256 w))
      | None =>
          sv ← revoked_by_svn pe;
          match sv with
          | Some w => Some (BootCheck_ RUFUX_BOOT_REVOKED_SVN arch issuer (snprintf 256 w))
          | None => Some (BootCheck_ RUFUX_BOOT_OK arch issuer (issuer_note issuer))
          end
      end
  end.

(** [Some None] is the return value -1; the outer [None] a read out of bounds *)
Definition rufux_bootcheck_file (path : string) : io (option (option RufuxBootCheck)) :=
  b <- read_all path MAX_EFI ;;
  match b with
  | None => Ret (Some None)
  | Some b =>
      match pe_open b with
      | None => Ret None
      | Some None => Ret (Some (Some (BootCheck_ RUFUX_BOOT_NOTPE "" "" "")))
      | Some (Some pe) =>
          let arch := pe_arch pe in
          match read_sig pe with
          | None => Ret None
          | Some None => Ret (Some (Some (BootCheck_ RUFUX_BOOT_UNSIGNED arch "" "")))
          | Some (Some (issuer, tbs)) =>
              match pe_sha256_input pe with
              | None => Ret None
              | Some None => Ret (Some None)
              | Some (Some chunks) =>
                  dbx <- dbx_has arch (sha256 (concat chunks)) tbs ;;
                  match dbx with
                  | None => Ret None
                  | Some dbx =>
                      Ret (match policy_verdict pe arch issuer dbx with Some v => Some (Some v) | None => None end)
                  end
              end
          end
      end
  end.

(** ** The tree walk *)
Definition has_ext (n ext : string) : bool :=
  (strlen ext <? strlen n) && strcaseeq (sdrop (String.length n - String.length ext) n) ext.
Definition revoked (s : RufuxBootState) : bool :=
  match s with RUFUX_BOOT_REVOKED_DBX | RUFUX_BOOT_REVOKED_SBAT | RUFUX_BOOT_REVOKED_SVN => true | _ => false end.
Definition check_line (rel : string) (c : RufuxBootCheck) : string :=
  snprintf 700
    (if revoked (bc_state c) then
       "WARNING: revoked UEFI bootloader '" +:+ rel +:+ "' (" +:+ bc_arch c +:+ "): " +:+ bc_detail c +:+ ". "
       +:+ "Up-to-date Secure Boot firmware will refuse to run it."
     else if bool_decide (bc_state c = RUFUX_BOOT_UNSIGNED) then
       "UEFI bootloader '" +:+ rel +:+ "' (" +:+ bc_arch c +:+ ") is unsigned: it needs Secure Boot turned off."
     else
       "UEFI bootloader '" +:+ rel +:+ "' (" +:+ bc_arch c +:+ "): signed by '" +:+ bc_signer c +:+ "', not revoked."
       +:+ (if String.eqb (bc_detail c) "" then "" else " Note: ") +:+ bc_detail c).

(** The entries of a directory; [sub] walks a subdirectory. State: programs
    checked and revoked ones found. [None]: a read out of bounds. *)
Fixpoint walk_names (sub : string -> Z -> io (option (Z * Z))) (dir : string) (names : list string)
    (checked rev : Z) : io (option (Z * Z)) :=
  match names with
  | [] => Ret (Some (checked, rev))
  | nm :: t =>
      if String.eqb nm "." || String.eqb nm ".." then walk_names sub dir t checked rev
      else
        let p := snprintf 4096 (dir +:+ "/" +:+ nm) in
        st <- call (Lstat p) ;;
        if is_kind KDir st then
          r <- sub p checked ;;
          match r with Some (c, v) => walk_names sub dir t c (rev + v) | None => Ret None end
        else if negb (is_kind KReg st) || negb (has_ext nm ".efi") then walk_names sub dir t checked rev
        else
          r <- rufux_bootcheck_file p ;;
          match r with
          | None => Ret None
          | Some None => walk_names sub dir t checked rev
          | Some (Some c) =>
              if bool_decide (bc_state c = RUFUX_BOOT_NOTPE) then walk_names sub dir t checked rev
              else
                call (Log (check_line (sdrop (String.length p - String.length nm) p) c)) ;;;
                walk_names sub dir t (checked + 1) (if revoked (bc_state c) then rev + 1 else rev)
          end
  end.
(** A directory with [n] levels below it left. *)
Fixpoint walk (n : nat) (dir : string) (checked : Z) : io (option (Z * Z)) :=
  match n with
  | O => Ret (Some (checked, 0))
  | S m =>
      if 256 <? checked then Ret (Some (checked, 0))
      else
        d <- call (Opendir dir) ;;
        match d with
        | None => Ret (Some (checked, 0))
        | Some names => walk_names (walk m) dir names checked 0
        end
  end.
Definition rufux_bootcheck_tree (root : string) : io (option Z) :=
  r <- walk 9 root 0 ;;
  match r with
  | None => Ret None
  | Some (checked, rev) =>
      when (checked =? 0) (call (Log "UEFI bootloader check: no .efi files found.")) ;;;
      Ret (Some rev)
  end.
End Check.
