(* ===== verification/BootcheckSpec.v ===== *)
(** What bootcheck.c promises: whatever bytes a .efi file holds, parsing it never
    reads outside them; the one out-of-bounds read of the DBX scan is described
    exactly; and the SBAT rule is the table of minimum generations. *)
From S2P Require Import Prelude Cstr Sys Exec Device Vhd Bootcheck.

(** * Memory safety of the PE parser *)
Definition safe {A} (m : option A) : Prop := m <> None.

Lemma rd_ok b off n : 0 <= off -> 0 <= n -> off + n <= zlen b -> exists l, rd b off n = Some l /\ zlen l = n.
Proof.
  intros. exists (slice off n b). split; [by apply rd_in_bounds|]. rewrite zlen_slice by lia. lia.
Qed.
Lemma rdn_ok b off n : 0 <= off -> 0 <= n -> off + n <= zlen b ->
  exists v, le <$> rd b off n = Some v /\ 0 <= v < 256 ^ n.
Proof.
  intros H1 H2 H3. destruct (rd_ok b off n H1 H2 H3) as (l & -> & Hl). exists (le l). split; [done|].
  rewrite <- Hl. apply le_range.
Qed.
Lemma rd16_ok b off : 0 <= off -> off + 2 <= zlen b -> exists v, rd16 b off = Some v /\ 0 <= v < 65536.
Proof. intros. by apply (rdn_ok b off 2). Qed.
Lemma rd32_ok b off : 0 <= off -> off + 4 <= zlen b -> exists v, rd32 b off = Some v /\ 0 <= v < 2 ^ 32.
Proof. intros. by apply (rdn_ok b off 4). Qed.

(** [rd_tac]: takes the next read, whose bounds [lia] checks. *)
Ltac rd_next m :=
  lazymatch m with
  | mbind _ ?m' => rd_next m'
  | rd16 ?b ?o =>
      let v := fresh "v" in let E := fresh "E" in
      destruct (rd16_ok b o) as (v & E & ?); [lia|lia|]; rewrite E; clear E
  | rd32 ?b ?o =>
      let v := fresh "v" in let E := fresh "E" in
      destruct (rd32_ok b o) as (v & E & ?); [lia|lia|]; rewrite E; clear E
  | rd ?b ?o ?n =>
      let v := fresh "l" in let E := fresh "E" in
      destruct (rd_ok b o n) as (v & E & ?); [lia|lia|lia|]; rewrite E; clear E
  end; cbn [mbind option_bind].
Ltac rd_tac :=
  lazymatch goal with
  | |- exists r, ?m = _ /\ _ => rd_next m
  | |- ?m <> None => rd_next m
  end.

(** What pe_open establishes for everything after it. *)
Record pe_ok (pe : Pe) : Prop := {
  ok_opt : 0 <= opt pe;
  ok_dd : opt pe + 96 <= dd pe;
  ok_dirs : dd pe + 128 <= plen pe;
  ok_secs : 0 <= secs pe;
  ok_nsec : 0 <= nsec pe < 65536;
  ok_hdrs : secs pe + nsec pe * 40 <= plen pe;
  ok_soh : 0 <= size_of_headers pe }.

Lemma pe_open_ok b : exists r, pe_open b = Some r /\ match r with Some pe => pe_ok pe /\ pb pe = b | None => True end.
Proof.
  unfold pe_open. cbv zeta. destruct (Z.ltb_spec (zlen b) 0x100); [by exists None|].
  rd_tac.
  destruct (negb _); [by exists None|]. rd_tac. destruct (Z.ltb_spec (zlen b) (v + 24 + 96)); [by exists None|]. rd_tac.
  destruct (negb _); [by exists None|]. do 4 rd_tac.
  match goal with |- context [if ?c && ?d then Some None else _] => destruct (c && d) end; [by exists None|]. rd_tac.
  match goal with |- context [if ?c then 112 else 96] =>
    set (w := if c then 112 else 96); assert (96 <= w) by (subst w; destruct c; lia); clearbody w end.
  destruct (Z.ltb_spec (zlen b) (v + 24 + w + 8 * 16)); [by exists None|].
  match goal with |- context [zlen b <? ?x] => destruct (Z.ltb_spec (zlen b) x) end; cbn [orb]; [by exists None|].
  eexists; split; [reflexivity|]; split; [|done]; split; unfold plen; cbn; lia.
Qed.

Lemma elem_of_zseq i n : i ∈ zseq n -> 0 <= i < n.
Proof.
  unfold zseq. intros Hi. apply list_elem_of_In, in_map_iff in Hi as (k & <- & Hk).
  apply in_seq in Hk. lia.
Qed.
Lemma sec_field_ok pe i f :
  pe_ok pe -> 0 <= i < nsec pe -> 0 <= f <= 36 -> exists v, sec_field pe i f = Some v /\ 0 <= v < 2 ^ 32.
Proof.
  intros [] Hi Hf. unfold sec_field, sec_hdr. apply rd32_ok; [lia|]. fold (plen pe). nia.
Qed.
Ltac sec_next m :=
  lazymatch m with
  | mbind _ ?m' => sec_next m'
  | sec_field ?pe ?i ?f =>
      let v := fresh "v" in let E := fresh "E" in
      destruct (sec_field_ok pe i f) as (v & E & ?); [done|lia|unfold RAW_SIZE, RAW_PTR; lia|]; rewrite E; clear E
  end; cbn [mbind option_bind].
Ltac sec_tac :=
  lazymatch goal with
  | |- exists r, ?m = _ /\ _ => sec_next m
  | |- ?m <> None => sec_next m
  end.
Definition all_secs (pe : Pe) (l : list Z) : Prop := Forall (fun i => 0 <= i < nsec pe) l.
Lemma zseq_secs pe n : n <= nsec pe -> all_secs pe (zseq n).
Proof. intros Hn. apply Forall_forall. intros i Hi%list_elem_of_In%elem_of_zseq. lia. Qed.

Section Safety.
Variable pe : Pe.
Hypothesis Hok : pe_ok pe.

Lemma insert_sec_ok i l : 0 <= i < nsec pe -> all_secs pe l -> exists l', insert_sec pe i l = Some l' /\ all_secs pe l'.
Proof.
  intros Hi Hl. induction Hl as [|j l Hj Hl IH]; cbn [insert_sec].
  { eexists; split; [reflexivity|]. by constructor. }
  sec_tac. sec_tac. destruct (_ <? _).
  - destruct IH as (l' & -> & Hl'). cbn. eexists; split; [reflexivity|]. by constructor.
  - eexists; split; [reflexivity|]. constructor; [done|by constructor].
Qed.
Lemma sort_secs_ok idx l : all_secs pe idx -> all_secs pe l -> exists l', sort_secs pe idx l = Some l' /\ all_secs pe l'.
Proof.
  intros Hi. revert l; induction Hi as [|i idx Hi Hidx IH]; intros l Hl; cbn [sort_secs].
  - eexists; split; [reflexivity|]. by apply Forall_rev.
  - destruct (insert_sec_ok i l Hi Hl) as (l' & -> & Hl'). cbn [mbind option_bind]. auto.
Qed.
Lemma hash_secs_ok idx total : all_secs pe idx -> 0 <= total ->
  exists r, hash_secs pe idx total = Some r /\ match r with Some (_, n) => total <= n | None => True end.
Proof.
  intros Hi. revert total; induction Hi as [|i idx Hi Hidx IH]; intros total Ht; cbn [hash_secs].
  { eexists; split; [reflexivity|]. cbn; lia. }
  do 2 sec_tac. destruct (Z.eqb_spec v 0); [auto|].
  destruct (Z.ltb_spec (plen pe) (v0 + v)) as [|Hp]; [by exists None|]. unfold plen in Hp. rd_tac.
  destruct (IH (total + v) ltac:(lia)) as (r & -> & Hr). cbn.
  eexists; split; [reflexivity|]. destruct r as [[]|]; [lia|done].
Qed.
Lemma pe_sha256_ok : safe (pe_sha256_input pe).
Proof.
  unfold pe_sha256_input, safe. cbv zeta. destruct Hok. unfold plen in *. rd_tac.
  destruct (Z.ltb_spec (zlen (pb pe)) (size_of_headers pe)); [done|].
  destruct (Z.ltb_spec (size_of_headers pe) (dd pe + 4 * 8 + 8)); cbn [orb]; [done|].
  do 3 rd_tac.
  destruct (sort_secs_ok (zseq (Z.min 96 (nsec pe))) []) as (idx & -> & Hidx);
    [apply zseq_secs; lia|constructor|]. cbn [mbind option_bind].
  destruct (hash_secs_ok idx (size_of_headers pe) Hidx ltac:(lia)) as (r & -> & Hr). cbn [mbind option_bind].
  destruct r as [[chunks total]|]; [|done].
  match goal with |- context [_ && (total <? ?x)] => set (stop := x) end.
  assert (Hs : stop <= zlen (pb pe)) by (subst stop; destruct (_ && _); lia). clearbody stop.
  destruct (Z.ltb_spec total (zlen (pb pe))); [|done]. destruct (Z.ltb_spec total stop); [|done].
  cbn [andb]. by rd_tac.
Qed.

Lemma section_text_ok name idx : all_secs pe idx -> safe (section_text pe name idx).
Proof.
  intros Hi. unfold safe. induction Hi as [|i idx Hi Hidx IH]; cbn [section_text]; [done|].
  assert (Hh : exists h, rd (pb pe) (sec_hdr pe i) 8 = Some h).
  { destruct Hok. destruct (rd_ok (pb pe) (sec_hdr pe i) 8) as (h & ? & _); [unfold sec_hdr; lia|lia| |eauto].
    fold (plen pe). unfold sec_hdr. nia. }
  destruct Hh as (h & ->). cbn [mbind option_bind]. destruct (negb _); [done|]. do 3 sec_tac.
  match goal with |- context [plen pe <? _ + ?x] => set (n := x) end.
  assert (0 <= n) by (subst n; destruct (_ && _); lia). clearbody n.
  destruct (Z.ltb_spec (plen pe) (v1 + n)) as [|Hp]; [done|]. unfold plen in Hp. by rd_tac.
Qed.
Lemma rva_scan_ok rva idx : all_secs pe idx ->
  exists r, rva_scan pe rva idx = Some r /\ match r with Some o => 0 <= o < plen pe | None => True end.
Proof.
  intros Hi. induction Hi as [|i idx Hi Hidx IH]; cbn [rva_scan]; [by exists None|].
  do 4 sec_tac. destruct (Z.leb_spec v rva); [|done]. destruct (_ <? Z.max _ _); [|done]. cbn [andb].
  eexists; split; [reflexivity|]. destruct (Z.ltb_spec (v2 + (rva - v)) (plen pe)); [lia|done].
Qed.
Lemma rva_to_off_ok rva :
  exists r, rva_to_off pe rva = Some r /\ match r with Some o => 0 <= o < plen pe | None => True end.
Proof. apply rva_scan_ok, zseq_secs. lia. Qed.

Lemma utf16_eq_ok b off name : 0 <= off -> off + 2 * strlen name <= zlen b -> safe (utf16_eq b off name).
Proof.
  unfold safe. revert off; induction name as [|c t IH]; intros off H0 H; cbn [utf16_eq]; [done|].
  rewrite strlen_cons in H. pose proof (strlen_nonneg t). rd_tac. destruct (_ =? _); [|done]. apply IH; lia.
Qed.
Lemma low31_nonneg z : 0 <= low31 z.
Proof. unfold low31. apply Z.land_nonneg. by right. Qed.
Lemma rsrc_match_ok root name inside nm : 0 <= root -> safe (rsrc_match pe root name inside nm).
Proof.
  intros Hr. unfold rsrc_match, safe. pose proof (low31_nonneg nm). destruct (_ && _); [|done]. cbv zeta.
  destruct (Z.leb_spec (root + low31 nm + 2) (plen pe)) as [H2|]; [|done]. unfold plen in *. rd_tac.
  destruct (Z.eqb_spec v (strlen name)) as [->|]; [|done]. cbn [andb].
  destruct (Z.leb_spec (root + low31 nm + 2 + strlen name * 2) (zlen (pb pe))); [|done].
  apply utf16_eq_ok; lia.
Qed.
Lemma rsrc_find_ok root name n dir inside : 0 <= root -> 0 <= dir ->
  exists r, rsrc_find pe root name n dir inside = Some r /\
    match r with Some (rva, size) => 0 <= rva | None => True end.
Proof.
  intros Hr. revert dir inside; induction n as [|n IH]; intros dir inside Hd; cbn [rsrc_find]; [by exists None|].
  destruct (Z.ltb_spec (plen pe) (dir + 16)) as [|H16]; [by exists None|]. unfold plen in H16.
  do 2 rd_tac. destruct (_ <? _); [by exists None|].
  generalize (Z.to_nat (v + v0)) as k. intros k. assert (Hi : 0 <= 0) by lia. revert Hi. generalize 0 at 2 3 as i.
  induction k as [|k IHk]; intros i Hi; [by exists None|].
  destruct (Z.ltb_spec (plen pe) (dir + 16 + i * 8 + 8)) as [|He]; [by exists None|].
  unfold plen in He. do 2 rd_tac.
  pose proof (rsrc_match_ok root name inside v1 Hr) as Hm. unfold safe in Hm.
  destruct (rsrc_match pe root name inside v1) as [hit|]; [|done]. cbn [mbind option_bind].
  destruct (bit31 v2).
  - pose proof (low31_nonneg v2). destruct (IH (root + low31 v2) hit ltac:(lia)) as (r & -> & Hrr).
    cbn [mbind option_bind]. destruct r as [x|]; [by exists (Some x)|]. apply IHk. lia.
  - destruct hit; [|apply IHk; lia].
    destruct (Z.ltb_spec (plen pe) (root + v2 + 16)) as [|Hde]; [by exists None|]. unfold plen in Hde.
    do 2 rd_tac. eexists; split; [reflexivity|]. cbn. lia.
Qed.
Lemma svn_levels_ok root lv : 0 <= root -> safe (svn_levels pe root lv).
Proof.
  intros Hr. unfold safe. induction lv as [|[p v] lv IH]; cbn [svn_levels]; [done|].
  destruct (negb _); [done|]. destruct (rsrc_find_ok root p 5 root false Hr Hr) as (r & -> & _).
  cbn [mbind option_bind]. destruct r as [[rva size]|]; [|done]. destruct (negb _); [done|].
  destruct (rva_to_off_ok rva) as (o & -> & Ho). cbn [mbind option_bind]. destruct o as [o|]; [|done].
  destruct (Z.ltb_spec (plen pe) (o + 4)) as [|H4]; [done|]. unfold plen in H4. rd_tac. by destruct (_ <? _).
Qed.

Lemma read_sig_ok sha256 pkcs7 : safe (read_sig sha256 pkcs7 pe).
Proof.
  unfold read_sig, safe. cbv zeta. destruct Hok. unfold plen in *. do 2 rd_tac.
  destruct (Z.eqb_spec v 0); [done|]. destruct (Z.ltb_spec v0 16); [done|].
  destruct (Z.ltb_spec (zlen (pb pe)) (v + v0)); cbn [orb]; [done|]. do 2 rd_tac.
  destruct (Z.ltb_spec v1 8); [done|]. destruct (Z.ltb_spec v0 v1); [done|]. cbn [orb].
  destruct (negb _); [done|]. by rd_tac.
Qed.
Lemma revoked_by_svn_ok : safe (revoked_by_svn pe).
Proof.
  unfold revoked_by_svn, safe. destruct Hok. unfold plen in *. do 2 rd_tac. destruct (_ || _); [done|].
  destruct (rva_to_off_ok v) as (r & -> & Hr). cbn [mbind option_bind]. destruct r; [|done].
  apply svn_levels_ok. lia.
Qed.
Lemma revoked_by_sbat_ok : safe (revoked_by_sbat pe).
Proof.
  unfold revoked_by_sbat, pe_section_text, safe.
  assert (Hs : all_secs pe (zseq (nsec pe))) by (apply zseq_secs; lia).
  pose proof (section_text_ok ".sbat" _ Hs) as H. unfold safe in H.
  by destruct (section_text _ _ _).
Qed.
End Safety.


(** C40: whatever bytes a .efi file holds, parsing them never reads outside the
    file: opening the PE headers, and, once they are accepted, reading the
    signature, hashing the image, and searching the SBAT section and the resource
    tree. *)
Theorem bootcheck_in_bounds sha256 pkcs7 b :
  match pe_open b with
  | None => False
  | Some None => True
  | Some (Some pe) =>
      read_sig sha256 pkcs7 pe <> None /\ pe_sha256_input pe <> None /\
      revoked_by_sbat pe <> None /\ revoked_by_svn pe <> None
  end.
Proof.
  destruct (pe_open_ok b) as ([pe|] & -> & H); [|done]. destruct H as [H _]. split_and!.
  - by apply read_sig_ok.
  - by apply pe_sha256_ok.
  - by apply revoked_by_sbat_ok.
  - by apply revoked_by_svn_ok.
Qed.

(** * The DBX scan *)

(** a SHA-256 list whose entries are too short for the 48 bytes the code reads *)
Definition short_sha_list (d : list byte) : Prop :=
  exists off ssz, rd d off 16 = Some GUID_SHA256 /\ rd32 d (off + 24) = Some ssz /\ 32 <= ssz < 48.

Lemma dbx_entries_ok d is_sha is_x509 hash tbs ssz cnt e :
  0 <= e -> 0 <= ssz -> (is_sha = true -> ssz < 32 \/ 48 <= ssz) -> e + Z.of_nat cnt * ssz <= zlen d ->
  dbx_entries d is_sha is_x509 hash tbs ssz cnt e <> None.
Proof.
  intros He Hs Hsha. revert e He; induction cnt as [|n IH]; intros e He Hc; cbn [dbx_entries]; [done|].
  assert (Hn : dbx_entries d is_sha is_x509 hash tbs ssz n (e + ssz) <> None) by (apply IH; lia).
  destruct ((is_sha || is_x509) && _) eqn:Ec; [|done]. apply andb_true_iff in Ec as [_ Ec%Z.leb_le].
  assert (48 <= ssz) by (destruct is_sha; [destruct (Hsha eq_refl)|]; lia).
  rd_tac. destruct (is_sha && _); [done|]. by destruct (is_x509 && _).
Qed.
Lemma dbx_lists_ok d hash tbs fuel off :
  0 <= off -> dbx_lists d hash tbs fuel off = None -> short_sha_list d.
Proof.
  revert off; induction fuel as [|f IH]; intros off Ho; cbn [dbx_lists]; [done|].
  destruct (Z.ltb_spec (zlen d) (off + 28)); [done|].
  destruct (rd_ok d off 16) as (g & Eg & Hg); [lia..|]. rewrite Eg; cbn [mbind option_bind].
  destruct (rd32_ok d (off + 16)) as (lsz & -> & Hl); [lia..|]. cbn [mbind option_bind].
  destruct (rd32_ok d (off + 20)) as (hsz & -> & Hh); [lia..|]. cbn [mbind option_bind].
  destruct (rd32_ok d (off + 24)) as (ssz & Es & Hs); [lia..|]. rewrite Es; cbn [mbind option_bind].
  destruct (Z.ltb_spec lsz 28), (Z.ltb_spec (zlen d) (off + lsz)), (Z.ltb_spec ssz 16), (Z.ltb_spec lsz (hsz + 28));
    try done. cbn [orb].
  destruct (decide (32 <= ssz < 48)) as [Hbad|Hgood].
  { destruct (bytes_eqb g GUID_SHA256) eqn:Egu.
    - intros _. exists off, ssz. split_and!; try lia; [|done]. apply bool_decide_eq_true in Egu as ->. done.
    - pose proof (Z.mul_div_le (lsz - 28 - hsz) ssz ltac:(lia)).
      pose proof (Z.div_pos (lsz - 28 - hsz) ssz ltac:(lia) ltac:(lia)).
      pose proof (dbx_entries_ok d false (bytes_eqb g GUID_X509_SHA256) hash tbs ssz
        (Z.to_nat ((lsz - 28 - hsz) / ssz)) (off + 28 + hsz) ltac:(lia) ltac:(lia) ltac:(done) ltac:(lia)) as He.
      destruct (dbx_entries _ _ _ _ _ _ _ _) as [[]|]; [done| |done]. cbn [mbind option_bind]. apply IH. lia. }
  pose proof (Z.mul_div_le (lsz - 28 - hsz) ssz ltac:(lia)).
  pose proof (Z.div_pos (lsz - 28 - hsz) ssz ltac:(lia) ltac:(lia)).
  pose proof (dbx_entries_ok d (bytes_eqb g GUID_SHA256) (bytes_eqb g GUID_X509_SHA256) hash tbs ssz
    (Z.to_nat ((lsz - 28 - hsz) / ssz)) (off + 28 + hsz) ltac:(lia) ltac:(lia) ltac:(lia) ltac:(lia)) as He.
  destruct (dbx_entries _ _ _ _ _ _ _ _) as [[]|]; [done| |done]. cbn [mbind option_bind]. apply IH. lia.
Qed.

(** The DBX scan reads outside the DBX file only when the file holds a
    SHA-256 list whose entries are 32 to 47 bytes: the code's guard lets those
    through although it reads 16 + 32 bytes of each. The witness is such a file. *)
Theorem dbx_scan_out_of_bounds d hash tbs : dbx_scan d hash tbs = None -> short_sha_list d.
Proof.
  unfold dbx_scan. destruct (Z.ltb_spec (16 + 24) (zlen d)); [|done].
  destruct (rd32_ok d 16) as (n & -> & Hn); [lia..|]. cbn [mbind option_bind]. apply dbx_lists_ok. lia.
Qed.
Definition short_dbx : list byte :=
  replicate 16 Byte.x00 ++ to_le 4 24 ++ replicate 20 Byte.x00 ++ GUID_SHA256 ++ to_le 4 60 ++ to_le 4 0 ++ to_le 4 32
    ++ replicate 32 Byte.x00.
Lemma dbx_scan_out_of_bounds_witness :
  dbx_scan short_dbx (replicate 32 Byte.x01) [] = None /\ short_sha_list short_dbx.
Proof.
  assert (H : dbx_scan short_dbx (replicate 32 Byte.x01) [] = None) by (vm_compute; reflexivity).
  split; [exact H|]. apply (dbx_scan_out_of_bounds _ (replicate 32 Byte.x01) []). exact H.
Defined.

(** * SBAT *)

(** the generations the development's table demands *)
Definition below_minimum (nm : string) (gen : Z) : Prop :=
  (nm = "sbat" /\ gen < 1) \/ (nm = "shim" /\ gen < 4) \/ (nm = "grub" /\ gen < 5) \/ (nm = "grub.proxmox" /\ gen < 2).

Lemma load_levels_val : load_levels =
  [("sbat", 1); ("shim", 4); ("grub", 5); ("grub.proxmox", 2); ("BOOTMGRSECURITYVERSIONNUMBER", 0x70000)].
Proof. vm_compute. reflexivity. Qed.
Lemma sbat_hit_iff nm gen lv :
  sbat_hit nm gen lv <> None <-> exists v, (nm, v) ∈ lv /\ is_upper nm = false /\ gen < v.
Proof.
  induction lv as [|[p v] lv IH]; cbn [sbat_hit].
  { split; [done|]. by intros (v & H%not_elem_of_nil & _). }
  destruct (negb (is_upper p) && String.eqb nm p && (gen <? v)) eqn:E.
  - split; [|done]. intros _. apply andb_true_iff in E as [[Hu Hn]%andb_true_iff Hv].
    apply String.eqb_eq in Hn as ->. exists v. split; [by left|]. by destruct (is_upper p); lia.
  - rewrite IH. split; intros (w & Hin & Hu & Hw); exists w; split_and!; try done; [by right|].
    apply elem_of_cons in Hin as [Hin|]; [|done]. simplify_eq.
    rewrite Hu, String.eqb_refl in E. cbn in E. lia.
Qed.
Lemma sbat_hit_levels nm gen : sbat_hit nm gen load_levels <> None <-> below_minimum nm gen.
Proof.
  rewrite sbat_hit_iff, load_levels_val. unfold below_minimum. rewrite ?elem_of_cons. split.
  - intros (v & Hin & Hu & Hv). rewrite !elem_of_cons in Hin.
    destruct Hin as [H|[H|[H|[H|[H|H%not_elem_of_nil]]]]]; simplify_eq; try (by vm_compute in Hu); tauto.
  - intros [[-> H]|[[-> H]|[[-> H]|[-> H]]]]; eexists; (split; [|split; [vm_compute; reflexivity|exact H]]);
      rewrite !elem_of_cons; tauto.
Qed.

(** An SBAT section revokes a program exactly when some line of it names a
    component of the table with a generation below the table's minimum (a UEFI
    version-number row of the table never matches). *)
Theorem sbat_text_correct txt :
  sbat_text txt <> None <->
  exists ln nm v, ln ∈ tok_char (chr 10) txt /\ cut_comma ln = Some (nm, v) /\ below_minimum nm (strtoul10 v mod 2 ^ 32).
Proof.
  unfold sbat_text. induction (tok_char (chr 10) txt) as [|ln t IH]; cbn [sbat_lines].
  { split; [done|]. intros (ln & _ & _ & H & _). by apply not_elem_of_nil in H. }
  destruct (cut_comma ln) as [[nm v]|] eqn:Ec.
  - pose proof (sbat_hit_levels nm (strtoul10 v mod 2 ^ 32)) as Hh.
    destruct (sbat_hit nm (strtoul10 v mod 2 ^ 32) load_levels) as [w|].
    + split; [|done]. intros _. exists ln, nm, v. split; [by left|]. split; [done|]. by apply Hh.
    + rewrite IH. split; intros (l & n & u & Hin & Hcut & Hb); exists l, n, u; split_and!; try done; [by right|].
      apply elem_of_cons in Hin as [->|]; [|done]. simplify_eq. by apply Hh in Hb.
  - rewrite IH. split; intros (l & n & u & Hin & Hcut & Hb); exists l, n, u; split_and!; try done; [by right|].
    apply elem_of_cons in Hin as [->|]; [|done]. congruence.
Qed.

(** * The tree walk *)

(** a log line that reports a revoked program *)
Definition warning (o : obs) : bool :=
  match o with
  | Obs e _ => match e with Log s => String.prefix "WARNING: revoked" s | _ => false end
  end.
Definition warnings (t : list obs) : Z := zlen (List.filter warning t).
Lemma warnings_app t u : warnings (t ++ u) = warnings t + warnings u.
Proof. unfold warnings. by rewrite List.filter_app, zlen_app. Qed.
Lemma warnings_cons o t : warnings (o :: t) = (if warning o then 1 else 0) + warnings t.
Proof. unfold warnings. cbn [List.filter]. destruct (warning o); [by rewrite zlen_cons|done]. Qed.
Definition quiet : forall X : Set, ev X -> Prop := fun X e => match e with Log _ => False | _ => touches e = false end.
Lemma quiet_warnings {A} (m : io A) : always quiet m -> wp m (fun t _ => warnings t = 0).
Proof.
  intros Hm. apply wp_exec. intros t a He. apply (always_exec _ _ _ _ Hm) in He.
  induction He as [|[X e x] t Ho Ht IH]; [done|]. rewrite warnings_cons, IH. by destruct e.
Qed.
Lemma check_line_warning rel c : String.prefix "WARNING: revoked" (check_line rel c) = revoked (bc_state c).
Proof. unfold check_line. destruct (bc_state c); reflexivity. Qed.

Section Tree.
Variable sha256 : list byte -> list byte.
Variable pkcs7 : list byte -> option (string * list (list byte)).

Lemma bootcheck_file_quiet path : always quiet (rufux_bootcheck_file sha256 pkcs7 path).
Proof.
  unfold rufux_bootcheck_file, read_all, dbx_has, dbx_dir, rufux_exe_dir. always_tac.
  all: done.
Qed.
Lemma wp_call_quiet {X : Set} {A} (e : ev X) (f : X -> io A) (Q : Z -> A -> Prop) :
  quiet X e -> (forall x, wp (f x) (fun t a => Q (warnings t) a)) -> wp (bind (call e) f) (fun t a => Q (warnings t) a).
Proof.
  intros He Hf. cbn. intros x. eapply wp_mono; [|apply Hf]. cbn. intros t a HQ. rewrite warnings_cons.
  destruct e; cbn [warning]; try exact HQ. done.
Qed.
Lemma wp_file_quiet {A} path (f : option (option RufuxBootCheck) -> io A) (Q : Z -> A -> Prop) :
  (forall x, wp (f x) (fun t a => Q (warnings t) a)) ->
  wp (bind (rufux_bootcheck_file sha256 pkcs7 path) f) (fun t a => Q (warnings t) a).
Proof.
  intros Hf. apply wp_seq. eapply wp_mono; [|apply quiet_warnings, bootcheck_file_quiet]. cbn. intros t a Ht.
  eapply wp_mono; [|apply Hf]. cbn. intros u r HQ. by rewrite warnings_app, Ht, Z.add_0_l.
Qed.

(** [counted acc]: the revoked programs counted are [acc] and the warnings logged. *)
Definition counted (acc w : Z) (r : option (Z * Z)) : Prop :=
  match r with Some (_, v) => v = acc + w | None => True end.
Lemma walk_names_counted sub dir :
  (forall p c, wp (sub p c) (fun t r => counted 0 (warnings t) r)) ->
  forall names checked rev, wp (walk_names sha256 pkcs7 sub dir names checked rev) (fun t r => counted rev (warnings t) r).
Proof.
  intros IH names. induction names as [|nm t IHn]; intros checked rev; [change (rev = rev + 0); lia|].
  cbn [walk_names]. destruct (_ || _); [apply IHn|]. apply wp_call_quiet; [done|]. intros st.
  destruct (is_kind KDir st).
  - apply wp_seq. eapply wp_mono; [|apply IH]. intros t1 [[c v]|] Hv; [|done].
    eapply wp_mono; [|apply IHn]. intros t2 [[c2 v2]|] H2; [|done]. unfold counted in *. rewrite warnings_app. lia.
  - destruct (_ || _); [apply IHn|]. apply wp_file_quiet. intros [[c|]|]; [|apply IHn|done].
    case_bool_decide; [apply IHn|]. cbn [bind call wp]. intros [].
    eapply wp_mono; [|apply IHn]. intros t2 [[c2 v2]|] H2; [|done]. unfold counted in *. cbv beta in H2 |- *.
    rewrite warnings_cons. unfold warning. rewrite check_line_warning. destruct (revoked _); lia.
Qed.
Lemma walk_counted n dir checked :
  wp (walk sha256 pkcs7 n dir checked) (fun t r => counted 0 (warnings t) r).
Proof.
  revert dir checked; induction n as [|n IH]; intros dir checked; cbn [walk]; [done|].
  destruct (_ <? _); [done|]. apply wp_call_quiet; [done|]. intros [names|]; [|done].
  by apply walk_names_counted.
Qed.

Lemma bootcheck_file_harmless p : always harmless (rufux_bootcheck_file sha256 pkcs7 p).
Proof. eapply always_mono; [|apply bootcheck_file_quiet]. intros X []; cbn; done. Qed.
Lemma walk_names_harmless sub dir : (forall p c, always harmless (sub p c)) ->
  forall names checked rev, always harmless (walk_names sha256 pkcs7 sub dir names checked rev).
Proof.
  intros IH names. induction names as [|nm t IHn]; intros checked rev; [done|]. cbn [walk_names].
  pose proof bootcheck_file_harmless. always_tac; done.
Qed.
Lemma walk_harmless n dir checked : always harmless (walk sha256 pkcs7 n dir checked).
Proof.
  revert dir checked; induction n as [|n IH]; intros dir checked; cbn [walk]; [done|].
  pose proof (walk_names_harmless _ dir IH). always_tac; done.
Qed.
Lemma rufux_bootcheck_tree_harmless root : always harmless (rufux_bootcheck_tree sha256 pkcs7 root).
Proof. pose proof walk_harmless. unfold rufux_bootcheck_tree. always_tac; done. Qed.

(** The number rufux_bootcheck_tree returns is the number of warnings it
    logged, one for each revoked program, however the files are nested; and
    looking changes nothing on the disk and starts no program. *)
Theorem rufux_bootcheck_tree_counts root :
  always harmless (rufux_bootcheck_tree sha256 pkcs7 root) /\
  (forall t n, exec (rufux_bootcheck_tree sha256 pkcs7 root) t (Some n) -> n = warnings t).
Proof.
  split.
  - apply rufux_bootcheck_tree_harmless.
  - intros t n. enough (forall r, exec (rufux_bootcheck_tree sha256 pkcs7 root) t r ->
      match r with Some n => n = warnings t | None => True end) as H by apply H.
    intros r. revert t r. refine (exec_wp _ _ _). unfold rufux_bootcheck_tree. apply wp_seq.
    eapply wp_mono; [|apply walk_counted]. cbn. intros t [[c v]|] Hv; [|done]. cbn in Hv.
    destruct (c =? 0); cbn [when bind call wp].
    + intros []. rewrite warnings_app, warnings_cons. cbn. change (warnings []) with 0. lia.
    + rewrite app_nil_r. lia.
Qed.
End Tree.
