(* ===== verification/Iso.v ===== *)
(** src/src/linux/iso_probe.c and rufux_is_windows_iso of wininstall.c: what an
    image file is, from its volume descriptors and its listing. *)
From S2P Require Import Prelude Cstr Double Sys Exec.

(** [printf "%.2f"] and the like divide a size by a power of two. *)
Record RufuxIsoInfo := IsoInfo_ {
  iso_label : string; size_bytes : Z; valid_iso : bool; bootable : bool; has_efi : bool;
  is_windows : option bool;   (* None = -1, unknown *)
  is_udf : option bool }.

(** * Descriptors *)
Definition CD001 : list byte := bytes_of_string "CD001".
Definition EL_TORITO : list byte := bytes_of_string "EL TORITO SPECIFICATION".
(** [memcmp (sec + off, l, sizeof l)] on a whole sector *)
Definition at_off (sec : list byte) (off : Z) (l : list byte) : bool := bytes_eqb (slice off (zlen l) sec) l.
Definition byte_at (sec : list byte) (off : Z) : Z := le (slice off 1 sec).

(** the 32-byte label, cut at its trailing blanks and NULs, up to its first NUL *)
Definition is_blank_b (b : byte) : bool := (u8 b =? 32) || (u8 b =? 0).
Fixpoint rtrim_bytes (l : list byte) : list byte :=
  match l with
  | [] => []
  | b :: t => match rtrim_bytes t with [] => if is_blank_b b then [] else [b] | t' => b :: t' end
  end.
Definition pvd_label (sec : list byte) : string := cstr_of_bytes (rtrim_bytes (slice 40 32 sec)).
Definition is_pvd (sec : list byte) : bool := (byte_at sec 0 =? 1) && at_off sec 1 CD001.
Definition is_boot_record (sec : list byte) : bool :=
  (byte_at sec 0 =? 0) && at_off sec 1 CD001 && at_off sec 7 EL_TORITO.
Definition is_efi_entry (ent : list byte) : bool := (byte_at ent 0 =? 0x01) && (byte_at ent 1 =? 0xEF).

Definition SECTOR : Z := 2048.
Definition rufux_iso_is_udf (path : string) : io (option bool) :=
  f <- call (Fopen path "rb") ;;
  match f with
  | inl _ => Ret None
  | inr f =>
      s <- call (Fseek f (256 * SECTOR)) ;;
      if negb s then call (Fclose f) ;;; Ret (Some false)
      else
        sec <- call (Fread f SECTOR) ;;
        call (Fclose f) ;;;
        if negb (zlen sec =? SECTOR) then Ret (Some false)
        else Ret (Some (le (slice 0 2 sec) =? 2))
  end.

(** * Windows media *)
(** from after the last separator on *)
Fixpoint last_part (sep : ascii -> bool) (s : string) : string :=
  match s with
  | "" => ""
  | String c t =>
      if sall (fun d => negb (sep d)) t then if sep c then t else s else last_part sep t
  end.
Definition blank_or_tab (c : ascii) : bool := Ascii.eqb c " " || (code c =? 9).
Fixpoint rtrim_line (s : string) : string :=
  match s with
  | "" => ""
  | String c t =>
      match rtrim_line t with
      | "" => if blank_or_tab c || (code c =? 13) then "" else String c ""
      | t' => String c t'
      end
  end.
Definition is_install_image (t : string) : bool :=
  strcaseeq t "install.wim" || strcaseeq t "install.esd" || strcaseeq t "install.swm".
(** one line of 7z's listing *)
Definition line_7z (line : string) : bool :=
  let line := rtrim_line (span blank_or_tab line).2 in
  is_install_image (last_part (fun c => Ascii.eqb c "/" || Ascii.eqb c "\") line).
(** one line of bsdtar's *)
Definition line_tar (line : string) : bool :=
  (strcasestr "sources/install.wim" line || strcasestr "sources/install.esd" line
   || strcasestr "sources/install.swm" line) &&
  is_install_image (last_part (Ascii.eqb "/") line).

Section Fuel.
Variable fuel : nat.
Definition LISTING : Z := 65536.

Definition rufux_is_windows_iso (iso : string) : io (cres bool) :=
  st <- call (Stat iso) ;;
  match st with
  | None => fail ("source '" +:+ iso +:+ "' missing")
  | Some _ =>
      udf <- rufux_iso_is_udf iso ;;
      if bool_decide (udf = Some true) then
        h <- rufux_have "7z" ;;
        if negb h then fail "need 7z to inspect UDF image"
        else
          r <- rufux_capture fuel ["7z"; "l"; "-ba"; iso] LISTING ;;
          ok (r.1 && existsb line_7z (tok_char (chr 10) r.2))
      else
        h <- rufux_have "bsdtar" ;;
        if negb h then fail "need bsdtar to inspect ISO"
        else
          r <- rufux_capture fuel ["bsdtar"; "-tf"; iso] LISTING ;;
          ok (r.1 && existsb line_tar (tok_char (chr 10) r.2))
  end.

(** * The probe *)
(** whether the El Torito catalog [sec] points at starts with an EFI entry *)
Definition catalog_efi (f size : Z) (sec : list byte) : io bool :=
  let cat_lba := le (slice 0x47 4 sec) in
  let cat_off := cat_lba * 2048 in
  if (0 <? cat_lba) && (cat_off + 32 <=? size) then
    s <- call (Fseek f cat_off) ;;
    if negb s then Ret false
    else ent <- call (Fread f 32) ;; Ret ((zlen ent =? 32) && is_efi_entry ent)
  else Ret false.

(** [None] is the return value -1 *)
Definition rufux_probe_iso_detail (path : string) : io (option RufuxIsoInfo) :=
  st <- call (Stat path) ;;
  match st with
  | None => Ret None
  | Some st =>
      let size := st_size st in
      f <- call (Fopen path "rb") ;;
      match f with
      | inl _ => Ret None
      | inr f =>
          s <- call (Fseek f (16 * SECTOR)) ;;
          if negb s then call (Fclose f) ;;; Ret None
          else
            sec <- call (Fread f SECTOR) ;;
            if negb (zlen sec =? SECTOR) then call (Fclose f) ;;; Ret None
            else
              s17 <- call (Fseek f (17 * SECTOR)) ;;
              boot <- (if (s17 : bool) then
                         br <- call (Fread f SECTOR) ;;
                         if (zlen br =? SECTOR) && is_boot_record br then
                           efi <- catalog_efi f size br ;; Ret (true, efi)
                         else Ret (false, false)
                       else Ret (false, false)) ;;
              call (Fclose f) ;;;
              w <- rufux_is_windows_iso path ;;
              udf <- rufux_iso_is_udf path ;;
              Ret (Some (IsoInfo_ (if is_pvd sec then pvd_label sec else "") size (is_pvd sec) boot.1 boot.2
                           (match w with Ok b => Some b | Fail _ => None end) udf))
      end
  end.

(** [inl rc]: the return values -1 and -2 *)
Definition rufux_probe_iso (path : string) (cap : nat) : io (Z + string) :=
  i <- rufux_probe_iso_detail path ;;
  Ret (match i with
       | None => inl (-1)
       | Some i => if valid_iso i then inr (snprintf cap (iso_label i)) else inl (-2)
       end).
End Fuel.

Definition tri (b : option bool) : string :=
  match b with Some true => "yes" | Some false => "no" | None => "unknown" end.
Definition yn (b : bool) : string := if b then "yes" else "no".
Definition rufux_print_iso_detail (point : ascii) (path : string) (info : RufuxIsoInfo) : string :=
  "file: " +:+ path +:+ LF +:+ "size: " +:+ dec (size_bytes info) +:+ " bytes (" +:+
  fmt_f point 2 (ddiv (Z2double (size_bytes info)) (Z2double 1048576)) +:+ " MB)" +:+ LF +:+
  "label: " +:+ (if String.eqb (iso_label info) "" then "(none)" else iso_label info) +:+ LF +:+
  "valid_iso: " +:+ yn (valid_iso info) +:+ LF +:+ "bootable: " +:+ yn (bootable info) +:+ LF +:+
  "efi_hint: " +:+ yn (has_efi info) +:+ LF +:+ "windows: " +:+ tri (is_windows info) +:+ LF +:+
  "udf: " +:+ tri (is_udf info) +:+ LF.

(** * Properties *)
Lemma rtrim_bytes_blank l n b : is_blank_b b = true -> rtrim_bytes (l ++ replicate n b) = rtrim_bytes l.
Proof.
  intros Hb. induction l as [|c l IH]; cbn [app rtrim_bytes]; [|by rewrite IH].
  induction n as [|n IH]; [done|]. cbn [replicate rtrim_bytes]. by rewrite IH, Hb.
Qed.
Lemma rtrim_bytes_id l b : is_blank_b b = false -> rtrim_bytes (l ++ [b]) = l ++ [b].
Proof.
  intros Hb. induction l as [|c l IH]; cbn [app rtrim_bytes]; [by rewrite Hb|]. rewrite IH. by destruct l.
Qed.

(** A volume label is read back exactly: from a primary volume descriptor
    that holds [s] padded with blanks, as ISO 9660 writes it, the probe gets
    [s], for every label of at most 32 characters that does not end in a blank. *)
Theorem pvd_label_roundtrip hd s c tl :
  zlen hd = 40 -> no_nul (s +:+ String c "") = true -> c <> " "%char -> strlen s + 1 <= 32 ->
  pvd_label (hd ++ bytes_of_string (s +:+ String c "") ++ replicate (32 - S (String.length s)) Byte.x20 ++ tl) = s +:+ String c "".
Proof.
  intros Hh Hn Hc Hl. unfold pvd_label, slice, strlen in *.
  rewrite zdrop_app, (zdrop_all 40) by lia. rewrite Hh. cbn [app]. rewrite app_assoc.
  set (l := bytes_of_string _). assert (Hz : zlen l = Z.of_nat (S (String.length s))).
  { subst l. rewrite zlen_bytes_of_string. unfold strlen. rewrite slength_app. cbn. lia. }
  change (zdrop (40 - 40) ?x) with x. rewrite ztake_app, ztake_all by (rewrite zlen_app, zlen_replicate; lia).
  rewrite ztake_neg by (rewrite zlen_app, zlen_replicate; lia). rewrite app_nil_r, rtrim_bytes_blank by done.
  subst l. rewrite bytes_of_string_app. cbn [bytes_of_string]. rewrite rtrim_bytes_id.
  - change [b8 (code c)] with (bytes_of_string (String c "")). rewrite <- bytes_of_string_app. by apply cstr_bytes_of_string.
  - unfold is_blank_b. pose proof (code_range c). rewrite u8_b8, Z.mod_small by lia.
    assert (Hz0 : code c <> 0). { clear -Hn. induction s; cbn in *; [|apply andb_true_iff in Hn as [_ Hn]; auto]. lia. }
    assert (code c <> 32). { intros H32. apply Hc. rewrite <- (chr_code c), H32. reflexivity. }
    lia.
Qed.
Lemma pvd_label_roundtrip_witness :
  pvd_label (replicate 40 Byte.x01 ++ bytes_of_string "UBUNTU 24" ++ replicate 23 Byte.x20 ++ [Byte.x41]) = "UBUNTU 24".
Proof.
  apply (pvd_label_roundtrip (replicate 40 Byte.x01) "UBUNTU 2" "4" [Byte.x41]); vm_compute; congruence.
Defined.

(** Only a bootable image has the EFI hint. *)
Lemma probe_efi_bootable fuel path t i :
  exec (rufux_probe_iso_detail fuel path) t (Some i) -> has_efi i = true -> bootable i = true.
Proof.
  enough (forall r, exec (rufux_probe_iso_detail fuel path) t r ->
    match r with Some i => has_efi i = true -> bootable i = true | None => True end) as H by apply (H (Some i)).
  intros r. revert t r. refine (exec_wp _ _ _). unfold rufux_probe_iso_detail. cbn [bind call wp].
  intros [st|]; [|done]. cbn [bind wp]. intros [?|f]; [done|]. cbn [bind call wp]. intros [|]; [|by cbn].
  cbn [negb bind call wp]. intros sec. destruct (negb _); [by cbn|]. cbn [bind call wp]. intros s17.
  assert (Hk : forall b e, (e = true -> b = true) ->
    wp (call (Fclose f) ;;; w <- rufux_is_windows_iso fuel path ;; udf <- rufux_iso_is_udf path ;;
        Ret (Some (IsoInfo_ (if is_pvd sec then pvd_label sec else "") (st_size st) (is_pvd sec) b e
          (match w with Ok b => Some b | Fail _ => None end) udf)))
      (fun _ r => match r with Some i => has_efi i = true -> bootable i = true | None => True end)).
  { intros b e Hbe. cbn [bind call wp]. intros _. apply wp_any. intros _ w. apply wp_any. by intros _ udf. }
  destruct s17; [|by apply (Hk false false)]. cbn [bind call wp]. intros br.
  destruct ((zlen br =? SECTOR) && is_boot_record br); [|by apply (Hk false false)].
  apply wp_seq, wp_any. intros _ efi. by apply (Hk true).
Qed.
