(* ===== verification/Wue.v ===== *)
(** src/src/linux/wininstall.c: the Windows User Experience options, the answer
    file they become, the patch of boot.wim, and the UEFI:NTFS boot partition.
    (rufux_is_windows_iso is in Iso.v.) *)
From S2P Require Import Prelude Cstr Sys Exec.

(** * Options *)
Record Wue := Wue_ {
  bypass : bool; nro : bool; privacy : bool; bitlocker : bool; locale : bool; qol : bool;
  user : string; lang : string; kbd : string; tz : string }.
Definition no_wue : Wue := Wue_ false false false false false false "" "" "" "".
Definition set_bypass (w : Wue) : Wue := Wue_ true (nro w) (privacy w) (bitlocker w) (locale w) (qol w) (user w) (lang w) (kbd w) (tz w).
Definition set_nro (w : Wue) : Wue := Wue_ (bypass w) true (privacy w) (bitlocker w) (locale w) (qol w) (user w) (lang w) (kbd w) (tz w).
Definition set_privacy (w : Wue) : Wue := Wue_ (bypass w) (nro w) true (bitlocker w) (locale w) (qol w) (user w) (lang w) (kbd w) (tz w).
Definition set_bitlocker (w : Wue) : Wue := Wue_ (bypass w) (nro w) (privacy w) true (locale w) (qol w) (user w) (lang w) (kbd w) (tz w).
Definition set_locale (w : Wue) : Wue := Wue_ (bypass w) (nro w) (privacy w) (bitlocker w) true (qol w) (user w) (lang w) (kbd w) (tz w).
Definition set_qol (w : Wue) : Wue := Wue_ (bypass w) (nro w) (privacy w) (bitlocker w) (locale w) true (user w) (lang w) (kbd w) (tz w).
Definition set_user (u : string) (w : Wue) : Wue := Wue_ (bypass w) (nro w) (privacy w) (bitlocker w) (locale w) (qol w) u (lang w) (kbd w) (tz w).
Definition set_region (l k z : string) (w : Wue) : Wue :=
  Wue_ (bypass w) (nro w) (privacy w) (bitlocker w) (locale w) (qol w) (user w) l k z.

Definition bad_names : list string :=
  ["administrator"; "guest"; "defaultaccount"; "wdagutilityaccount"; "system";
   "network"; "local service"; "network service"; "krbtgt"; "root"].
(** what Windows refuses in an account name *)
Definition bad_char (c : ascii) : bool := one_of (qq "'/\[]:;|=,+*?<>@&") c || (code c <? 32).
Definition clean_user (s : string) : string := smap (fun c => if bad_char c then "_"%char else c) (snprintf 64 s).

Definition wue_item (w : Wue) (tok : string) : cres Wue :=
  let tok := (span (Ascii.eqb " ") tok).2 in
  if strncaseeq 5 tok "user=" then
    let u := clean_user (sdrop 5 tok) in
    if existsb (strcaseeq u) bad_names then Fail ("'" +:+ u +:+ "' is not allowed as a local account name")
    else Ok (set_user u w)
  else if strcaseeq tok "bypass" then Ok (set_bypass w)
  else if strcaseeq tok "nro" then Ok (set_nro w)
  else if strcaseeq tok "privacy" then Ok (set_privacy w)
  else if strcaseeq tok "bitlocker" then Ok (set_bitlocker w)
  else if strcaseeq tok "locale" then Ok (set_locale w)
  else if strcaseeq tok "qol" then Ok (set_qol w)
  else if strcaseeq tok "all" then Ok (set_bypass (set_nro (set_privacy (set_bitlocker (set_qol w)))))
  else Fail ("unknown --wue item '" +:+ tok +:+ "' (bypass,nro,privacy,bitlocker,locale,qol,user=NAME,all)").
Fixpoint wue_items (w : Wue) (toks : list string) : cres Wue :=
  match toks with
  | [] => Ok w
  | tok :: t => match wue_item w tok with Ok w' => wue_items w' t | Fail m => Fail m end
  end.
Definition asks_nothing (w : Wue) : bool :=
  negb (bypass w) && negb (nro w) && negb (privacy w) && negb (bitlocker w) && negb (locale w) && negb (qol w)
  && String.eqb (user w) "".
(** [None]: a null pointer. The number is the C function's return value, 0 or 1. *)
Definition wue_parse (spec : option string) : cres (Z * Wue) :=
  if bool_decide (spec = Some "none") then Ok (1, no_wue)
  else
    match spec with
    | None | Some "" => Ok (0, set_bypass no_wue)
    | Some spec =>
        match wue_items no_wue (tok_char "," (snprintf 512 spec)) with
        | Fail m => Fail m
        | Ok w => if asks_nothing w then Fail "--wue names no option" else Ok (0, w)
        end
    end.

Definition media_arch (root : string) : io string :=
  a <- call (Access (snprintf 1152 (root +:+ "/efi/boot/bootaa64.efi")) F_OK) ;;
  if (a : bool) then Ret "arm64"
  else
    a <- call (Access (snprintf 1152 (root +:+ "/efi/boot/bootx64.efi")) F_OK) ;;
    if (a : bool) then Ret "amd64"
    else
      a <- call (Access (snprintf 1152 (root +:+ "/efi/boot/bootia32.efi")) F_OK) ;;
      Ret (if (a : bool) then "x86" else "amd64").

(** ** Regional options *)
Definition tz_map : list (string * string) := [
  ("UTC", "UTC"); ("Etc/UTC", "UTC"); ("Africa/Cairo", "Egypt Standard Time");
  ("Africa/Johannesburg", "South Africa Standard Time"); ("Africa/Lagos", "W. Central Africa Standard Time");
  ("Africa/Nairobi", "E. Africa Standard Time"); ("Africa/Casablanca", "Morocco Standard Time");
  ("Africa/Algiers", "W. Central Africa Standard Time"); ("Africa/Tunis", "W. Central Africa Standard Time");
  ("Europe/London", "GMT Standard Time"); ("Europe/Dublin", "GMT Standard Time");
  ("Europe/Lisbon", "GMT Standard Time"); ("Europe/Paris", "Romance Standard Time");
  ("Europe/Madrid", "Romance Standard Time"); ("Europe/Brussels", "Romance Standard Time");
  ("Europe/Berlin", "W. Europe Standard Time"); ("Europe/Amsterdam", "W. Europe Standard Time");
  ("Europe/Rome", "W. Europe Standard Time"); ("Europe/Vienna", "W. Europe Standard Time");
  ("Europe/Zurich", "W. Europe Standard Time"); ("Europe/Stockholm", "W. Europe Standard Time");
  ("Europe/Oslo", "W. Europe Standard Time"); ("Europe/Warsaw", "Central European Standard Time");
  ("Europe/Prague", "Central Europe Standard Time"); ("Europe/Budapest", "Central Europe Standard Time");
  ("Europe/Athens", "GTB Standard Time"); ("Europe/Bucharest", "GTB Standard Time");
  ("Europe/Helsinki", "FLE Standard Time"); ("Europe/Kiev", "FLE Standard Time");
  ("Europe/Kyiv", "FLE Standard Time"); ("Europe/Istanbul", "Turkey Standard Time");
  ("Europe/Moscow", "Russian Standard Time"); ("Asia/Riyadh", "Arab Standard Time");
  ("Asia/Dubai", "Arabian Standard Time"); ("Asia/Baghdad", "Arabic Standard Time");
  ("Asia/Jerusalem", "Israel Standard Time"); ("Asia/Tehran", "Iran Standard Time");
  ("Asia/Kolkata", "India Standard Time"); ("Asia/Karachi", "Pakistan Standard Time");
  ("Asia/Dhaka", "Bangladesh Standard Time"); ("Asia/Bangkok", "SE Asia Standard Time");
  ("Asia/Shanghai", "China Standard Time"); ("Asia/Hong_Kong", "China Standard Time");
  ("Asia/Singapore", "Singapore Standard Time"); ("Asia/Tokyo", "Tokyo Standard Time");
  ("Asia/Seoul", "Korea Standard Time"); ("Australia/Sydney", "AUS Eastern Standard Time");
  ("Pacific/Auckland", "New Zealand Standard Time"); ("America/New_York", "Eastern Standard Time");
  ("America/Toronto", "Eastern Standard Time"); ("America/Chicago", "Central Standard Time");
  ("America/Denver", "Mountain Standard Time"); ("America/Los_Angeles", "Pacific Standard Time");
  ("America/Sao_Paulo", "E. South America Standard Time");
  ("America/Argentina/Buenos_Aires", "Argentina Standard Time");
  ("America/Mexico_City", "Central Standard Time (Mexico)")].

(** keyboard layout ids, by language *)
Definition kbd_map : list (string * string) := [
  ("en-US", "0409:00000409"); ("en-GB", "0809:00000809"); ("en", "0409:00000409"); ("ar", "0401:00000401");
  ("fr-CA", "0c0c:00001009"); ("fr", "040c:0000040c"); ("de", "0407:00000407"); ("es-MX", "080a:0000080a");
  ("es", "0c0a:0000040a"); ("it", "0410:00000410"); ("pt-BR", "0416:00000416"); ("pt", "0816:00000816");
  ("ru", "0419:00000419"); ("tr", "041f:0000041f"); ("nl", "0413:00020409"); ("pl", "0415:00000415");
  ("sv", "041d:0000041d"); ("da", "0406:00000406"); ("nb", "0414:00000414"); ("fi", "040b:0000040b");
  ("cs", "0405:00000405"); ("el", "0408:00000408"); ("he", "040d:0000040d"); ("ja", "0411:00000411");
  ("ko", "0412:00000412"); ("zh-CN", "0804:00000804"); ("zh", "0404:00000404"); ("hi", "0439:00010439");
  ("fa", "0429:00000429"); ("uk", "0422:00020422")].

(** "en_US.UTF-8" becomes "en-US" *)
Definition lang_tag (i : option string) (cap : nat) : string :=
  let s := match i with
           | None | Some "" => "en-US"
           | Some s => if String.eqb s "C" || String.eqb s "POSIX" then "en-US" else s
           end in
  smap (fun c => if Ascii.eqb c "_" then "-"%char else c)
    (span (fun c => negb (one_of ".@" c)) (snprintf cap s)).1.

Definition find_klid (tag : string) : option string :=
  snd <$> List.find (fun p => strcaseeq p.1 tag) kbd_map.
Definition klid_for (tag : string) : string :=
  match find_klid tag with
  | Some k => k
  | None =>
      let pri := (span (fun c => negb (Ascii.eqb c "-")) (snprintf 8 tag)).1 in
      default "0409:00000409" (find_klid pri)
  end.

Definition tz_lookup (zone : string) (cap : nat) : string :=
  if String.eqb zone "" then ""
  else if contains "Standard Time" zone || String.eqb zone "UTC" then snprintf cap zone
  else match List.find (fun p => String.eqb p.1 zone) tz_map with Some p => snprintf cap p.2 | None => "" end.

(** [s && s[0]] *)
Definition nonempty (s : option string) : option string :=
  match s with Some "" => None | s => s end.
Definition locale_fill (w : Wue) (lang_ kbd_ tz_ : option string) : io Wue :=
  l <- (match nonempty lang_ with
        | Some l => Ret (Some l)
        | None => a <- call (Getenv "LC_ALL") ;;
                  match a with Some _ => call (Getenv "LC_ALL") | None => call (Getenv "LANG") end
        end) ;;
  let lng := lang_tag l 32 in
  let k := snprintf 32 (match nonempty kbd_ with Some k => k | None => klid_for lng end) in
  zone <- (match nonempty tz_ with
           | Some z => Ret (snprintf 128 z)
           | None =>
               r <- call (Readlink "/etc/localtime") ;;
               Ret (match r with
                    | Some l => match strstr "zoneinfo/" (stake 255 l) with
                                | Some z => snprintf 128 (sdrop 9 z)
                                | None => ""
                                end
                    | None => ""
                    end)
           end) ;;
  Ret (set_region lng k (tz_lookup zone 64) w).

(** * The answer file *)
Fixpoint xesc (s : string) : string :=
  match s with
  | "" => ""
  | String c t =>
      (if Ascii.eqb c "&" then "&amp;" else if Ascii.eqb c "<" then "&lt;" else if Ascii.eqb c ">" then "&gt;"
       else String c "") +:+ xesc t
  end.

Definition qol_commands : list string := map qq [
  "reg add 'HKLM\System\CurrentControlSet\Control\Session Manager\Power' /v HiberbootEnabled /t REG_DWORD /d 0 /f";
  "reg add 'HKCU\Software\Microsoft\Windows\CurrentVersion\Explorer\Advanced' /v ShowCopilotButton /t REG_DWORD /d 0 /f";
  "reg add 'HKLM\Software\Policies\Microsoft\Windows\WindowsCopilot' /v TurnOffWindowsCopilot /t REG_DWORD /d 1 /f";
  "reg add 'HKCU\Software\Microsoft\Windows\CurrentVersion\Search' /v SearchboxTaskbarMode /t REG_DWORD /d 1 /f";
  "reg add 'HKLM\Software\Policies\Microsoft\Windows\CloudContent' /v DisableWindowsConsumerFeatures /t REG_DWORD /d 1 /f";
  "reg add 'HKCU\Software\Microsoft\Windows\CurrentVersion\ContentDeliveryManager' /v SystemPaneSuggestionsEnabled /t REG_DWORD /d 0 /f";
  "reg add 'HKCU\SOFTWARE\Microsoft\Windows\CurrentVersion\Search' /v BingSearchEnabled /t REG_DWORD /d 0 /f";
  "reg add 'HKLM\Software\Policies\Microsoft\Windows\Device Metadata' /v PreventDeviceMetadataFromNetwork /t REG_DWORD /d 1 /f";
  "reg add 'HKLM\Software\Policies\Microsoft\Dsh' /v AllowNewsAndInterests /t REG_DWORD /d 0 /f";
  "reg add 'HKLM\Software\Policies\Microsoft\Windows\Windows Feeds' /v EnableFeeds /t REG_DWORD /d 0 /f";
  "reg add 'HKLM\Software\Microsoft\Windows\CurrentVersion\Communications' /v ConfigureChatAutoInstall /t REG_DWORD /d 0 /f";
  "reg add 'HKLM\Software\Policies\Microsoft\Windows\CloudContent' /v DisableCloudOptimizedContent /t REG_DWORD /d 1 /f";
  "reg add 'HKLM\Software\Policies\Microsoft\Edge' /v HideFirstRunExperience /t REG_DWORD /d 1 /f";
  "reg add 'HKCU\Software\Microsoft\Windows\CurrentVersion\Explorer\Advanced' /v Start_Layout /t REG_DWORD /d 1 /f";
  "reg add 'HKCU\Software\Classes\CLSID\{86ca1aa0-34aa-4e8b-a509-50c905bae2a2}\InprocServer32' /ve /t REG_SZ /d '' /f"].
(** the commands of the first logon (at most 17 of the 32 the caller has room for) *)
Definition first_logon (w : Wue) : list string :=
  (if String.eqb (user w) "" then []
   else [snprintf 512 (qq "net user '" +:+ user w +:+ qq "' /logonpasswordchg:yes"); "net accounts /maxpwage:unlimited"]) ++
  (if qol w then qol_commands else []).

Definition ln (s : string) : string := s +:+ LF.
Fixpoint numbered (item : Z -> string -> string) (n : Z) (l : list string) : string :=
  match l with [] => "" | x :: t => item n x +:+ numbered item (n + 1) t end.

Definition comp_attrs (arch : string) : string :=
  snprintf 512 (qq "processorArchitecture='" +:+ arch +:+ qq "' publicKeyToken='31bf3856ad364e35' language='neutral' versionScope='nonSxS' xmlns:wcm='http://schemas.microsoft.com/WMIConfig/2002/State' xmlns:xsi='http://www.w3.org/2001/XMLSchema-instance'").

Definition xml_head : string :=
  ln (qq "<?xml version='1.0' encoding='utf-8'?>") +:+
  ln "<!-- Generated by Rufux (Windows User Experience). -->" +:+
  ln (qq "<unattend xmlns='urn:schemas-microsoft-com:unattend'>").
Definition labconfig_command (n : Z) (key : string) : string :=
  ln (qq "        <RunSynchronousCommand wcm:action='add'>") +:+
  ln ("          <Order>" +:+ dec n +:+ "</Order>") +:+
  ln ("          <Path>reg add HKLM\SYSTEM\Setup\LabConfig /v " +:+ key +:+ " /t REG_DWORD /d 1 /f</Path>") +:+
  ln "        </RunSynchronousCommand>".
Definition bypass_keys : list string := ["BypassTPMCheck"; "BypassSecureBootCheck"; "BypassRAMCheck"].
Definition xml_winpe (comp : string) : string :=
  ln (qq "  <settings pass='windowsPE'>") +:+
  ln (qq "    <component name='Microsoft-Windows-Setup' " +:+ comp +:+ ">") +:+
  ln "      <UserData>" +:+ ln "        <AcceptEula>true</AcceptEula>" +:+
  ln "        <ProductKey>" +:+ ln "          <Key />" +:+ ln "        </ProductKey>" +:+ ln "      </UserData>" +:+
  ln "      <RunSynchronous>" +:+
  numbered labconfig_command 1 bypass_keys +:+
  ln "      </RunSynchronous>" +:+ ln "    </component>" +:+ ln "  </settings>".
Definition xml_nro (comp : string) : string :=
  ln (qq "  <settings pass='specialize'>") +:+
  ln (qq "    <component name='Microsoft-Windows-Deployment' " +:+ comp +:+ ">") +:+
  ln "      <RunSynchronous>" +:+
  ln (qq "        <RunSynchronousCommand wcm:action='add'>") +:+
  ln "          <Order>1</Order>" +:+
  ln "          <Path>reg add HKLM\SOFTWARE\Microsoft\Windows\CurrentVersion\OOBE /v BypassNRO /t REG_DWORD /d 1 /f</Path>" +:+
  ln "        </RunSynchronousCommand>" +:+
  ln "      </RunSynchronous>" +:+ ln "    </component>" +:+ ln "  </settings>".
Definition xml_privacy : string :=
  ln "      <OOBE>" +:+ ln "        <HideEULAPage>true</HideEULAPage>" +:+
  ln "        <ProtectYourPC>3</ProtectYourPC>" +:+
  ln "        <HideWirelessSetupInOOBE>true</HideWirelessSetupInOOBE>" +:+ ln "      </OOBE>".
Definition xml_account (u : string) : string :=
  ln "      <UserAccounts>" +:+ ln "        <LocalAccounts>" +:+
  ln (qq "          <LocalAccount wcm:action='add'>") +:+
  ln ("            <Name>" +:+ xesc u +:+ "</Name>") +:+
  ln ("            <DisplayName>" +:+ xesc u +:+ "</DisplayName>") +:+
  ln "            <Group>Administrators;Power Users</Group>" +:+
  ln "            <Password>" +:+ ln "              <Value>UABhAHMAcwB3AG8AcgBkAA==</Value>" +:+
  ln "              <PlainText>false</PlainText>" +:+ ln "            </Password>" +:+
  ln "          </LocalAccount>" +:+ ln "        </LocalAccounts>" +:+ ln "      </UserAccounts>".
Definition logon_command (n : Z) (cmd : string) : string :=
  ln (qq "        <SynchronousCommand wcm:action='add'>") +:+
  ln ("          <Order>" +:+ dec n +:+ "</Order>") +:+
  ln ("          <CommandLine>" +:+ xesc cmd +:+ "</CommandLine>") +:+
  ln "        </SynchronousCommand>".
Definition xml_commands (cmds : list string) : string :=
  match cmds with
  | [] => ""
  | _ => ln "      <FirstLogonCommands>" +:+ numbered logon_command 1 cmds +:+ ln "      </FirstLogonCommands>"
  end.
Definition xml_shell (comp : string) (w : Wue) (cmds : list string) : string :=
  ln (qq "    <component name='Microsoft-Windows-Shell-Setup' " +:+ comp +:+ ">") +:+
  (if privacy w then xml_privacy else "") +:+
  (if locale w && negb (String.eqb (tz w) "") then ln ("      <TimeZone>" +:+ tz w +:+ "</TimeZone>") else "") +:+
  (if String.eqb (user w) "" then "" else xml_account (user w)) +:+
  xml_commands cmds +:+
  ln "    </component>".
Definition xml_region (comp : string) (w : Wue) : string :=
  ln (qq "    <component name='Microsoft-Windows-International-Core' " +:+ comp +:+ ">") +:+
  ln ("      <InputLocale>" +:+ kbd w +:+ "</InputLocale>") +:+
  ln ("      <SystemLocale>" +:+ lang w +:+ "</SystemLocale>") +:+
  ln ("      <UserLocale>" +:+ lang w +:+ "</UserLocale>") +:+
  ln ("      <UILanguage>" +:+ lang w +:+ "</UILanguage>") +:+
  ln "      <UILanguageFallback>en-US</UILanguageFallback>" +:+ ln "    </component>".
Definition xml_bitlocker (comp : string) : string :=
  ln (qq "    <component name='Microsoft-Windows-SecureStartup-FilterDriver' " +:+ comp +:+ ">") +:+
  ln "      <PreventDeviceEncryption>true</PreventDeviceEncryption>" +:+ ln "    </component>" +:+
  ln (qq "    <component name='Microsoft-Windows-EnhancedStorage-Adm' " +:+ comp +:+ ">") +:+
  ln "      <TCGSecurityActivationDisabled>1</TCGSecurityActivationDisabled>" +:+ ln "    </component>".
Definition nonnil {A} (l : list A) : bool := match l with [] => false | _ => true end.
(** The text write_xml prints. *)
Definition answer_file (arch : string) (w : Wue) (winpe_bypass : bool) : string :=
  let comp := comp_attrs arch in
  let cmds := first_logon w in
  let shell := privacy w || negb (String.eqb (user w) "") || nonnil cmds || (locale w && negb (String.eqb (tz w) "")) in
  xml_head +:+
  (if winpe_bypass then xml_winpe comp else "") +:+
  (if nro w then xml_nro comp else "") +:+
  (if shell || locale w || bitlocker w then
     ln (qq "  <settings pass='oobeSystem'>") +:+
     (if shell then xml_shell comp w cmds else "") +:+
     (if locale w then xml_region comp w else "") +:+
     (if bitlocker w then xml_bitlocker comp else "") +:+
     ln "  </settings>"
   else "") +:+
  ln "</unattend>".

(** The prints to the stream are one [Fputs]: their results are not looked at. *)
Definition write_xml (path arch : string) (w : Wue) (winpe_bypass : bool) : io (cres unit) :=
  f <- call (Fopen path "w") ;;
  match f with
  | inl e => fail ("cannot write '" +:+ path +:+ "': " +:+ strerror e)
  | inr f =>
      call (Fputs f (answer_file arch w winpe_bypass)) ;;;
      c <- call (Fclose f) ;;
      if (c : bool) then ok tt else fail ("cannot close '" +:+ path +:+ "'")
  end.

Definition rufux_write_unattend (dir : string) (wue : option string) : io (cres unit) :=
  match wue_parse wue with
  | Fail m => fail m
  | Ok (r, w) =>
      if r =? 1 then ok tt
      else
        w <- (if locale w then locale_fill w None None None else Ret w) ;;
        arch <- media_arch dir ;;
        write_xml (snprintf 1152 (dir +:+ "/autounattend.xml")) arch w (bypass w)
  end.

(** * boot.wim *)
Definition HIVE : string := "/Windows/System32/config/SYSTEM".
Definition edit_script : string :=
  ln "cd Setup" +:+ ln "add LabConfig" +:+ ln "cd LabConfig" +:+ ln "setval 3" +:+
  ln "BypassTPMCheck" +:+ ln "dword:1" +:+ ln "BypassSecureBootCheck" +:+ ln "dword:1" +:+
  ln "BypassRAMCheck" +:+ ln "dword:1" +:+ ln "commit".
Definition VERIFIED : string := qq "'BypassSecureBootCheck'=dword:00000001".
(** writes a script of hivexsh; false when it cannot be opened *)
Definition write_script (p text : string) : io bool :=
  f <- call (Fopen p "w") ;;
  match f with
  | inl _ => Ret false
  | inr f => call (Fputs f text) ;;; call (Fclose f) ;;; Ret true
  end.
Definition said (m : string) : io bool := call (Log m) ;;; Ret false.

Section Fuel.
Variable fuel : nat.

(** the body of the do ... while (0): true when the patched hive verified *)
Definition patch_steps (wim dir : string) : io bool :=
  let hive := snprintf 1200 (dir +:+ "/SYSTEM") in
  r <- rufux_run ["wimlib-imagex"; "extract"; wim; "2"; HIVE; snprintf 1200 ("--dest-dir=" +:+ dir); "--no-acls"] false ;;
  if negb r then said "Could not read the registry from boot.wim."
  else
    let script := snprintf 1200 (dir +:+ "/edit.hsh") in
    w <- write_script script edit_script ;;
    if negb w then Ret false
    else
      r <- rufux_run ["hivexsh"; "-w"; "-f"; script; hive] false ;;
      if negb r then said "Could not edit the registry hive."
      else
        let m := snprintf 600 ("--command=" +:+ snprintf 1500 ("add " +:+ hive +:+ " " +:+ HIVE)) in
        r <- rufux_run ["wimlib-imagex"; "update"; wim; "2"; m] false ;;
        if negb r then said "Could not write the registry back into boot.wim."
        else
          let chk := snprintf 1200 (dir +:+ "/verify") in
          e <- call (Mkdir chk) ;;
          match e with
          | Some _ => Ret false
          | None =>
              r <- rufux_run ["wimlib-imagex"; "extract"; wim; "2"; HIVE; snprintf 1300 ("--dest-dir=" +:+ chk); "--no-acls"] false ;;
              if negb r then Ret false
              else
                let vs := snprintf 1300 (dir +:+ "/verify.hsh") in
                w <- write_script vs (ln "cd \Setup\LabConfig" +:+ ln "lsval") ;;
                if negb w then Ret false
                else
                  o <- rufux_capture fuel ["hivexsh"; "-f"; vs; snprintf 1300 (chk +:+ "/SYSTEM")] 1024 ;;
                  if negb o.1 || negb (contains VERIFIED o.2) then
                    said "Registry change did not verify after writing boot.wim."
                  else Ret true
          end.
(** [true] is the C function's 0 *)
Definition patch_boot_wim (root : string) : io bool :=
  h <- rufux_have "wimlib-imagex" ;;
  h2 <- (if (h : bool) then rufux_have "hivexsh" else Ret false) ;;
  if negb h2 then
    said "wimlib-imagex/hivex not installed: using the answer-file fallback for the Secure Boot/TPM/RAM bypass."
  else
    let wim := snprintf 1152 (root +:+ "/sources/boot.wim") in
    st <- call (Stat wim) ;;
    match st with
    | None => said "boot.wim not found: using the answer-file fallback."
    | Some _ =>
        d <- call (Mkdtemp "/tmp/rufux-wue-XXXXXX") ;;
        match d with
        | None => Ret false
        | Some dir =>
            r <- patch_steps wim dir ;;
            rufux_run ["rm"; "-rf"; "--"; dir] false ;;;
            Ret r
        end
    end.

(** * Customization *)
Record RufuxWueArgs := WueArgs_ { a_wue : option string; a_locale : option string; a_keyboard : option string; a_timezone : option string }.

(** [mkdir], an existing directory being fine *)
Definition mkdir_ok (path : string) : io (cres unit) :=
  e <- call (Mkdir path) ;;
  match e with
  | None | Some EEXIST => ok tt
  | Some e => fail ("cannot create '" +:+ path +:+ "': " +:+ strerror e)
  end.
Fixpoint mkdirs_ok (paths : list string) : io (cres unit) :=
  match paths with [] => ok tt | p :: t => mkdir_ok p ?;; mkdirs_ok t end.
Definition oem (root leaf : string) : string := snprintf 1300 (root +:+ "/sources/$OEM$" +:+ leaf).

(** where the answer file goes; the directories are made on the way *)
Definition answer_path (root : string) (fallback : bool) : io (cres string) :=
  if fallback then ok (snprintf 1300 (root +:+ "/autounattend.xml"))
  else
    mkdirs_ok [oem root ""; oem root "/$$"; oem root "/$$/Panther"] ?;;
    ok (oem root "/$$/Panther/unattend.xml").
Definition FALLBACK_MSG : string :=
  "Using the answer-file fallback for the Secure Boot/TPM/RAM bypass. It works, but it changes Setup's first screens and opens a command window.".
Definition PATCHED_MSG : string := "Secure Boot/TPM/RAM checks disabled inside boot.wim (Setup screens unchanged).".

Definition rufux_windows_customize (root : string) (a : RufuxWueArgs) : io (cres unit) :=
  match wue_parse (a_wue a) with
  | Fail m => fail m
  | Ok (pr, w) =>
      w <- (if locale w then locale_fill w (a_locale a) (a_keyboard a) (a_timezone a) else Ret w) ;;
      if pr =? 1 then ok tt
      else
        fallback <- (if bypass w then
                       p <- patch_boot_wim root ;;
                       if (p : bool) then call (Log PATCHED_MSG) ;;; Ret false
                       else call (Log FALLBACK_MSG) ;;; Ret true
                     else Ret false) ;;
        when (negb (String.eqb (user w) "")) (call (Log (snprintf 1400
          ("Local account '" +:+ user w +:+ "' (empty password, changed at first logon).")))) ;;;
        when (locale w) (call (Log (snprintf 1400
          ("Regional options: language " +:+ lang w +:+ ", keyboard " +:+ kbd w +:+ ", time zone " +:+
           (if String.eqb (tz w) "" then "(not recognised, left to Windows)" else tz w) +:+ ".")))) ;;;
        if fallback || nro w || privacy w || bitlocker w || locale w || qol w || negb (String.eqb (user w) "") then
          arch <- media_arch root ;;
          path <-? answer_path root fallback ;;
          write_xml path arch w fallback ?;;
          call (Log (snprintf 1400 ("Answer file written to " +:+ sdrop (S (String.length root)) path))) ;;;
          ok tt
        else ok tt
  end.
Definition rufux_windows_check (a : RufuxWueArgs) : cres unit :=
  match wue_parse (a_wue a) with Fail m => Fail m | Ok _ => Ok tt end.

(** * UEFI:NTFS *)
Definition UEFI_NTFS_IMG_URL : string := "https://raw.githubusercontent.com/pbatard/rufus/master/res/uefi/uefi-ntfs.img".
Definition UEFI_NTFS_IMG_SIZE : Z := 1048576.

(** the prefixes mkdir -p makes on the way: those before a slash other than a
    leading one; [done] is the part already passed *)
Fixpoint slash_prefixes (done rest : string) : list string :=
  match rest with
  | "" => []
  | String c t =>
      (if Ascii.eqb c "/" && negb (String.eqb done "") then [done] else []) ++ slash_prefixes (done +:+ String c "") t
  end.
Fixpoint mkdir_all (paths : list string) : io unit :=
  match paths with [] => Ret tt | p :: t => call (Mkdir p) ;;; mkdir_all t end.
(** [true] is the C function's 0 *)
Definition mkdir_p (path : string) : io bool :=
  mkdir_all (slash_prefixes "" (snprintf 1152 path)) ;;;
  e <- call (Mkdir path) ;;
  Ret (match e with None | Some EEXIST => true | Some _ => false end).
Definition cache_dir : io (option string) :=
  base <- call (Getenv "XDG_CACHE_HOME") ;;
  out <- (match nonempty base with
          | Some b => Ret (snprintf 1024 (b +:+ "/rufux"))
          | None =>
              home <- call (Getenv "HOME") ;;
              Ret (snprintf 1024 (default "/tmp" (nonempty home) +:+ "/.cache/rufux"))
          end) ;;
  m <- mkdir_p out ;;
  if negb m then Ret None
  else st <- call (Stat out) ;; Ret (match st with Some _ => Some out | None => None end).

Definition big_enough (p : string) : io (option string) :=
  st <- call (Stat p) ;;
  Ret (match st with Some st => if 100000 <? st_size st then Some p else None | None => None end).
Definition uefi_img_local : io (option string) :=
  env <- call (Getenv "RUFUX_RES") ;;
  r <- (match nonempty env with
        | Some e => big_enough (snprintf 1152 (e +:+ "/uefi/uefi-ntfs.img"))
        | None => Ret None
        end) ;;
  match r with
  | Some p => Ret (Some p)
  | None =>
      ed <- rufux_exe_dir ;;
      first_io big_enough
        ((if String.eqb ed "" then [] else [snprintf 1152 (ed +:+ "/../share/rufux/uefi-ntfs.img")]) ++
         ["res/uefi/uefi-ntfs.img"; "/usr/share/rufux/uefi-ntfs.img"; "/usr/local/share/rufux/uefi-ntfs.img"])
  end.
Definition whole_img (out : string) : io bool :=
  st <- call (Stat out) ;;
  Ret (match st with Some st => UEFI_NTFS_IMG_SIZE <=? st_size st | None => false end).
Definition uefi_img_path : io (cres string) :=
  local <- uefi_img_local ;;
  match local with
  | Some p => ok (snprintf 1152 p)
  | None =>
      dir <- cache_dir ;;
      match dir with
      | None => fail "cannot create cache dir"
      | Some dir =>
          let out := snprintf 1152 (dir +:+ "/uefi-ntfs.img") in
          cached <- whole_img out ;;
          if (cached : bool) then ok out
          else
            h <- rufux_have "curl" ;;
            if negb h then fail "UEFI:NTFS image not found locally and no curl to fetch it (offline?)"
            else
              r <- rufux_run ["curl"; "-sL"; "--max-time"; "60"; "-o"; out; UEFI_NTFS_IMG_URL] false ;;
              w <- (if (r : bool) then whole_img out else Ret false) ;;
              if (w : bool) then ok out else fail "download of UEFI:NTFS image failed (offline?)"
      end
  end.

(** [true] when the file is there with at least 10000 bytes *)
Definition staged (p : string) : io bool :=
  st <- call (Stat p) ;; Ret (match st with Some st => negb (st_size st <? 10000) | None => false end).
Definition rufux_stage_uefi_ntfs (tmpdir : string) : io (cres unit) :=
  img <-? uefi_img_path ;;
  h <- rufux_have "7z" ;;
  if negb h then fail "need 7z to unpack the UEFI:NTFS image"
  else
    let bootd := snprintf 1152 (tmpdir +:+ "/esp/EFI/BOOT") in
    let rufusd := snprintf 1152 (tmpdir +:+ "/esp/EFI/Rufus") in
    let xtr := snprintf 1152 (tmpdir +:+ "/.uefintfs") in
    m <- mkdir_p bootd ;;
    m2 <- (if (m : bool) then mkdir_p rufusd else Ret false) ;;
    if negb m2 then fail "cannot mkdir ESP staging dirs"
    else
      m <- mkdir_p xtr ;;
      if negb m then fail "cannot mkdir extract dir"
      else
        r <- rufux_run ["7z"; "x"; "-y"; img; snprintf 1250 ("-o" +:+ xtr)] false ;;
        if negb r then fail "cannot extract UEFI:NTFS image"
        else
          r <- rufux_run ["cp"; "-a"; snprintf 1250 (xtr +:+ "/EFI/Boot/."); bootd] false ;;
          r2 <- (if (r : bool) then rufux_run ["cp"; "-a"; snprintf 1250 (xtr +:+ "/EFI/Rufus/."); rufusd] false
                 else Ret false) ;;
          if negb r2 then fail "cannot stage UEFI:NTFS tree"
          else
            rufux_run ["rm"; "-rf"; xtr] false ;;;
            b <- staged (snprintf 1152 (tmpdir +:+ "/esp/EFI/BOOT/bootx64.efi")) ;;
            if negb b then fail "staged bootloader missing or too small"
            else
              d <- staged (snprintf 1152 (tmpdir +:+ "/esp/EFI/Rufus/ntfs_x64.efi")) ;;
              if negb d then fail "staged NTFS driver missing (EFI/Rufus/ntfs_x64.efi)" else ok tt.

(** The two transfer loops of rufux_write_uefi_ntfs; the text of a failed write
    of no bytes is that of whatever call failed last, "" here. *)
Definition write_loop (fd : Z) (want : list byte) : io (cres unit) :=
  loop fuel (fun off =>
    if off <? zlen want then
      w <- call (Pwrite fd (zdrop off want) off) ;;
      match w with
      | inl EINTR => Ret (inl off)
      | inl e => Ret (inr (Fail ("writing UEFI:NTFS image failed: " +:+ strerror e)))
      | inr w => if w <=? 0 then Ret (inr (Fail "writing UEFI:NTFS image failed: ")) else Ret (inl (off + w))
      end
    else Ret (inr (Ok tt))) 0.
Definition read_loop (fd n : Z) : io (list byte) :=
  loop fuel (fun got =>
    if zlen got <? n then
      r <- call (Pread fd (n - zlen got) (zlen got)) ;;
      match r with
      | inl EINTR => Ret (inl got)
      | inl _ | inr [] => Ret (inr got)
      | inr l => Ret (inl (got ++ l))
      end
    else Ret (inr got)) [].
Definition rufux_write_uefi_ntfs (part_dev : string) : io (cres unit) :=
  img <-? uefi_img_path ;;
  i <- call (Fopen img "rb") ;;
  match i with
  | inl e => fail ("cannot open '" +:+ img +:+ "': " +:+ strerror e)
  | inr i =>
      want <- call (Fread i UEFI_NTFS_IMG_SIZE) ;;
      call (Fclose i) ;;;
      if negb (zlen want =? UEFI_NTFS_IMG_SIZE) then
        fail ("UEFI:NTFS image '" +:+ img +:+ "' is " +:+ dec (zlen want) +:+ " bytes, expected " +:+ dec UEFI_NTFS_IMG_SIZE)
      else
        fd <- call (Open part_dev O_RDWR_EXCL) ;;
        match fd with
        | inl e => fail ("cannot open '" +:+ part_dev +:+ "': " +:+ strerror e)
        | inr fd =>
            psz <- call (GetSize64 fd) ;;
            if default 0 psz <? UEFI_NTFS_IMG_SIZE then
              call (Close fd) ;;; fail ("partition '" +:+ part_dev +:+ "' is smaller than the UEFI:NTFS image")
            else
              w <- write_loop fd want ;;
              match w with
              | Fail m => call (Close fd) ;;; fail m
              | Ok _ =>
                  e <- call (Fsync fd) ;;
                  match e with
                  | Some _ => call (Close fd) ;;; fail ("fsync of '" +:+ part_dev +:+ "' failed")
                  | None =>
                      call (FlushBuf fd) ;;;
                      got <- read_loop fd UEFI_NTFS_IMG_SIZE ;;
                      call (Close fd) ;;;
                      if (zlen got =? UEFI_NTFS_IMG_SIZE) && bytes_eqb want got then ok tt
                      else fail ("UEFI:NTFS image read-back mismatch on '" +:+ part_dev +:+ "'")
                  end
              end
        end
  end.
End Fuel.
