(* ===== verification/WueSpec.v ===== *)
(** What wininstall.c promises: the answer file is well-formed XML whatever the
    account name, an accepted option list is safe to act on, and the UEFI:NTFS
    partition holds the image byte for byte when the code says so. *)
From S2P Require Import Prelude Cstr Sys Exec Wue.

(** * XML *)

(** A scanner for the XML the code writes: elements with double-quoted
    attributes, the three named entities, one comment and one declaration. Its
    state is where it is and the stack of open elements. *)
Inductive where_ :=
| Text | Ent (name : string) | Opening | Name (n : string) | Attrs (n : string) (slash : bool) | Quoted (n : string)
| Closing (n : string) | Bang.
Record xstate := X_ { at_ : where_; stack : list string; rooted : bool }.

Definition xml_space (c : ascii) : bool := (code c =? 32) || (code c =? 9) || (code c =? 10) || (code c =? 13).
Definition entity (n : string) : bool := existsb (String.eqb n) ["amp"; "lt"; "gt"].
Definition starts_element (n : string) (c : ascii) (st : list string) (r : bool) : option xstate :=
  if Ascii.eqb c ">" then
    if nonnil st || negb r then Some (X_ Text (n :: st) true) else None
  else if Ascii.eqb c "/" then Some (X_ (Attrs n true) st r)
  else if Ascii.eqb c dquote then Some (X_ (Quoted n) st r)
  else if Ascii.eqb c "<" then None else Some (X_ (Attrs n false) st r).
Definition xstep (x : xstate) (c : ascii) : option xstate :=
  let '(X_ w st r) := x in
  if (code c <? 32) && negb (xml_space c) then None
  else
    match w with
    | Text =>
        if Ascii.eqb c "<" then Some (X_ Opening st r)
        else if Ascii.eqb c "&" then Some (X_ (Ent "") st r)
        else if nonnil st || xml_space c then Some x else None
    | Ent n => if Ascii.eqb c ";" then (if entity n then Some (X_ Text st r) else None)
               else Some (X_ (Ent (n +:+ String c "")) st r)
    | Opening => if Ascii.eqb c "/" then Some (X_ (Closing "") st r)
              else if Ascii.eqb c "!" || Ascii.eqb c "?" then Some (X_ Bang st r)
              else if isalnum c then Some (X_ (Name (String c "")) st r) else None
    | Name n => if isalnum c || Ascii.eqb c ":" then Some (X_ (Name (n +:+ String c "")) st r)
                else starts_element n c st r
    | Attrs n true => if Ascii.eqb c ">" then (if nonnil st then Some (X_ Text st r) else None) else None
    | Attrs n false => starts_element n c st r
    | Quoted n => if Ascii.eqb c dquote then Some (X_ (Attrs n false) st r)
                  else if Ascii.eqb c "<" || Ascii.eqb c "&" then None else Some x
    | Closing n => if Ascii.eqb c ">" then
                   match st with m :: st' => if String.eqb n m then Some (X_ Text st' r) else None | [] => None end
                 else Some (X_ (Closing (n +:+ String c "")) st r)
    | Bang => if Ascii.eqb c ">" then Some (X_ Text st r) else Some x
    end.
Fixpoint xscan (x : xstate) (s : string) : option xstate :=
  match s with
  | "" => Some x
  | String c t => x' ← xstep x c; xscan x' t
  end.
(** every tag closed, in order, under one root element *)
Definition well_formed (s : string) : bool :=
  match xscan (X_ Text [] false) s with Some (X_ Text [] true) => true | _ => false end.

Lemma xscan_app x a b : xscan x (a +:+ b) = xscan x a ≫= (fun y => xscan y b).
Proof. revert x; induction a as [|c a IH]; intros x; cbn; [done|]. by destruct (xstep x c); cbn. Qed.
Lemma xscan_app_to x a b y : xscan x a = Some y -> xscan x (a +:+ b) = xscan y b.
Proof. intros H. by rewrite xscan_app, H. Qed.

(** text that needs no escaping, and attribute values *)
Definition printable (c : ascii) : bool := 32 <=? code c.
Definition clean_char (c : ascii) : bool := printable c && negb (Ascii.eqb c "<") && negb (Ascii.eqb c "&").
Definition clean (s : string) : bool := sall clean_char s.
Definition clean_attr (s : string) : bool := sall (fun c => clean_char c && negb (Ascii.eqb c dquote)) s.

Lemma printable_ok c : printable c = true -> (code c <? 32) && negb (xml_space c) = false.
Proof. unfold printable. intros H%Z.leb_le. by rewrite (proj2 (Z.ltb_ge _ _)). Qed.
Lemma xscan_clean s st r : clean s = true -> nonnil st = true -> xscan (X_ Text st r) s = Some (X_ Text st r).
Proof.
  unfold clean. intros Hs Hst. induction s as [|c s IH]; [done|]. cbn [sall] in Hs.
  apply andb_true_iff in Hs as [[[Hp Hl]%andb_true_iff Ha]%andb_true_iff Hs].
  cbn [xscan]. unfold xstep. rewrite printable_ok, Hst by done.
  destruct (Ascii.eqb c "<"); [done|]. destruct (Ascii.eqb c "&"); [done|]. cbn. by apply IH.
Qed.
Lemma xscan_attr s n st r : clean_attr s = true -> xscan (X_ (Quoted n) st r) s = Some (X_ (Quoted n) st r).
Proof.
  unfold clean_attr. intros Hs. induction s as [|c s IH]; [done|]. cbn [sall] in Hs.
  apply andb_true_iff in Hs as [[[[Hp Hl]%andb_true_iff Ha]%andb_true_iff Hq]%andb_true_iff Hs].
  cbn [xscan]. unfold xstep. rewrite printable_ok by done.
  destruct (Ascii.eqb c dquote); [done|]. destruct (Ascii.eqb c "<"); [done|]. destruct (Ascii.eqb c "&"); [done|]. cbn. by apply IH.
Qed.
(** Escaped text stays text, whatever it is. *)
Lemma xscan_xesc s st r : sall printable s = true -> nonnil st = true -> xscan (X_ Text st r) (xesc s) = Some (X_ Text st r).
Proof.
  intros Hs Hst. induction s as [|c s IH]; [done|]. cbn [sall] in Hs. apply andb_true_iff in Hs as [Hp Hs].
  cbn [xesc]. rewrite xscan_app. specialize (IH Hs).
  destruct (Ascii.eqb c "&") eqn:E1; [exact IH|]. destruct (Ascii.eqb c "<") eqn:E2; [exact IH|].
  destruct (Ascii.eqb c ">") eqn:E3; [exact IH|]. rewrite xscan_clean; [exact IH| |done].
  unfold clean. cbn [sall]. unfold clean_char. by rewrite Hp, E1, E2.
Qed.

(** [xml_tac]: scans the literal at the head of the document. *)
Ltac xml_lit :=
  match goal with
  | |- context [xscan ?x (?a +:+ ?b)] =>
      let y := eval vm_compute in (xscan x a) in
      lazymatch y with
      | Some ?y' => rewrite (xscan_app_to x a b y' ltac:(vm_compute; reflexivity))
      end
  end.

(** [keeps s]: scanned inside any element, [s] is well-formed content. *)
Definition keeps (s : string) : Prop :=
  forall m st, xscan (X_ Text (m :: st) true) s = Some (X_ Text (m :: st) true).
Lemma keeps_app a b : keeps a -> keeps b -> keeps (a +:+ b).
Proof. intros Ha Hb m st. by rewrite (xscan_app_to _ _ _ _ (Ha m st)). Qed.
Lemma keeps_nil : keeps "".
Proof. done. Qed.
Lemma keeps_if (b : bool) s : (b = true -> keeps s) -> keeps (if b then s else "").
Proof. destruct b; [auto|done]. Qed.
Lemma keeps_unless (b : bool) s : (b = false -> keeps s) -> keeps (if b then "" else s).
Proof. destruct b; [done|auto]. Qed.
Lemma keeps_numbered item n l : 1 <= n ->
  (forall k x, 1 <= k -> x ∈ l -> keeps (item k x)) -> keeps (numbered item n l).
Proof.
  revert n; induction l as [|x l IH]; intros n Hn H; cbn [numbered]; [done|].
  apply keeps_app; [apply H; [done|by left]|]. apply IH; [lia|]. intros k y Hk Hy. apply H; [done|by right].
Qed.
(** [xml_tac]: a whole fragment of literals, clean texts and escaped texts. *)
Ltac xml_step :=
  first
    [ xml_lit
    | match goal with
      | |- context [xscan (X_ Text (?m :: ?st) ?r) (xesc ?s +:+ ?b)] =>
          rewrite (xscan_app_to _ (xesc s) b _ (xscan_xesc s (m :: st) r ltac:(assumption) eq_refl))
      | |- context [xscan (X_ Text (?m :: ?st) ?r) (?s +:+ ?b)] =>
          rewrite (xscan_app_to _ s b _ (xscan_clean s (m :: st) r ltac:(assumption) eq_refl))
      end ].
Ltac xml_tac := intros m st; unfold ln; rewrite ?sapp_assoc; repeat xml_step; vm_compute; reflexivity.

Lemma digit_clean c : is_digit c = true -> clean_char c = true.
Proof. destruct c as [[] [] [] [] [] [] [] []]; vm_compute; congruence. Qed.
Lemma clean_dec n : 0 <= n -> clean (dec n) = true.
Proof. intros H. eapply sall_impl; [|by apply dec_digits]. apply digit_clean. Qed.
Lemma keeps_privacy : keeps xml_privacy.
Proof. unfold xml_privacy. xml_tac. Qed.
Lemma keeps_account u : sall printable u = true -> keeps (xml_account u).
Proof. intros Hu. unfold xml_account. xml_tac. Qed.
Lemma keeps_labconfig n key : clean (dec n) = true -> clean key = true -> keeps (labconfig_command n key).
Proof. intros Hn Hk. unfold labconfig_command. xml_tac. Qed.
Lemma keeps_logon n cmd : clean (dec n) = true -> sall printable cmd = true -> keeps (logon_command n cmd).
Proof. intros Hn Hk. unfold logon_command. xml_tac. Qed.

(** The attributes every component carries, for an architecture name that fits. *)
Definition good_arch (arch : string) : bool := clean_attr arch && (strlen arch <=? 64).
Lemma comp_scan arch n st r :
  good_arch arch = true -> xscan (X_ (Attrs n false) st r) (comp_attrs arch) = Some (X_ (Attrs n false) st r).
Proof.
  intros [Ha Hl%Z.leb_le]%andb_true_iff. unfold comp_attrs. rewrite snprintf_fits by (rewrite !strlen_app; lit_len; lia).
  xml_lit. rewrite (xscan_app_to _ arch _ _ (xscan_attr arch n st r Ha)). vm_compute. reflexivity.
Qed.
Ltac comp_tac Ha :=
  intros m st; unfold ln; rewrite ?sapp_assoc;
  repeat first
    [ match goal with
      | |- context [xscan (X_ (Attrs ?n false) ?st ?r) (comp_attrs ?a +:+ ?b)] =>
          rewrite (xscan_app_to _ (comp_attrs a) b _ (comp_scan a n st r Ha))
      end
    | xml_step ].
Lemma keeps_nro arch : good_arch arch = true -> keeps (xml_nro (comp_attrs arch)).
Proof. intros Ha. unfold xml_nro. comp_tac Ha. vm_compute. reflexivity. Qed.
Lemma keeps_bitlocker arch : good_arch arch = true -> keeps (xml_bitlocker (comp_attrs arch)).
Proof. intros Ha. unfold xml_bitlocker. comp_tac Ha. vm_compute. reflexivity. Qed.
Lemma keeps_winpe arch : good_arch arch = true -> keeps (xml_winpe (comp_attrs arch)).
Proof.
  intros Ha. unfold xml_winpe, numbered, bypass_keys, labconfig_command. comp_tac Ha. vm_compute. reflexivity.
Qed.
Lemma keeps_region arch w : good_arch arch = true -> clean (lang w) = true -> clean (kbd w) = true ->
  keeps (xml_region (comp_attrs arch) w).
Proof. intros Ha Hl Hk. unfold xml_region. comp_tac Ha. vm_compute. reflexivity. Qed.
Lemma keeps_commands cmds : Forall (fun c => sall printable c = true) cmds -> keeps (xml_commands cmds).
Proof.
  intros Hc. destruct cmds as [|c cmds]; [apply keeps_nil|]. unfold xml_commands.
  assert (Hk : keeps (numbered logon_command 1 (c :: cmds))).
  { apply keeps_numbered; [lia|]. intros k x Hk Hx. apply keeps_logon; [apply clean_dec; lia|].
    by apply (proj1 (List.Forall_forall _ _) Hc), list_elem_of_In. }
  intros m st. unfold ln. rewrite ?sapp_assoc. do 2 xml_step. rewrite (xscan_app_to _ _ _ _ (Hk _ _)).
  repeat xml_step. vm_compute. reflexivity.
Qed.
Lemma keeps_shell arch w cmds : good_arch arch = true -> sall printable (user w) = true -> clean (tz w) = true ->
  Forall (fun c => sall printable c = true) cmds -> keeps (xml_shell (comp_attrs arch) w cmds).
Proof.
  intros Ha Hu Hz Hc. unfold xml_shell.
  assert (H1 : keeps (if privacy w then xml_privacy else "")) by (apply keeps_if; intros _; apply keeps_privacy).
  assert (H2 : keeps (if locale w && negb (String.eqb (tz w) "") then ln ("      <TimeZone>" +:+ tz w +:+ "</TimeZone>") else ""))
    by (apply keeps_if; intros _; xml_tac).
  assert (H3 : keeps (if String.eqb (user w) "" then "" else xml_account (user w)))
    by (apply keeps_unless; intros _; by apply keeps_account).
  pose proof (keeps_commands cmds Hc) as H4.
  generalize dependent (xml_commands cmds). generalize dependent (if String.eqb (user w) "" then "" else xml_account (user w)).
  generalize dependent (if locale w && negb (String.eqb (tz w) "") then ln ("      <TimeZone>" +:+ tz w +:+ "</TimeZone>") else "").
  generalize dependent (if privacy w then xml_privacy else "").
  intros s1 H1 s2 H2 s3 H3 s4 H4. comp_tac Ha.
  rewrite (xscan_app_to _ _ _ _ (H1 _ _)), (xscan_app_to _ _ _ _ (H2 _ _)), (xscan_app_to _ _ _ _ (H3 _ _)),
    (xscan_app_to _ _ _ _ (H4 _ _)). repeat xml_step. vm_compute. reflexivity.
Qed.

(** ** What wue_parse accepts *)
Definition good_user (u : string) : bool :=
  sall (fun c => negb (bad_char c)) u && negb (existsb (strcaseeq u) bad_names) && (strlen u <=? 63).
Lemma clean_user_good s : existsb (strcaseeq (clean_user s)) bad_names = false -> good_user (clean_user s) = true.
Proof.
  intros Hn. unfold good_user. rewrite Hn. unfold clean_user. rewrite sall_smap. cbn [negb]. rewrite andb_true_r.
  apply andb_true_iff. split.
  - eapply (sall_impl (fun _ => true)); [|by induction (snprintf 64 s); cbn]. intros c _.
    destruct (bad_char c) eqn:E; [done|by rewrite E].
  - apply Z.leb_le. pose proof (snprintf_bound 64 s ltac:(lia)). unfold strlen in *. rewrite slength_smap. lia.
Qed.
Definition parsed_ok (w : Wue) : Prop := good_user (user w) = true /\ lang w = "" /\ kbd w = "" /\ tz w = "".
Lemma wue_item_ok w tok w' : parsed_ok w -> wue_item w tok = Ok w' -> parsed_ok w'.
Proof.
  intros Hu. unfold wue_item. cbv zeta. destruct (strncaseeq _ _ _).
  - destruct (existsb _ bad_names) eqn:E; [done|]. intros [= <-]. split; [by apply clean_user_good|apply Hu].
  - repeat (destruct (strcaseeq _ _); [by intros [= <-]|]). done.
Qed.
Lemma wue_items_ok w toks w' : parsed_ok w -> wue_items w toks = Ok w' -> parsed_ok w'.
Proof.
  revert w; induction toks as [|tok t IH]; intros w Hu; cbn [wue_items]; [by intros [= <-]|].
  destruct (wue_item w tok) as [w1|m] eqn:E; [|done]. apply IH. by eapply wue_item_ok.
Qed.
Lemma wue_parse_good spec r w : wue_parse spec = Ok (r, w) -> parsed_ok w.
Proof.
  unfold wue_parse. assert (H0 : parsed_ok no_wue) by done. case_bool_decide; [by intros [= <- <-]|].
  destruct spec as [[|c s]|]; [by intros [= <- <-]| |by intros [= <- <-]].
  destruct (wue_items _ _) eqn:E; [|done]. destruct (asks_nothing a); [done|]. intros [= <- <-]. by eapply wue_items_ok.
Qed.

(** An option list that wue_parse accepts asks for something, and the account
    name in it, if any, is one Windows takes: no forbidden or control character,
    at most 63 bytes, and none of the reserved names in any case. The list
    "none", and only that, is accepted as nothing to do. *)
Theorem wue_parse_sound spec r w :
  wue_parse spec = Ok (r, w) ->
  good_user (user w) = true /\
  (r = 1 /\ spec = Some "none" /\ w = no_wue \/ r = 0 /\ spec <> Some "none" /\ asks_nothing w = false).
Proof.
  intros H. split; [by apply (wue_parse_good spec r)|]. revert H. unfold wue_parse.
  case_bool_decide as Hs; [intros [= <- <-]; by left|]. intros H. right. destruct spec as [[|c s]|]; [by simplify_eq| |by simplify_eq].
  destruct (wue_items _ _); [|done]. destruct (asks_nothing a) eqn:E; [done|]. by simplify_eq.
Qed.
Lemma wue_parse_sound_witness :
  let w := set_user "Ann_Lee" (set_nro no_wue) in
  good_user (user w) = true /\
  (0 = 1 /\ Some "NRO, user=Ann:Lee" = Some "none" /\ w = no_wue \/
   0 = 0 /\ Some "NRO, user=Ann:Lee" <> Some "none" /\ asks_nothing w = false).
Proof. intros w. apply (wue_parse_sound (Some "NRO, user=Ann:Lee") 0 w). vm_compute. reflexivity. Defined.

Lemma good_user_printable u : good_user u = true -> sall printable u = true.
Proof.
  intros [[H _]%andb_true_iff _]%andb_true_iff. eapply sall_impl; [|exact H]. intros c Hc.
  unfold bad_char in Hc. apply negb_true_iff, orb_false_iff in Hc as [_ Hc%Z.ltb_ge]. unfold printable. by apply Z.leb_le.
Qed.
Lemma first_logon_printable w : sall printable (user w) = true -> Forall (fun c => sall printable c = true) (first_logon w).
Proof.
  intros Hu. unfold first_logon. apply Forall_app; split.
  - destruct (String.eqb (user w) ""); [constructor|]. apply List.Forall_cons; [|apply List.Forall_cons; [done|constructor]].
    unfold snprintf. apply sall_stake. by rewrite !sall_app, Hu.
  - destruct (qol w); [|constructor]. apply List.Forall_forall. intros c Hc.
    assert (Hall : forallb (sall printable) qol_commands = true) by (vm_compute; reflexivity).
    by apply (proj1 (forallb_forall _ _) Hall).
Qed.

(** The language is not escaped: one with a markup character breaks the file. *)
Example region_not_escaped :
  well_formed (answer_file "amd64" (set_region "a<b" "0409:00000409" "" (set_locale no_wue)) false) = false.
Proof. vm_compute. reflexivity. Qed.

(** * UEFI:NTFS *)

(** What a run of positioned writes left from offset 0 on, each starting where
    the last ended, and what a run of positioned reads got. *)
Definition stored_step (fd : Z) (acc : option (list byte)) (o : obs) : option (list byte) :=
  match o with
  | Obs e x =>
      match e in ev X return X -> option (list byte) with
      | Pwrite fd' b off => fun x =>
          match x, acc with
          | inr w, Some l =>
              if w <=? 0 then acc else if (fd' =? fd) && (off =? zlen l) then Some (l ++ ztake w b) else None
          | _, _ => acc
          end
      | _ => fun _ => acc
      end x
  end.
Definition stored (fd : Z) (t : list obs) : option (list byte) := fold_left (stored_step fd) t (Some []).
Definition fetched_step (fd : Z) (acc : option (list byte)) (o : obs) : option (list byte) :=
  match o with
  | Obs e x =>
      match e in ev X return X -> option (list byte) with
      | Pread fd' n off => fun x =>
          match x, acc with
          | inr l', Some l => if (fd' =? fd) && (off =? zlen l) then Some (l ++ l') else None
          | _, _ => acc
          end
      | _ => fun _ => acc
      end x
  end.
Definition fetched (fd : Z) (t : list obs) : option (list byte) := fold_left (fetched_step fd) t (Some []).
Lemma stored_snoc fd t o : stored fd (t ++ [o]) = stored_step fd (stored fd t) o.
Proof. unfold stored. by rewrite fold_left_app. Qed.
Lemma fetched_snoc fd t o : fetched fd (t ++ [o]) = fetched_step fd (fetched fd t) o.
Proof. unfold fetched. by rewrite fold_left_app. Qed.

Lemma write_loop_stored fuel fd want t r :
  exec (write_loop fuel fd want) t r -> Forall posix t -> r = Ok tt -> stored fd t = Some want.
Proof.
  revert t r. refine (exec_wp _ _ _). unfold write_loop.
  refine (wp_loop _ _ (fun t off => Forall posix t -> 0 <= off <= zlen want /\ stored fd t = Some (ztake off want))
    (fun t r => Forall posix t -> r = Ok tt -> stored fd t = Some want) [] _ _ _).
  { intros _. split; [pose proof (zlen_nonneg want); lia|done]. }
  intros t off HI. destruct (Z.ltb_spec off (zlen want)) as [Hl|Hl]; cbn -[zdrop].
  2: { rewrite app_nil_r. intros Hp _. destruct (HI Hp) as [? ->]. by rewrite ztake_all by lia. }
  intros x. assert (HI' : forall o, Forall posix (t ++ [o]) -> 0 <= off <= zlen want /\ stored fd t = Some (ztake off want)).
  { intros o [Hp _]%Forall_app. by apply HI. }
  destruct x as [[]|w]; cbn -[zdrop]; try done.
  - intros Hp. destruct (HI' _ Hp) as [? H]. by rewrite stored_snoc, H.
  - destruct (Z.leb_spec w 0) as [Hw|Hw]; cbn -[zdrop]; [done|]. intros Hp. destruct (HI' _ Hp) as [? H].
    apply Forall_app in Hp as [_ Hp]. apply Forall_inv in Hp. change (0 <= w <= zlen (zdrop off want)) in Hp.
    rewrite zlen_zdrop in Hp by lia. split; [lia|]. rewrite stored_snoc, H. cbn -[zdrop].
    rewrite (proj2 (Z.leb_gt w 0)), Z.eqb_refl, zlen_ztake, Z.min_l, Z.eqb_refl by lia. cbn -[zdrop]. f_equal.
    unfold ztake, zdrop. rewrite take_take_drop. f_equal. lia.
Qed.
Lemma read_loop_fetched fuel fd n t got :
  exec (read_loop fuel fd n) t got -> fetched fd t = Some got.
Proof.
  revert t got. refine (exec_wp _ _ _). unfold read_loop.
  refine (wp_loop _ _ (fun t got => fetched fd t = Some got) (fun t got => fetched fd t = Some got) [] _ _ _); [done|].
  intros t got HI. destruct (_ <? _); cbn; [|by rewrite app_nil_r].
  intros [[]|[|b l]]; cbn; rewrite fetched_snoc, HI; cbn; rewrite ?Z.eqb_refl, ?app_nil_r; done.
Qed.

(** When rufux_write_uefi_ntfs reports success, the partition, opened for
    itself and large enough, got exactly the 1 MiB image, each write starting
    where the last ended; it was flushed, and reading it back, again from its
    first byte, gave the image. *)
Theorem rufux_write_uefi_ntfs_correct fuel part t :
  exec (rufux_write_uefi_ntfs fuel part) t (Ok tt) -> Forall posix t ->
  exists t0 img i want c fd psz tw tr,
    t = t0 ++ [Obs (Fopen img "rb") (inr i); Obs (Fread i UEFI_NTFS_IMG_SIZE) want; Obs (Fclose i) c;
               Obs (Open part O_RDWR_EXCL) (inr fd); Obs (GetSize64 fd) (Some psz)] ++
        tw ++ [Obs (Fsync fd) None; Obs (FlushBuf fd) tt] ++ tr ++ [Obs (Close fd) tt] /\
    zlen want = UEFI_NTFS_IMG_SIZE /\ UEFI_NTFS_IMG_SIZE <= psz /\
    stored fd tw = Some want /\ fetched fd tr = Some want.
Proof.
  intros (t0 & img & t1 & -> & _ & H)%exec_try Hp. apply Forall_app in Hp as [_ Hp].
  cbn [bind call exec] in H. destruct H as ([|i] & t2 & -> & H); [by destruct H|].
  cbn [bind call exec] in H. destruct H as (want & t3 & -> & c & t4 & -> & H).
  destruct (Z.eqb_spec (zlen want) UEFI_NTFS_IMG_SIZE) as [Hw|]; cbn [negb] in H; [|by destruct H].
  cbn [bind call exec] in H. destruct H as ([|fd] & t5 & -> & H); [by destruct H|].
  cbn [bind call exec] in H. destruct H as (psz & t6 & -> & H).
  destruct (Z.ltb_spec (default 0 psz) UEFI_NTFS_IMG_SIZE) as [|Hs]; [by destruct H as (? & ? & -> & ? & ?)|].
  destruct psz as [psz|]; [|by vm_compute in Hs]. cbn in Hs.
  do 5 apply List.Forall_inv_tail in Hp.
  apply exec_bind in H as (tw & r & t7 & -> & Hl & H). apply Forall_app in Hp as [Hpw Hp].
  destruct r as [[]|]; [|by destruct H as (? & ? & -> & ? & ?)].
  cbn [bind call exec] in H. destruct H as ([?|] & t8 & -> & H); [by destruct H as (? & ? & -> & ? & ?)|].
  cbn [bind call exec] in H. destruct H as ([] & t9 & -> & H).
  apply exec_bind in H as (tr & got & t10 & -> & Hr & H).
  cbn [bind call exec] in H. destruct H as ([] & t11 & -> & H).
  destruct ((zlen got =? UEFI_NTFS_IMG_SIZE) && bytes_eqb want got) eqn:E; [|by destruct H].
  apply andb_true_iff in E as [_ E%bool_decide_eq_true]. subst got. destruct H as [-> _].
  eexists _, _, _, _, _, _, _, _, _. split; [reflexivity|]. split_and!; [done|done| |by eapply read_loop_fetched].
  by eapply write_loop_stored.
Qed.
(** One write and one read back of an image found through RUFUX_RES. *)
Definition one_pass (img : list byte) : list obs :=
  [Obs (Getenv "RUFUX_RES") (Some "r"); Obs (Stat "r/uefi/uefi-ntfs.img") (Some (Stat_ KReg 1048576 1 1));
   Obs (Fopen "r/uefi/uefi-ntfs.img" "rb") (inr 3); Obs (Fread 3 UEFI_NTFS_IMG_SIZE) img; Obs (Fclose 3) true;
   Obs (Open "/dev/sdb2" O_RDWR_EXCL) (inr 4); Obs (GetSize64 4) (Some UEFI_NTFS_IMG_SIZE);
   Obs (Pwrite 4 img 0) (inr UEFI_NTFS_IMG_SIZE); Obs (Fsync 4) None; Obs (FlushBuf 4) tt;
   Obs (Pread 4 UEFI_NTFS_IMG_SIZE 0) (inr img); Obs (Close 4) tt].
Lemma one_pass_exec img : zlen img = UEFI_NTFS_IMG_SIZE ->
  exec (rufux_write_uefi_ntfs 9 "/dev/sdb2") (one_pass img) (Ok tt) /\ Forall posix (one_pass img).
Proof.
  intros Hz. split.
  - unfold rufux_write_uefi_ntfs, one_pass. do 3 (hnf; eexists _, _; split; [reflexivity|]).
    do 2 (hnf; eexists _, _; split; [reflexivity|]). cbn [bind]. rewrite Hz, Z.eqb_refl. cbn [negb bind call exec].
    do 2 (eexists _, _; split; [reflexivity|]). cbn [bind]. change (default 0 _ <? _) with false. cbv iota.
    apply exec_bind. exists [Obs (Pwrite 4 img 0) (inr UEFI_NTFS_IMG_SIZE)], (Ok tt).
    eexists. split; [reflexivity|]. split.
    { unfold write_loop. cbn [loop]. rewrite Hz. change (0 <? _) with true. cbv iota. cbn [bind call exec].
      change (zdrop 0 img) with img. eexists _, _. split; [reflexivity|]. cbn [bind].
      change (UEFI_NTFS_IMG_SIZE <=? 0) with false. cbv iota. cbn [bind loop]. rewrite ?Hz.
      change (0 + UEFI_NTFS_IMG_SIZE <? UEFI_NTFS_IMG_SIZE) with false. done. }
    cbn [bind call exec]. do 2 (eexists _, _; split; [reflexivity|]). cbn [bind]. apply exec_bind.
    exists [Obs (Pread 4 UEFI_NTFS_IMG_SIZE 0) (inr img)], img. eexists. split; [reflexivity|]. split.
    { unfold read_loop. cbn [loop]. change (zlen [] <? _) with true. cbv iota. cbn [bind call exec].
      eexists _, _. split; [reflexivity|]. destruct img as [|b l]; [done|]. cbn [bind app loop]. rewrite ?Hz.
      change (UEFI_NTFS_IMG_SIZE <? UEFI_NTFS_IMG_SIZE) with false. done. }
    cbn [bind call exec]. eexists _, _. split; [reflexivity|]. cbn [bind]. rewrite Hz, Z.eqb_refl. unfold bytes_eqb.
    rewrite bool_decide_true by done. done.
  - unfold one_pass. repeat (apply List.Forall_cons; [cbn; rewrite ?Hz; unfold UEFI_NTFS_IMG_SIZE; try done; lia|]).
    apply List.Forall_nil.
Qed.
Lemma rufux_write_uefi_ntfs_correct_witness :
  exists t want fd tw tr, exec (rufux_write_uefi_ntfs 9 "/dev/sdb2") t (Ok tt) /\
    zlen want = UEFI_NTFS_IMG_SIZE /\ stored fd tw = Some want /\ fetched fd tr = Some want.
Proof.
  destruct (one_pass_exec (replicate (Z.to_nat UEFI_NTFS_IMG_SIZE) Byte.x41)) as [He Hp].
  { rewrite zlen_replicate. by apply Z2Nat.id. }
  destruct (rufux_write_uefi_ntfs_correct 9 "/dev/sdb2" _ He Hp) as (? & ? & ? & want & ? & fd & ? & tw & tr & _ & H1 & _ & H2 & H3).
  eexists _, want, fd, tw, tr. split_and!; [exact He|exact H1|exact H2|exact H3].
Defined.
