(* ===== verification/Extract.v ===== *)
(** src/src/linux/extract.c: unpacking an image with bsdtar or 7z, and splitting
    install.wim for FAT32. *)
From S2P Require Import Prelude Cstr Double Sys Exec Iso.

(** A progress callback; [None] for a null pointer. *)
Definition progress : Type := option (Z -> Z -> io unit).
Definition report (prog : progress) (done total : Z) : io unit :=
  match prog with Some p => p done total | None => Ret tt end.
Definition wrap64 (z : Z) : Z := z mod 2 ^ 64.

(** * Sizes *)
Definition du_cb (acc : Z) (visit : string * bool * Z) : Z :=
  let '(_, is_file, size) := visit in if is_file then wrap64 (acc + size) else acc.
Definition dir_size (path : string) : io Z :=
  st <- call (Stat path) ;;
  match st with
  | None => Ret 0
  | Some s =>
      if negb (is_kind KDir st) then Ret (st_size s)
      else l <- call (Nftw path) ;; Ret (fold_left du_cb l 0)
  end.
Definition grown (cur base : Z) : Z := if base <? cur then cur - base else 0.

(** a directory that may be there already *)
Definition mkdir_if (dir : string) : io (cres unit) :=
  e <- call (Mkdir dir) ;;
  match e with
  | None | Some EEXIST => ok tt
  | Some e' => fail ("cannot mkdir '" +:+ dir +:+ "': " +:+ strerror e')
  end.

Section Fuel.
Variable fuel : nat.
Variable point : ascii.

(** * Running an extractor *)
(** the child [h] until it ends, reporting growth every 0.2 s; a waitpid that
    fails counts as a failed child *)
Definition poll_loop (h : Z) (dest : string) (base total : Z) (prog : progress) : io bool :=
  loop fuel (fun _ =>
    w <- call (WaitNohang h) ;;
    match w with
    | Some w => Ret (inr (exited_ok w))
    | None =>
        match prog with
        | Some _ => when (negb (total =? 0)) (cur <- dir_size dest ;; report prog (grown cur base) total)
        | None => Ret tt
        end ;;;
        call (Usleep 200000) ;;;
        Ret (inl tt)
    end) tt.
(** the bytes the destination grew by *)
Definition extract_poll (av : list string) (dest : string) (total : Z) (prog : progress) : io (cres Z) :=
  base <- dir_size dest ;;
  pid <- call (Fork av) ;;
  match pid with
  | None => fail "fork failed"
  | Some h =>
      ok_ <- poll_loop h dest base total prog ;;
      match prog with
      | Some _ => when (negb (total =? 0) && ok_) (cur <- dir_size dest ;; report prog (grown cur base) total)
      | None => Ret tt
      end ;;;
      cur <- dir_size dest ;;
      if (ok_ : bool) then ok (grown cur base) else fail (default "" (head av) +:+ " extract failed")
  end.

(** * Plain extraction *)
Definition MIN_CHECKED : Z := 50 * 2 ^ 20.
(** the extraction is less than three quarters of the image *)
Definition incomplete (got total : Z) : bool :=
  (MIN_CHECKED <? total) && (wrap64 (got * 4) <? wrap64 (total * 3)).
Definition of_bytes (got total : Z) : string := "(" +:+ dec got +:+ " of " +:+ dec total +:+ " bytes)".

(** no total is handed on when nobody listens *)
Definition polled (prog : progress) (total : Z) : Z := match prog with Some _ => total | None => 0 end.

(** the second half: 7z, or the message of a host without a tool; [err] is what
    is in the caller's buffer *)
Definition extract_7z (src dest : string) (dry have_bsdtar : bool) (total : Z) (prog : progress) (err : string) : io (cres unit) :=
  h <- rufux_have "7z" ;;
  if (h : bool) then
    let av := ["7z"; "x"; src; "-y"; snprintf 1152 ("-o" +:+ dest)] in
    if dry then rufux_run av true ;;; ok tt
    else
      r <- extract_poll av dest (polled prog total) prog ;;
      match r with
      | Fail m => fail m
      | Ok got => if incomplete got total then fail ("extract incomplete " +:+ of_bytes got total) else ok tt
      end
  else
    h2 <- (if have_bsdtar then Ret true else rufux_have "7z") ;;
    fail (if (h2 : bool) then err else "need bsdtar or 7z for extraction (7z required for UDF)").

(** bsdtar for everything but UDF, whose result is not trusted when it is too small *)
Definition extract_with (src dest : string) (dry : bool) (total : Z) (prog : progress) : io (cres unit) :=
  udf <- rufux_iso_is_udf src ;;
  have_bsdtar <- rufux_have "bsdtar" ;;
  b <- rufux_have "bsdtar" ;;
  if b && negb (bool_decide (udf = Some true)) then
    let av := ["bsdtar"; "-xf"; src; "-C"; dest] in
    if dry then rufux_run av true ;;; ok tt
    else
      r <- extract_poll av dest (polled prog total) prog ;;
      match r with
      | Fail m => fail m
      | Ok got =>
          if incomplete got total then
            h <- rufux_have "7z" ;;
            if (h : bool)
            then extract_7z src dest dry false total prog
                   ("bsdtar incomplete " +:+ of_bytes got total +:+ ", retrying with 7z")
            else fail ("extract incomplete " +:+ of_bytes got total +:+ " and no 7z available")
          else ok tt
      end
  else extract_7z src dest dry have_bsdtar total prog "".

Definition rufux_extract_iso_progress (src dest : string) (dry : bool) (prog : progress) : io (cres unit) :=
  st <- call (Stat src) ;;
  match st with
  | None => fail ("source '" +:+ src +:+ "' missing")
  | Some s =>
      let total := if is_kind KReg st then st_size s else 0 in
      (if dry then ok tt else mkdir_if dest) ?;;
      extract_with src dest dry total prog
  end.
Definition rufux_extract_iso (src dest : string) (dry : bool) : io (cres unit) :=
  rufux_extract_iso_progress src dest dry None.

(** * Splitting install.wim *)
Definition archive_file_size (iso name : string) : io Z :=
  r <- rufux_capture fuel ["7z"; "l"; "-slt"; iso; name] 8192 ;;
  let '(ran, out) := r in
  if negb ran then Ret 0
  else Ret (match strstr (LF +:+ "Size = ") out with Some p => strtoul10 (sdrop 8 p) | None => 0 end).

(** extraction progress as a part of the whole *)
Definition split_cb (prog : progress) (base grand : Z) : progress :=
  Some (fun done _ => report prog (wrap64 (base + done)) grand).

(** the directory of the image, [None] when it has none *)
Definition src_directory (src : string) : option string :=
  let s := snprintf 512 src in
  match strrchr "/" s with
  | Some rest => if String.eqb (before s rest) "" then None else Some (before s rest)
  | None => None
  end.
(** the array of candidates up to its first null pointer *)
Fixpoint until_null (l : list (option string)) : list string :=
  match l with Some s :: t => s :: until_null t | _ => [] end.
Definition try_scratch (need : Z) (dir : string) : io (option string) :=
  if String.eqb dir "" then Ret None
  else
    avail <- call (Statvfs dir) ;;
    match avail with
    | None => Ret None
    | Some a => if a <? need then Ret None else call (Mkdtemp (snprintf 512 (dir +:+ "/rufux-wim-XXXXXX")))
    end.
Definition scratch_dir (need : Z) (src : string) : io (option string) :=
  e1 <- call (Getenv "RUFUX_TMPDIR") ;;
  e2 <- call (Getenv "TMPDIR") ;;
  first_io (try_scratch need) (until_null [e1; e2; src_directory src; Some "/var/tmp"; Some "/tmp"; None]).

Definition iso_mount_ro (iso : string) : io (option string) :=
  m <- call (Mkdtemp "/tmp/rufux-iso-XXXXXX") ;;
  match m with
  | None => Ret None
  | Some mnt =>
      done <- rufux_run ["mount"; "-o"; "loop,ro"; "--"; iso; mnt] false ;;
      if (done : bool) then Ret (Some mnt) else call (Rmdir mnt) ;;; Ret None
  end.
Definition iso_umount (mnt : string) : io unit :=
  rufux_run ["umount"; "--"; mnt] false ;;; call (Rmdir mnt) ;;; Ret tt.

(** one component: the first entry with the name, case ignored *)
Definition resolve_seg (cap : nat) (cur seg : string) : io (string + option string) :=
  d <- call (Opendir cur) ;;
  match d with
  | None => Ret (inr None)
  | Some names =>
      match List.find (fun n => strcaseeq n seg) names with
      | None => Ret (inr None)
      | Some n =>
          let hit := snprintf 256 n in
          if String.eqb hit "" then Ret (inr None) else Ret (inl (snprintf cap (cur +:+ "/" +:+ hit)))
      end
  end.
Definition resolve_ci (root rel : string) (cap : nat) : io (option string) :=
  r <- fold_io (resolve_seg 1024) (tok_char "/" (snprintf 256 rel)) (snprintf 1024 root) ;;
  match r with
  | inr _ => Ret None
  | inl cur => a <- call (Access cur R_OK) ;; Ret (if a then Some (snprintf cap cur) else None)
  end.

Definition FAT_MAX : Z := 4294967295.
Definition gib_of (n : Z) : string := fmt_f point 1 (ddiv (Z2double n) (Z2double 1073741824)).
Definition wim_split (wim part : string) (split_mb : Z) : io (cres unit) :=
  done <- rufux_run ["wimlib-imagex"; "split"; wim; part; snprintf 16 (dec split_mb)] false ;;
  if (done : bool) then ok tt else fail "wimlib-imagex split failed".
(** the preferred route: wimlib reads the mounted image *)
Definition split_mounted (src part : string) (split_mb : Z) : io bool :=
  m <- iso_mount_ro src ;;
  match m with
  | None => Ret false
  | Some mnt =>
      w <- resolve_ci mnt "sources/install.wim" 1300 ;;
      r <- match w with
           | None => Ret false
           | Some wim =>
               call (Log "Splitting install.wim directly from the mounted image.") ;;;
               s <- wim_split wim part split_mb ;; Ret (is_ok s)
           end ;;
      iso_umount mnt ;;; Ret r
  end.
(** the fallback: a copy of the WIM in scratch space *)
Definition split_copied (src part : string) (split_mb wim total : Z) (prog : progress) : io (cres unit) :=
  let need := wrap64 (wim + 256 * 2 ^ 20) in
  s <- scratch_dir need src ;;
  match s with
  | None => fail ("cannot split install.wim: the image would not mount, and there is no scratch space for a copy ("
                  +:+ gib_of need +:+ " GiB free needed; set RUFUX_TMPDIR to a bigger disk)")
  | Some scratch =>
      let xb := ["7z"; "e"; src; "-y"; snprintf 1300 ("-o" +:+ scratch); "sources/install.wim"] in
      r <- extract_poll xb scratch wim (split_cb prog (if wim <? total then total - wim else 0) total) ;;
      rc <- match r with
            | Fail m => fail m
            | Ok _ => wim_split (snprintf 1300 (scratch +:+ "/install.wim")) part split_mb
            end ;;
      rufux_run ["rm"; "-rf"; "--"; scratch] false ;;; Ret rc
  end.
Definition split_phases (src dest : string) (split_mb wim total : Z) (prog : progress) : io (cres unit) :=
  mkdir_if dest ?;;
  let rest := if wim <? total then total - wim else 0 in
  let xa := ["7z"; "x"; src; "-y"; snprintf 1152 ("-o" +:+ dest); "-x!sources/install.wim"] in
  extract_poll xa dest rest (split_cb prog 0 total) ?;;
  let sdir := snprintf 1300 (dest +:+ "/sources") in
  mkdir_if sdir ?;;
  let part := snprintf 1400 (sdir +:+ "/install.swm") in
  mounted <- split_mounted src part split_mb ;;
  (if (mounted : bool) then ok tt else split_copied src part split_mb wim total prog) ?;;
  report prog total total ;;; ok tt.

Definition rufux_extract_windows_split (src dest : string) (split_mb : Z) (force : bool) (prog : progress) : io (cres unit) :=
  st <- call (Stat src) ;;
  match st with
  | None => fail ("source '" +:+ src +:+ "' missing")
  | Some s =>
      let total := st_size s in
      have7 <- rufux_have "7z" ;;
      if negb have7 then fail "7z is required to read Windows ISOs"
      else
        wim <- archive_file_size src "sources/install.wim" ;;
        esd <- archive_file_size src "sources/install.esd" ;;
        if FAT_MAX <? esd then
          fail ("install.esd is " +:+ gib_of esd +:+ " GiB: too large for FAT32 and it cannot be split. Use NTFS.")
        else if negb force && (wim <=? FAT_MAX) then
          call (Log "install.wim fits on FAT32 (no splitting needed).") ;;;
          rufux_extract_iso_progress src dest false prog
        else if wim =? 0 then fail "no sources/install.wim in the image to split"
        else
          w <- rufux_have "wimlib-imagex" ;;
          if negb w then
            fail ("install.wim is " +:+ gib_of wim +:+ " GiB, too large for FAT32. Install wimlib (wimlib-imagex) so Rufux can split it, or choose NTFS.")
          else
            call (Log (snprintf 300 ("Splitting install.wim (" +:+ gib_of wim +:+ " GiB) into " +:+ dec split_mb
                                     +:+ " MiB parts for FAT32..."))) ;;;
            split_phases src dest split_mb wim total prog
  end.
End Fuel.

Definition rufux_write_autorun (dir label : string) (dry : bool) : io (cres unit) :=
  let label := if String.eqb label "" then "RUFUX" else label in
  let path := snprintf 1024 (dir +:+ "/autorun.inf") in
  if dry then call (Stderr ("+ write " +:+ path +:+ " (label '" +:+ label +:+ "')" +:+ LF)) ;;; ok tt
  else
    f <- call (Fopen path "w") ;;
    match f with
    | inl e => fail ("cannot write '" +:+ path +:+ "': " +:+ strerror e)
    | inr h =>
        call (Fputs h ("[Autorun]" +:+ LF +:+ "Label=" +:+ label +:+ LF)) ;;;
        c <- call (Fclose h) ;;
        if (c : bool) then ok tt else fail ("cannot close '" +:+ path +:+ "'")
    end.
