(* ===== verification/ExtractSpec.v ===== *)
(** What the extraction of src/src/linux/extract.c promises: success means the
    tool succeeded and enough bytes arrived, a split WIM is written by wimlib
    and by nothing else, the poll ends with its child; and that scratch space
    is never found while RUFUX_TMPDIR is unset. *)
From S2P Require Import Prelude Cstr Double Sys Exec Iso Extract.

(** * Executions of the helpers *)
Lemma rufux_run_inv av t b :
  exec (rufux_run av false) t b ->
  exists w, t = [Obs (Stderr (shown av)) tt; Obs (Spawn av None) w] /\ b = exited_ok w.
Proof.
  unfold rufux_run. cbn. intros ([] & t' & -> & w & t'' & -> & -> & ->). eauto.
Qed.
Lemma exited_ok_inv w : exited_ok w = true -> w = Exited 0.
Proof. destruct w; cbn; try done. by intros ->%Z.eqb_eq. Qed.
Lemma rufux_run_ok av t : exec (rufux_run av false) t true -> In (Obs (Spawn av None) (Exited 0)) t.
Proof. intros (w & -> & H)%rufux_run_inv. symmetry in H. apply exited_ok_inv in H as ->. cbn. auto. Qed.
Lemma exec_bind_app {A B} (m : io A) (f : A -> io B) t1 t2 a b :
  exec m t1 a -> exec (f a) t2 b -> exec (bind m f) (t1 ++ t2) b.
Proof. intros. apply exec_bind. eauto 10. Qed.

(** * Polling *)
(** the polls that found the child still running *)
Definition still_running (o : obs) : bool :=
  match o with
  | Obs e x =>
      match e in ev X return X -> bool with
      | WaitNohang _ => fun x => match x with None => true | _ => false end
      | _ => fun _ => false
      end x
  end.
Definition polls (t : list obs) : nat := length (List.filter still_running t).
Lemma polls_app t u : polls (t ++ u) = (polls t + polls u)%nat.
Proof. unfold polls. by rewrite List.filter_app, length_app. Qed.
Lemma dir_size_ends path t : ~ runs_out (dir_size path) t.
Proof.
  unfold dir_size. cbn. intros (st & t' & -> & H). destruct st as [s|]; [|done].
  destruct (negb _); [done|]. by destruct H as (?&?&?&?).
Qed.

(** the environment that hands a fixed list of answers to the polls *)
Section Poll.
Variable fuel : nat.
Variables (h : Z) (dest : string) (base total : Z) (prog : progress).
Hypothesis prog_ends : forall p d n t, prog = Some p -> ~ runs_out (p d n) t.

Lemma report_ends d n t : ~ runs_out (report prog d n) t.
Proof. unfold report. destruct prog as [p|] eqn:E; [by apply prog_ends|by intros []]. Qed.
Lemma tell_ends (b : bool) t :
  ~ runs_out (match prog with
              | Some _ => when b (cur <- dir_size dest ;; report prog (grown cur base) total)
              | None => Ret tt
              end) t.
Proof.
  pose proof report_ends as Hr. destruct prog; [|by intros []]. destruct b; cbn [when]; [|by intros []].
  intros [H|(t1 & a & t2 & -> & _ & H)]%runs_out_bind; [by apply dir_size_ends in H|].
  by apply Hr in H.
Qed.

(** the loop outlives its fuel only while the child does *)
Lemma poll_loop_ends t :
  runs_out (poll_loop fuel h dest base total prog) t -> (fuel <= polls t)%nat.
Proof.
  unfold poll_loop. intros H. change (polls t) with (0 + polls t)%nat.
  revert H. apply (loop_runs_out (fun _ => 0%nat)); [apply polls_app|..].
  - intros [] u. cbn. intros ([w|] & t' & -> & H); [done|]. cbn [bind] in H.
    apply runs_out_bind in H as [H|(t1 & a & t2 & -> & _ & H)]; [by apply tell_ends in H|].
    cbn in H. by destruct H as (?&?&_&?).
  - intros [] [] u. cbn. intros ([w|] & t' & -> & H); [by destruct H as [_ ?]|].
    cbn. lia.
Qed.
End Poll.

Lemma extract_poll_runs_out fuel av dest total prog t :
  (forall p d n u, prog = Some p -> ~ runs_out (p d n) u) ->
  runs_out (extract_poll fuel av dest total prog) t -> (fuel <= polls t)%nat.
Proof.
  intros Hp. unfold extract_poll.
  intros [H|(t1 & base & t2 & -> & _ & H)]%runs_out_bind; [by apply dir_size_ends in H|].
  destruct H as ([h|] & t3 & -> & H); [|done]. cbn [bind] in H.
  apply runs_out_bind in H as [H|(t4 & rc & t5 & -> & _ & H)].
  { apply poll_loop_ends in H; [|done]. rewrite polls_app. cbn. unfold polls in *. cbn. lia. }
  apply runs_out_bind in H as [H|(t6 & [] & t7 & -> & _ & H)]; [by eapply tell_ends in H|].
  apply runs_out_bind in H as [H|(t8 & cur & t9 & -> & _ & H)]; [by apply dir_size_ends in H|].
  by destruct rc.
Qed.

(** Extracting ends with its child. In any environment in which the child
    is found still running at most n times, more than n turns of the polling
    loop are enough for extract_poll to return. *)
Theorem extract_poll_returns {W} (hd : handler W) w av dest total prog n :
  (forall p d m u, prog = Some p -> ~ runs_out (p d m) u) ->
  (forall fuel, (polls (run hd (extract_poll fuel av dest total prog) w).1.2 <= n)%nat) ->
  forall fuel, (n < fuel)%nat -> exists r, (run hd (extract_poll fuel av dest total prog) w).1.1 = Some r.
Proof.
  intros Hp Hn fuel Hf. specialize (Hn fuel).
  destruct (run hd (extract_poll fuel av dest total prog) w).1.1 as [r|] eqn:E; [eauto|].
  apply run_runs_out, extract_poll_runs_out in E; [lia|done].
Qed.

(** * Completeness *)
Lemma poll_loop_ok fuel h dest base total prog t :
  exec (poll_loop fuel h dest base total prog) t true -> In (Obs (WaitNohang h) (Some (Exited 0))) t.
Proof.
  unfold poll_loop. intros H.
  match type of H with exec ?m _ _ =>
    cut (wp m (fun u a => a = true -> In (Obs (WaitNohang h) (Some (Exited 0))) ([] ++ u)))
  end; [intros Hw; exact (exec_wp _ _ Hw t true H eq_refl)|].
  apply (wp_loop fuel _ (fun _ _ => True) (fun u a => a = true -> In (Obs (WaitNohang h) (Some (Exited 0))) u) []); [done|]. intros u [] _. cbn. intros [w|].
  - cbn. intros ->%exited_ok_inv. apply in_or_app. right. by left.
  - apply wp_any. intros t1 []. cbn. by intros [].
Qed.

Lemma extract_poll_ok fuel av dest total prog t got :
  exec (extract_poll fuel av dest total prog) t (Ok got) ->
  exists tb base h tm cur tc, t = tb ++ Obs (Fork av) (Some h) :: tm ++ tc /\
    exec (dir_size dest) tb base /\ exec (dir_size dest) tc cur /\
    In (Obs (WaitNohang h) (Some (Exited 0))) tm /\ got = grown cur base.
Proof.
  unfold extract_poll. intros (tb & base & t2 & -> & Hb & H)%exec_bind.
  destruct H as ([h|] & t3 & -> & H); [|by destruct H]. cbn [bind] in H.
  apply exec_bind in H as (t4 & rc & t5 & -> & Hl & H).
  apply exec_bind in H as (t6 & [] & t7 & -> & _ & H).
  apply exec_bind in H as (tc & cur & t9 & -> & Hc & H).
  destruct rc; destruct H as [-> [= ->]].
  exists tb, base, h, (t4 ++ t6), cur, tc. rewrite app_nil_r, <- !app_assoc. cbn. repeat split; [done..|].
  apply in_or_app. left. by apply poll_loop_ok in Hl.
Qed.

Lemma incomplete_false got total :
  0 <= got -> 0 <= total <= 2 ^ 62 -> incomplete got total = false -> MIN_CHECKED < total -> 3 * total <= 4 * got.
Proof.
  unfold incomplete, wrap64. intros Hg Ht [H%Z.ltb_ge|H%Z.ltb_ge]%andb_false_iff Hm; [lia|].
  rewrite (Z.mod_small (total * 3)) in H by lia.
  pose proof (Z.mod_le (got * 4) (2 ^ 64)). lia.
Qed.
Lemma grown_nonneg cur base : 0 <= grown cur base.
Proof. unfold grown. destruct (Z.ltb_spec base cur); lia. Qed.

(** an extractor that ran over [src] to exit status 0, and what it added to [dest] *)
Definition extracted (src dest : string) (t : list obs) (got : Z) : Prop :=
  exists t0 tb base av h tm cur tc, t = t0 ++ tb ++ Obs (Fork av) (Some h) :: tm ++ tc /\
    (head av = Some "bsdtar" \/ head av = Some "7z") /\ In src av /\
    exec (dir_size dest) tb base /\ exec (dir_size dest) tc cur /\
    In (Obs (WaitNohang h) (Some (Exited 0))) tm /\ got = grown cur base.
Lemma extracted_app src dest t u got : extracted src dest t got -> extracted src dest (u ++ t) got.
Proof.
  intros (t0 & tb & base & av & h & tm & cur & tc & -> & H).
  exists (u ++ t0), tb, base, av, h, tm, cur, tc. by rewrite <- app_assoc.
Qed.
Lemma extract_poll_extracted fuel av src dest total prog t got :
  head av = Some "bsdtar" \/ head av = Some "7z" -> In src av ->
  exec (extract_poll fuel av dest total prog) t (Ok got) -> extracted src dest t got.
Proof.
  intros ? ? (tb & base & h & tm & cur & tc & -> & H)%extract_poll_ok.
  exists [], tb, base, av, h, tm, cur, tc. tauto.
Qed.

(** what both back ends return when they succeed *)
Definition complete (src dest : string) (total : Z) (t : list obs) : Prop :=
  exists got, extracted src dest t got /\ (MIN_CHECKED < total -> 3 * total <= 4 * got).
Lemma complete_app src dest total t u : complete src dest total t -> complete src dest total (u ++ t).
Proof. intros (got & H & Hc). exists got. split; [by apply extracted_app|done]. Qed.
Lemma extract_poll_complete fuel av src dest total prog t v got :
  head av = Some "bsdtar" \/ head av = Some "7z" -> In src av -> 0 <= total <= 2 ^ 62 ->
  exec (extract_poll fuel av dest v prog) t (Ok got) -> incomplete got total = false ->
  complete src dest total t.
Proof.
  intros Ha Hs Ht H Hi.
  pose proof (extract_poll_ok _ _ _ _ _ _ _ H) as (? & ? & ? & ? & ? & ? & _ & _ & _ & _ & Hg).
  eapply extract_poll_extracted in H; [|done..].
  eexists. split; [done|]. apply incomplete_false; [rewrite Hg; apply grown_nonneg|lia|done].
Qed.
Lemma extract_7z_complete fuel src dest b total prog err t :
  0 <= total <= 2 ^ 62 ->
  exec (extract_7z fuel src dest false b total prog err) t (Ok tt) -> complete src dest total t.
Proof.
  intros Ht. unfold extract_7z. intros (t1 & [|] & t2 & -> & _ & H)%exec_bind; apply complete_app.
  - apply exec_bind in H as (t3 & [got|m] & t4 & -> & H & H2); [|by destruct H2].
    destruct (incomplete got total) eqn:Hi; destruct H2 as [-> [=]]. rewrite app_nil_r.
    refine (extract_poll_complete _ _ _ _ _ _ _ _ _ _ _ Ht H Hi); cbn; auto.
  - apply exec_bind in H as (? & h2 & ? & -> & _ & H). by destruct H.
Qed.
Lemma extract_with_complete fuel src dest total prog t :
  0 <= total <= 2 ^ 62 ->
  exec (extract_with fuel src dest false total prog) t (Ok tt) -> complete src dest total t.
Proof.
  intros Ht. unfold extract_with.
  intros (t1 & udf & t2 & -> & _ & H)%exec_bind; apply complete_app.
  apply exec_bind in H as (t3 & hb & t4 & -> & _ & H); apply complete_app.
  apply exec_bind in H as (t5 & b & t6 & -> & _ & H); apply complete_app.
  destruct (b && _); [|by eapply extract_7z_complete].
  apply exec_bind in H as (t7 & [got|m] & t8 & -> & H & H2); [|by destruct H2].
  destruct (incomplete got total) eqn:Hi.
  - apply complete_app. apply exec_bind in H2 as (t9 & [|] & t10 & -> & _ & H2); [|by destruct H2].
    apply complete_app. by eapply extract_7z_complete.
  - destruct H2 as [-> _]. rewrite app_nil_r.
    refine (extract_poll_complete _ _ _ _ _ _ _ _ _ _ _ Ht H Hi); cbn; auto.
Qed.

(** An extraction reported as done is the work of bsdtar or 7z on the
    image, run to exit status 0, and of an image over 50 MiB at least three
    quarters of its size arrived in the destination: the sizes of the
    destination taken before the tool was started and after it ended differ by
    that much. *)
Theorem rufux_extract_iso_complete fuel src dest prog s t :
  st_kind s = KReg -> 0 <= st_size s <= 2 ^ 62 ->
  exec (rufux_extract_iso_progress fuel src dest false prog) (Obs (Stat src) (Some s) :: t) (Ok tt) ->
  complete src dest (st_size s) t.
Proof.
  intros Hk Hs (st & t1 & E & H). apply obs_stat_inj in E as [<- <-]. cbn [bind] in H.
  unfold is_kind in H. rewrite Hk, bool_decide_eq_true_2 in H by done.
  apply exec_try in H as (t2 & [] & t3 & -> & _ & H). apply complete_app. by eapply extract_with_complete.
Qed.
(** a destination that holds 60 MiB once an extractor was started *)
Definition unpacking : handler bool := fun X e w =>
  match e in ev X return X * bool with
  | Fork _ => (Some 7, true)
  | Stat p => (if String.eqb p "out" then Some (Stat_ KDir 0 0 0) else Some (Stat_ KReg (64 * 2 ^ 20) 0 0), w)
  | Nftw _ => (if w then [("out/a", true, 40 * 2 ^ 20); ("out/d", false, 4096); ("out/d/b", true, 20 * 2 ^ 20)] else [], w)
  | Access _ _ => (true, w)
  | e => (default_answer e, w)
  end.
Lemma rufux_extract_iso_complete_witness :
  exists t, complete "w.iso" "out" (64 * 2 ^ 20) t.
Proof.
  eexists. apply (rufux_extract_iso_complete 9 "w.iso" "out" None (Stat_ KReg (64 * 2 ^ 20) 0 0)); [reflexivity|cbn; lia|].
  eapply (run_exec unpacking _ false). vm_compute. reflexivity.
Defined.

(** a child that is found running twice *)
Definition two_polls : handler nat := fun X e w =>
  match e in ev X return X * nat with
  | Fork _ => (Some 7, w)
  | WaitNohang _ => match w with O => (Some (Exited 0), O) | S w => (None, w) end
  | e => (default_answer e, w)
  end.
Lemma extract_poll_returns_witness :
  exists r, (run two_polls (extract_poll 3 ["7z"; "x"; "w.iso"] "out" 5 None) 2%nat).1.1 = Some r.
Proof.
  apply (extract_poll_returns two_polls 2%nat _ _ _ None 2%nat); [discriminate| |lia].
  intros [|[|[|fuel]]]; cbn; lia.
Defined.

(** * Scratch space *)
(** With RUFUX_TMPDIR unset no scratch directory is found, whatever TMPDIR
    says and however much room TMPDIR, the directory of the image, /var/tmp
    and /tmp have: the scan of the candidates stops at the null pointer that
    getenv returned, and not even one file system is looked at. *)
Theorem scratch_dir_unset need src t r :
  exec (scratch_dir need src) (Obs (Getenv "RUFUX_TMPDIR") None :: t) r ->
  r = None /\ exists tmpdir, t = [Obs (Getenv "TMPDIR") tmpdir].
Proof.
  intros (e1 & t1 & E & H).
  apply obs_inj in E as [<- <-].
  destruct H as (e2 & t2 & -> & H). destruct H as [-> ->]. eauto.
Qed.
Lemma scratch_dir_unset_witness :
  exec (scratch_dir 1 "/home/u/w.iso") [Obs (Getenv "RUFUX_TMPDIR") None; Obs (Getenv "TMPDIR") (Some "/roomy")] None
  /\ (None : option string) = None.
Proof.
  assert (H : exec (scratch_dir 1 "/home/u/w.iso")
                [Obs (Getenv "RUFUX_TMPDIR") None; Obs (Getenv "TMPDIR") (Some "/roomy")] None)
    by (hnf; do 2 eexists; split; [reflexivity|]; hnf; do 2 eexists; split; [reflexivity|]; done).
  split; [exact H|]. apply (scratch_dir_unset 1 "/home/u/w.iso" _ _ H).
Defined.

(** with RUFUX_TMPDIR set the candidates are tried in turn, and the directory
    that is made is in one with the room that is needed *)
Lemma scratch_dir_room need src t s :
  exec (scratch_dir need src) t (Some s) ->
  exists dir room, In (Obs (Statvfs dir) (Some room)) t /\ need <= room /\
    In (Obs (Mkdtemp (snprintf 512 (dir +:+ "/rufux-wim-XXXXXX"))) (Some s)) t.
Proof.
  intros (e1 & t1 & -> & H). destruct H as (e2 & t2 & -> & H). cbn [bind] in H.
  revert t2 H. generalize (until_null [e1; e2; src_directory src; Some "/var/tmp"; Some "/tmp"; None]).
  intros l; induction l as [|d l IH]; intros t2 H; [by destruct H|].
  cbn [first_io] in H. apply exec_bind in H as (t3 & [s'|] & t4 & -> & H & H2).
  - destruct H2 as [-> [= ->]]. rewrite app_nil_r. unfold try_scratch in H.
    destruct (String.eqb d ""); [by destruct H|].
    destruct H as ([room|] & t5 & -> & H); [|by destruct H]. cbn [bind] in H.
    destruct (Z.ltb_spec room need); [by destruct H|].
    destruct H as (x & t6 & -> & -> & ->). exists d, room. cbn. auto 10.
  - destruct (IH t4) as (dir & room & Hin & ? & Hin2).
    + exact H2.
    + exists dir, room. destruct Hin as [?|[?|?]], Hin2 as [?|[?|?]]; try discriminate;
        repeat split; try done; right; right; apply in_or_app; auto.
Qed.

(** * Splitting install.wim *)
(** the wimlib run that writes install.swm and its parts *)
Definition wim_written (dest : string) (split_mb : Z) (t : list obs) : Prop :=
  exists wim, In (Obs (Spawn ["wimlib-imagex"; "split"; wim;
                             snprintf 1400 (snprintf 1300 (dest +:+ "/sources") +:+ "/install.swm");
                             snprintf 16 (dec split_mb)] None) (Exited 0)) t.
(** the archive member was listed and is small enough for FAT32 *)
Definition fits (fuel : nat) (src name : string) (t : list obs) : Prop :=
  exists t1 tl n t2, t = t1 ++ tl ++ t2 /\ exec (archive_file_size fuel src name) tl n /\ n <= FAT_MAX.

Lemma wim_written_app dest mb t u v : wim_written dest mb t -> wim_written dest mb (u ++ t ++ v).
Proof. intros [w H]. exists w. rewrite !in_app_iff. auto. Qed.
Lemma fits_app fuel src name t u v : fits fuel src name t -> fits fuel src name (u ++ t ++ v).
Proof.
  intros (t1 & tl & n & t2 & -> & H). exists (u ++ t1), tl, n, (t2 ++ v). by rewrite <- !app_assoc.
Qed.
Lemma wim_split_ok wim part mb t :
  exec (wim_split wim part mb) t (Ok tt) ->
  In (Obs (Spawn ["wimlib-imagex"; "split"; wim; part; snprintf 16 (dec mb)] None) (Exited 0)) t.
Proof.
  intros (t1 & [|] & t2 & -> & H%rufux_run_inv & H2)%exec_bind; [|by destruct H2].
  destruct H as (w & -> & H). symmetry in H. apply exited_ok_inv in H as ->. cbn. auto.
Qed.

(** images mounted, and unmounts *)
Definition ran (tool : string) (ok_ : wstatus -> bool) (o : obs) : bool :=
  match o with
  | Obs e x =>
      match e in ev X return X -> bool with
      | Spawn (c :: _) _ => fun x => String.eqb c tool && ok_ x
      | _ => fun _ => false
      end x
  end.
Definition mounts (t : list obs) : nat := length (List.filter (ran "mount" exited_ok) t).
Definition unmounts (t : list obs) : nat := length (List.filter (ran "umount" (fun _ => true)) t).
Lemma mounts_app t u : mounts (t ++ u) = (mounts t + mounts u)%nat.
Proof. unfold mounts. by rewrite List.filter_app, length_app. Qed.
Lemma unmounts_app t u : unmounts (t ++ u) = (unmounts t + unmounts u)%nat.
Proof. unfold unmounts. by rewrite List.filter_app, length_app. Qed.
Lemma resolve_ci_quiet root rel cap t o :
  exec (resolve_ci root rel cap) t o -> mounts t = 0%nat /\ unmounts t = 0%nat.
Proof.
  intros H. apply (always_exec (fun X e => match e with Spawn _ _ => False | _ => True end)) in H.
  - induction H as [|[X e x] t Ho Ht [IH1 IH2]]; [done|]. unfold mounts, unmounts in *. cbn.
    destruct e; cbn in *; auto; done.
  - clear. unfold resolve_ci, resolve_seg. always_tac; done.
Qed.

(** the mounted image is unmounted on every way out *)
Lemma split_mounted_spec src part mb t b :
  exec (split_mounted src part mb) t b ->
  mounts t = unmounts t /\
  (b = true -> exists wim,
     In (Obs (Spawn ["wimlib-imagex"; "split"; wim; part; snprintf 16 (dec mb)] None) (Exited 0)) t).
Proof.
  unfold split_mounted. intros (t1 & m & t2 & -> & Hm & H)%exec_bind.
  unfold iso_mount_ro in Hm. destruct Hm as ([mnt|] & t3 & -> & Hm); cbn [bind] in Hm.
  2:{ destruct Hm as [-> ->]. by destruct H as [-> ->]. }
  apply exec_bind in Hm as (t4 & d & t5 & -> & (w & -> & ->)%rufux_run_inv & Hm).
  destruct (exited_ok w) eqn:Ew.
  2:{ destruct Hm as (? & t6 & -> & Hm). destruct Hm as [-> ->]. destruct H as [-> ->].
      unfold mounts, unmounts. cbn. by rewrite Ew. }
  destruct Hm as [-> ->]. apply exec_bind in H as (t7 & f & t8 & -> & [Hq1 Hq2]%resolve_ci_quiet & H).
  apply exec_bind in H as (t9 & r & t10 & -> & Hr & H).
  apply exec_bind in H as (t11 & [] & t12 & -> & Hu & [-> ->]).
  apply exec_bind in Hu as (t13 & d & t14 & -> & (w2 & -> & _)%rufux_run_inv & Hu).
  destruct Hu as (? & t15 & -> & [-> _]).
  rewrite !mounts_app, !unmounts_app. unfold mounts at 1 3 4, unmounts at 1 3 4. cbn. rewrite Ew, Hq1, Hq2.
  destruct f as [wim|]; [|by destruct Hr as [-> ->]].
  destruct Hr as ([] & t16 & -> & Hr). cbn [bind] in Hr.
  apply exec_bind in Hr as (t17 & s & t18 & -> & Hs & [-> ->]).
  split.
  - unfold wim_split in Hs. apply exec_bind in Hs as (t19 & d2 & t20 & -> & (w3 & -> & ->)%rufux_run_inv & Hs).
    by destruct (exited_ok w3); destruct Hs as [-> _].
  - intros Hok. destruct s as [[]|m]; [|done]. apply wim_split_ok in Hs. exists wim.
    rewrite !in_app_iff. cbn. rewrite !in_app_iff. auto 10.
Qed.
Lemma split_copied_ok fuel point src part mb wim total prog t :
  exec (split_copied fuel point src part mb wim total prog) t (Ok tt) ->
  exists w, In (Obs (Spawn ["wimlib-imagex"; "split"; w; part; snprintf 16 (dec mb)] None) (Exited 0)) t.
Proof.
  unfold split_copied. cbv zeta. intros (t1 & [s|] & t2 & -> & _ & H)%exec_bind; [|by destruct H].
  apply exec_bind in H as (t3 & r & t4 & -> & _ & H).
  apply exec_bind in H as (t5 & rc & t6 & -> & Hw & H).
  apply exec_bind in H as (t7 & d & t8 & -> & _ & [-> <-]).
  destruct r as [got|m]; [|by destruct Hw].
  apply wim_split_ok in Hw. eexists. rewrite !in_app_iff. eauto.
Qed.
Lemma split_phases_ok fuel point src dest mb wim total prog t :
  exec (split_phases fuel point src dest mb wim total prog) t (Ok tt) -> wim_written dest mb t.
Proof.
  unfold split_phases. cbv zeta. intros (t1 & [] & t2 & -> & _ & H)%exec_try.
  apply exec_try in H as (t3 & got & t4 & -> & _ & H).
  apply exec_try in H as (t5 & [] & t6 & -> & _ & H).
  apply exec_bind in H as (t7 & b & t8 & -> & [_ Hm]%split_mounted_spec & H).
  apply exec_try in H as (t9 & [] & t10 & -> & Hc & _).
  destruct b; [destruct (Hm eq_refl) as [w Hw]|apply split_copied_ok in Hc as [w Hw]];
    exists w; rewrite !in_app_iff; auto 10.
Qed.


(** tools that all succeed, an image with a 6 GiB install.wim *)
Definition listing_6gib : list byte := bytes_of_string (LF +:+ "Size = 6442450944" +:+ LF).
Definition splitting : handler (list string * nat) := fun X e w =>
  match e in ev X return X * (list string * nat) with
  | Stat p => (Some (if String.eqb p "out" then Stat_ KDir 0 0 0 else Stat_ KReg (7 * 2 ^ 30) 0 0), w)
  | Access _ _ => (true, w)
  | PipeSpawn av => (Some 3, (av, 0%nat))
  | PipeRead _ _ => (if (w.2 =? 0)%nat && String.eqb (List.last w.1 "") "sources/install.wim" then listing_6gib else [], (w.1, 1%nat))
  | Mkdtemp p => (Some p, w)
  | Fork _ => (Some 7, w)
  | Opendir p => (Some (if String.eqb p "/tmp/rufux-iso-XXXXXX" then ["SOURCES"] else ["boot.wim"; "Install.WIM"]), w)
  | e => (default_answer e, w)
  end.
