(* ===== verification/Dosboot.v ===== *)
(** src/src/linux/dosboot.c: FreeDOS and NTFS boot records, and the FreeDOS
    files. The boot code is the data of src/src/ms-sys/inc. *)
From S2P Require Import Prelude Cstr Sys Exec.

(** * Boot code *)
(** pairs of hex digits; line breaks in the text do not count *)
Fixpoint hex_nibbles (s : string) : list Z :=
  match s with
  | "" => []
  | String c t => match hexval c with Some v => v :: hex_nibbles t | None => hex_nibbles t end
  end.
Fixpoint pair_nibbles (l : list Z) : list byte :=
  match l with a :: b :: t => b8 (16 * a + b) :: pair_nibbles t | _ => [] end.
Definition of_hex (s : string) : list byte := pair_nibbles (hex_nibbles s).

Definition br_fat32_0x0 : list byte := of_hex "eb58904d5357494e342e31".
Definition br_fat32_0x52 : list byte := of_hex "4641543332202020fcfa29c08ed8bd007cb8e01f8ec089ee89efb90001f3a5ea7a7ce01f000060008ed88ed08d66e0fb8856
   40bec17de8f4006631c0668946448b460e6603461c668946486689464c668b461066f76e246601464cb800023b460b740801
   c0ff06347debf3668b462c6650e89400724dc45e76e8b70031ffb90b00bef17df3a6741583c72083e7e03b7e0b75eb4a75e0
   6658e83400ebd226ff750926ff750f665829db6650e85a00720de880004a75fa6658e81400ebec8a5e40ff6e76beee7de864
   0030e4cd16cd1906575389c7c1e702508b460b4821c75866c1e80766034648bb00208ec329db663b4644740766894644e838
   00268065030f26668b055b5f07c3663df8ffff0f731566486648660fb6560d665266f7e2665a6603464cc3f9c331dbb40ecd
   10ac3c0075f5c3525657665089e76a006a00665006536a016a1089e68a5640b442cd1389fc665873085030e4cd1358ebd966
   40035e0b73078cc280c6108ec25f5e5ac34c6f6164696e672046726565444f53200000000000000000000000000000000000
   0000000000000000000000004e6f204b45524e454c2020535953000055aa5252614100000000000000000000000000000000
   0000000000000000000000000000000000000000000000000000000000000000000000000000000000000000000000000000
   0000000000000000000000000000000000000000000000000000000000000000000000000000000000000000000000000000
   0000000000000000000000000000000000000000000000000000000000000000000000000000000000000000000000000000
   0000000000000000000000000000000000000000000000000000000000000000000000000000000000000000000000000000
   0000000000000000000000000000000000000000000000000000000000000000000000000000000000000000000000000000
   0000000000000000000000000000000000000000000000000000000000000000000000000000000000000000000000000000
   0000000000000000000000000000000000000000000000000000000000000000000000000000000000000000000000000000
   0000000000000000000000000000000000000000000000000000000000000000000000000000000000000000000000000000
   0000000000000000000000000000000000000000000000000000000000000000000000000000000000000000000000000000
   000000000000000000000000000072724161".
Definition br_fat32_0x3f0 : list byte := of_hex "000000000000000000000000000055aa00000000000000000000000000000000000000000000000000000000000000000000
   0000000000000000000000000000000000000000000000000000000000000000000000000000000000000000000000000000
   0000000000000000000000000000000000000000000000000000000000000000000000000000000000000000000000000000
   0000000000000000000000000000000000000000000000000000000000000000000000000000000000000000000000000000
   0000000000000000000000000000000000000000000000000000000000000000000000000000000000000000000000000000
   0000000000000000000000000000000000000000000000000000000000000000000000000000000000000000000000000000
   0000000000000000000000000000000000000000000000000000000000000000000000000000000000000000000000000000
   0000000000000000000000000000000000000000000000000000000000000000000000000000000000000000000000000000
   0000000000000000000000000000000000000000000000000000000000000000000000000000000000000000000000000000
   0000000000000000000000000000000000000000000000000000000000000000000000000000000000000000000000000000
   000000000000000000000000000000000000000000000000000055aa".
Definition br_ntfs_0x0 : list byte := of_hex "eb52904e54465320202020".
Definition br_ntfs_0x54 : list byte := of_hex "fa33c08ed0bc007cfb68c0071f1e686600cb88160e0066813e03004e5446537515b441bbaa55cd13720c81fb55aa7506f7c1
   01007503e9dd001e83ec18681a00b4488a160e008bf4161fcd139f83c4189e581f72e13b060b0075dba30f00c12e0f00041e
   5a33dbb900202bc866ff06110003160f008ec2ff061600e84b002bc877efb800bbcd1a6623c0752d6681fb54435041752481
   f90201721e166807bb1668700e1668090066536653665516161668b80166610e07cd1a33c0bf2810b9d80ffcf3aae95f0190
   9066601e0666a111006603061c001e66680000000066500653680100681000b4428a160e00161f8bf4cd1366595b5a665966
   591f0f82160066ff06110003160f008ec2ff0e160075bc071f6661c3a0f801e80900a0fb01e80300f4ebfdb4018bf0ac3c00
   7409b40ebb0700cd10ebf2c30d0a41206469736b2072656164206572726f72206f63637572726564000d0a424f4f544d4752
   206973206d697373696e67000d0a424f4f544d475220697320636f6d70726573736564000d0a5072657373204374726c2b41
   6c742b44656c20746f20726573746172740d0a008ca9bed6000055aa070042004f004f0054004d0047005200040024004900
   3300300000d40000002400000000000000000000000000000000000000000000000000000000000000000000000000000000
   0000000000000000000000000000eb22909005004e0054004c00440052000000000000000000000000000000000000000000
   660fb7060b00660fb61e0d0066f7e366a35202668b0e400080f9000f8f0e00f6d966b80100000066d3e0eb089066a1520266
   f7e166a36602660fb71e0b006633d266f7f366a35602e89504668b0e4e0266890e260266030e660266890e2a0266030e6602
   66890e2e0266030e660266890e3e0266030e660266890e460266b890000000668b0e2602e88309660bc00f845efe66a33202
   66b8a0000000668b0e2a02e86a0966a3360266b8b0000000668b0e2e02e8580966a33a0266a13202660bc00f842bfe678078
   08000f8522fe67668d50106703420467660fb6480c66890e720267668b480866890e6e0266a16e02660fb70e0b006633d266
   f7f166a3760266a146026603066e0266a34a0266833e3602000f841d0066833e3a02000f84cffd668b1e3a021e07668b3e4a
   0266a12e02e8e001660fb70e000266b802020000e82208660bc00f851600660fb70e5a0266b85c020000e80c08660bc00f84
   420c67668b001e07668b3e3e02e83f0666a13e0266bb2000000066b90000000066ba00000000e8e4006685c00f85230066a1
   3e0266bb8000000066b90000000066ba00000000e8c400660bc00f854400e9f10b6633d266b98000000066a13e02e8ca0866
   0bc00f84da0b1e07668b3e3e02e8db0566a13e0266bb8000000066b90000000066ba00000000e88000660bc00f84b00b6766
   0fb7580c6681e3ff0000000f85a50b668bd868002007662bff66a13e02e8000168002007662bff66a13e02e8ac0a8a160e00
   b8e8038ec08d360b002bc068002050cb061e6660668bda660fb60e0d0066f7e166a31100668bc366f7e1a316008bdf83e30f
   8cc066c1ef0403c75007e83efc6661901f07c36703401467668338ff0f844c00676639180f853300660bc90f850a00678078
   09000f852300c3673a48090f851a00668bf06703700ae8970666511e07668bfaf3a766590f850100c36766837804000f8407
   006766034004ebab662bc0c3668bf3e86c066766030067f7400c02000f85340067668d5010673a4a400f85180067668d7242
   e8490666511e07668bfbf3a766590f850100c367837808000f84060067034008ebc26633c0c367807b08000f851c00061e66
   6067668d531067668b0a668bf367037204f3a46661901f07c3665067668d53106685c00f850a0067668b4a086641eb119067
   668b42186633d266f7365202668bc8662bc0665ee80100c3061e666067807b08010f840300e976fb6683f9000f8506006661
   901f07c36653665066516656665706e89104668bd107665f665e66596685c00f843400663bca0f8d0300668bd1e882fe662b
   ca668bda668bc2660fb6160d0066f7e2660fb7160b0066f7e26603f866586603c3665beb9f6685f60f840efb665166570667
   660fb643096685c00f84200066d1e0662be0668bfc6654665667660fb7730a6603f3668bc8f3a4665eeb0390665066506766
   8b03665067668b4318665067668b56206685d20f840b00668bfe1e07668bc2e87103668bc6665a6659664266516656e83f06
   6685c00f849dfa665e6659668bfe1e07e84e03668bc6668bd96659665a6651665666d1e9e8f8fd6685c00f8476fa665e6659
   6603e107665f6659668bd06658665b668bdae9f5fe061e66602667660fb75f042667660fb74f06660bc90f8444fa6603df66
   83c3026681c7fe0100006649660bc90f84170026678b03266789076683c3026681c7000200006649ebe26661901f07c3061e
   666066b80100000066a3220266a11e02660306660266a36a02660306660266a34e0266a13000660fb61e0d0066f7e3668b1e
   4e0266890766a3110083c30466a15602668907a3160083c30466891e4e02668b1e1e021e07e867f9668bfbe851ff66a11e02
   66bb2000000066b90000000066ba00000000e810fd660bc00f841901668bd81e07668b3e1a026633c0e8a2fd668b1e1a0266
   813f800000000f84eb00035f04ebf06653668b471066f726560266506633d2660fb61e0d0066f7f36652e8dc00660bc00f84
   44f9668b0e5602660fb61e0d0066f7e3665a6603c2668b1e4e0266890783c304660fb6060d00662bc2663bc10f860300668b
   c1668907662bc8665a0f8475006603c266506633d2660fb61e0d0066f7f36651e882006659660bc00f84e8f8660fb61e0d00
   66f7e3668b1e4e02668b1783c304660317663bd00f851500660fb6060d00663bc10f860300668bc1660107eba583c3046689
   1e4e0266890783c304660fb6060d00663bc10f860300668bc1668907eb8283c30466ff06220266891e4e02665b035f046681
   3f800000000f840cff6661901f07c3668bd0668b0e2202668b366a026603366602665266516652668b1e6a02668b3e560266
   8b0466a3110083c604668b04a3160083c6041e07e8e8f7662bf80f840800f7260b0003d8ebd9668b3e6a021e07e8bffd66a1
   6a0266bb8000000066b900000000668bd1e881fb660bc00f84fff7668bd866586656e82c01665e660bc00f840500665b665b
   c36659665ae2846633c0c3061e6660665066516633d2660fb61e0d0066f7f366526657e853ff665f660bc00f84b9f7660fb6
   1e0d0066f7e3665a6603c266a311006659660fb61e0d00663bcb0f8e1300891e1600662bcb66586603c366506651eb149066
   586603c16650890e160066b90000000066510666578bdf83e30f8cc066c1ef0403c75007e810f7665f0766033e5202665966
   586683f9000f8f70ff6661901f07c3061e666066f7265602668b0e5602e855ffe8d2fc6661901f07c3061e666066f7267202
   668b1e3602668b0e7202668b362a021e07668b3e4602e881fbe8a7fc6661901f07c3665066536651668b1e4a02668bc866c1
   e8036683e1076603d866b80100000066d3e06784030f840400f8eb0290f96659665b6658c367807b08010f840400662bc0c3
   67668d731067668b5608663bc20f870b0067668b16663bc20f830400662bc0c367035e10662bf667803b000f843e00e88100
   6603f1e839006603ca663bc10f8c2100668bd1665067660fb60b668bc16683e00f66c1e9046603d96603d866436658ebc466
   2bc8662bc26603c6c3662bc0c3662bc9678a0b80e10f6683f9000f850400662bc9c3665366526603d967660fbe136649664b
   6683f9000f840d0066c1e208678a13664b6649ebeb668bca665a665bc366536652662bd2678a136683e20f662bc9678a0bc0
   e9046683f9000f850800662bc9665a665bc36603da6603d967660fbe136649664b6683f9000f840d0066c1e208678a13664b
   6649ebeb668bca665a665bc3660bc90f850100c36651665667833e610f8c0c0067833e7a0f8f040067832e206683c602e2e6
   665e6659c366506651668bd066a1320267668d58106703430467668d4010668bdae844f9660bc00f84050066596659c366a1
   3602660bc00f850800665966596633c0c3668b16360267668d521067668b42186633d266f7366e026633f666506656665866
   5e663bc60f843a006656664066506648e81bfe72e8e8ebfd665a665e6659665b665366516656665266a1460267668d4018e8
   d0f8660bc074c46659665966596659c3665966596633c0c36651665066b8050000001e07668bf9e88dfd668bc166bb200000
   0066b90000000066ba00000000e833f8665b66596685c00f851500668bc1660fb70e100266ba12020000e816f8eb33906633
   d2668bc1668bcb66506653e82300665b665f660bc00f8417001e07e835fd668bc7660fb70e100266ba12020000e8e1f7c366
   52665166bb2000000066b90000000066ba00000000e8c7f7660bc00f846300668bd81e07668b3e1a026633c0e859f81e0766
   8b1e1a026659665a2666390f0f850c0026663957080f843100eb13902666833fff0f842f0026837f04000f84260026660fb7
   470403d88bc325008074cb8cc00500088ec081e3ff7febbe26668b4710c36659665a6633c0c366506651668bc766c1e80406
   5903c851076683e70f66596658c36006bebd0dbf00201e07b90d0090f3a50761c30123456789abcdeffedcba9876543210f0
   e1d2c3000000002020608b361820268a058804474666ff06142081fe60207506e85b00be2020e2e68936182061c366608b36
   1820b08088044632c081fe60207506e83a00be202081fe582075e96633c066a3582066a1142066c1e003660fc866a35c20e8
   1800bb0020668b07660fc866890783c30481fb342075ee6661c36660bb2020668b07660fc866890783c30481fb602075eebb
   0020668b0f668b5704668b7708668b7f0c668b6f10bb2020c7061a20300fc6061c201490538b1e1a20ff17660347025b6603
   e866032f668bc166c1c0056603c5668bef668bfe668bf266c1c61e668bd1668bc8668b0766334708663347206633473466d1
   c06689474083c304fe0e1c2075b283061a2006813e1a20480f759fbb002066010f660157046601770866017f0c66016f1066
   61c3668bc66633c76623c26633c7c3668bc26633c66633c7c36653668bc26623c6668bda6623df660bc3668bde6623df660b
   c3665bc3fc0e9979825a090fa1ebd96e130fdcbc1b8f090fd6c162ca061e66606633dbb800bbcd1a6623c00f85bb006681fb
   544350410f85b00081f902010f82a8006661901f07061e666067807b08000f850c0067668d531067668b0aeb259067668d53
   1067668b4a286681f9000008000f830c0067668b422c6623c00f8403006633c90e1fe8f5fd6623c90f84320066ba00800000
   663bca0f861f00662bca06665166576652668bcae8b7fde8fbfd665a665f6659076603faebdae8a5fde8e9fde80bfe0e0766
   bb5443504166bf0020000066b91400000066b807bb000066ba0a0000006633f6cd1a6661901f07c3a0f901e94bf1a0fa01e9
   45f1".
Definition mbr_dos_0x0 : list byte := of_hex "fa33c08ed0bc007c8bf45007501ffbfcbf0006b90001f3a5ea1d060000bebe07b304803c80740e803c00751c83c610fecb75
   efcd188b148b4c028bee83c610fecb741a803c0074f4be8b06ac3c00740b56bb0700b40ecd105eebf0ebfebf0500bb007cb8
   010257cd135f730c33c0cd134f75edbea306ebd3bec206bffe7d813d55aa75c78bf5ea007c0000496e76616c696420706172
   746974696f6e207461626c65004572726f72206c6f6164696e67206f7065726174696e672073797374656d004d697373696e
   67206f7065726174696e672073797374656d0000000000000000000000000000000000000000000000000000000000000000
   0000000000000000000000000000000000000000000000000000000000000000000000000000000000000000000000000000
   0000000000000000000000000000000000000000000000000000000000000000000000000000000000000000000000000000
   0000000000000000000000000000000000000000000000000000000000000000000000000000000000000000000000000000
   00000000000000000000000000000000000000000000000000000000000000000000000000000000".

(** * Writing *)
Definition blob_write (f off : Z) (blob : list byte) (what : string) : io (cres unit) :=
  s <- call (Fseek f off) ;;
  if negb s then fail ("seek failed writing " +:+ what)
  else
    w <- call (Fwrite f blob) ;;
    if negb w then fail ("write failed (" +:+ what +:+ ")") else ok tt.
(** blobs in order, until one fails *)
Fixpoint blobs_write (f : Z) (l : list (Z * list byte * string)) : io (cres unit) :=
  match l with
  | [] => ok tt
  | (off, blob, what) :: t => blob_write f off blob what ?;; blobs_write f t
  end.
(** open, write, flush, close: a failing flush is a failure without a message *)
Definition on_device (dev : string) (body : Z -> io (cres unit)) : io (cres unit) :=
  f <- call (Fopen dev "r+b") ;;
  match f with
  | inl e => fail ("cannot open '" +:+ dev +:+ "': " +:+ strerror e)
  | inr f =>
      rc <- body f ;;
      fl <- call (Fflush f) ;;
      call (Fclose f) ;;;
      if (fl : bool) then Ret rc else match rc with Fail m => fail m | Ok _ => fail "" end
  end.

(** eleven bytes, upper case, padded with spaces *)
Definition label_bytes (label : string) : list byte :=
  let l := bytes_of_string (smap toupper (stake 11 label)) in l ++ replicate (11 - length l) Byte.x20.
Definition fd32_blobs (base : Z) (label : string) : list (Z * list byte * string) :=
  [(base, br_fat32_0x0, "pbr head"); (base + 0x47, label_bytes label, "pbr label");
   (base + 0x52, br_fat32_0x52, "pbr code"); (base + 0x3f0, br_fat32_0x3f0, "pbr tail")].
Definition rufux_dos_pbr_fd32 (dev : string) (base : Z) (label : string) : io (cres unit) :=
  on_device dev (fun f => blobs_write f (fd32_blobs base label)).
Definition rufux_dos_mbr (disk : string) : io (cres unit) :=
  on_device disk (fun f => blob_write f 0 (ztake 440 mbr_dos_0x0) "dos mbr").
Definition ntfs_blobs (base : Z) : list (Z * list byte * string) :=
  [(base, br_ntfs_0x0, "ntfs pbr head"); (base + 0x54, br_ntfs_0x54, "ntfs pbr code")].
Definition rufux_ntfs_pbr (dev : string) (base : Z) : io (cres unit) :=
  on_device dev (fun f => blobs_write f (ntfs_blobs base)).

(** * The FreeDOS files *)
Definition opens (dir : string) : io bool := d <- call (Opendir dir) ;; Ret (bool_decide (is_Some d)).
Definition if_opens (dir : string) : io (option string) := d <- opens dir ;; Ret (if d : bool then Some dir else None).
Definition CANDS : list string := ["res/freedos"; "/usr/share/rufux/freedos"; "/usr/local/share/rufux/freedos"].
Definition rufux_freedos_dir : io (option string) :=
  env <- call (Getenv "RUFUX_RES") ;;
  o <- (match env with
        | Some (String c t) => if_opens (snprintf 1024 (String c t +:+ "/freedos"))
        | _ => Ret None
        end) ;;
  match o with
  | Some p => Ret (Some p)
  | None =>
      exedir <- rufux_exe_dir ;;
      p <- (if String.eqb exedir "" then Ret None
            else if_opens (snprintf 1152 (exedir +:+ "/../share/rufux/freedos"))) ;;
      match p with
      | Some p => Ret (Some (snprintf 1024 p))
      | None => first_io if_opens CANDS
      end
  end.

Definition FIRST : list string := ["KERNEL.SYS"; "COMMAND.COM"].
Definition in_dir (dir name : string) : string := snprintf 1152 (dir +:+ "/" +:+ name).
Definition cp_argv (srcdir destdir name : string) : list string := ["cp"; "--"; in_dir srcdir name; in_dir destdir name].
Definition copy_one (srcdir destdir name : string) : io (cres unit) :=
  r <- rufux_run (cp_argv srcdir destdir name) false ;;
  if (r : bool) then ok tt else fail ("copy failed for " +:+ name).
Fixpoint copy_all (srcdir destdir : string) (names : list string) : io (cres unit) :=
  match names with
  | [] => ok tt
  | n :: t => copy_one srcdir destdir n ?;; copy_all srcdir destdir t
  end.
Fixpoint copy_first (srcdir destdir : string) (names : list string) : io (cres unit) :=
  match names with
  | [] => ok tt
  | n :: t =>
      a <- call (Access (in_dir srcdir n) R_OK) ;;
      if negb a then fail ("freedos payload lacks " +:+ n)
      else copy_one srcdir destdir n ?;; copy_first srcdir destdir t
  end.
Definition copied_later (name : string) : bool :=
  negb (starts_with "." name) && negb (String.eqb name "KERNEL.SYS")
  && negb (String.eqb name "COMMAND.COM") && negb (String.eqb name "readme.txt").
Definition rufux_dos_copy_files (srcdir destdir : string) : io (cres unit) :=
  d <- call (Opendir srcdir) ;;
  match d with
  | None => fail ("freedos dir '" +:+ srcdir +:+ "' missing")
  | Some names =>
      copy_first srcdir destdir FIRST ?;;
      copy_all srcdir destdir (List.filter copied_later names)
  end.

(** * Correctness *)
Lemma blob_sizes :
  zlen br_fat32_0x0 = 11 /\ zlen br_fat32_0x52 = 918 /\ zlen br_fat32_0x3f0 = 528 /\
  zlen br_ntfs_0x0 = 11 /\ zlen br_ntfs_0x54 = 4052 /\ zlen mbr_dos_0x0 = 440.
Proof. split_and!; vm_compute; reflexivity. Qed.
Lemma zlen_label_bytes label : zlen (label_bytes label) = 11.
Proof.
  unfold label_bytes. rewrite zlen_app, zlen_replicate. unfold zlen.
  assert (H : length (bytes_of_string (smap toupper (stake 11 label))) = String.length (stake 11 label)).
  { rewrite <- (slength_smap toupper). generalize (smap toupper (stake 11 label)). intros s. induction s; cbn; auto. }
  rewrite H, slength_stake. lia.
Qed.

(** where the bytes handed to fwrite go: the position of the stream is moved by
    fseek and by the writes *)
Definition place (h : Z) (st : Z * list (Z * list byte)) (o : obs) : Z * list (Z * list byte) :=
  match o with
  | Obs e x =>
      match e with
      | Fseek h' off => if h' =? h then (off, st.2) else st
      | Fwrite h' b => if h' =? h then (st.1 + zlen b, st.2 ++ [(st.1, b)]) else st
      | _ => st
      end
  end.
Definition placed (h : Z) (t : list obs) : list (Z * list byte) := (fold_left (place h) t (0, [])).2.

Lemma place_acc h t p l : (fold_left (place h) t (p, l)).2 = l ++ (fold_left (place h) t (p, [])).2.
Proof.
  revert p l; induction t as [|[X e x] t IH]; intros p l; cbn [fold_left]; [by rewrite app_nil_r|].
  destruct e; cbn [place]; try apply IH.
  - destruct (_ =? h); apply IH.
  - destruct (_ =? h); [|apply IH]. cbn [fst snd app]. rewrite IH. symmetry. rewrite IH. by rewrite app_assoc.
Qed.
Lemma blob_write_inv f off blob what p t r :
  exec (blob_write f off blob what) t r ->
  (exists q, fold_left (place f) t (p, []) = (q, [(off, blob)])) \/
  (exists q, fold_left (place f) t (p, []) = (q, []) /\ is_ok r = false).
Proof.
  intros (s & t1 & -> & H). cbn [bind] in H. destruct s; cbn [negb] in H.
  - destruct H as (w & t2 & -> & H). left. cbn. rewrite !Z.eqb_refl. cbn.
    destruct w; destruct H as [-> _]; eauto.
  - destruct H as [-> ->]. right. cbn. rewrite Z.eqb_refl. eauto.
Qed.
(** a prefix of the blobs is placed, and all of them on success *)
Lemma blobs_write_inv f l p t r :
  exec (blobs_write f l) t r ->
  exists n, (fold_left (place f) t (p, [])).2 = take n (map fst l) /\ (is_ok r = true -> (length l <= n)%nat).
Proof.
  revert p t; induction l as [|[[off b] what] l IH]; intros p t; cbn [blobs_write].
  - intros [-> ->]. by exists 0%nat.
  - intros (t1 & r1 & t2 & -> & H1 & H)%exec_bind. rewrite fold_left_app.
    apply (blob_write_inv f off b what p) in H1 as [[q ->]|(q & -> & Hr)].
    + destruct r1 as [[]|m].
      * destruct (IH q t2 H) as (n & E & Hn). exists (S n). rewrite place_acc, E. split; [done|]. cbn. intros ?%Hn. lia.
      * destruct H as [-> ->]. by exists 1%nat.
    + destruct r1; [done|]. destruct H as [-> ->]. by exists 0%nat.
Qed.
Lemma on_device_inv dev body h t r :
  exec (on_device dev body) (Obs (Fopen dev "r+b") (inr h) :: t) r ->
  exists t1 r1 t2, t = t1 ++ t2 /\ exec (body h) t1 r1 /\ (is_ok r = true -> is_ok r1 = true) /\
    forall st, fold_left (place h) t2 st = st.
Proof.
  intros (x & t0 & E & H).
  apply obs_inj in E as [<- <-]. cbn [bind] in H.
  apply exec_bind in H as (t1 & r1 & t2 & -> & H1 & H).
  destruct H as (fl & t3 & -> & H). cbn [bind] in H. destruct H as (c & t4 & -> & H). cbn [bind] in H.
  exists t1, r1, (Obs (Fflush h) fl :: Obs (Fclose h) c :: t4). split; [done|].
  assert (t4 = [] /\ (is_ok r = true -> is_ok r1 = true)) as [-> Hr].
  { destruct fl; [|destruct r1]; by destruct H as [-> ->]. }
  done.
Qed.

(** the stores of a device opened for a boot record *)
Lemma on_device_placed dev body h t r (l : list (Z * list byte)) :
  exec (on_device dev body) (Obs (Fopen dev "r+b") (inr h) :: t) r ->
  (forall t1 r1, exec (body h) t1 r1 ->
     exists n, placed h t1 = take n l /\ (is_ok r1 = true -> (length l <= n)%nat)) ->
  (is_ok r = true -> placed h t = l) /\ (forall c, In c (placed h t) -> In c l).
Proof.
  intros (t1 & r1 & t2 & -> & H1 & Hr & Hn)%on_device_inv Hb.
  destruct (Hb _ _ H1) as (n & E & Hl).
  assert (E2 : placed h (t1 ++ t2) = take n l).
  { unfold placed in *. rewrite fold_left_app. by rewrite Hn. }
  rewrite E2. split.
  - intros ?%Hr%Hl. by apply take_ge.
  - intros c Hc. rewrite <- (take_drop n l). apply in_or_app. by left.
Qed.

(** [i] is one of the bytes of a chunk *)
Definition covers (c : Z * list byte) (i : Z) : Prop := c.1 <= i < c.1 + zlen c.2.

(** Writing a FreeDOS boot record keeps what the formatter left in it. In
    every execution, failed ones included, the bytes handed to the device lie
    in the first three sectors of the partition, outside the BIOS parameter
    block (bytes 0x0b to 0x46) and the free cluster counts of the FSInfo
    sector (0x3e8 to 0x3ef); on success they are the jump and OEM name, the
    label in upper case padded to eleven bytes, the boot code and the second
    stage, each at its offset. *)
Theorem rufux_dos_pbr_fd32_correct dev base label h t r :
  exec (rufux_dos_pbr_fd32 dev base label) (Obs (Fopen dev "r+b") (inr h) :: t) r ->
  (is_ok r = true ->
     placed h t = [(base, br_fat32_0x0); (base + 0x47, label_bytes label);
                   (base + 0x52, br_fat32_0x52); (base + 0x3f0, br_fat32_0x3f0)]) /\
  (forall c i, In c (placed h t) -> covers c i ->
     base <= i < base + 3 * 512 /\ ~ base + 0x0b <= i < base + 0x47 /\ ~ base + 0x3e8 <= i < base + 0x3f0).
Proof.
  intros H. apply (on_device_placed _ _ _ _ _ (map fst (fd32_blobs base label))) in H as [H1 H2].
  - split; [done|]. intros c i Hc%H2. unfold covers.
    pose proof blob_sizes as (? & ? & ? & ? & ? & ?). pose proof (zlen_label_bytes label).
    cbn [fd32_blobs map fst In] in Hc. destruct Hc as [<-|[<-|[<-|[<-|[]]]]]; cbn [fst snd]; lia.
  - intros t1 r1 H'. apply (blobs_write_inv _ _ 0) in H'. by rewrite length_map.
Qed.
(** a device that takes every write *)
Definition writable : handler unit := fun X e w =>
  match e in ev X return X * unit with Fopen _ _ => (inr 5, w) | e => (default_answer e, w) end.
Lemma rufux_dos_pbr_fd32_correct_witness :
  exists t, placed 5 t = [(1048576, br_fat32_0x0); (1048576 + 0x47, label_bytes "Freedos");
                          (1048576 + 0x52, br_fat32_0x52); (1048576 + 0x3f0, br_fat32_0x3f0)].
Proof.
  eexists. apply (rufux_dos_pbr_fd32_correct "/dev/sdz1" 1048576 "Freedos" 5 _ (Ok tt)); [|reflexivity].
  eapply (run_exec writable _ tt). cbn -[br_fat32_0x0 br_fat32_0x52 br_fat32_0x3f0 label_bytes]. reflexivity.
Defined.

(** the NTFS boot record keeps the BIOS parameter block (0x0b to 0x53) *)
Lemma rufux_ntfs_pbr_correct dev base h t r :
  exec (rufux_ntfs_pbr dev base) (Obs (Fopen dev "r+b") (inr h) :: t) r ->
  (is_ok r = true -> placed h t = [(base, br_ntfs_0x0); (base + 0x54, br_ntfs_0x54)]) /\
  (forall c i, In c (placed h t) -> covers c i -> base <= i /\ ~ base + 0x0b <= i < base + 0x54).
Proof.
  intros H. apply (on_device_placed _ _ _ _ _ (map fst (ntfs_blobs base))) in H as [H1 H2].
  - split; [done|]. intros c i Hc%H2. unfold covers. pose proof blob_sizes as (? & ? & ? & ? & ? & ?).
    cbn [ntfs_blobs map fst In] in Hc. destruct Hc as [<-|[<-|[]]]; cbn [fst snd]; lia.
  - intros t1 r1 H'. apply (blobs_write_inv _ _ 0) in H'. by rewrite length_map.
Qed.
(** the DOS boot code keeps the disk signature and the partition table (440 on) *)
Lemma rufux_dos_mbr_correct disk h t r :
  exec (rufux_dos_mbr disk) (Obs (Fopen disk "r+b") (inr h) :: t) r ->
  (is_ok r = true -> placed h t = [(0, mbr_dos_0x0)]) /\
  (forall c i, In c (placed h t) -> covers c i -> 0 <= i < 440).
Proof.
  assert (Hm : ztake 440 mbr_dos_0x0 = mbr_dos_0x0) by (vm_compute; reflexivity).
  intros H. apply (on_device_placed _ _ _ _ _ [(0, mbr_dos_0x0)]) in H as [H1 H2].
  - split; [done|]. intros c i Hc%H2. unfold covers. pose proof blob_sizes as (? & ? & ? & ? & ? & ?).
    destruct Hc as [<-|[]]; cbn [fst snd]; lia.
  - intros t1 r1 H'. rewrite Hm in H'. apply (blob_write_inv _ _ _ _ 0) in H' as [[q H']|(q & H' & Hr)];
      unfold placed; rewrite H'; [by exists 1%nat|]. exists 0%nat. by rewrite Hr.
Qed.

(** the programs started, in order *)
Definition spawned (t : list obs) : list (list string) :=
  omap (fun o => match o with Obs e _ => match e with Spawn av _ => Some av | _ => None end end) t.
Lemma spawned_app t u : spawned (t ++ u) = spawned t ++ spawned u.
Proof. apply omap_app. Qed.
Lemma copy_one_inv s d n t r :
  exec (copy_one s d n) t r -> spawned t = [cp_argv s d n].
Proof.
  unfold copy_one, rufux_run. cbn. intros ([] & t1 & -> & w & t2 & -> & H).
  by destruct (exited_ok w); destruct H as [-> _].
Qed.
Lemma copy_all_inv s d l t r :
  exec (copy_all s d l) t r -> exists n, spawned t = take n (map (cp_argv s d) l) /\ (is_ok r = true -> (length l <= n)%nat).
Proof.
  revert t; induction l as [|x l IH]; cbn [copy_all]; intros t; [intros [-> ->]; by exists 0%nat|].
  intros (t1 & r1 & t2 & -> & H1%copy_one_inv & H)%exec_bind. rewrite spawned_app, H1.
  destruct r1 as [[]|m].
  - destruct (IH _ H) as (n & -> & Hn). exists (S n). split; [done|]. cbn. intros ?%Hn. lia.
  - destruct H as [-> ->]. by exists 1%nat.
Qed.
Lemma copy_first_inv s d l t r :
  exec (copy_first s d l) t r -> exists n, spawned t = take n (map (cp_argv s d) l) /\ (is_ok r = true -> (length l <= n)%nat).
Proof.
  revert t; induction l as [|x l IH]; cbn [copy_first]; intros t; [intros [-> ->]; by exists 0%nat|].
  intros (a & t0 & -> & H). cbn [bind] in H. change (spawned (_ :: t0)) with (spawned t0).
  destruct a; cbn [negb] in H; [|destruct H as [-> ->]; by exists 0%nat].
  apply exec_bind in H as (t1 & r1 & t2 & -> & H1%copy_one_inv & H). rewrite spawned_app, H1.
  destruct r1 as [[]|m].
  - destruct (IH _ H) as (n & -> & Hn). exists (S n). split; [done|]. cbn. intros ?%Hn. lia.
  - destruct H as [-> ->]. by exists 1%nat.
Qed.

(** The FreeDOS files go onto the drive in boot order: whatever order the
    directory lists them in, the copies that are started are a prefix of
    KERNEL.SYS, COMMAND.COM and then the other files (hidden files and the
    readme left out); on success they are all of them. *)
Theorem rufux_dos_copy_files_order s d names t r :
  exec (rufux_dos_copy_files s d) (Obs (Opendir s) (Some names) :: t) r ->
  exists n, spawned t = take n (map (cp_argv s d) (FIRST ++ List.filter copied_later names)) /\
    (is_ok r = true -> spawned t = map (cp_argv s d) (FIRST ++ List.filter copied_later names)).
Proof.
  intros (x & t0 & E & H).
  apply obs_inj in E as [<- <-].
  cbn [bind] in H. apply exec_bind in H as (t1 & r1 & t2 & -> & H1 & H).
  rewrite spawned_app, map_app.
  apply copy_first_inv in H1 as (n & E1 & Hn). rewrite E1. destruct r1 as [[]|m].
  - rewrite take_ge by (rewrite length_map; auto).
    apply copy_all_inv in H as (k & E2 & Hk). rewrite E2. exists (length FIRST + k)%nat. split.
    + rewrite take_app_add'; [done|by rewrite length_map].
    + intros ?%Hk. rewrite take_ge; [done|by rewrite length_map].
  - destruct H as [-> ->]. exists (Nat.min n 2). cbn [spawned omap list_omap]. rewrite app_nil_r. split; [|done].
    destruct n as [|[|n]]; cbn; by rewrite ?Nat.min_0_r, ?take_nil.
Qed.
Lemma rufux_dos_copy_files_order_witness :
  exists t, spawned t = map (cp_argv "res" "/mnt") ["KERNEL.SYS"; "COMMAND.COM"; "AUTOEXEC.BAT"].
Proof.
  set (names := [".."; "readme.txt"; "AUTOEXEC.BAT"; "COMMAND.COM"; "KERNEL.SYS"]).
  pose (hd := (fun X e (w : unit) => (match e in ev X return X with
                 Opendir _ => Some names | Access _ _ => true | e => default_answer e end, w)) : handler unit).
  assert (exists t, exec (rufux_dos_copy_files "res" "/mnt") (Obs (Opendir "res") (Some names) :: t) (Ok tt)) as [t H].
  { eexists. eapply (run_exec hd _ tt). vm_compute. reflexivity. }
  exists t. destruct (rufux_dos_copy_files_order "res" "/mnt" names t (Ok tt) H) as (n & _ & E). exact (E eq_refl).
Defined.
