(* ===== verification/Biosboot.v ===== *)
(** src/src/linux/biosboot.c: GRUB 2 as the legacy BIOS loader of Windows media,
    in the MBR gap or in the BIOS boot partition of a GPT. *)
From S2P Require Import Prelude Cstr Sys Exec.

Definition early_cfg : string :=
  qq ("search --file --no-floppy --set=root /bootmgr" +:+ LF +:+ "ntldr /bootmgr" +:+ LF +:+ "boot" +:+ LF
      +:+ "search --file --no-floppy --set=root /BOOTMGR" +:+ LF +:+ "ntldr /BOOTMGR" +:+ LF +:+ "boot" +:+ LF
      +:+ "echo 'Rufux: bootmgr was not found on this drive.'" +:+ LF +:+ "sleep 30" +:+ LF).
Definition modules : list string :=
  ["biosdisk"; "part_msdos"; "part_gpt"; "fat"; "ntfs"; "exfat"; "ntldr";
   "search"; "search_fs_file"; "echo"; "sleep"; "boot"].
Definition is_file (p : string) : io bool := st <- call (Stat p) ;; Ret (is_kind KReg st).

(** * Finding GRUB *)
Record Grub := Grub_ { moddir : string; mkimage : string; setup : string }.
Definition PATH_MAX : nat := 4096.

Definition find_exe (names dirs : list string) : io (option string) :=
  first_io (fun name =>
    h <- rufux_have name ;;
    if h then Ret (Some name)
    else
      first_io (fun dir =>
        let p := snprintf PATH_MAX (stake 2000 dir +:+ "/" +:+ stake 2000 name) in
        a <- call (Access p X_OK) ;; Ret (if a then Some p else None)) dirs) names.

(** the directories that may hold the modules *)
Definition module_dirs (exe_dir : string) (env : option string) : list string :=
  match env with
  | Some (String c t) => [stake 4000 (String c t)]
  | _ =>
      (if String.eqb exe_dir "" then [] else [snprintf PATH_MAX (stake 3900 exe_dir +:+ "/../lib/grub/i386-pc")])
      ++ ["/usr/lib/grub/i386-pc"; "/usr/lib/grub2/i386-pc"; "/usr/share/grub/i386-pc"]
  end.
Definition has_modules (dir : string) : io (option string) :=
  b <- is_file (stake 4000 dir +:+ "/boot.img") ;;
  if negb b then Ret None
  else k <- is_file (stake 4000 dir +:+ "/kernel.img") ;; Ret (if k : bool then Some dir else None).
Definition tool_dirs (moddir : string) : list string :=
  [stake 4000 moddir; stake 3900 moddir +:+ "/../../../bin"; stake 3900 moddir +:+ "/../../../sbin"; "/usr/sbin"; "/usr/bin"].
Definition locate : io (cres Grub) :=
  ed <- rufux_exe_dir ;;
  env <- call (Getenv "RUFUX_GRUB_DIR") ;;
  m <- first_io has_modules (module_dirs ed env) ;;
  match m with
  | None | Some "" => fail "the GRUB 2 BIOS modules are not installed (package grub-pc-bin / grub2-pc)"
  | Some m =>
      mk <- find_exe ["grub-mkimage"; "grub2-mkimage"] (tool_dirs m) ;;
      match mk with
      | None => fail "grub-mkimage is not installed (package grub-common / grub2-tools)"
      | Some mk =>
          st <- find_exe ["grub-bios-setup"; "grub2-bios-setup"] (tool_dirs m) ;;
          match st with
          | None => fail "grub-bios-setup is not installed (package grub-pc-bin / grub2-pc)"
          | Some st => ok (Grub_ m mk st)
          end
      end
  end.
Definition rufux_bios_available : io (bool * string) :=
  r <- locate ;; Ret (match r with Ok _ => (true, "") | Fail why => (false, why) end).

(** * Files *)
Definition write_file (path : string) (data : list byte) : io bool :=
  fd <- call (Open path O_TRUNC_W) ;;
  match fd with
  | inl _ => Ret false
  | inr fd => w <- call (Write fd data) ;; call (Close fd) ;;; Ret (match w with inr n => n =? zlen data | inl _ => false end)
  end.
Definition rmtree_flat (dir : string) : io unit :=
  d <- call (Opendir dir) ;;
  fold_io (fun (_ : unit) name =>
    if String.eqb name "." || String.eqb name ".." then Ret (inl tt)
    else call (Unlink (snprintf PATH_MAX (stake 3000 dir +:+ "/" +:+ stake 255 name))) ;;; Ret (inl (tt : unit) : unit + unit))
    (default [] d) tt ;;;
  call (Rmdir dir) ;;; Ret tt.

Section Fuel.
Variable fuel : nat.
(** the text of whatever errno a failed step left *)
Variable stale_errno : string.

Definition copy_file (from to : string) : io bool :=
  a <- call (Fopen from "rb") ;;
  match a with
  | inl _ => Ret false
  | inr a =>
      b <- call (Fopen to "wb") ;;
      match b with
      | inl _ => call (Fclose a) ;;; Ret false
      | inr b =>
          ok_ <- loop fuel (fun _ : unit =>
            l <- call (Fread a 65536) ;;
            match l with
            | [] => Ret (inr true)
            | _ => w <- call (Fwrite b l) ;; Ret (if w : bool then inl tt else inr false)
            end) tt ;;
          call (Fclose a) ;;;
          c <- call (Fclose b) ;;
          Ret (c && ok_)
      end
  end.

(** * Reading the tables *)
Definition read_at (disk : string) (n off : Z) : io (option (list byte)) :=
  fd <- call (Open disk O_RDONLY) ;;
  match fd with
  | inl _ => Ret None
  | inr fd =>
      r <- call (Pread fd n off) ;;
      call (Close fd) ;;;
      Ret (match r with inr l => if zlen l =? n then Some l else None | inl _ => None end)
  end.
Definition read_mbr (disk : string) : io (option (list byte)) := read_at disk 512 0.
Definition at8 (b : list byte) (off : Z) : Z := le (slice off 1 b).
Definition le32 (b : list byte) (off : Z) : Z := le (slice off 4 b).
Definition le64 (b : list byte) (off : Z) : Z := le (slice off 8 b).
(** the partition entries that count: a type and a size *)
Definition lba_step (mbr : list byte) (best : Z) (i : Z) : Z :=
  let e := 446 + i * 16 in
  let lba := le32 mbr (e + 8) in
  if negb (at8 mbr (e + 4) =? 0) && negb (le32 mbr (e + 12) =? 0) && ((best =? 0) || (lba <? best)) then lba else best.
Definition first_part_lba (mbr : list byte) : Z := fold_left (lba_step mbr) [0; 1; 2; 3] 0.
Definition is_gpt (mbr : list byte) : bool := at8 mbr (446 + 4) =? 0xEE.
Definition has_signature (mbr : list byte) : bool := (at8 mbr 510 =? 0x55) && (at8 mbr 511 =? 0xAA).

Definition BIOS_BOOT : list byte :=
  map b8 [0x48; 0x61; 0x68; 0x21; 0x49; 0x64; 0x6f; 0x6e; 0x74; 0x4e; 0x65; 0x65; 0x64; 0x45; 0x46; 0x49].
Definition EFI_PART : list byte := bytes_of_string "EFI PART".
Definition has_magic (h : list byte) : bool := bytes_eqb (slice 0 8 h) EFI_PART.
Definition wrap64 (z : Z) : Z := z mod 2 ^ 64.
Definition to_off (z : Z) : Z := (z + 2 ^ 63) mod 2 ^ 64 - 2 ^ 63.
(** entry [i] of the table, [None] where the scan ends *)
Fixpoint scan_entries (n : nat) (i esz : Z) (ents : list byte) : option (Z * Z) :=
  match n with
  | O => None
  | S n =>
      if (i + 1) * esz <=? zlen ents then
        if bytes_eqb (slice (i * esz) 16 ents) BIOS_BOOT then
          let found := le64 ents (i * esz + 32) in
          Some (found, wrap64 (le64 ents (i * esz + 40) - found + 1))
        else scan_entries n (i + 1) esz ents
      else None
  end.
Definition TABLE_MAX : Z := 2 ^ 20.
(** the first LBA and the number of sectors of the BIOS boot partition *)
Definition gpt_bios_boot (disk : string) : io (cres (Z * Z)) :=
  h <- read_at disk 512 512 ;;
  match h with
  | None => fail ("'" +:+ disk +:+ "' has no readable GPT header at LBA 1")
  | Some h =>
      if negb (has_magic h) then fail ("'" +:+ disk +:+ "' has no readable GPT header at LBA 1")
      else
        let ent := le64 h 72 in
        let num := le32 h 80 in
        let esz := le32 h 84 in
        if (ent <? 2) || (num =? 0) || (esz <? 128) || (4096 <? esz) then fail ("'" +:+ disk +:+ "' has a malformed GPT header")
        else
          let total := Z.min (num * esz) TABLE_MAX in
          ents <- read_at disk total (to_off (to_off ent * 512)) ;;
          match (match ents with Some l => scan_entries (Z.to_nat (total / esz)) 0 esz l | None => None end) with
          | Some (found, sectors) =>
              if found =? 0 then fail ("'" +:+ disk +:+ "' has no BIOS boot partition, so it cannot start on legacy BIOS (the GPT layout reserves 1 MiB for one)")
              else ok (found, sectors)
          | None => fail ("'" +:+ disk +:+ "' has no BIOS boot partition, so it cannot start on legacy BIOS (the GPT layout reserves 1 MiB for one)")
          end
  end.

(** * Installing *)
Definition in_work (work name : string) : string := stake 4000 work +:+ "/" +:+ name.
(** const char *mk[6 + 16 + 1] *)
Definition MK_SLOTS : Z := 6 + 16 + 1.
Definition mkimage_argv (g : Grub) (core cfg : string) : list string :=
  [mkimage g; "-O"; "i386-pc"; "-d"; moddir g; "-o"; core; "-c"; cfg; "-p"; "/.rufux-grub"] ++ modules.
Definition setup_argv (g : Grub) (work devmap disk : string) : list string :=
  [setup g; "-d"; work; "-b"; "boot.img"; "-c"; "core.img"; "-m"; devmap; "--skip-fs-probe"; "--force"; disk].
(** the first line of a tool's output, cut at 300 characters *)
Definition explained (out : string) : string :=
  let l := (span (fun c => negb (code c =? 10)) out).1 in
  stake 300 (if String.eqb l "" then "unknown error" else l).
Definition wrap32 (z : Z) : Z := z mod 2 ^ 32.
(** the sectors core.img needs, counted from the start of the disk *)
Definition sectors_needed (size : Z) : Z := wrap32 (wrap32 ((size + 511) / 512) + 2).

Definition write_grub_files (g : Grub) (work disk : string) : io (cres unit) :=
  let bad := "cannot write GRUB files to " +:+ work +:+ ": " +:+ stale_errno in
  a <- write_file (in_work work "early.cfg") (bytes_of_string early_cfg) ;;
  if negb a then fail bad
  else
    b <- write_file (in_work work "device.map") (bytes_of_string ("(hd0) " +:+ stake 4000 disk +:+ LF)) ;;
    if negb b then fail bad
    else
      c <- copy_file (stake 4000 (moddir g) +:+ "/boot.img") (in_work work "boot.img") ;;
      if negb c then fail bad else ok tt.
Definition make_core (g : Grub) (work : string) : io (cres unit) :=
  let core := in_work work "core.img" in
  r <- rufux_capture fuel (mkimage_argv g core (in_work work "early.cfg")) 1024 ;;
  let '(ran, out) := r in
  f <- (if ran : bool then is_file core else Ret false) ;;
  if (f : bool) then ok tt else fail ("grub-mkimage failed: " +:+ explained out).
(** whether the boot code has room: in the partition, or before the first one *)
Definition check_room (before : list byte) (bios_part : option (Z * Z)) (need : Z) : cres unit :=
  match bios_part with
  | Some (lba, sectors) =>
      if sectors <? need then
        Fail ("the BIOS boot partition at LBA " +:+ dec lba +:+ " is " +:+ dec sectors
              +:+ " sectors, too small for the boot code (" +:+ dec need +:+ " needed)")
      else Ok tt
  | None =>
      let first := first_part_lba before in
      if negb (first =? 0) && (first <? need) then
        Fail ("the gap before the first partition (" +:+ dec (wrap32 (first - 1))
              +:+ " sectors) is too small for the boot code (" +:+ dec (wrap32 (need - 1)) +:+ " needed)")
      else Ok tt
  end.
Definition run_setup (g : Grub) (work disk : string) : io (cres unit) :=
  r <- rufux_capture fuel (setup_argv g work (in_work work "device.map") disk) 1024 ;;
  let '(ran, out) := r in
  if (ran : bool) then ok tt else fail ("grub-bios-setup failed: " +:+ explained out).
(** the table survived, and there is boot code now *)
Definition same_table (before after : list byte) : bool :=
  has_signature after && bytes_eqb (slice 446 66 before) (slice 446 66 after) && negb (at8 after 0 =? 0).
Definition check_after (disk : string) (before : list byte) (gpt : bool) : io (cres unit) :=
  after <- read_mbr disk ;;
  match after with
  | None => fail "boot code installation left the partition table in an unexpected state; not trusting it"
  | Some after =>
      if negb (same_table before after) then fail "boot code installation left the partition table in an unexpected state; not trusting it"
      else if negb gpt then ok tt
      else
        let bad := "boot code installation left the GPT in an unexpected state; not trusting it" in
        h <- read_at disk 512 512 ;;
        match h with
        | None => fail bad
        | Some h =>
            if negb (has_magic h) then fail bad
            else r <- gpt_bios_boot disk ;; match r with Ok _ => ok tt | Fail _ => fail bad end
        end
  end.
Definition INSTALLED_GPT : string := "Legacy BIOS boot code installed (GRUB 2 in the BIOS boot partition; it starts bootmgr).".
Definition INSTALLED_MBR : string := "Legacy BIOS boot code installed (GRUB 2 in the MBR gap; it starts bootmgr).".
(** from the scratch directory on, up to its removal *)
Definition install_in (g : Grub) (work disk : string) (before : list byte) (bios_part : option (Z * Z)) : io (cres unit) :=
  let gpt := bool_decide (is_Some bios_part) in
  write_grub_files g work disk ?;;
  make_core g work ?;;
  st <- call (Stat (in_work work "core.img")) ;;
  match st with
  | None => fail ("cannot read the generated core.img: " +:+ stale_errno)
  | Some cs =>
      match check_room before bios_part (sectors_needed (st_size cs)) with
      | Fail m => fail m
      | Ok _ =>
          run_setup g work disk ?;;
          call Sync ;;;
          check_after disk before gpt ?;;
          call (Log (if gpt then INSTALLED_GPT else INSTALLED_MBR)) ;;;
          ok tt
      end
  end.
Definition rufux_windows_bios_install (disk mnt : string) : io (cres unit) :=
  g <-? locate ;;
  before <- read_mbr disk ;;
  match before with
  | None => fail ("'" +:+ disk +:+ "' has no partition table at all")
  | Some before =>
      if negb (has_signature before) then fail ("'" +:+ disk +:+ "' has no partition table at all")
      else
        bios_part <-? (if is_gpt before then p <-? gpt_bios_boot disk ;; ok (Some p) else ok None) ;;
        let work := stake 4000 mnt +:+ "/.rufux-grub" in
        e <- call (Mkdir work) ;;
        match e with
        | None | Some EEXIST =>
            rc <- install_in g work disk before bios_part ;;
            rmtree_flat work ;;;
            Ret rc
        | Some e => fail ("cannot create " +:+ work +:+ ": " +:+ strerror e)
        end
  end.
End Fuel.
