(* ===== verification/BiosbootSpec.v ===== *)
(** What the legacy BIOS loader's installation (src/src/linux/biosboot.c)
    promises: the boot code is only put where there is room for it, and success
    means that the partition table came out as it went in; and that the argument
    vector of grub-mkimage is one slot short. *)
From S2P Require Import Prelude Cstr Sys Exec Biosboot.

(** * Sizes *)
(** grub-mkimage's arguments fill every slot of mk, so the null pointer that
    ends them is stored one past its end. *)
Lemma mkimage_argv_overflow g core cfg : ~ zlen (mkimage_argv g core cfg) < MK_SLOTS.
Proof. intros H. vm_compute in H. discriminate H. Qed.

(** * The partition table *)
Definition entry_used (mbr : list byte) (i : Z) : Prop :=
  at8 mbr (446 + i * 16 + 4) <> 0 /\ le32 mbr (446 + i * 16 + 12) <> 0.
Definition entry_lba (mbr : list byte) (i : Z) : Z := le32 mbr (446 + i * 16 + 8).

Lemma le32_nonneg b off : 0 <= le32 b off.
Proof. apply le_range. Qed.
Lemma lba_step_spec mbr best i :
  0 <= best -> (entry_used mbr i -> entry_lba mbr i <> 0) ->
  let r := lba_step mbr best i in
  0 <= r /\ (r = best \/ (entry_used mbr i /\ r = entry_lba mbr i)) /\
  (best <> 0 -> r <> 0 /\ r <= best) /\ (entry_used mbr i -> r <> 0 /\ r <= entry_lba mbr i).
Proof.
  cbv zeta. unfold lba_step, entry_used, entry_lba. intros Hb.
  pose proof (le32_nonneg mbr (446 + i * 16 + 8)).
  destruct (Z.eqb_spec (at8 mbr (446 + i * 16 + 4)) 0); cbn [negb andb]; [lia|].
  destruct (Z.eqb_spec (le32 mbr (446 + i * 16 + 12)) 0); cbn [negb andb]; [lia|].
  destruct (Z.eqb_spec best 0); cbn [orb]; [lia|].
  destruct (Z.ltb_spec (le32 mbr (446 + i * 16 + 8)) best); lia.
Qed.
Lemma first_part_lba_fold mbr l best :
  0 <= best -> (forall i, In i l -> entry_used mbr i -> entry_lba mbr i <> 0) ->
  let r := fold_left (lba_step mbr) l best in
  0 <= r /\ (r = best \/ exists i, In i l /\ entry_used mbr i /\ r = entry_lba mbr i) /\
  (best <> 0 -> r <> 0 /\ r <= best) /\
  (forall i, In i l -> entry_used mbr i -> r <> 0 /\ r <= entry_lba mbr i).
Proof.
  revert best; induction l as [|i l IH]; intros best Hb Hl; cbn.
  - repeat split; auto; try lia; done.
  - destruct (lba_step_spec mbr best i Hb) as (H0 & H1 & H2 & H3); [apply Hl; by left|].
    destruct (IH (lba_step mbr best i) H0) as (I0 & I1 & I2 & I3); [intros; apply Hl; [by right|done]|].
    split_and!; [done|..].
    + destruct I1 as [I1|(j & ? & ?)]; [|right; exists j; auto].
      rewrite I1. destruct H1 as [?|?]; [by left|right; exists i; auto].
    + intros Hn. specialize (H2 Hn). lia.
    + intros j [<-|Hj] Hu; [specialize (H3 Hu); lia|auto].
Qed.
(** the gap ends at the lowest start of a used entry *)
Lemma first_part_lba_least mbr :
  (forall i, 0 <= i < 4 -> entry_used mbr i -> entry_lba mbr i <> 0) ->
  (forall i, 0 <= i < 4 -> entry_used mbr i -> first_part_lba mbr <> 0 /\ first_part_lba mbr <= entry_lba mbr i) /\
  (first_part_lba mbr <> 0 -> exists i, 0 <= i < 4 /\ entry_used mbr i /\ first_part_lba mbr = entry_lba mbr i).
Proof.
  intros H. destruct (first_part_lba_fold mbr [0; 1; 2; 3] 0) as (_ & I1 & _ & I3); [done|..].
  - intros i Hi. apply H. cbn in Hi. lia.
  - split.
    + intros i Hi. apply I3. cbn. lia.
    + intros Hn. destruct I1 as [I1|(i & Hi & ?)]; [done|]. exists i. cbn in Hi. split; [lia|done].
Qed.

(** the first entry of the GPT with the type GUID of a BIOS boot partition *)
Lemma scan_entries_first n i esz ents lba sectors :
  scan_entries n i esz ents = Some (lba, sectors) ->
  exists k, i <= k < i + Z.of_nat n /\ (k + 1) * esz <= zlen ents /\
    slice (k * esz) 16 ents = BIOS_BOOT /\ lba = le64 ents (k * esz + 32) /\
    sectors = wrap64 (le64 ents (k * esz + 40) - lba + 1) /\
    forall j, i <= j < k -> slice (j * esz) 16 ents <> BIOS_BOOT.
Proof.
  revert i; induction n as [|n IH]; intros i; cbn [scan_entries]; [done|].
  destruct (Z.leb_spec ((i + 1) * esz) (zlen ents)); [|done].
  destruct (bytes_eqb _ _) eqn:E; unfold bytes_eqb in E.
  - apply bool_decide_eq_true in E. intros [= <- <-]. exists i. repeat split; auto; lia.
  - apply bool_decide_eq_false in E. intros (k & Hk & ? & ? & ? & ? & Hf)%IH. exists k.
    repeat split; auto; try lia. intros j Hj. destruct (Z.eq_dec j i) as [->|]; [done|]. apply Hf. lia.
Qed.

(** * Executions *)
(** the call was made somewhere in the trace, with what came back *)
Definition during {A} (m : io A) (a : A) (t : list obs) : Prop :=
  exists t1 tm t2, t = t1 ++ tm ++ t2 /\ exec m tm a.
Lemma during_app {A} (m : io A) a t u v : during m a t -> during m a (u ++ t ++ v).
Proof. intros (t1 & tm & t2 & -> & H). exists (u ++ t1), tm, (t2 ++ v). by rewrite <- !app_assoc. Qed.
Lemma during_exec {A} (m : io A) a t u v : exec m t a -> during m a (u ++ t ++ v).
Proof. intros. exists u, t, v. auto. Qed.

(** no call of the tree starts grub-bios-setup *)
Definition no_setup : forall X : Set, ev X -> Prop := fun X e =>
  match e with PipeSpawn av => nth_error av 1 <> Some "-d" | _ => True end.
Definition sets_up (o : obs) : Prop :=
  match o with Obs e _ => match e with PipeSpawn av => nth_error av 1 = Some "-d" | _ => False end end.
Lemma no_setup_exec {A} (m : io A) t a o : always no_setup m -> exec m t a -> In o t -> ~ sets_up o.
Proof.
  intros Hm He Ho. apply (always_exec no_setup) in He; [|done].
  rewrite List.Forall_forall in He. specialize (He o Ho). destruct o as [X e x]. destruct e; cbn in *; tauto.
Qed.
Lemma rufux_have_quiet n : always no_setup (rufux_have n).
Proof. unfold rufux_have, path_dirs. always_tac; done. Qed.
#[local] Hint Resolve rufux_have_quiet : rufux.
Lemma locate_quiet : always no_setup locate.
Proof. unfold locate, rufux_exe_dir, has_modules, is_file, find_exe. always_tac; done. Qed.
Lemma read_at_quiet d n o : always no_setup (read_at d n o).
Proof. unfold read_at. always_tac; done. Qed.
#[local] Hint Resolve read_at_quiet : rufux.
Lemma gpt_bios_boot_quiet d : always no_setup (gpt_bios_boot d).
Proof. unfold gpt_bios_boot. always_tac; done. Qed.
Lemma write_grub_files_quiet fuel e g w d : always no_setup (write_grub_files fuel e g w d).
Proof. unfold write_grub_files, write_file, copy_file. always_tac; done. Qed.
Lemma make_core_quiet fuel g w : always no_setup (make_core fuel g w).
Proof. unfold make_core, rufux_capture, is_file. always_tac; try done. all: cbn; try done. Qed.
Lemma rmtree_flat_quiet d : always no_setup (rmtree_flat d).
Proof. unfold rmtree_flat. always_tac; done. Qed.

(** grub-bios-setup is started only after the room was checked *)
Lemma install_in_room fuel e g work disk before bp t r o :
  exec (install_in fuel e g work disk before bp) t r -> In o t -> sets_up o ->
  exists cs, check_room before bp (sectors_needed (st_size cs)) = Ok tt /\
    In (Obs (Stat (in_work work "core.img")) (Some cs)) t.
Proof.
  unfold install_in. cbv zeta. intros (t1 & r1 & t2 & -> & H1 & H)%exec_bind Ho Hs.
  apply in_app_or in Ho as [Ho|Ho]; [by eapply no_setup_exec in H1; [|apply write_grub_files_quiet|..]|].
  destruct r1; [|by destruct H as [-> _]].
  apply exec_bind in H as (t3 & r2 & t4 & -> & H2 & H).
  apply in_app_or in Ho as [Ho|Ho]; [by eapply no_setup_exec in H2; [|apply make_core_quiet|..]|].
  destruct r2; [|by destruct H as [-> _]].
  destruct H as (st & t5 & -> & H). cbn [bind] in H. destruct Ho as [<-|Ho]; [done|].
  destruct st as [cs|]; [|by destruct H as [-> _]].
  destruct (check_room before bp (sectors_needed (st_size cs))) as [[]|m] eqn:E; [|by destruct H as [-> _]].
  exists cs. split; [done|]. rewrite !in_app_iff. cbn. auto.
Qed.

Lemma rufux_capture_ok fuel av cap t out :
  exec (rufux_capture fuel av cap) t (true, out) ->
  exists h t', t = Obs (PipeSpawn av) (Some h) :: t' /\ In (Obs (Waitpid h) (Exited 0)) t'.
Proof.
  unfold rufux_capture. destruct (cap =? 0); [by intros [_ ?]|].
  intros ([h|] & t1 & -> & H); [|by destruct H]. cbn [bind] in H.
  apply exec_bind in H as (t2 & l & t3 & -> & _ & (st & t4 & -> & H)). cbn [bind] in H. destruct H as [-> [= Hs _]].
  exists h, (t2 ++ [Obs (Waitpid h) st]). split; [done|]. apply in_or_app. right. left.
  destruct st; try done. cbn in Hs. symmetry in Hs. by apply Z.eqb_eq in Hs as ->.
Qed.

(** grub-bios-setup ended with status 0; the table read after it is [before]'s *)
Definition installed (disk : string) (before : list byte) (t : list obs) : Prop :=
  exists t1 av h t2 after, t = t1 ++ Obs (PipeSpawn av) (Some h) :: t2 /\ nth_error av 1 = Some "-d" /\
    In (Obs (Waitpid h) (Exited 0)) t2 /\ during (read_mbr disk) (Some after) t2 /\ same_table before after = true.
Lemma installed_app disk before t u v : installed disk before t -> installed disk before (u ++ t ++ v).
Proof.
  intros (t1 & av & h & t2 & after & -> & ? & Hi & Hd & ?).
  exists (u ++ t1), av, h, (t2 ++ v), after. rewrite <- !app_assoc. split_and!; [done..| | |done].
  - apply in_or_app. by left.
  - by apply (during_app _ _ _ []).
Qed.
Lemma check_after_ok disk before gpt t :
  exec (check_after disk before gpt) t (Ok tt) ->
  exists after, during (read_mbr disk) (Some after) t /\ same_table before after = true /\
    (gpt = true -> exists part, during (gpt_bios_boot disk) (Ok part) t).
Proof.
  intros (t1 & [after|] & t2 & -> & Hr & H)%exec_bind; [|by destruct H].
  destruct (same_table before after) eqn:Es; cbn [negb] in H; [|by destruct H].
  exists after. split; [by apply (during_exec _ _ _ [])|]. split; [done|]. intros ->. cbn [negb] in H.
  apply exec_bind in H as (t3 & [h|] & t4 & -> & _ & H); [|by destruct H].
  destruct (has_magic h); cbn [negb] in H; [|by destruct H].
  apply exec_bind in H as (t5 & [part|m] & t6 & -> & Hg & H); [|by destruct H].
  exists part. by exists (t1 ++ t3), t5, t6; rewrite <- app_assoc.
Qed.
Lemma install_in_ok fuel e g work disk before bp t :
  exec (install_in fuel e g work disk before bp) t (Ok tt) -> installed disk before t.
Proof.
  unfold install_in. cbv zeta. intros (t1 & [] & t2 & -> & _ & H)%exec_try.
  apply exec_try in H as (t3 & [] & t4 & -> & _ & H).
  destruct H as ([cs|] & t5 & -> & H); [cbn [bind] in H|by destruct H].
  destruct (check_room _ _ _); [|by destruct H].
  apply exec_try in H as (t6 & [] & t7 & -> & Hs & H).
  apply exec_bind in Hs as (t8 & [[|] out] & t9 & -> & Hs & Hr); [|by destruct Hr].
  apply rufux_capture_ok in Hs as (h & t10 & -> & Hw). destruct Hr as [-> _].
  destruct H as ([] & t11 & -> & H). cbn [bind] in H.
  apply exec_try in H as (t12 & [] & t13 & -> & (after & Ha & Es & _)%check_after_ok & _).
  exists (t1 ++ t3 ++ [Obs (Stat (in_work work "core.img")) (Some cs)]),
    (setup_argv g work (in_work work "device.map") disk), h, (t10 ++ Obs Sync tt :: t12 ++ t13), after.
  rewrite app_nil_r. split_and!; [|done|apply in_or_app; by left| |done].
  - by rewrite <- !app_assoc.
  - apply (during_app _ _ _ (t10 ++ [Obs Sync tt]) t13) in Ha. by rewrite <- app_assoc in Ha.
Qed.

Definition quiet (t : list obs) : Prop := forall o, In o t -> ~ sets_up o.
Lemma quiet_app t u : quiet t -> quiet u -> quiet (t ++ u).
Proof. unfold quiet. intros H1 H2 o [?|?]%in_app_or; auto. Qed.
Lemma quiet_exec {A} (m : io A) t a : always no_setup m -> exec m t a -> quiet t.
Proof. intros Hm He o. by eapply no_setup_exec. Qed.
Lemma quiet_cons {X : Set} (e : ev X) x t : ~ sets_up (Obs e x) -> quiet t -> quiet (Obs e x :: t).
Proof. intros ? H o [<-|?]; auto. Qed.

(** the parts of a run: either it ends before anything is set up, or the
    installation proper runs between the checks and the clean-up *)
Definition install_parts (fuel : nat) (e disk mnt : string) (t : list obs) (r : cres unit) : Prop :=
  exists g before bp u tb tp v w,
    t = (u ++ tb ++ tp) ++ v ++ w /\ quiet u /\ quiet tb /\ quiet tp /\ quiet w /\
    exec (read_mbr disk) tb (Some before) /\ has_signature before = true /\
    (if is_gpt before then exists p, bp = Some p /\ during (gpt_bios_boot disk) (Ok p) tp else bp = None) /\
    exec (install_in fuel e g (stake 4000 mnt +:+ "/.rufux-grub") disk before bp) v r.
Lemma install_inv fuel e disk mnt t r :
  exec (rufux_windows_bios_install fuel e disk mnt) t r ->
  (r <> Ok tt /\ quiet t) \/ install_parts fuel e disk mnt t r.
Proof.
  intros (t1 & rl & t2 & -> & Hl & H)%exec_bind.
  apply quiet_exec in Hl as Q1; [|apply locate_quiet].
  destruct rl as [g|m]; [|destruct H as [-> ->]; left; rewrite app_nil_r; by split].
  apply exec_bind in H as (t3 & rb & t4 & -> & Hb & H).
  apply quiet_exec in Hb as Q3; [|apply read_at_quiet].
  destruct rb as [before|]; [|destruct H as [-> ->]; left; rewrite app_nil_r; split; [done|by apply quiet_app]].
  destruct (has_signature before) eqn:Hs; cbn [negb] in H;
    [|destruct H as [-> ->]; left; rewrite app_nil_r; split; [done|by apply quiet_app]].
  apply exec_bind in H as (t5 & rp & t6 & -> & Hp & H).
  assert (Q5 : quiet t5).
  { eapply quiet_exec, Hp. destruct (is_gpt before); [|exact I].
    apply always_try; [apply gpt_bios_boot_quiet|done]. }
  destruct rp as [bp|m];
    [|destruct H as [-> ->]; left; rewrite app_nil_r; split; [done|by repeat apply quiet_app]].
  assert (Hbp : if is_gpt before then exists p, bp = Some p /\ during (gpt_bios_boot disk) (Ok p) t5 else bp = None).
  { destruct (is_gpt before); [|by destruct Hp as [_ [= ->]]].
    apply exec_try in Hp as (t7 & p & t8 & -> & Hp & [_ [= ->]]). exists p. split; [done|]. by apply (during_exec _ _ _ []). }
  destruct H as (me & t7 & -> & H). cbn [bind] in H.
  assert (Qm : quiet [Obs (Mkdir (stake 4000 mnt +:+ "/.rufux-grub")) me]) by (apply quiet_cons; [cbn; tauto|by intros o []]).
  assert (Hgo : (r <> Ok tt /\ t7 = []) \/ exists v w, t7 = v ++ w /\ quiet w /\
    exec (install_in fuel e g (stake 4000 mnt +:+ "/.rufux-grub") disk before bp) v r).
  { assert (Hx : forall k, exec (rc <- install_in fuel e g (stake 4000 mnt +:+ "/.rufux-grub") disk before bp ;;
                        rmtree_flat (stake 4000 mnt +:+ "/.rufux-grub") ;;; Ret rc) k r ->
             exists v w, k = v ++ w /\ quiet w /\
               exec (install_in fuel e g (stake 4000 mnt +:+ "/.rufux-grub") disk before bp) v r).
    { intros k (v & rc & w & -> & Hv & (w1 & [] & w2 & -> & Hw & [-> ->])%exec_bind)%exec_bind.
      exists v, (w1 ++ []). split; [done|]. split; [|done]. rewrite app_nil_r. eapply quiet_exec, Hw. apply rmtree_flat_quiet. }
    destruct me as [[]|]; try (right; apply Hx, H); left; by destruct H as [-> ->]. }
  destruct Hgo as [[Hr ->]|(v & w & -> & Qw & Hv)].
  - left. split; [done|]. by repeat apply quiet_app.
  - right. exists g, before, bp, t1, t3, (t5 ++ [Obs (Mkdir (stake 4000 mnt +:+ "/.rufux-grub")) me]), v, w.
    split_and!; try done.
    + by rewrite <- !app_assoc.
    + by apply quiet_app.
    + destruct (is_gpt before); [|done]. destruct Hbp as (p & -> & Hd). exists p. split; [done|].
      by apply (during_app _ _ _ []).
Qed.

(** C34: Legacy BIOS boot code. grub-bios-setup is only ever started when
    core.img fits where it will go: on a GPT in the BIOS boot partition that
    was found in the table, otherwise in the gap before the first partition of
    the MBR that was read before. Success means that grub-bios-setup ended with
    status 0 and that the MBR read after it ended carries the signature, the
    partition entries of the MBR read before, and boot code. *)
Theorem rufux_windows_bios_install_correct fuel e disk mnt t r :
  exec (rufux_windows_bios_install fuel e disk mnt) t r ->
  (forall o, In o t -> sets_up o -> exists before cs, let need := sectors_needed (st_size cs) in
     during (read_mbr disk) (Some before) t /\ has_signature before = true /\
     In (Obs (Stat (in_work (stake 4000 mnt +:+ "/.rufux-grub") "core.img")) (Some cs)) t /\
     if is_gpt before
     then exists lba sectors, during (gpt_bios_boot disk) (Ok (lba, sectors)) t /\ need <= sectors
     else first_part_lba before = 0 \/ need <= first_part_lba before) /\
  (r = Ok tt -> exists before tb u v, t = u ++ tb ++ v /\ exec (read_mbr disk) tb (Some before) /\
     (forall o, In o (u ++ tb) -> ~ sets_up o) /\ installed disk before v).
Proof.
  intros [[Hr Q]|(g & before & bp & u & tb & tp & v & w & -> & Qu & Qb & Qp & Qw & Hb & Hs & Hbp & Hv)]%install_inv.
  { split; [|done]. intros o Ho Hs. by destruct (Q o Ho). }
  split.
  - intros o Ho Hso. apply in_app_or in Ho as [Ho|[Ho|Ho]%in_app_or].
    + destruct (quiet_app _ _ Qu (quiet_app _ _ Qb Qp) o Ho Hso).
    + destruct (install_in_room _ _ _ _ _ _ _ _ _ _ Hv Ho Hso) as (cs & Hroom & Hst).
      exists before, cs. cbv zeta. split_and!; [|done|rewrite !in_app_iff; auto|].
      { apply (during_exec _ _ _ u (tp ++ v ++ w)) in Hb. by rewrite <- !app_assoc. }
      unfold check_room in Hroom. destruct (is_gpt before).
      * destruct Hbp as ([lba sectors] & -> & Hd). exists lba, sectors. split.
        { apply (during_app _ _ _ (u ++ tb) (v ++ w)) in Hd. by rewrite <- !app_assoc in *. }
        destruct (Z.ltb_spec sectors (sectors_needed (st_size cs))); [done|lia].
      * rewrite Hbp in Hroom. destruct (Z.eqb_spec (first_part_lba before) 0); [by left|right]. cbn [negb andb] in Hroom.
        destruct (Z.ltb_spec (first_part_lba before) (sectors_needed (st_size cs))); [done|lia].
    + by destruct (Qw o Ho Hso).
  - intros ->. apply install_in_ok in Hv. exists before, tb, u, (tp ++ v ++ w). split_and!; [|done|by apply quiet_app|].
    + by rewrite <- !app_assoc.
    + by apply installed_app.
Qed.
(** a disk with boot code and one partition at LBA 2048, and tools that work *)
Definition demo_mbr : list byte :=
  replicate 446 Byte.xeb
  ++ map b8 [0x80; 0; 0; 0; 7; 0; 0; 0; 0; 8; 0; 0; 0; 0; 16; 0] ++ replicate 48 Byte.x00 ++ [Byte.x55; Byte.xaa].
Definition demo_disk : handler unit := fun X e w =>
  (match e in ev X return X with
   | Stat _ => Some (Stat_ KReg 100000 0 0)
   | Access _ _ => true
   | Open _ _ | Fopen _ _ => inr 3
   | Pread _ _ _ => inr demo_mbr
   | Write _ b => inr (zlen b)
   | PipeSpawn _ => Some 4
   | e => default_answer e
   end, w).
Lemma rufux_windows_bios_install_correct_witness :
  exists t before tb u v, t = u ++ tb ++ v /\ exec (read_mbr "/dev/sdz") tb (Some before) /\
    (forall o, In o (u ++ tb) -> ~ sets_up o) /\ installed "/dev/sdz" before v.
Proof.
  assert (exists t, exec (rufux_windows_bios_install 9 "" "/dev/sdz" "/mnt") t (Ok tt)) as [t H].
  { eexists. apply (run_computed demo_disk _ tt). vm_compute. reflexivity. }
  exists t. exact (proj2 (rufux_windows_bios_install_correct 9 "" "/dev/sdz" "/mnt" t (Ok tt) H) eq_refl).
Defined.
