(* ===== verification/Create.v ===== *)
(** src/src/linux/create.c: the flows behind `rufux create` and the START
    button: the checks, then partition, format, copy, boot code, verification.

    [has_log] and [has_prog] tell whether the caller passed the callbacks; a
    [Log] or [Progress] event is handed to the callback when there is one. An
    image is passed ([src] is not null) in the modes that read one, as the
    command line makes sure. *)
From S2P Require Import Prelude Cstr Double Sys Exec Device Writer Vhd Badblocks Vdisk Partition Mkfs Host.
From S2P Require Import Bootcheck Wue Dosboot Biosboot Extract.

(** * Options *)
Record RufuxCreateOpts := CreateOpts_ {
  c_mode : string; c_scheme : string; c_fs : string; c_label : option string; c_wue : option string;
  c_split_wim_mb : Z; c_locale : option string; c_keyboard : option string; c_timezone : option string;
  c_persist_mb : Z; c_cluster_sectors : Z; c_quick_format : bool; c_extended_label : bool;
  c_uefi_validate : bool; c_badblock_passes : Z; c_verify : bool; c_ignore_smart : bool;
  c_dry_run : bool; c_allow_fixed : bool; c_allow_file : bool; c_yes : bool }.
Definition rufux_create_defaults : RufuxCreateOpts :=
  CreateOpts_ "dd" "gpt" "vfat" (Some "RUFUX") None 0 None None None 0 0 true true false 0 false false true false false false.
Definition set_scheme (o : RufuxCreateOpts) (s : string) : RufuxCreateOpts :=
  CreateOpts_ (c_mode o) s (c_fs o) (c_label o) (c_wue o) (c_split_wim_mb o) (c_locale o) (c_keyboard o) (c_timezone o)
    (c_persist_mb o) (c_cluster_sectors o) (c_quick_format o) (c_extended_label o) (c_uefi_validate o)
    (c_badblock_passes o) (c_verify o) (c_ignore_smart o) (c_dry_run o) (c_allow_fixed o) (c_allow_file o) (c_yes o).
Definition label_text (o : RufuxCreateOpts) : string := default "" (c_label o).

(** * Progress *)
(** a stage's own progress as percent of the whole, within its window *)
(** the arguments are unsigned 64-bit numbers *)
Definition mapped_pct (base span done total : Z) : Z :=
  let total := wrap64 total in
  let v := if total =? 0 then base else base + Z.min (wrap64 (span * done) / total) span in
  if 100 <? v then 100 else v.
Definition mapped (base span done total : Z) : io unit := call (Progress (mapped_pct base span done total) 100).
Definition stage (pct : Z) : io unit := when (pct <=? 100) (call (Progress pct 100)).
(** [m] with its progress callbacks, the second one that of a verify phase *)
Fixpoint remap {A} (f g : Z -> Z -> io unit) (m : io A) : io A :=
  match m with
  | Ret a => Ret a
  | @Do _ X e k =>
      match e in ev X return (X -> io A) -> io A with
      | Progress d t => fun k => f d t ;;; k tt
      | VProgress d t => fun k => g d t ;;; k tt
      | e => fun k => Do e k
      end (fun x => remap f g (k x))
  | OutOfFuel => OutOfFuel
  end.
Definition in_window {A} (base span : Z) (m : io A) : io A := remap (mapped base span) (mapped base span) m.

Definition is_dir (p : string) : io bool := st <- call (Stat p) ;; Ret (is_kind KDir st).
Definition is_block (p : string) : io bool := st <- call (Stat p) ;; Ret (is_kind KBlk st).

(** * Small steps *)
Fixpoint wait_for (n : nat) (p : string) : io unit :=
  a <- call (Access p F_OK) ;;
  if a then Ret tt else match n with O => Ret tt | S n => call (Usleep 100000) ;;; wait_for n p end.
Definition wait_node (p1 : string) : io (cres unit) :=
  wait_for 100 p1 ;;;
  a <- call (Access p1 F_OK) ;;
  if a then ok tt else fail ("partition '" +:+ p1 +:+ "' did not appear").
Definition rescan_disk (dst : string) : io unit :=
  h <- rufux_have "partprobe" ;; when h (rufux_run ["partprobe"; dst] false ;;; Ret tt) ;;;
  h <- rufux_have "udevadm" ;; when h (rufux_run ["udevadm"; "settle"] false ;;; Ret tt).
Definition syslinux_best_effort (part : string) : io (cres unit) :=
  h <- rufux_have "syslinux" ;;
  if negb h then
    call (Log "WARNING: syslinux not installed: no BIOS boot code written (install syslinux).") ;;; ok tt
  else call (Log "Installing Syslinux bootloader...") ;;; rufux_install_syslinux part false.

Definition part1 (dst : string) : string := snprintf 160 (rufux_part1 dst).

(** ** Unmounting the target *)
Definition disk_name (dst : string) : string :=
  match strrchr "/" dst with Some s => sdrop 1 s | None => dst end.
(** the mounted device of a line of /proc/mounts, when it is the disk or one of
    its partitions *)
Definition mount_of (base line : string) : option string :=
  match tokens isspace line with
  | [] => None
  | w :: _ =>
      let dev := stake 511 w in
      if negb (starts_with "/dev/" dev) then None
      else
        let d := sdrop 5 dev in
        if negb (starts_with base d) then None
        else
          match sdrop (String.length base) d with
          | "" => Some dev
          | String c _ => if Ascii.eqb c "p" || is_digit c then Some dev else None
          end
  end.
Definition MAX_PARTS : nat := 32.
Definition add_mount (base : string) (parts : list string) (line : string) : list string :=
  if (length parts <? MAX_PARTS)%nat then
    match mount_of base line with
    | Some dev => if existsb (fun p => String.eqb p dev) parts then parts else parts ++ [snprintf 128 dev]
    | None => parts
    end
  else parts.
Definition mounted_parts (dst mounts : string) : list string :=
  fold_left (add_mount (disk_name dst)) (fgets_all 1024 mounts) [].

(** ** Sizes *)
Definition file_size (p : string) : io Z :=
  st <- call (Stat p) ;; Ret (match st with Some s => if bool_decide (st_kind s = KReg) then st_size s else 0 | None => 0 end).

Section Create.
Variable fuel : nat.
Variable point : ascii.
(** the text of whatever errno a failed step left *)
Variable stale_errno : string.
(** SHA-256 and the certificates of a signature, for the boot-loader check *)
Variable sha : list byte -> list byte.
Variable certs : list byte -> option (string * list (list byte)).
Variables has_log has_prog : bool.

Fixpoint unmount_all (dry : bool) (parts : list string) : io (cres unit) :=
  match parts with
  | [] => ok tt
  | p :: t =>
      call (Log (snprintf 256 ("Unmounting " +:+ p +:+ "..."))) ;;;
      r <- rufux_unmount fuel p dry ;;
      match r with
      | Fail m => if dry then unmount_all dry t else fail m
      | Ok _ => unmount_all dry t
      end
  end.
Definition unmount_disk (dst : string) (dry : bool) : io (cres unit) :=
  m <- call (ReadText "/proc/mounts") ;;
  match m with
  | None => ok tt
  | Some text => unmount_all dry (mounted_parts dst text)
  end.

Definition gib (n : Z) : string := fmt_f point 1 (ddiv (Z2double n) (Z2double 1073741824)).
Definition mib (n : Z) : string := fmt_f point 1 (ddiv (Z2double n) (Z2double 1048576)).
Definition vfat_size_guard (src fs : string) : io (cres unit) :=
  if negb (rufux_fs_is_fat fs) then ok tt
  else
    sz <- file_size src ;;
    if 0xFFFFFFFF <? sz then
      fail ("image is " +:+ gib sz +:+ " GiB: FAT cannot hold files >= 4 GiB; use --fs ntfs or --fs exfat")
    else ok tt.

(** ** Clearing *)
Definition MIB : Z := 2 ^ 20.
Definition zeros (n : Z) : list byte := replicate (Z.to_nat n) Byte.x00.
(** one MiB of zeros; [Some m] when a write failed *)
Definition zero_mib (fd : Z) : io (option string) :=
  loop fuel (fun off =>
    if off <? MIB then
      w <- call (Write fd (zeros (MIB - off))) ;;
      match w with
      | inl EINTR => Ret (inl off)
      | inl e => Ret (inr (Some ("zero failed: " +:+ strerror e)))
      | inr w => Ret (inl (off + w))
      end
    else Ret (inr None)) 0.
Definition zero_head (dst : string) : io (cres unit) :=
  call (Log "Clearing first 16MB (full format)...") ;;;
  fd <- call (Open dst O_WRONLY) ;;
  match fd with
  | inl e => fail ("cannot open '" +:+ dst +:+ "': " +:+ strerror e)
  | inr fd =>
      r <- fold_io (fun (_ : unit) i =>
        z <- zero_mib fd ;;
        match z with
        | Some m => Ret (inr m)
        | None => call (Progress (i + 1) 16) ;;; Ret (inl tt)
        end) (seqZ 0 16) tt ;;
      match r with
      | inr m => call (Close fd) ;;; fail m
      | inl _ =>
          s <- call (Fsync fd) ;;
          call (Close fd) ;;;
          match s with Some _ => fail "fsync failed" | None => ok tt end
      end
  end.
(** the first and the last MiB of a partition *)
Definition wipe_part_edges (part : string) : io bool :=
  fd <- call (Open part O_WRONLY) ;;
  match fd with
  | inl _ => Ret false
  | inr fd =>
      b <- call (GetSize64 fd) ;;
      let sz := default 0 b in
      let head := if negb (sz =? 0) && (sz <? MIB) then sz else MIB in
      a <- rufux_pwrite_all fuel fd (zeros head) 0 ;;
      z <- (if is_ok a && (MIB * 2 <? sz) then rufux_pwrite_all fuel fd (zeros MIB) (sz - MIB) else Ret a) ;;
      s <- call (Fsync fd) ;;
      call (Close fd) ;;;
      Ret (is_ok z && bool_decide (s = None))
  end.

(** ** Bad blocks *)
Definition run_badblocks (dst : string) (passes : Z) (allow_file : bool) (base span : Z) : io (cres unit) :=
  let n := dec passes in
  r <- fold_io (fun (_ : unit) i =>
    call (Log (snprintf 160 ("Checking device for bad blocks (destructive write patterns): pass " +:+ dec i
                             +:+ "/" +:+ n +:+ "..."))) ;;;
    b <- in_window (base + Z.modulo (span * (i - 1)) (2 ^ 32) / passes) (span / passes)
           (rufux_badblocks_write fuel stale_errno dst allow_file 1 (i - 1)) ;;
    match b with
    | Fail m => Ret (inr m)
    | Ok bad =>
        call (Log (snprintf 160 ("Bad blocks pass " +:+ dec i +:+ "/" +:+ n +:+ ": " +:+ dec bad +:+ " bad regions"))) ;;;
        if negb (bad =? 0) then Ret (inr (dec bad +:+ " bad regions found")) else Ret (inl tt)
    end) (seqZ 1 passes) tt ;;
  match r with inr m => fail m | inl _ => ok tt end.

(** * Flows *)
(** the callback handed to an extraction: none when the caller has none *)
Definition extract_progress (base span : Z) : progress := if has_prog then Some (mapped base span) else None.

Definition write_opts (o : RufuxCreateOpts) : RufuxWriteOpts :=
  WriteOpts_ (c_dry_run o) (c_verify o) (c_allow_fixed o) (c_allow_file o) (c_yes o) 0.
Definition flow_dd (src dst : string) (o : RufuxCreateOpts) : io (cres unit) :=
  let w := write_opts o in
  let writing {A} (m : io A) := remap (mapped 15 (if c_verify o then 70 else 85)) (mapped 85 15) m in
  vk <-? rufux_vdisk_detect point fuel src ;;
  match vk with
  | Some vd =>
      call (Log (snprintf 256 (Vdisk.label vd +:+ " image detected (" +:+ gib (virtual_size vd)
                               +:+ " GiB expanded): converting with qemu-img."))) ;;;
      writing (rufux_vdisk_write point fuel src vd dst w) ?;;
      stage 100 ;;; ok tt
  | None =>
      w <-? rufux_vhd_adjust src w ;;
      writing (rufux_write_image fuel src dst w) ?;;
      stage 100 ;;; ok tt
  end.

Definition AUTORUN_MSG : string := "Creating extended label and icon files (autorun.inf)...".
Definition autorun_step (dir : string) (o : RufuxCreateOpts) (dry : bool) : io (cres unit) :=
  if c_extended_label o then call (Log AUTORUN_MSG) ;;; rufux_write_autorun dir (label_text o) dry else ok tt.
Definition flow_extract_dir (src dir : string) (o : RufuxCreateOpts) : io (cres unit) :=
  vfat_size_guard src (c_fs o) ?;;
  rufux_extract_iso_progress fuel src dir (c_dry_run o) (extract_progress 0 90) ?;;
  autorun_step dir o (c_dry_run o) ?;;
  (if c_persist_mb o =? 0 then ok tt
   else if negb (c_dry_run o) then rufux_create_persist dir "casper-rw" (c_persist_mb o) false
   else call (Log (snprintf 256 ("+ persist casper-rw " +:+ dec (c_persist_mb o) +:+ "MB in " +:+ dir +:+ " [dry-run]"))) ;;; ok tt) ?;;
  stage 100 ;;; ok tt.

Definition part_opts (scheme layout fs : string) (bios : bool) (o : RufuxCreateOpts) : RufuxPartOpts :=
  PartOpts_ scheme layout (Some fs) bios false (c_allow_fixed o) false true.
Definition mkfs_opts (fs : string) (o : RufuxCreateOpts) (allow_file : bool) : RufuxMkfsOpts :=
  MkfsOpts_ fs (label_text o) (c_cluster_sectors o) false (c_allow_fixed o) allow_file true.
Definition boot_opts (o : RufuxCreateOpts) : RufuxBootOpts :=
  BootOpts_ (if String.eqb (c_scheme o) "gpt" then "gpt" else "bios") false (c_allow_fixed o) false true.
(** unless "quick format": clear the first 16 MiB *)
Definition zero_step (p : string) (o : RufuxCreateOpts) (base span : Z) : io (cres unit) :=
  if c_quick_format o then ok tt else in_window base span (zero_head p).
Definition format_step (p fs : string) (o : RufuxCreateOpts) (cap : nat) : io (cres unit) :=
  call (Log (snprintf cap ("Creating file system (" +:+ fs +:+ ")..."))) ;;;
  rufux_format point p (mkfs_opts fs o false).
Definition syslinux_step (p : string) (o : RufuxCreateOpts) : io (cres unit) :=
  if String.eqb (c_scheme o) "dos" && (rufux_fs_is_fat (c_fs o) || starts_with "ext" (c_fs o))
  then syslinux_best_effort p else ok tt.
(** the EFI loader's header; only reported *)
Definition validate_step (efi good : string) (absent : option string) (cap : nat) : io unit :=
  a <- call (Access efi R_OK) ;;
  if a then
    v <- rufux_validate_efi efi ;;
    match v with
    | Ok _ => call (Log good)
    | Fail verr => call (Log (snprintf cap ("UEFI media validation warning: " +:+ verr)))
    end
  else match absent with Some m => call (Log m) | None => Ret tt end.
(** unmounting: a failure is an error only when all went well before *)
Definition unmount_step (p : string) (what : string) (r : cres unit) : io (cres unit) :=
  u <- rufux_unmount fuel p false ;;
  Ret (match u, r with Fail uerr, Ok _ => Fail (what +:+ uerr) | _, _ => r end).
Definition if_ok (r : cres unit) (m : io (cres unit)) : io (cres unit) := if is_ok r then m else Ret r.

Definition plan_extract (src dst p1 : string) (o : RufuxCreateOpts) : io unit :=
  call (Log (snprintf 512 ("steps:" +:+ LF +:+ "  1. partition " +:+ dst +:+ " " +:+ c_scheme o +:+ "/single (sfdisk)" +:+ LF
    +:+ "  2. format " +:+ p1 +:+ " " +:+ c_fs o +:+ " [" +:+ label_text o +:+ "]" +:+ LF
    +:+ "  3. mount " +:+ p1 +:+ " (udisks2) + extract " +:+ src))) ;;;
  when (negb (c_persist_mb o =? 0)) (call (Log (snprintf 512 ("  4. persist casper-rw " +:+ dec (c_persist_mb o) +:+ "MB")))) ;;;
  call (Log (snprintf 512 ("  5. install-boot " +:+ dst +:+ " (syslinux MBR)"))).
(** what happens on the mounted partition *)
Definition fill_extract (src mnt : string) (o : RufuxCreateOpts) : io (cres unit) :=
  rufux_extract_iso_progress fuel src mnt false (extract_progress 8 74) ?;;
  autorun_step mnt o false ?;;
  (if c_persist_mb o =? 0 then ok tt else rufux_create_persist mnt "casper-rw" (c_persist_mb o) false).
Definition flow_extract_disk (src dst : string) (o : RufuxCreateOpts) : io (cres unit) :=
  let p1 := part1 dst in
  vfat_size_guard src (c_fs o) ?;;
  if c_dry_run o && has_log then plan_extract src dst p1 o ;;; ok tt
  else
    rufux_partition fuel stale_errno dst (part_opts (c_scheme o) "single" (c_fs o) false o) ?;;
    stage 4 ;;; rescan_disk dst ;;;
    wait_node p1 ?;;
    zero_step p1 o 4 2 ?;;
    format_step p1 (c_fs o) o 512 ?;;
    stage 8 ;;;
    syslinux_step p1 o ?;;
    mnt <-? rufux_mount fuel p1 false 512 ;;
    r <- fill_extract src mnt o ;;
    stage 88 ;;;
    when (is_ok r) (rufux_bootcheck_tree sha certs mnt ;;; Ret tt) ;;;
    when (is_ok r && c_uefi_validate o)
      (validate_step (snprintf 768 (mnt +:+ "/EFI/BOOT/bootx64.efi"))
         "UEFI media validation: EFI executable header OK (subsystem check only; no signature verified)."
         (Some "UEFI media validation: no EFI/BOOT/bootx64.efi found, skipping.") 512) ;;;
    stage 90 ;;;
    r <- unmount_step p1 "extracted but unmount failed: " r ;;
    r <- if_ok r (rufux_install_mbr dst (boot_opts o)) ;;
    when (is_ok r) (stage 100) ;;;
    Ret r.

Definition flow_format (dst : string) (o : RufuxCreateOpts) : io (cres unit) :=
  b <- is_block dst ;;
  if (b : bool) then
    call (Log (snprintf 512 ("Plan: partition " +:+ dst +:+ " " +:+ c_scheme o +:+ "/single, format " +:+ c_fs o +:+ ", MBR (non bootable)"))) ;;;
    if c_dry_run o then ok tt
    else
      rufux_partition fuel stale_errno dst (part_opts (c_scheme o) "single" (c_fs o) false o) ?;;
      stage 30 ;;; rescan_disk dst ;;;
      let p1 := part1 dst in
      wait_node p1 ?;;
      zero_step p1 o 30 10 ?;;
      format_step p1 (c_fs o) o 512 ?;;
      stage 85 ;;;
      syslinux_step p1 o ?;;
      rufux_install_mbr dst (boot_opts o) ?;;
      stage 100 ;;; ok tt
  else
    call (Log (snprintf 512 ("Plan: format file " +:+ dst +:+ " as " +:+ c_fs o +:+ " (non bootable)"))) ;;;
    if c_dry_run o then ok tt
    else rufux_format point dst (mkfs_opts (c_fs o) o true) ?;; stage 100 ;;; ok tt.

Definition flow_dos (dst : string) (o : RufuxCreateOpts) : io (cres unit) :=
  call (Log "Plan: DOS partition, FAT32, FreeDOS system files + boot record, DOS MBR") ;;;
  if c_dry_run o then ok tt
  else
    b <- is_block dst ;;
    if negb b then fail ("dos mode needs a block device (got '" +:+ dst +:+ "')")
    else
      fd <- rufux_freedos_dir ;;
      match fd with
      | None => fail "FreeDOS payload not found (needs res/freedos or /usr/share/rufux/freedos)"
      | Some fd =>
          rufux_partition fuel stale_errno dst (part_opts "dos" "single" "vfat" false o) ?;;
          stage 10 ;;; rescan_disk dst ;;;
          let p1 := part1 dst in
          wait_node p1 ?;;
          rufux_format point p1 (mkfs_opts "vfat" o false) ?;;
          stage 20 ;;;
          mnt <-? rufux_mount fuel p1 false 512 ;;
          r <- rufux_dos_copy_files fd mnt ;;
          stage 70 ;;;
          r <- unmount_step p1 "files copied but unmount failed: " r ;;
          r <- if_ok r (rufux_dos_pbr_fd32 p1 0 (snprintf 12 (default "FREEDOS" (c_label o))) ?;; rufux_dos_mbr dst) ;;
          stage (if is_ok r then 100 else 70) ;;;
          Ret r
      end.

(** ** Windows media *)
(** the name of the second partition from that of the first *)
Definition p2_of (p1 : string) : option string :=
  match last_char p1 with
  | Some "1"%char => if (String.length p1 <? 2)%nat then None else Some (stake (String.length p1 - 1) p1 +:+ "2")
  | _ => None
  end.
(** the size of a file, case ignored in every component *)
Definition find_ci (root relpath : string) : io (option Z) :=
  r <- fold_io (resolve_seg 1152) (tok_char "/" (snprintf 512 relpath)) (snprintf 1152 root) ;;
  match r with
  | inr _ => Ret None
  | inl cur => st <- call (Stat cur) ;; Ret (st_size <$> st)
  end.
Definition positive (s : option Z) : bool := match s with Some n => 0 <? n | None => false end.
Definition MUST : list string :=
  ["bootmgr"; "setup.exe"; "sources/setup.exe"; "sources/boot.wim"; "boot/bcd"; "efi/microsoft/boot/bcd"].
Definition LOADERS : list string := ["efi/boot/bootx64.efi"; "efi/boot/bootia32.efi"; "efi/boot/bootaa64.efi"].
Definition INST : list string := ["sources/install.wim"; "sources/install.esd"; "sources/install.swm"].
Definition missing (root p : string) : io (option string) := s <- find_ci root p ;; Ret (if positive s then None else Some p).
Definition there (root p : string) : io (option (string * Z)) :=
  s <- find_ci root p ;; Ret (if positive s then Some (p, default 0 s) else None).
Definition verify_windows_tree (root : string) : io (cres unit) :=
  m <- first_io (missing root) MUST ;;
  match m with
  | Some p => fail ("extraction incomplete: '" +:+ p +:+ "' is missing or empty on the stick (Windows Setup reports this as a missing media driver)")
  | None =>
      l <- first_io (there root) LOADERS ;;
      match l with
      | None => fail "extraction incomplete: no efi/boot/boot*.efi on the stick"
      | Some _ =>
          i <- first_io (there root) INST ;;
          match i with
          | Some (p, sz) => call (Log (snprintf 1280 ("Verified " +:+ p +:+ " (" +:+ mib sz +:+ " MiB) on the stick."))) ;;; ok tt
          | None => fail "extraction incomplete: sources/install.wim|esd|swm missing on the stick"
          end
      end
  end.

Definition wue_args (o : RufuxCreateOpts) : RufuxWueArgs := WueArgs_ (c_wue o) (c_locale o) (c_keyboard o) (c_timezone o).
Definition is_fat_fs (fs : string) : bool := String.eqb fs "vfat" || String.eqb fs "fat32".
Definition plan_windows (src dst : string) (fat gpt : bool) (o : RufuxCreateOpts) : string :=
  snprintf 1024 ("steps:" +:+ LF +:+ "  1. partition " +:+ dst +:+ " " +:+ (if gpt then "gpt" else "dos") +:+ ": "
    +:+ (if fat then (if gpt then "one FAT32 partition, 1 MiB BIOS boot last" else "one FAT32 partition")
         else (if gpt then "NTFS data partition first, 1 MiB UEFI:NTFS, 1 MiB BIOS boot last"
               else "NTFS data partition first, 1 MiB UEFI:NTFS last")) +:+ LF
    +:+ "  2. " +:+ (if fat then "format partition 1 as FAT32"
                     else "write UEFI:NTFS image to partition 2 (raw), format partition 1 as NTFS") +:+ LF
    +:+ "  3. mount partition 1, extract " +:+ src +:+ (if fat then " (install.wim split with wimlib if over 4 GiB)" else "") +:+ LF
    +:+ "  4. Windows customization (" +:+ default "none" (c_wue o) +:+ ")" +:+ LF
    +:+ "  5. verify the copied Windows tree" +:+ LF
    +:+ "  6. install legacy BIOS boot code (GRUB 2 " +:+ (if gpt then "in the BIOS boot partition" else "in the MBR gap")
    +:+ ", starts bootmgr)").
(** UEFI:NTFS goes raw onto the second partition *)
Definition uefi_ntfs_step (fat : bool) (p2 : string) : io (cres unit) :=
  if fat then ok tt
  else
    wait_node p2 ?;;
    call (Log "Writing UEFI:NTFS boot partition...") ;;;
    rufux_write_uefi_ntfs fuel p2.
(** one retry after another rescan *)
Definition mount_twice (dst p1 : string) : io (cres string) :=
  m <- rufux_mount fuel p1 false 512 ;;
  match m with
  | Ok mnt => ok mnt
  | Fail _ => rescan_disk dst ;;; rufux_mount fuel p1 false 512
  end.
Definition fill_windows (src mnt : string) (fat : bool) (o : RufuxCreateOpts) : io (cres unit) :=
  (if fat || negb (c_split_wim_mb o =? 0) then
     rufux_extract_windows_split fuel point src mnt (if c_split_wim_mb o =? 0 then 3800 else c_split_wim_mb o)
       (negb (c_split_wim_mb o =? 0)) (extract_progress 10 70)
   else rufux_extract_iso_progress fuel src mnt false (extract_progress 10 70)) ?;;
  match c_wue o with
  | Some w => if String.eqb w "none" then ok tt else rufux_windows_customize fuel mnt (wue_args o)
  | None => ok tt
  end.
(** legacy BIOS boot code; without it the drive is still a UEFI installer *)
Definition bios_step (dst mnt : string) : io bool :=
  call (Log "Installing legacy BIOS boot code...") ;;;
  b <- rufux_windows_bios_install fuel stale_errno dst mnt ;;
  match b with
  | Ok _ => Ret true
  | Fail be =>
      call (Log (snprintf 1024 ("WARNING: no legacy BIOS boot code: " +:+ snprintf 512 be +:+ ". The drive boots on UEFI machines only."))) ;;;
      Ret false
  end.
Definition ntfsfix_step (p1 : string) : io unit :=
  h <- rufux_have "ntfsfix" ;;
  when h (r <- rufux_run ["ntfsfix"; "-d"; p1] false ;;
          when (negb r) (call (Log "WARNING: could not clear the NTFS dirty flag (ntfsfix failed)."))).
(** from the mounted partition to the end *)
Definition finish_windows (src dst p1 mnt : string) (fat : bool) (o : RufuxCreateOpts) : io (cres unit) :=
  r <- fill_windows src mnt fat o ;;
  stage 88 ;;;
  r <- if_ok r (verify_windows_tree mnt) ;;
  when (is_ok r) (rufux_bootcheck_tree sha certs mnt ;;; Ret tt) ;;;
  when (is_ok r && c_uefi_validate o)
    (validate_step (snprintf 768 (mnt +:+ "/efi/boot/bootx64.efi"))
       "UEFI media validation: Windows bootloader header OK (subsystem check only)." None 1024) ;;;
  stage 90 ;;;
  bios_ok <- (if is_ok r then bios_step dst mnt else Ret false) ;;
  call Sync ;;;
  r <- unmount_step p1 "installed but unmount failed: " r ;;
  when (is_ok r && negb fat) (ntfsfix_step p1) ;;;
  when (is_ok r)
    (call (Log (if bios_ok : bool then "This drive boots on both UEFI and legacy BIOS machines."
                else "NOTE: this drive boots on UEFI machines only (no legacy BIOS boot code was installed).")) ;;;
     stage 100) ;;;
  Ret r.
Definition flow_windows (src dst : string) (o : RufuxCreateOpts) : io (cres unit) :=
  let gpt := negb (String.eqb (c_scheme o) "dos") in
  let fat := is_fat_fs (c_fs o) in
  let fsname := if fat then "vfat" else "ntfs" in
  if negb fat && negb (String.eqb (c_fs o) "ntfs") then
    fail ("Windows media supports FAT32 (vfat) or NTFS, not '" +:+ c_fs o +:+ "'")
  else
    let p1 := part1 dst in
    if c_dry_run o && has_log then call (Log (plan_windows src dst fat gpt o)) ;;; ok tt
    else
      Ret (rufux_windows_check (wue_args o)) ?;;
      match (if fat then Some "" else p2_of p1) with
      | None => fail ("cannot derive the UEFI:NTFS partition from '" +:+ p1 +:+ "'")
      | Some p2 =>
          rufux_partition fuel stale_errno dst
            (part_opts (if gpt then "gpt" else "dos") (if fat then "single" else "main+uefintfs") fsname gpt o) ?;;
          stage 5 ;;; rescan_disk dst ;;;
          wait_node p1 ?;;
          uefi_ntfs_step fat p2 ?;;
          zero_step p1 o 5 3 ?;;
          wiped <- wipe_part_edges p1 ;;
          if negb wiped then
            fail ("cannot write to '" +:+ p1 +:+ "': " +:+ stale_errno +:+ " (write-protected or failing drive?)")
          else
            format_step p1 fsname o 1024 ?;;
            rescan_disk dst ;;; stage 10 ;;;
            mnt <-? mount_twice dst p1 ;;
            finish_windows src dst p1 mnt fat o
      end.

(** * The whole *)
Definition settle_scheme (o : RufuxCreateOpts) : RufuxCreateOpts :=
  if String.eqb (c_scheme o) "mbr" then set_scheme o "dos" else o.
Definition headline (src : option string) (dst : string) (o : RufuxCreateOpts) : string :=
  snprintf 1024 ("Rufux: " +:+ default "(none)" src +:+ " -> " +:+ dst +:+ " [mode=" +:+ c_mode o +:+ " scheme="
    +:+ c_scheme o +:+ " fs=" +:+ c_fs o +:+ " label=" +:+ label_text o +:+ "]" +:+ (if c_dry_run o then " [dry-run]" else "")).
(** a block device: root, then nothing of it mounted *)
Definition claim_disk (dst : string) : io (cres unit) :=
  rufux_need_root_for_block dst ?;;
  u <- unmount_disk dst false ;;
  Ret (match u with
       | Fail "" => Fail ("cannot unmount " +:+ dst +:+ " (close files and retry)")
       | r => r
       end).
Definition smart_step (dst : string) (o : RufuxCreateOpts) : io (cres unit) :=
  b <- is_block dst ;;
  if negb b then ok tt
  else if c_dry_run o then call (Log "+ SMART health check (smartctl) [dry-run]") ;;; ok tt
  else
    s <- rufux_smart_check fuel dst ;;
    let '(ss, sm) := s in
    call (Log sm) ;;;
    match ss with
    | RUFUX_SMART_FAILED =>
        if c_ignore_smart o then ok tt else fail (sm +:+ ". Refusing to write; use --ignore-smart to override")
    | _ => ok tt
    end.
Definition badblocks_step (dst : string) (o : RufuxCreateOpts) : io (cres unit) :=
  if c_badblock_passes o <=? 0 then ok tt
  else if negb (c_dry_run o) then
    run_badblocks dst (c_badblock_passes o) (c_allow_file o) 0 (if String.eqb (c_mode o) "dd" then 10 else 8)
  else
    call (Log (snprintf 1024 ("+ bad-blocks check " +:+ dec (c_badblock_passes o) +:+ " pass(es) on " +:+ dst +:+ " [dry-run]"))) ;;;
    ok tt.
Definition full_step (dst : string) (o : RufuxCreateOpts) : io (cres unit) :=
  if negb (c_dry_run o) && negb (c_quick_format o) then
    b <- is_block dst ;;
    if b && String.eqb (c_mode o) "dd" then in_window 10 5 (zero_head dst) else ok tt
  else ok tt.
Definition dispatch (src : option string) (dst : string) (o : RufuxCreateOpts) : io (cres unit) :=
  let img := default "" src in
  if String.eqb (c_mode o) "dd" then flow_dd img dst o
  else if String.eqb (c_mode o) "extract" then
    d <- is_dir dst ;;
    if d : bool then flow_extract_dir img dst o else flow_extract_disk img dst o
  else if String.eqb (c_mode o) "format" then flow_format dst o
  else if String.eqb (c_mode o) "dos" then flow_dos dst o
  else if String.eqb (c_mode o) "windows" then
    match src with Some s => flow_windows s dst o | None => fail "windows mode needs an image" end
  else fail ("unknown mode '" +:+ c_mode o +:+ "' (dd|extract|format|dos|windows)").
Definition rufux_create (src : option string) (dst : string) (opts : RufuxCreateOpts) : io (cres unit) :=
  let o := settle_scheme opts in
  call (Log (headline src dst o)) ;;;
  if negb (c_dry_run o) && negb (c_yes o) then fail "refusing real run without --yes (use --dry-run to plan)"
  else
    (if c_dry_run o then ok tt
     else b <- is_block dst ;; if b : bool then claim_disk dst else ok tt) ?;;
    smart_step dst o ?;;
    badblocks_step dst o ?;;
    full_step dst o ?;;
    dispatch src dst o ?;;
    call (Log (if c_dry_run o then "Plan OK (dry-run, nothing written)." else "Done.")) ;;;
    ok tt.
End Create.
