(* ===== verification/CreateSpec.v ===== *)
(** What the flows of src/src/linux/create.c promise: nothing is changed without
    consent or in a dry run that reports its plan, the percentages stay on the
    bar, the phases run in order; and where the guard on fixed disks comes too
    late. *)
From S2P Require Import Prelude Cstr Double Sys Exec Device DeviceSpec Writer WriterSpec Vhd Badblocks Vdisk.
From S2P Require Import VdiskSpec Partition Mkfs Host Bootcheck Iso Wue Dosboot Biosboot BiosbootSpec Extract.
From S2P Require Import ExtractSpec Create.

(** * Consent *)
(** A call that changes nothing: harmless, or one of qemu-img's inspections. *)
Definition inert {X : Set} (e : ev X) : bool :=
  match e with
  | PipeSpawn (a :: b :: _) => String.eqb a "qemu-img" && (String.eqb b "info" || String.eqb b "check")
  | e => negb (touches e)
  end.
Definition inert_ev : forall X : Set, ev X -> Prop := fun X e => inert e = true.
Lemma harmless_inert X (e : ev X) : harmless X e -> inert_ev X e.
Proof. unfold harmless, inert_ev. destruct e; cbn; try done; by intros ->. Qed.
Lemma always_harmless_inert {A} (m : io A) : always harmless m -> always inert_ev m.
Proof. apply always_mono, harmless_inert. Qed.
#[local] Hint Resolve always_harmless_inert : rufux.
#[local] Hint Extern 1 (inert_ev _ _) => reflexivity : rufux.

Lemma always_remap {A} P f g (m : io A) :
  (forall d t, always P (f d t)) -> (forall d t, always P (g d t)) -> always P m -> always P (remap f g m).
Proof.
  intros Hf Hg. induction m as [a|X e k IH|]; cbn; [done| |done].
  intros [He Hk]. destruct e; cbn; try (split; [exact He|]; intros x; by apply IH).
  all: apply always_bind; [done|]; intros []; by apply IH.
Qed.

Lemma rufux_write_image_inert fuel src dst opts :
  dry_run opts = true \/ yes opts = false -> always harmless (rufux_write_image fuel src dst opts).
Proof.
  intros H. unfold rufux_write_image. always_tac. all: destruct H as [H|H]; rewrite H in *; discriminate.
Qed.
Lemma rufux_vhd_adjust_harmless src w : always harmless (rufux_vhd_adjust src w).
Proof. unfold rufux_vhd_adjust, rufux_vhd_probe. always_tac. Qed.
Lemma ref_member_harmless self dir k v : always harmless (ref_member self dir k v).
Proof. unfold ref_member. always_tac. Qed.
#[local] Hint Resolve ref_member_harmless rufux_vhd_adjust_harmless : rufux.
Lemma refs_ok_harmless : forall j self dir, always harmless (refs_ok j self dir).
Proof.
  fix IH 1. intros j self dir. destruct j as [| | | |l|l]; try exact I; cbn [refs_ok].
  all: induction l as [|v l IHl]; [exact I|].
  2: destruct v as [k v].
  all: always_tac; try apply IH; apply IHl.
Qed.
#[local] Hint Resolve refs_ok_harmless : rufux.
Lemma vdisk_kind_harmless src : always harmless (vdisk_kind src).
Proof. unfold vdisk_kind, rufux_vhd_probe, sniff, read_head. always_tac. Qed.
#[local] Hint Resolve vdisk_kind_harmless : rufux.
Lemma rufux_vdisk_detect_inert point fuel src : always inert_ev (rufux_vdisk_detect point fuel src).
Proof.
  unfold rufux_vdisk_detect, vdisk_inspect, damaged, rufux_capture, read_head, rufux_read_full, rufux_have, path_dirs.
  always_tac.
Qed.
Lemma rufux_vdisk_write_inert point fuel src vd dst opts :
  dry_run opts = true \/ yes opts = false -> always harmless (rufux_vdisk_write point fuel src vd dst opts).
Proof.
  intros H. unfold rufux_vdisk_write, target_size. always_tac.
  all: destruct H as [H|H]; rewrite H in *; discriminate.
Qed.
Lemma rufux_extract_dry fuel src dest prog : always harmless (rufux_extract_iso_progress fuel src dest true prog).
Proof.
  unfold rufux_extract_iso_progress, extract_with, extract_7z, rufux_iso_is_udf. always_tac.
Qed.
#[local] Hint Resolve rufux_vdisk_detect_inert rufux_extract_dry : rufux.

Lemma mapped_inert b s d t : always inert_ev (mapped b s d t).
Proof. done. Qed.
Lemma remap_inert {A} b s b' s' (m : io A) : always inert_ev m -> always inert_ev (remap (mapped b s) (mapped b' s') m).
Proof. intros. apply always_remap; auto using mapped_inert. Qed.
#[local] Hint Resolve remap_inert : rufux.

Lemma rufux_vhd_adjust_keeps src w t w' :
  exec (rufux_vhd_adjust src w) t (Ok w') -> dry_run w' = dry_run w.
Proof.
  intros (t1 & [i|] & t2 & -> & _ & H)%exec_bind; [|by destruct H as [_ [= ->]]].
  revert H. repeat case_match; try (by intros [_ ?]; simplify_eq).
  intros (x & u & -> & Hx). by destruct Hx as [_ [= ->]].
Qed.
Lemma flow_dd_dry fuel point src dst o : c_dry_run o = true -> always inert_ev (flow_dd fuel point src dst o).
Proof.
  intros Hd. unfold flow_dd. cbv zeta. apply always_try; [auto with rufux|]. intros [vd|].
  - always_tac; try done. apply remap_inert, always_harmless_inert, rufux_vdisk_write_inert. by left.
  - apply always_bind_exec; [auto with rufux|]. intros t [w'|m] Hw; [|exact I].
    apply rufux_vhd_adjust_keeps in Hw. always_tac; try done.
    apply remap_inert, always_harmless_inert, rufux_write_image_inert. left. by rewrite Hw.
Qed.
#[local] Hint Resolve flow_dd_dry : rufux.

(** with a logger every mode of a dry run only prints its plan, or reads *)
Lemma dispatch_dry fuel point stale sha certs has_prog src dst o :
  c_dry_run o = true -> always inert_ev (dispatch fuel point stale sha certs true has_prog src dst o).
Proof.
  intros Hd.
  unfold dispatch, flow_extract_dir, flow_extract_disk, flow_format, flow_dos, flow_windows, is_dir, is_block,
    vfat_size_guard, file_size, autorun_step, plan_extract, stage, rufux_write_autorun.
  cbv zeta. rewrite Hd. cbn [andb negb]. always_tac.
Qed.

Lemma settle_scheme_keeps o : c_dry_run (settle_scheme o) = c_dry_run o /\ c_yes (settle_scheme o) = c_yes o.
Proof. unfold settle_scheme. by destruct (String.eqb _ _). Qed.
Lemma rufux_create_dry fuel point stale sha certs has_prog src dst o :
  c_dry_run o = true -> always inert_ev (rufux_create fuel point stale sha certs true has_prog src dst o).
Proof.
  intros E. destruct (settle_scheme_keeps o) as [Hd _]. unfold rufux_create. cbv zeta.
  assert (H : c_dry_run (settle_scheme o) = true) by congruence. pose proof dispatch_dry.
  unfold smart_step, badblocks_step, full_step, is_block. rewrite H. cbn [andb negb]. always_tac.
Qed.

(** C5: nothing is changed without consent. A real run without --yes, and a dry
    run that has a logger to report to, make no call that writes, makes or
    removes a file, mounts, or starts a program, in every mode, whatever the
    system answers, except for qemu-img's two read-only inspections of the
    source; without --yes a real run also fails. *)
Theorem rufux_create_consent fuel point stale sha certs has_prog src dst o :
  let m := rufux_create fuel point stale sha certs true has_prog src dst o in
  (c_dry_run o = true -> always inert_ev m) /\
  (c_dry_run o = false -> c_yes o = false ->
     always inert_ev m /\
     forall t r, exec m t r -> r = Fail "refusing real run without --yes (use --dry-run to plan)").
Proof.
  cbv zeta. split; [apply rufux_create_dry|]. destruct (settle_scheme_keeps o) as [Hd Hy]. unfold rufux_create.
  cbv zeta. intros E1 E2. rewrite Hd, Hy, E1, E2. cbn [andb negb]. split; [always_tac|].
  intros t r ([] & u & -> & H). by destruct H as [-> ->].
Qed.
Lemma rufux_create_consent_witness :
  let o := CreateOpts_ "dos" "gpt" "vfat" None None 0 None None None 0 0 true true false 0 false false true true false true in
  always inert_ev (rufux_create 9 "." "" (fun b => b) (fun _ => None) true true None "/dev/sda" o).
Proof. apply (proj1 (rufux_create_consent 9 "." "" _ _ true None "/dev/sda" _)). reflexivity. Defined.

(** * Two guards that do not hold *)
(** a removable disk (or a fixed one), and tools that all work *)
Definition disk_env (removable : string) : oracle := fun X e =>
  match e in ev X return X with
  | Stat p => Some (if starts_with "/dev/" p then Stat_ KBlk 0 0 0 else Stat_ KReg 1000 0 1)
  | Opendir p => if String.eqb p "/sys/block" then Some ["sdb"] else None
  | ReadText p => Some (if String.eqb p "/proc/mounts" then "" else if String.eqb p "/sys/block/sdb/removable" then removable else "2000000")
  | Access p m => match m with F_OK => true | _ => contains "sfdisk" p end
  | Open _ _ => inr 7
  | GetSize64 _ => Some (2 ^ 30)
  | Mkstemp _ => Some ("/tmp/s", 3)
  | Write _ b => inr (zlen b)
  | Fread _ _ | PipeRead _ _ => []
  | e => default_answer e
  end.
Definition stateless (E : oracle) : handler unit := fun X e w => (E X e, w).

(** Without a logger a dry run is real. Called with dry_run set and yes not
    set, but no log callback, rufux_create in extract mode partitions the
    disk: it runs sfdisk on it, with --wipe always. *)
Theorem dry_run_without_logger_writes fuel' :
  let o := CreateOpts_ "extract" "gpt" "vfat" None None 0 None None None 0 0 true true false 0 false false true false false false in
  c_dry_run o = true /\ c_yes o = false /\
  exists t r tmpl,
    exec (rufux_create (9 + fuel') "." "" (fun b => b) (fun _ => None) false true (Some "a.iso") "/dev/sdb" o) t r /\
    In (Obs (Spawn ["sfdisk"; "--wipe"; "always"; "--wipe-partitions"; "always"; "/dev/sdb"] (Some tmpl)) (Exited 0)) t.
Proof.
  cbv zeta. split; [done|]. split; [done|].
  eexists _, _, "/tmp/s". split.
  - apply (run_computed (stateless (disk_env "1")) _ tt). vm_compute. reflexivity.
  - vm_compute. intuition.
Qed.

(** ** Clearing the first 16 MiB *)
Lemma zlen_zeros n : 0 <= n -> zlen (zeros n) = n.
Proof. intros. unfold zeros. rewrite zlen_replicate. lia. Qed.
(** one write of each MiB: what happens when the device takes them whole *)
Lemma zero_mib_exec fuel fd :
  exec (zero_mib (S (S fuel)) fd) [Obs (Write fd (zeros MIB)) (inr MIB)] None.
Proof.
  unfold zero_mib. cbn [loop]. rewrite Z.sub_0_r. cbn [Z.ltb].
  replace (0 <? MIB) with true by done. eexists _, _. split; [reflexivity|]. cbn [bind].
  rewrite Z.add_0_l, Z.ltb_irrefl. done.
Qed.
Definition cleared (fd : Z) (i : Z) : list obs :=
  [Obs (Write fd (zeros MIB)) (inr MIB); Obs (Progress (i + 1) 16) tt].
Lemma zero_head_exec fuel dst fd :
  exec (zero_head (S (S fuel)) dst)
    (Obs (Log "Clearing first 16MB (full format)...") tt :: Obs (Open dst O_WRONLY) (inr fd) ::
     concat (map (cleared fd) (seqZ 0 16)) ++ [Obs (Fsync fd) None; Obs (Close fd) tt]) (Ok tt).
Proof.
  unfold zero_head. eexists _, _. split; [reflexivity|]. cbn [bind call].
  eexists _, _. split; [reflexivity|]. cbn [bind call].
  eapply exec_bind_app.
  - assert (H : forall l, exec (fold_io (fun (_ : unit) i =>
        z <- zero_mib (S (S fuel)) fd ;;
        match z with Some m => Ret (inr m) | None => call (Progress (i + 1) 16) ;;; Ret (inl tt) end) l tt)
      (concat (map (cleared fd) l)) (inl tt : unit + string)).
    { intros l. induction l as [|i l IH]; [done|]. cbn [fold_io map concat].
      apply (exec_bind_app _ _ (cleared fd i) _ (inl tt)); [|exact IH]. unfold cleared.
      apply (exec_bind_app _ _ [Obs (Write fd (zeros MIB)) (inr MIB)] [Obs (Progress (i + 1) 16) tt] None); [apply zero_mib_exec|].
      eexists _, _. split; [reflexivity|]. done. }
    apply H.
  - eexists _, _. split; [reflexivity|]. cbn [bind call]. eexists _, _. split; [reflexivity|]. done.
Qed.
(** a window only changes what the progress callback is told *)
Definition windowed (b s : Z) (o : obs) : obs :=
  match o with
  | Obs e x =>
      match e in ev X return X -> obs with
      | Progress d t | VProgress d t => fun _ => Obs (Progress (mapped_pct b s d t) 100) tt
      | e => fun x => Obs e x
      end x
  end.
Lemma in_window_exec {A} b s (m : io A) t a : exec m t a -> exec (in_window b s m) (map (windowed b s) t) a.
Proof.
  unfold in_window. revert t; induction m as [r|X e k IH|]; intros t; cbn; [by intros [-> ->]| |done].
  intros (x & u & -> & H). specialize (IH _ _ H). destruct e; cbn; eauto.
  all: destruct x; eauto.
Qed.
Lemma writes_windowed fd b s t : writes fd (map (windowed b s) t) = writes fd t.
Proof.
  induction t as [|[X e x] t IH]; [done|]. unfold writes in *. cbn [map concat]. rewrite IH. by destruct e.
Qed.
Lemma writes_cleared fd l : writes fd (concat (map (cleared fd) l)) = concat (map (fun _ => zeros MIB) l).
Proof.
  induction l as [|i l IH]; [done|]. cbn [map concat]. rewrite writes_app, IH. f_equal.
  unfold writes, cleared. cbn [map concat written_by]. rewrite Z.eqb_refl, app_nil_r.
  by rewrite ztake_all by (rewrite zlen_zeros; [lia|done]).
Qed.

Lemma zero_window_trace fuel dst fd b s :
  exists t, exec (in_window b s (zero_head (S (S fuel)) dst)) t (Ok tt) /\
    writes fd t = concat (map (fun _ => zeros MIB) (seqZ 0 16)) /\ In (Obs (Open dst O_WRONLY) (inr fd)) t.
Proof.
  eexists. split; [apply in_window_exec, zero_head_exec|]. generalize (seqZ 0 16) as l. intros l.
  split; [|apply in_cons, in_eq].
  rewrite writes_windowed, !writes_skip by done. rewrite writes_app, writes_cleared. apply app_nil_r.
Qed.

(** The guard on fixed disks comes after the damage. rufux_create in dd mode
    with a full (not quick) format, on a disk whose removable flag is 0 and
    without --allow-fixed, writes 16 MiB of zeros over the start of the disk and
    only then refuses it. *)
Theorem full_format_clears_fixed_disk fuel :
  let o := CreateOpts_ "dd" "gpt" "vfat" None None 0 None None None 0 0 false true false 0 false false false false false true in
  c_allow_fixed o = false /\
  exists t,
    exec (rufux_create (9 + fuel) "." "" (fun b => b) (fun _ => None) true true (Some "a.iso") "/dev/sdb" o) t
      (Fail "refusing fixed disk '/dev/sdb' without --allow-fixed") /\
    In (Obs (ReadText "/sys/block/sdb/removable") (Some "0")) t /\
    In (Obs (Open "/dev/sdb" O_WRONLY) (inr 7)) t /\
    writes 7 t = concat (map (fun _ => zeros MIB) (seqZ 0 16)).
Proof.
  cbv zeta. split; [done|].
  set (o := CreateOpts_ "dd" _ _ _ _ _ _ _ _ _ _ _ _ _ _ _ _ _ _ _ _).
  set (E := stateless (disk_env "0")).
  set (mA := b <- is_block "/dev/sdb" ;; if b : bool then claim_disk (9 + fuel) "/dev/sdb" else ok tt).
  set (mB := smart_step (9 + fuel) "/dev/sdb" o).
  set (mD := dispatch (9 + fuel) "." "" (fun b => b) (fun _ => None) true true (Some "a.iso") "/dev/sdb" o).
  assert (HA : exec mA (run E mA tt).1.2 (Ok tt)) by (apply (run_computed E); vm_compute; reflexivity).
  assert (HB : exec mB (run E mB tt).1.2 (Ok tt)) by (apply (run_computed E); vm_compute; reflexivity).
  assert (HD : exec mD (run E mD tt).1.2 (Fail "refusing fixed disk '/dev/sdb' without --allow-fixed"))
    by (apply (run_computed E); vm_compute; reflexivity).
  assert (WA : writes 7 (run E mA tt).1.2 = []) by (vm_compute; reflexivity).
  assert (WB : writes 7 (run E mB tt).1.2 = []) by (vm_compute; reflexivity).
  assert (WD : writes 7 (run E mD tt).1.2 = []) by (vm_compute; reflexivity).
  assert (ID : In (Obs (ReadText "/sys/block/sdb/removable") (Some "0")) (run E mD tt).1.2)
    by (vm_compute; intuition).
  destruct (zero_window_trace (7 + fuel) "/dev/sdb" 7 10 5) as (tC & HC & WC & IC).
  clearbody E.
  exists (Obs (Log (headline (Some "a.iso") "/dev/sdb" o)) tt :: (run E mA tt).1.2 ++ (run E mB tt).1.2 ++ [] ++
          (Obs (Stat "/dev/sdb") (Some (Stat_ KBlk 0 0 0)) :: tC) ++ (run E mD tt).1.2).
  split_and!.
  - unfold rufux_create. change (settle_scheme o) with o. cbv zeta. eexists _, _. split; [reflexivity|].
    refine (exec_bind_app mA _ _ _ (Ok tt) _ HA _). refine (exec_bind_app mB _ _ _ (Ok tt) _ HB _).
    refine (exec_bind_app (badblocks_step (9 + fuel) "" "/dev/sdb" o) _ [] _ (Ok tt) _ _ _); [by split|].
    refine (exec_bind_app (full_step (9 + fuel) "/dev/sdb" o) _ _ _ (Ok tt) _ _ _); [eexists _, _; split; [reflexivity|exact HC]|].
    rewrite <- (app_nil_r (run E mD tt).1.2). refine (exec_bind_app mD _ _ [] (Fail _) _ HD _). by split.
  - apply in_cons. rewrite !in_app_iff. auto 10.
  - apply in_cons. rewrite !in_app_iff. do 3 right. left. by apply in_cons.
  - rewrite writes_skip by done. rewrite !writes_app, WA, WB, WD. cbn [app].
    rewrite writes_skip by done. by rewrite WC, app_nil_r.
Qed.

(** * Progress *)
(** a stage's percent stays in the stage's window and on the bar *)
Lemma mapped_pct_window base span done_ total :
  0 <= base <= 100 -> 0 <= span -> base <= mapped_pct base span done_ total <= Z.min 100 (base + span).
Proof.
  intros Hb Hs. unfold mapped_pct. pose proof (Z.mod_pos_bound total (2 ^ 64) ltac:(lia)) as Ht. fold (wrap64 total) in Ht.
  pose proof (Z.mod_pos_bound (span * done_) (2 ^ 64) ltac:(lia)) as Hd. fold (wrap64 (span * done_)) in Hd.
  cbv zeta. destruct (Z.eqb_spec (wrap64 total) 0); [destruct (Z.ltb_spec 100 base); lia|].
  pose proof (Z.div_pos (wrap64 (span * done_)) (wrap64 total)).
  destruct (Z.ltb_spec 100 (base + Z.min (wrap64 (span * done_) / wrap64 total) span)); lia.
Qed.

(** * The Windows tree *)
Lemma first_io_None {B A} (f : B -> io (option A)) l t :
  exec (first_io f l) t None -> forall x, In x l -> during (f x) None t.
Proof.
  revert t; induction l as [|b l IH]; intros t H x Hx; [done|].
  apply exec_bind in H as (t1 & [a|] & t2 & -> & H1 & H2); [by destruct H2|].
  destruct Hx as [<-|Hx]; [by apply (during_exec _ _ _ [])|].
  apply (IH _ H2) in Hx. apply (during_app _ _ _ t1 []) in Hx. by rewrite app_nil_r in Hx.
Qed.
Lemma first_io_Some {B A} (f : B -> io (option A)) l t a :
  exec (first_io f l) t (Some a) -> exists x, In x l /\ during (f x) (Some a) t.
Proof.
  revert t; induction l as [|b l IH]; intros t H; [by destruct H|].
  apply exec_bind in H as (t1 & [a'|] & t2 & -> & H1 & H2).
  - destruct H2 as [-> [= ->]]. exists b. split; [by left|]. by apply (during_exec _ _ _ []).
  - destruct (IH _ H2) as (x & ? & Hx). exists x. split; [by right|].
    apply (during_app _ _ _ t1 []) in Hx. by rewrite app_nil_r in Hx.
Qed.
(** a file with content was found, case ignored *)
Definition found (root p : string) (t : list obs) : Prop := exists n, 0 < n /\ during (find_ci root p) (Some n) t.
Lemma missing_None root p t : during (missing root p) None t -> found root p t.
Proof.
  intros (t1 & tm & t2 & -> & (t3 & s & t4 & -> & H & H2)%exec_bind). destruct H2 as [-> H2].
  destruct s as [n|]; [|done]. cbn in H2. destruct (Z.ltb_spec 0 n); [|done].
  exists n. split; [done|]. rewrite app_nil_r. by apply during_exec.
Qed.
Lemma there_Some root p q t : during (there root p) (Some q) t -> found root p t.
Proof.
  intros (t1 & tm & t2 & -> & (t3 & s & t4 & -> & H & H2)%exec_bind). destruct H2 as [-> H2].
  destruct s as [n|]; [|done]. cbn in H2. destruct (Z.ltb_spec 0 n); [|done].
  exists n. split; [done|]. rewrite app_nil_r. by apply during_exec.
Qed.
Lemma found_app root p t u v : found root p t -> found root p (u ++ t ++ v).
Proof. intros (n & ? & H). exists n. split; [done|]. by apply during_app. Qed.

(** Windows media is only reported as complete when Windows Setup finds
    what it looks for: after verify_windows_tree succeeds, each of bootmgr,
    setup.exe, sources/setup.exe, sources/boot.wim and the two BCD stores, one
    of the EFI loaders and one of install.wim, install.esd and install.swm was
    found on the stick, whatever the case of its name, with a size above 0. *)
Theorem verify_windows_tree_sound point root t :
  exec (verify_windows_tree point root) t (Ok tt) ->
  (forall p, In p MUST -> found root p t) /\
  (exists p, In p LOADERS /\ found root p t) /\ (exists p, In p INST /\ found root p t).
Proof.
  intros (t1 & [m|] & t2 & -> & H1 & H)%exec_bind; [by destruct H|].
  apply exec_bind in H as (t3 & [l|] & t4 & -> & H3 & H); [|by destruct H].
  apply exec_bind in H as (t5 & [[q sz]|] & t6 & -> & H5 & Hx); [clear Hx|by destruct Hx].
  apply first_io_Some in H3 as (p & Hp & H3%there_Some). apply first_io_Some in H5 as (p' & Hp' & H5%there_Some).
  split_and!.
  - intros x Hx. apply (first_io_None _ _ _ H1), missing_None in Hx. by apply (found_app _ _ _ []).
  - exists p. split; [done|]. by apply found_app.
  - exists p'. split; [done|]. rewrite app_assoc. by apply found_app.
Qed.
(** a stick with everything on it, in capitals *)
Definition full_stick : oracle := fun X e =>
  match e in ev X return X with
  | Opendir _ => Some ["BOOTMGR"; "SETUP.EXE"; "SOURCES"; "BOOT.WIM"; "BOOT"; "BCD"; "EFI"; "MICROSOFT"; "BOOTX64.EFI"; "INSTALL.SWM"]
  | Stat _ => Some (Stat_ KReg 5 0 0)
  | e => default_answer e
  end.
Lemma verify_windows_tree_sound_witness :
  exists t, (forall p, In p MUST -> found "/mnt" p t) /\
    (exists p, In p LOADERS /\ found "/mnt" p t) /\ (exists p, In p INST /\ found "/mnt" p t).
Proof.
  eexists. apply (verify_windows_tree_sound "." "/mnt" (run (stateless full_stick) (verify_windows_tree "." "/mnt") tt).1.2).
  apply run_computed. vm_compute. reflexivity.
Defined.
