(* ===== verification/Phases.v ===== *)
(** An abstract account of making a drive: the states a drive goes through and
    the steps between them, and when a program keeps to it. *)
From S2P Require Import Prelude Cstr Sys.

(** * The abstract drive *)
(** what is done to a drive: the table, a raw write to a device node, a file
    system, mounting, filling and unmounting *)
Inductive act := APart | ARaw (node : string) | AFormat | AMount | AFill | AUnmount.
Inductive drive := Raw | Partitioned | Formatted | Mounted | Closed | Booted.
(** Device nodes are written raw only while nothing is mounted. *)
Inductive drive_step : drive -> act -> drive -> Prop :=
| step_part : drive_step Raw APart Partitioned
| step_raw p : drive_step Partitioned (ARaw p) Partitioned
| step_format : drive_step Partitioned AFormat Formatted
| step_mount : drive_step Formatted AMount Mounted
| step_remount : drive_step Mounted AMount Mounted
| step_fill : drive_step Mounted AFill Mounted
| step_unmount : drive_step Mounted AUnmount Closed
| step_boot p : drive_step Closed (ARaw p) Booted
| step_boot_more p : drive_step Booted (ARaw p) Booted.
#[export] Hint Constructors drive_step : rufux.
Inductive drive_path : drive -> list act -> drive -> Prop :=
| path_nil s : drive_path s [] s
| path_cons s a s' l s'' : drive_step s a s' -> drive_path s' l s'' -> drive_path s (a :: l) s''.
#[export] Hint Constructors drive_path : rufux.

Lemma path_app s l s' k s'' : drive_path s l s' -> drive_path s' k s'' -> drive_path s (l ++ k) s''.
Proof. induction 1; cbn; eauto with rufux. Qed.
Lemma path_loop s l : (forall a, In a l -> drive_step s a s) -> drive_path s l s.
Proof. induction l as [|a l IH]; intros H; [constructor|]. econstructor; [apply H; by left|]. apply IH. intros b Hb. apply H. by right. Qed.
(** * The steps in a trace *)
(** a command line that makes a file system on a device (the persistence file
    is made by "mkfs.ext4 -F ..." in a mounted tree) *)
Definition formats (av : list string) : bool :=
  match av with
  | a :: b :: _ => starts_with "mkfs." a && negb (String.eqb a "mkfs.ext4" && String.eqb b "-F")
  | _ => false
  end.
(** the step a call takes when it succeeds *)
Definition act_of_ev {X : Set} (e : ev X) : option act :=
  match e with
  | Spawn av _ =>
      if match av with a :: _ => String.eqb a "sfdisk" | [] => false end then Some APart
      else if formats av then Some AFormat else None
  | PipeSpawn (a :: b :: _) =>
      if String.eqb a "udisksctl" then
        if String.eqb b "mount" then Some AMount else if String.eqb b "unmount" then Some AUnmount else None
      else None
  | Fork _ => Some AFill
  | Open p (O_WRONLY | O_RDWR | O_RDWR_EXCL) => Some (ARaw p)
  | Fopen p mode => if String.eqb mode "r+b" then Some (ARaw p) else None
  | _ => None
  end.
Definition succeeded {X : Set} (e : ev X) : X -> bool :=
  match e in ev X return X -> bool with
  | Spawn _ _ => exited_ok
  | PipeSpawn _ | Fork _ => fun x => match x with Some _ => true | None => false end
  | Open _ _ | Fopen _ _ => fun x => match x with inr _ => true | inl _ => false end
  | _ => fun _ => true
  end.
Definition act_of (o : obs) : option act :=
  match o with Obs e x => if succeeded e x then act_of_ev e else None end.
Definition acts (t : list obs) : list act := omap act_of t.
Lemma acts_app t u : acts (t ++ u) = acts t ++ acts u.
Proof. apply omap_app. Qed.

(** * Programs that keep to the account *)
Definition drives {A} (s : drive) (m : io A) (Q : A -> drive -> Prop) : Prop :=
  forall t a, exec m t a -> exists s', drive_path s (acts t) s' /\ Q a s'.

Lemma drives_ret {A} s (a : A) (Q : A -> drive -> Prop) : Q a s -> drives s (Ret a) Q.
Proof. intros H t b [-> ->]. exists s. split; [constructor|done]. Qed.
Lemma drives_bind {A B} s (m : io A) (f : A -> io B) Q R :
  drives s m R -> (forall a s', R a s' -> drives s' (f a) Q) -> drives s (bind m f) Q.
Proof.
  intros Hm Hf t b (t1 & a & t2 & -> & H1 & H2)%exec_bind.
  destruct (Hm _ _ H1) as (s1 & P1 & Ha). destruct (Hf _ _ Ha _ _ H2) as (s2 & P2 & Hb).
  exists s2. rewrite acts_app. eauto using path_app.
Qed.
(** what early returns leave behind is the caller's result *)
Lemma drives_try {A B} s (m : io (cres A)) (f : A -> io (cres B)) (Q : cres B -> drive -> Prop) R :
  (forall e s', Q (Fail e) s') -> drives s m R ->
  (forall a s', R (Ok a) s' -> drives s' (f a) Q) -> drives s (try m f) Q.
Proof. intros HF Hm Hf. eapply drives_bind; [exact Hm|]. intros [a|e] s' H; [by apply Hf|by apply drives_ret]. Qed.
Lemma drives_mono {A} s (m : io A) (Q R : A -> drive -> Prop) :
  drives s m R -> (forall a s', R a s' -> Q a s') -> drives s m Q.
Proof. intros H HQ t a Ht. destruct (H t a Ht) as (s' & ? & ?). eauto. Qed.

(** the steps a program can take are all steps from [s] to itself *)
Definition stays (s : drive) : forall X : Set, ev X -> Prop := fun X e =>
  match act_of_ev e with Some a => drive_step s a s | None => True end.
Lemma drives_stay {A} s (m : io A) : always (stays s) m -> drives s m (fun _ s' => s' = s).
Proof.
  intros Hm t a He. exists s. split; [|done]. apply path_loop. intros b Hb.
  apply (always_exec (stays s)) in He; [|done]. rewrite List.Forall_forall in He.
  apply list_elem_of_In, list_elem_of_omap in Hb as ([X e x] & Hin%list_elem_of_In & Ho).
  specialize (He _ Hin). unfold act_of in Ho. cbn in Ho. destruct (succeeded e x); [|done].
  unfold stays in He. by rewrite Ho in He.
Qed.
(** no step at all *)
Definition still : forall X : Set, ev X -> Prop := fun X e => act_of_ev e = None.
Lemma still_stays s X (e : ev X) : still X e -> stays s X e.
Proof. unfold still, stays. by intros ->. Qed.
Lemma drives_still {A} s (m : io A) : always still m -> drives s m (fun _ s' => s' = s).
Proof. intros H. apply drives_stay. eapply always_mono; [apply still_stays|done]. Qed.
(** one call *)
Lemma drives_call {X : Set} s s' (e : ev X) :
  match act_of_ev e with Some a => drive_step s a s' | None => True end ->
  drives s (call e) (fun x u => u = if succeeded e x then match act_of_ev e with Some _ => s' | None => s end else s).
Proof.
  intros H t x (y & u & -> & [-> ->]). unfold acts. cbn. destruct (succeeded e y) eqn:E.
  - destruct (act_of_ev e) as [a|]; eexists; split; eauto with rufux.
  - eexists. split; [constructor|done].
Qed.
#[export] Hint Extern 1 (still _ _) => reflexivity : rufux.
#[export] Hint Extern 1 (stays _ _ _) => (exact I || (cbn; constructor)) : rufux.

(** success leaves the drive in the state [s'] *)
Definition reaches {A} (s' : drive) : cres A -> drive -> Prop :=
  fun r s => match r with Ok _ => s = s' | Fail _ => True end.
Lemma reaches_try {A B} s s1 s' (m : io (cres A)) (f : A -> io (cres B)) :
  drives s m (reaches s1) -> (forall a, drives s1 (f a) (reaches s')) -> drives s (try m f) (reaches s').
Proof. intros Hm Hf. eapply drives_try; [done|exact Hm|]. intros a u ->. apply Hf. Qed.
Lemma reaches_stay {A} s (m : io (cres A)) : always (stays s) m -> drives s m (reaches s).
Proof. intros H. eapply drives_mono; [by apply drives_stay|]. by intros [a|e] u ->. Qed.
Lemma reaches_still {A} s (m : io (cres A)) : always still m -> drives s m (reaches s).
Proof. intros H. apply reaches_stay. eapply always_mono; [apply still_stays|done]. Qed.
Lemma drives_skip {A B} s (m : io A) (f : A -> io B) Q :
  always still m -> (forall a, drives s (f a) Q) -> drives s (bind m f) Q.
Proof. intros Hm Hf. eapply drives_bind; [by apply drives_still|]. by intros a u ->. Qed.
Lemma reaches_fail {A} s s' m : @drives (cres A) s (fail m) (reaches s').
Proof. by apply drives_ret. Qed.
