(* ===== verification/FlowSpec.v ===== *)
(** The disk flows of src/src/linux/create.c keep to the abstract account of
    making a drive (Phases.v). *)
From S2P Require Import Prelude Cstr Double Sys Exec Device DeviceSpec Writer Badblocks Vdisk Partition Mkfs.
From S2P Require Import Host Bootcheck BootcheckSpec Iso Wue Dosboot Biosboot Extract Create Phases.

(** * The operations *)
Lemma read_first_line_still p n : always still (read_first_line p n).
Proof. unfold read_first_line. always_tac. Qed.
#[local] Hint Resolve read_first_line_still : rufux.
Lemma rufux_check_target_still p a f : always still (rufux_check_target p a f).
Proof. unfold rufux_check_target, dev_is_mounted, dev_size_bytes. always_tac. Qed.
Lemma rufux_have_still n : always still (rufux_have n).
Proof. unfold rufux_have, path_dirs. always_tac. Qed.
#[local] Hint Resolve rufux_check_target_still rufux_have_still : rufux.
Lemma rescan_disk_still dst : always still (rescan_disk dst).
Proof. unfold rescan_disk, rufux_run. always_tac. Qed.
Lemma wait_node_still p : always still (wait_node p).
Proof.
  assert (H : forall n, always still (wait_for n p)) by (intros n; induction n as [|n IH]; cbn [wait_for]; always_tac).
  unfold wait_node. always_tac.
Qed.
#[local] Hint Resolve rescan_disk_still wait_node_still : rufux.

Lemma run_sfdisk_reaches dst script :
  drives Raw (run_sfdisk dst script) (fun r s => match r with Ok true => s = Partitioned | Ok false => s = Raw | Fail _ => True end).
Proof.
  unfold run_sfdisk. apply drives_skip; [always_tac|]. intros [[tmpl fd]|]; [|by apply drives_ret].
  apply drives_skip; [always_tac|]. intros w. destruct (negb _).
  { repeat (apply drives_skip; [always_tac|intros ?]). by apply drives_ret. }
  apply drives_skip; [always_tac|]. intros ?.
  eapply drives_bind; [apply (drives_call Raw Partitioned); constructor|]. intros st s Hs. cbn in Hs.
  apply drives_skip; [always_tac|]. intros ?. apply drives_ret. subst s. by destruct (exited_ok st).
Qed.
Lemma make_script_still dst o s : always still (make_script dst o s).
Proof. unfold make_script, target_bytes. always_tac. Qed.
Lemma rescan_still dst : always still (rescan dst).
Proof. unfold rescan, rufux_run. always_tac. Qed.
Lemma after_sfdisk_stays fuel e dst s : always (stays Partitioned) (after_sfdisk fuel e dst s).
Proof.
  pose proof (rufux_have_still "sfdisk") as H. apply (always_mono _ _ _ (still_stays Partitioned)) in H.
  unfold after_sfdisk, write_mbr_bootcode, load_bootcode, rufux_exe_dir, rufux_capture, rufux_pwrite_all. always_tac.
Qed.
#[local] Hint Resolve make_script_still rescan_still after_sfdisk_stays : rufux.
Lemma rufux_partition_reaches fuel e dst o :
  po_dry_run o = false -> drives Raw (rufux_partition fuel e dst o) (reaches Partitioned).
Proof.
  intros Hd. unfold rufux_partition. rewrite Hd.
  destruct (negb _); [apply reaches_fail|]. destruct (negb _); [apply reaches_fail|].
  destruct (_ && _); [apply reaches_fail|].
  eapply reaches_try; [by apply reaches_still; auto with rufux|]. intros [].
  apply drives_skip; [always_tac|]. intros h. destruct (negb h); [apply reaches_fail|].
  eapply reaches_try; [by apply reaches_still; auto with rufux|]. intros script.
  eapply drives_try; [done|apply run_sfdisk_reaches|]. intros done_ s Hs.
  apply drives_skip; [auto with rufux|]. intros [].
  destruct done_; subst; cbn [negb]; [apply reaches_stay; auto with rufux|apply reaches_fail].
Qed.

(** the command lines of mkfs_task.c are recognised *)
Lemma build_argv_formats point o dst :
  wp (build_argv point o dst) (fun _ r => match r with Ok (av, _) => formats av = true | Fail _ => True end).
Proof.
  unfold build_argv. repeat case_match; try exact I; try reflexivity.
  all: unfold try; apply wp_any; intros t a.
  all: repeat (cbn [bind]; match goal with
       | |- wp (match ?x with _ => _ end) _ => destruct x
       | |- wp (if ?x then _ else _) _ => destruct x
       | |- wp (bind _ _) _ => apply wp_any; intros
       | |- wp (try _ _) _ => unfold try
       | |- wp (fail _) _ => exact I
       | |- wp (Ret (Fail _)) _ => exact I
       end).
  all: cbn; unfold argv_exfat, label_arg, opt_arg; try reflexivity; by destruct (String.eqb _ "").
Qed.
Lemma build_argv_still point o dst : always still (build_argv point o dst).
Proof.
  assert (H : forall n b d, always still (settle n b d))
    by (intros n; induction n as [|n IH]; intros b d; cbn [settle]; unfold sysfs_num, sysfs_value; always_tac).
  unfold build_argv, vfat_spc, dev_bytes, part_start_sector, settled_part_sectors, sysfs_value. always_tac.
Qed.
Lemma check_ntfs_still dst n : always still (check_ntfs dst n).
Proof. unfold check_ntfs. always_tac. Qed.
#[local] Hint Resolve build_argv_still check_ntfs_still : rufux.
Lemma rufux_run_acts s s' av a :
  act_of_ev (Spawn av None) = Some a -> drive_step s a s' ->
  drives s (rufux_run av false) (fun b u => u = if b then s' else s).
Proof.
  intros Ha Hs. unfold rufux_run. apply drives_skip; [always_tac|]. intros [].
  eapply drives_bind; [apply (drives_call s s'); by rewrite Ha|]. intros st u Hu. cbn [succeeded] in Hu. rewrite Ha in Hu.
  by apply drives_ret.
Qed.
Lemma formats_act av : formats av = true -> act_of_ev (Spawn av None) = Some AFormat.
Proof.
  intros H. cbn [act_of_ev]. rewrite H. destruct av as [|a [|b av]]; try done. cbn in H.
  destruct (String.eqb_spec a "sfdisk") as [->|]; [done|]. done.
Qed.
Lemma rufux_format_reaches point dst o :
  mf_dry_run o = false -> drives Partitioned (rufux_format point dst o) (reaches Formatted).
Proof.
  intros Hd. unfold rufux_format. rewrite Hd.
  destruct (String.eqb _ _); [apply reaches_fail|]. destruct (_ && _); [apply reaches_fail|].
  destruct (_ && _); [apply reaches_fail|].
  eapply reaches_try; [by apply reaches_still; auto with rufux|]. intros [].
  apply (drives_bind _ _ _ _ (fun r u => u = Partitioned /\ match r with Ok (av, _) => formats av = true | Fail _ => True end)).
  { intros t r Hr. destruct (drives_still Partitioned _ (build_argv_still point o dst) t r Hr) as (u & Hp & ->).
    exists Partitioned. split; [done|]. split; [done|]. exact (exec_wp _ _ (build_argv_formats point o dst) t r Hr). }
  intros [[av n]|m] s [-> Hf]; [|by apply drives_ret].
  eapply drives_bind; [apply (rufux_run_acts Partitioned Formatted av AFormat); [by apply formats_act|constructor]|].
  intros [|] u ->; cbn [negb]; [|apply reaches_fail].
  destruct (_ && _); [apply reaches_still; auto with rufux|by apply drives_ret].
Qed.

(** what a program run through its output does to the drive *)
Lemma rufux_capture_acts fuel s s' av cap a :
  act_of_ev (PipeSpawn av) = Some a -> drive_step s a s' ->
  drives s (rufux_capture fuel av cap) (fun r u => (u = s \/ u = s') /\ (r.1 = true -> u = s')).
Proof.
  intros Ha Hs. unfold rufux_capture. destruct (cap =? 0); [apply drives_ret; split; [auto|done]|].
  eapply drives_bind; [apply (drives_call s s'); by rewrite Ha|]. intros [h|] u Hu; cbn [succeeded] in Hu; rewrite ?Ha in Hu.
  - subst u. apply drives_skip; [always_tac|]. intros out. apply drives_skip; [always_tac|]. intros st.
    by apply drives_ret; auto.
  - subst u. apply drives_ret. split; [auto|done].
Qed.
Lemma rufux_mount_states fuel s dev cap :
  drive_step s AMount Mounted ->
  drives s (rufux_mount fuel dev false cap) (fun r u => (u = s \/ u = Mounted) /\ (is_ok r = true -> u = Mounted)).
Proof.
  intros Hs. unfold rufux_mount. apply drives_skip; [auto with rufux|]. intros h. destruct (negb h); [apply drives_ret; split; [auto|done]|].
  eapply drives_bind; [by apply (rufux_capture_acts _ s Mounted _ _ AMount)|]. intros [[|] out] u [Hu Hk]; cbn [fst snd negb] in *.
  - rewrite (Hk eq_refl). destruct (mount_point cap out) as [[|c m]|]; apply drives_ret; split; auto; done.
  - apply drives_ret. split; [auto|done].
Qed.
Lemma rufux_mount_reaches fuel s dev cap :
  drive_step s AMount Mounted -> drives s (rufux_mount fuel dev false cap) (reaches Mounted).
Proof. intros Hs. eapply drives_mono; [by apply rufux_mount_states|]. intros [m|e] u [_ H]; cbn; auto. Qed.
Lemma rufux_unmount_reaches fuel dev : drives Mounted (rufux_unmount fuel dev false) (reaches Closed).
Proof.
  unfold rufux_unmount. apply drives_skip; [auto with rufux|]. intros h. destruct (negb h); [apply reaches_fail|].
  eapply drives_bind; [apply (rufux_capture_acts _ Mounted Closed _ _ AUnmount); constructor|].
  intros [[|] out] u [_ Hu]; cbn [fst snd negb] in *; [rewrite (Hu eq_refl); by apply drives_ret|apply reaches_fail].
Qed.
Lemma unmount_step_reaches fuel p what r : drives Mounted (unmount_step fuel p what r) (reaches Closed).
Proof.
  unfold unmount_step. eapply drives_bind; [apply rufux_unmount_reaches|]. intros [[]|m] u Hu; apply drives_ret; cbn in Hu.
  - subst u. by destruct r.
  - by destruct r.
Qed.
Lemma rufux_install_mbr_reaches dst o :
  bt_dry_run o = false -> drives Closed (rufux_install_mbr dst o) (reaches Booted).
Proof.
  intros Hd. unfold rufux_install_mbr. rewrite Hd.
  assert (Hm : always still (mbr_path (bt_kind o))).
  { unfold mbr_path, readable, find_mbr_file, want_cb, Host.is_dir, rufux_exe_dir. always_tac. }
  destruct (_ && _); [apply reaches_fail|].
  eapply reaches_try; [by apply reaches_still; auto with rufux|]. intros [].
  apply drives_skip; [done|]. intros [mbr|]; [|apply reaches_fail].
  apply drives_skip; [always_tac|]. intros [|fm]; [apply reaches_fail|].
  apply drives_skip; [always_tac|]. intros [e|code]; (apply drives_skip; [always_tac|intros []]); [apply reaches_fail|].
  destruct (negb _); [apply reaches_fail|].
  eapply drives_bind; [apply (drives_call Closed Booted); constructor|]. intros [e|fd] u Hu; cbn in Hu; [apply reaches_fail|].
  subst u. repeat (apply drives_skip; [always_tac|intros ?]). by destruct a as [|]; [|destruct (_ =? _)]; apply drives_ret.
Qed.

(** ** What happens on the mounted partition *)
Lemma mapped_stays s b w d t : always (stays s) (mapped b w d t).
Proof. done. Qed.
Lemma report_stays s p d t : (forall p', p = Some p' -> forall d t, always (stays s) (p' d t)) -> always (stays s) (report p d t).
Proof. intros H. unfold report. destruct p as [p|]; [by apply H|exact I]. Qed.
Lemma extract_poll_stays fuel av dest total p :
  (forall p', p = Some p' -> forall d t, always (stays Mounted) (p' d t)) ->
  always (stays Mounted) (extract_poll fuel av dest total p).
Proof.
  intros Hp. pose proof (report_stays Mounted p) as Hr. unfold extract_poll, poll_loop, dir_size. always_tac.
Qed.
Lemma have_stays s n : always (stays s) (rufux_have n).
Proof. eapply always_mono; [apply still_stays|apply rufux_have_still]. Qed.
#[local] Hint Resolve extract_poll_stays have_stays : rufux.
Lemma extract_iso_stays fuel src dest p :
  (forall p', p = Some p' -> forall d t, always (stays Mounted) (p' d t)) ->
  always (stays Mounted) (rufux_extract_iso_progress fuel src dest false p).
Proof.
  intros Hp. unfold rufux_extract_iso_progress, extract_with, extract_7z, mkdir_if, rufux_iso_is_udf. always_tac.
Qed.
Lemma extract_progress_stays b h w p' : extract_progress h b w = Some p' -> forall d t, always (stays Mounted) (p' d t).
Proof. unfold extract_progress. destruct h; [|done]. by intros [= <-]. Qed.
Lemma autorun_stays dir o : always (stays Mounted) (autorun_step dir o false).
Proof. unfold autorun_step, rufux_write_autorun. always_tac. Qed.
Lemma persist_stays dir l n : always (stays Mounted) (rufux_create_persist dir l n false).
Proof. unfold rufux_create_persist, rufux_run. always_tac. Qed.
#[local] Hint Resolve extract_iso_stays extract_progress_stays autorun_stays persist_stays : rufux.

(** * The flows *)
Lemma zero_head_stays fuel p : always (stays Partitioned) (zero_head fuel p).
Proof. unfold zero_head, zero_mib. always_tac. Qed.
Lemma remap_stays {A} s f g (m : io A) :
  (forall d t, always (stays s) (f d t)) -> (forall d t, always (stays s) (g d t)) ->
  always (stays s) m -> always (stays s) (remap f g m).
Proof.
  intros Hf Hg. induction m as [a|X e k IH|]; cbn; [done| |done].
  intros [He Hk]. destruct e; cbn; try (split; [exact He|]; intros x; by apply IH).
  all: apply always_bind; [done|]; intros []; by apply IH.
Qed.
Lemma zero_step_stays fuel p o b w : always (stays Partitioned) (zero_step fuel p o b w).
Proof.
  unfold zero_step, in_window. destruct (c_quick_format o); [exact I|].
  apply remap_stays; [intros; apply mapped_stays..|apply zero_head_stays].
Qed.
Lemma stage_still n : always still (stage n).
Proof. unfold stage. always_tac. Qed.
Lemma file_guard_still point src fs : always still (vfat_size_guard point src fs).
Proof. unfold vfat_size_guard, file_size. always_tac. Qed.
Lemma syslinux_step_still p o : always still (syslinux_step p o).
Proof. unfold syslinux_step, syslinux_best_effort, rufux_install_syslinux, rufux_run. always_tac. Qed.
Lemma format_step_reaches point p fs o cap : drives Partitioned (format_step point p fs o cap) (reaches Formatted).
Proof. unfold format_step. apply drives_skip; [always_tac|]. intros []. by apply rufux_format_reaches. Qed.
Lemma validate_step_still e g ab cap : always still (validate_step e g ab cap).
Proof. unfold validate_step, rufux_validate_efi, efi_subsystem, file_field. always_tac. Qed.
#[local] Hint Resolve stage_still file_guard_still syslinux_step_still validate_step_still : rufux.
Lemma harmless_still X (e : ev X) : harmless X e -> still X e.
Proof.
  unfold harmless, still. destruct e; cbn; try done.
  - by destruct (String.eqb_spec mode "r+b") as [->|].
  - by destruct m.
Qed.
Lemma bootcheck_still sha certs mnt : always still (rufux_bootcheck_tree sha certs mnt).
Proof. eapply always_mono; [apply harmless_still|apply rufux_bootcheck_tree_harmless]. Qed.
#[local] Hint Resolve bootcheck_still zero_step_stays : rufux.

(** [reaches] through the calls that follow one another: a quiet one, one with
    an early return, one that takes a step *)
Ltac flow_tac :=
  repeat (cbv zeta; match goal with
  | |- drives _ (fail _) _ => apply reaches_fail
  | |- drives _ (if negb ?b then fail _ else _) _ => is_var b; destruct b; cbn [negb]
  | |- drives _ (if negb _ then _ else _) _ => progress cbn [negb]
  | |- drives _ (bind (stage _) _) _ => apply drives_skip; [apply stage_still|intros []]
  | |- drives _ (bind (rescan_disk _) _) _ => apply drives_skip; [apply rescan_disk_still|intros []]
  | |- drives _ (bind (call (Log _)) _) _ => apply drives_skip; [by always_tac|intros []]
  | |- drives _ (bind (when _ _) _) _ => apply drives_skip; [by always_tac|intros []]
  | |- drives _ (try (wait_node _) _) _ => eapply reaches_try; [by apply reaches_still; auto with rufux|intros []]
  | |- drives _ (try (zero_step _ _ _ _ _) _) _ => eapply reaches_try; [by apply reaches_stay; auto with rufux|intros []]
  | |- drives _ (try (rufux_partition _ _ _ _) _) _ => eapply reaches_try; [by apply rufux_partition_reaches|intros []]
  | |- drives _ (try (format_step _ _ _ _ _) _) _ => eapply reaches_try; [apply format_step_reaches|intros []]
  | |- drives _ (try (rufux_mount _ _ _ _) _) _ => eapply reaches_try; [by apply rufux_mount_reaches; constructor|intros ?]
  end).

Section Flows.
Variables (fuel : nat) (point : ascii) (stale : string) (sha : list byte -> list byte)
  (certs : list byte -> option (string * list (list byte))) (has_log has_prog : bool).

Lemma fill_extract_stays src mnt o : always (stays Mounted) (fill_extract fuel has_prog src mnt o).
Proof.
  unfold fill_extract. pose proof (extract_progress_stays 8 has_prog 74). always_tac.
Qed.
Lemma if_ok_reaches s s' r m : reaches s r s -> drives s m (reaches s') -> drives s (if_ok r m) (reaches s').
Proof. intros _ Hm. unfold if_ok. destruct r; [done|by apply drives_ret]. Qed.
(** the result of the unmount decides whether boot code is written *)
Lemma unmount_then s' p what (r : cres unit) (f : cres unit -> io (cres unit)) :
  (forall m s, drives s (f (Fail m)) (reaches s')) -> drives Closed (f (Ok tt)) (reaches s') ->
  drives Mounted (r' <- unmount_step fuel p what r ;; f r') (reaches s').
Proof.
  intros Hf Ho. eapply drives_bind; [apply unmount_step_reaches|]. intros [[]|m] u Hu; [by rewrite Hu|apply Hf].
Qed.
Lemma done_reaches s s' (b : bool) m (r : cres unit) :
  reaches s' r s -> always still m -> drives s (when b m ;;; Ret r) (reaches s').
Proof. intros Hr Hm. apply drives_skip; [by apply always_when|]. intros []. by apply drives_ret. Qed.

Lemma flow_extract_disk_reaches src dst o :
  c_dry_run o && has_log = false ->
  drives Raw (flow_extract_disk fuel point stale sha certs has_log has_prog src dst o) (reaches Booted).
Proof.
  intros Hp. unfold flow_extract_disk. cbv zeta. rewrite Hp.
  eapply reaches_try; [by apply reaches_still; auto with rufux|]. intros [].
  flow_tac.
  eapply reaches_try; [by apply reaches_still; auto with rufux|]. intros [].
  flow_tac.
  eapply drives_bind; [apply drives_stay, fill_extract_stays|]. intros r s ->. flow_tac.
  apply unmount_then.
  - intros m s. cbn [if_ok is_ok bind]. apply done_reaches; [done|auto with rufux].
  - cbn [if_ok is_ok]. eapply drives_bind; [by apply rufux_install_mbr_reaches|].
    intros r' s Hr. apply done_reaches; [done|auto with rufux].
Qed.

(** ** FreeDOS *)
Lemma copy_files_still s d : always still (rufux_dos_copy_files s d).
Proof.
  assert (Ha : forall l, always still (copy_all s d l)) by
    (induction l as [|x l IH]; cbn [copy_all]; unfold copy_one, rufux_run; always_tac).
  unfold rufux_dos_copy_files. cbn [copy_first FIRST]. unfold copy_one, rufux_run. always_tac.
Qed.
Lemma freedos_dir_still : always still rufux_freedos_dir.
Proof. unfold rufux_freedos_dir, if_opens, opens, rufux_exe_dir. always_tac. Qed.
Lemma on_device_reaches s dev body :
  drive_step s (ARaw dev) Booted -> (forall h, always still (body h)) -> drives s (on_device dev body) (reaches Booted).
Proof.
  intros Hs Hb. unfold on_device. eapply drives_bind; [by apply (drives_call s Booted)|].
  intros [e|h] u Hu; cbn in Hu; [apply reaches_fail|]. subst u.
  apply drives_skip; [done|]. intros rc. repeat (apply drives_skip; [always_tac|intros ?]).
  destruct a; [|destruct rc]; apply drives_ret; by try destruct rc.
Qed.
Lemma blobs_still h l : always still (blobs_write h l).
Proof. induction l as [|[[off b] w] l IH]; cbn [blobs_write]; unfold blob_write; always_tac. Qed.
Lemma boot_records_reaches p dst l :
  drives Closed (rufux_dos_pbr_fd32 p 0 l ?;; rufux_dos_mbr dst) (reaches Booted).
Proof.
  eapply reaches_try; [apply on_device_reaches; [constructor|intros; apply blobs_still]|]. intros [].
  apply on_device_reaches; [constructor|]. intros h. unfold blob_write. always_tac.
Qed.
#[local] Hint Resolve copy_files_still freedos_dir_still : rufux.
Lemma is_block_still p : always still (is_block p).
Proof. unfold is_block. always_tac. Qed.
Lemma flow_dos_reaches dst o :
  c_dry_run o = false -> drives Raw (flow_dos fuel point stale dst o) (reaches Booted).
Proof.
  intros Hp. unfold flow_dos. cbv zeta. rewrite Hp. flow_tac.
  apply drives_skip; [apply is_block_still|]. intros [|]; flow_tac.
  apply drives_skip; [auto with rufux|]. intros [fd|]; flow_tac.
  eapply reaches_try; [by apply rufux_format_reaches|]. intros []. flow_tac.
  apply drives_skip; [auto with rufux|]. intros r. flow_tac.
  apply unmount_then.
  - intros m s. cbn [if_ok is_ok bind]. apply drives_skip; [auto with rufux|]. intros []. by apply drives_ret.
  - cbn [if_ok is_ok]. eapply drives_bind; [apply boot_records_reaches|].
    intros r' s Hr. apply drives_skip; [auto with rufux|]. intros []. by apply drives_ret.
Qed.

(** ** Windows *)
Lemma mount_twice_reaches dst p1 : drives Formatted (mount_twice fuel dst p1) (reaches Mounted).
Proof.
  unfold mount_twice. eapply drives_bind; [by apply rufux_mount_states; constructor|]. intros [mnt|m] u [Hu Hk].
  - apply drives_ret. by apply Hk.
  - flow_tac. by destruct Hu as [->| ->]; apply rufux_mount_reaches; constructor.
Qed.
Lemma mkdir_all_stays s l : always (stays s) (mkdir_all l).
Proof. induction l as [|x l IH]; cbn [mkdir_all]; always_tac. Qed.
Lemma mkdirs_ok_stays s l : always (stays s) (mkdirs_ok l).
Proof. induction l as [|x l IH]; cbn [mkdirs_ok]; unfold mkdir_ok; always_tac. Qed.
Hint Resolve mkdir_all_stays mkdirs_ok_stays : rufux.
Lemma uefi_ntfs_step_stays fat p2 : always (stays Partitioned) (uefi_ntfs_step fuel fat p2).
Proof.
  unfold uefi_ntfs_step. destruct fat; [exact I|].
  apply always_try; [eapply always_mono; [apply still_stays|auto with rufux]|]. intros [].
  unfold rufux_write_uefi_ntfs, uefi_img_path, write_loop, read_loop, uefi_img_local, whole_img, cache_dir, big_enough,
    mkdir_p, rufux_exe_dir, rufux_run. pose proof (have_stays Partitioned). always_tac.
Qed.
Lemma wipe_part_edges_stays p : always (stays Partitioned) (wipe_part_edges fuel p).
Proof. unfold wipe_part_edges, rufux_pwrite_all. always_tac. Qed.
Lemma split_windows_stays src mnt mb force p :
  (forall p', p = Some p' -> forall d t, always (stays Mounted) (p' d t)) ->
  always (stays Mounted) (rufux_extract_windows_split fuel point src mnt mb force p).
Proof.
  intros Hp. assert (Hr : forall d t, always (stays Mounted) (report p d t)) by (intros; by apply report_stays).
  assert (Hs : forall av dest n b g, always (stays Mounted) (extract_poll fuel av dest n (split_cb p b g))).
  { intros. apply extract_poll_stays. intros p' [= <-] d t. apply Hr. }
  unfold rufux_extract_windows_split, archive_file_size, rufux_capture, split_phases, mkdir_if, split_mounted, iso_mount_ro,
    iso_umount, resolve_ci, resolve_seg, split_copied, scratch_dir, try_scratch, wim_split, rufux_run.
  always_tac.
Qed.
Lemma patch_steps_stays wim dir : always (stays Mounted) (patch_steps fuel wim dir).
Proof. unfold patch_steps, write_script, said, rufux_capture, rufux_run. always_tac. Qed.
#[local] Hint Resolve patch_steps_stays : rufux.
Lemma patch_boot_wim_stays mnt : always (stays Mounted) (patch_boot_wim fuel mnt).
Proof. pose proof (have_stays Mounted). unfold patch_boot_wim, said, rufux_run. always_tac. Qed.
#[local] Hint Resolve patch_boot_wim_stays : rufux.
Lemma customize_stays mnt a : always (stays Mounted) (rufux_windows_customize fuel mnt a).
Proof.
  unfold rufux_windows_customize, media_arch, answer_path, write_xml, locale_fill. always_tac.
Qed.
#[local] Hint Resolve uefi_ntfs_step_stays wipe_part_edges_stays split_windows_stays customize_stays : rufux.
Lemma fill_windows_stays src mnt fat o : always (stays Mounted) (fill_windows fuel point has_prog src mnt fat o).
Proof. unfold fill_windows. pose proof (extract_progress_stays 10 has_prog 70). always_tac. Qed.
Lemma verify_tree_still mnt : always still (verify_windows_tree point mnt).
Proof. unfold verify_windows_tree, missing, there, find_ci, resolve_seg. always_tac. Qed.
Lemma read_at_still d n off : always still (read_at d n off).
Proof. unfold read_at. always_tac. Qed.
Lemma locate_still : always still locate.
Proof. unfold locate, find_exe, has_modules, Biosboot.is_file, rufux_exe_dir. always_tac. Qed.
#[local] Hint Resolve read_at_still locate_still : rufux.
Lemma gpt_bios_boot_still d : always still (gpt_bios_boot d).
Proof. unfold gpt_bios_boot. always_tac. Qed.
Lemma write_grub_files_still g work d : always still (write_grub_files fuel stale g work d).
Proof. unfold write_grub_files, write_file, copy_file. always_tac. Qed.
Lemma grub_capture_still av cap : nth_error av 1 = Some "-O" \/ nth_error av 1 = Some "-d" -> always still (rufux_capture fuel av cap).
Proof.
  intros Ha. assert (still (option Z) (PipeSpawn av)).
  { unfold still. destruct av as [|a [|b av]]; try done. cbn in *. destruct (String.eqb a "udisksctl"); [|done].
    by destruct Ha as [[= ->]|[= ->]]. }
  unfold rufux_capture. always_tac.
Qed.
Lemma make_core_still g work : always still (make_core fuel g work).
Proof. unfold make_core, Biosboot.is_file. apply always_bind; [apply grub_capture_still; by left|]. always_tac. Qed.
Lemma run_setup_still g work d : always still (run_setup fuel g work d).
Proof. unfold run_setup. apply always_bind; [apply grub_capture_still; by right|]. always_tac. Qed.
Lemma rmtree_flat_still d : always still (rmtree_flat d).
Proof. unfold rmtree_flat. always_tac. Qed.
#[local] Hint Resolve gpt_bios_boot_still write_grub_files_still make_core_still run_setup_still rmtree_flat_still : rufux.
Lemma bios_step_still dst mnt : always still (bios_step fuel stale dst mnt).
Proof.
  assert (Ha : forall b gpt, always still (check_after dst b gpt)) by (intros; unfold check_after, read_mbr; always_tac).
  assert (Hi : forall g w b p, always still (install_in fuel stale g w dst b p)) by (intros; unfold install_in; always_tac).
  unfold bios_step, rufux_windows_bios_install, read_mbr. always_tac.
Qed.
Lemma ntfsfix_step_still p : always still (ntfsfix_step p).
Proof. unfold ntfsfix_step, rufux_run. always_tac. Qed.
#[local] Hint Resolve verify_tree_still bios_step_still ntfsfix_step_still : rufux.

Lemma finish_windows_reaches src dst p1 mnt fat o :
  drives Mounted (finish_windows fuel point stale sha certs has_prog src dst p1 mnt fat o) (reaches Closed).
Proof.
  unfold finish_windows. eapply drives_bind; [apply drives_stay, fill_windows_stays|]. intros r s ->. flow_tac.
  apply drives_skip; [unfold if_ok; destruct (is_ok r); [auto with rufux|exact I]|]. intros r'. flow_tac.
  apply drives_skip; [destruct (is_ok r'); [auto with rufux|exact I]|]. intros bios.
  apply drives_skip; [always_tac|]. intros [].
  apply unmount_then.
  - intros m s. apply drives_skip; [exact I|]. intros []. apply drives_skip; [exact I|]. intros []. by apply drives_ret.
  - apply drives_skip; [always_tac|]. intros []. apply drives_skip; [always_tac|]. intros []. by apply drives_ret.
Qed.
Lemma flow_windows_reaches src dst o :
  c_dry_run o && has_log = false ->
  drives Raw (flow_windows fuel point stale sha certs has_log has_prog src dst o) (reaches Closed).
Proof.
  intros Hp. unfold flow_windows. cbv zeta. rewrite Hp. destruct (negb _ && negb _); [apply reaches_fail|].
  eapply reaches_try; [by apply reaches_still|]. intros [].
  destruct (if is_fat_fs (c_fs o) then Some "" else p2_of (part1 dst)) as [p2|]; [|apply reaches_fail].
  flow_tac. eapply reaches_try; [by apply reaches_stay; auto with rufux|]. intros []. flow_tac.
  eapply drives_bind; [by apply drives_stay; auto with rufux|]. intros w s ->. flow_tac.
  eapply reaches_try; [apply mount_twice_reaches|]. intros mnt. apply finish_windows_reaches.
Qed.
End Flows.

(** a removable disk, tools that all work, a small image *)
Definition working_usb : handler (list string * nat) := fun X e w =>
  match e in ev X return X * (list string * nat) with
  | Stat p => (Some (if starts_with "/dev/" p then Stat_ KBlk 0 0 0 else Stat_ KReg 1000 0 0), w)
  | Opendir p => (if String.eqb p "/sys/block" then Some ["sdb"] else None, w)
  | ReadText p => (Some (if String.eqb p "/proc/mounts" then "" else if String.eqb p "/sys/block/sdb/removable" then "1" else "2000000"), w)
  | Access _ _ => (true, w)
  | Open _ _ | Fopen _ _ => (inr 3, w)
  | GetSize64 _ => (Some (2 ^ 30), w)
  | Mkstemp _ => (Some ("/tmp/s", 3), w)
  | Write _ b => (inr (zlen b), w)
  | Pwrite _ b _ => (inr (zlen b), w)
  | Read _ n => (inr (replicate (Z.to_nat n) Byte.x90), w)
  | PipeSpawn av => (Some 4, (av, 0%nat))
  | PipeRead _ _ => (if (w.2 =? 0)%nat && bool_decide (nth_error w.1 1 = Some "mount")
                     then bytes_of_string ("Mounted /dev/sdb1 at /media/usb" +:+ LF) else [], (w.1, 1%nat))
  | Fork _ => (Some 5, w)
  | e => (default_answer e, w)
  end.
Definition demo_opts : RufuxCreateOpts :=
  CreateOpts_ "extract" "gpt" "vfat" (Some "USB") None 0 None None None 0 0 true true true 0 false false false false false true.
