(* ===== verification/Msdl.v ===== *)
(** src/src/linux/msdl.c: finding and downloading Windows images through the
    service of Microsoft's download pages. Allocation is taken to succeed. *)
From S2P Require Import Prelude Cstr Double Sys Exec Mjson Checksum.

(** * Constants *)
Definition ORG_ID : string := "y6jn8c31".
Definition PROFILE_ID : string := "606624d44113".
Definition INSTANCE_ID : string := "560dc9f3-1aa5-4a2f-b63c-9e18f8d0e175".
Definition REFERER : string := "https://www.microsoft.com/software-download/windows11".
Definition UA : string := "Mozilla/5.0 (X11; Linux x86_64; rv:130.0) Gecko/20100101 Firefox/130.0".
Definition QUERY_LOCALE : string := "en-US".
Definition MAXLANG : nat := 128.
Definition REPLY_CAP : Z := 2 * 2 ^ 20.
Record Edition := Edition_ { ed_name : string; ids : list Z }.
Record Product := Product_ { pr_name : string; release : string; ed : list Edition }.
Definition products : list Product :=
  [Product_ "Windows 11" "25H2 v2 (Build 26200.8037 - 2026.03)"
     [Edition_ "Windows 11 Home/Pro/Edu" [3321; 3324]; Edition_ "Windows 11 Home China" [3322; 3325];
      Edition_ "Windows 11 Pro China" [3323; 3326]];
   Product_ "Windows 10" "22H2 v1 (Build 19045.2965 - 2023.05)"
     [Edition_ "Windows 10 Home/Pro/Edu" [2618]; Edition_ "Windows 10 Home China" [2378]]].

(** * The session *)
Record SkuRef := SkuRef_ { sr_sess : nat; sku : string }.
Record Lang := Lang_ { l_name : string; l_display : string; l_d : list SkuRef }.
Record RufuxMsdl := Msdl_ { sess : list string; langs : list Lang; jar : string }.
Record RufuxMsdlLink := Link_ { arch : string; url : string }.

(** the test server, on the loopback only *)
Definition mock_base : io (option string) :=
  m <- call (Getenv "RUFUX_MSDL_MOCK") ;;
  Ret (match m with
       | Some s => if starts_with "http://127.0.0.1:" s || starts_with "http://localhost:" s then Some s else None
       | None => None
       end).
Definition build_url (cap : nat) (host path_query : string) : io string :=
  m <- mock_base ;;
  Ret (snprintf cap
    (match m with
     | Some m =>
         let tag := if String.eqb host "vlscppe.microsoft.com" then "vlscppe"
                    else if String.eqb host "ov-df.microsoft.com" then "ov-df" else "www" in
         m +:+ "/" +:+ tag +:+ path_query
     | None => "https://" +:+ host +:+ path_query
     end)).

Definition curl_argv (jar url : string) (referer : option string) : list string :=
  ["curl"; "-sS"; "-w"; LF +:+ "%{http_code}"; "--max-time"; "30"; "--connect-timeout"; "15"; "-A"; UA;
   "-b"; jar; "-c"; jar] ++ match referer with Some r => ["-e"; r] | None => [] end ++ [url].
(** the host of a URL, as it is shown *)
Definition host_shown (url : string) : string :=
  match strstr "://" url with
  | Some s => snprintf 128 (stake 100 (span (fun c => negb (one_of "/:?" c)) (sdrop 3 s)).1)
  | None => "the server"
  end.
(** the body and the status line after its last newline *)
Definition split_status (out : string) : string * Z :=
  match strrchr (chr 10) out with
  | Some last => (before out last, atoi (sdrop 1 last))
  | None => (out, 0)
  end.
Definition first_line (s : string) : string := (span (fun c => negb (code c =? 10)) s).1.

Section Msdl.
Variable fuel : nat.
Variable point : ascii.

Definition http_get (jar url : string) (referer : option string) : io (cres string) :=
  h <- rufux_have "curl" ;;
  if negb h then fail "curl is not installed"
  else
    r <- rufux_capture fuel (curl_argv jar url referer) REPLY_CAP ;;
    let '(ran, out) := r in
    if negb ran then
      let l := first_line out in
      fail ("network error: " +:+ stake 300 (if String.eqb l "" then "curl failed" else l))
    else
      let '(body, status) := split_status out in
      if (status <? 200) || (299 <? status) then
        fail (host_shown url +:+ " answered HTTP " +:+ dec status +:+
              (if (status =? 403) || (status =? 429)
               then " (Microsoft rate-limits and blocks by address; try again later)" else ""))
      else ok body.

(** a random (version 4) UUID *)
Definition guid_text (b : list byte) : string :=
  rufux_hex (slice 0 4 b) +:+ "-" +:+ rufux_hex (slice 4 2 b) +:+ "-" +:+ rufux_hex (slice 6 2 b) +:+ "-"
  +:+ rufux_hex (slice 8 2 b) +:+ "-" +:+ rufux_hex (slice 10 6 b).
(** the version and variant bits *)
Definition stamp (b : list byte) : list byte :=
  ztake 6 b ++ [b8 (Z.lor (Z.land (le (slice 6 1 b)) 0x0f) 0x40)] ++ slice 7 1 b
  ++ [b8 (Z.lor (Z.land (le (slice 8 1 b)) 0x3f) 0x80)] ++ zdrop 9 b.
Fixpoint rand_bytes (n : nat) : io (list byte) :=
  match n with
  | O => Ret []
  | S n => r <- call Rand ;; l <- rand_bytes n ;; Ret (b8 (Z.land r 0xff) :: l)
  end.
Definition new_guid (cap : nat) : io string :=
  f <- call (Fopen "/dev/urandom" "rb") ;;
  b <- match f with
       | inl _ => rand_bytes 16
       | inr f => l <- call (Fread f 16) ;; if zlen l =? 16 then Ret l else rand_bytes 16
       end ;;
  match f with inr f => call (Fclose f) ;;; Ret tt | inl _ => Ret tt end ;;;
  Ret (snprintf cap (guid_text (stamp b))).

(** the token after "?w=" or "&w=", and the ticks of rticks *)
Definition hex_upper (c : ascii) : bool := one_of "0123456789ABCDEF" c.
Fixpoint find_w (cap : nat) (prev : option ascii) (s : string) : string :=
  match s with
  | "" => ""
  | String c t =>
      let here := match t with String "=" u => if Ascii.eqb c "w" then Some u else None | _ => None end in
      match here, prev with
      | Some u, Some p =>
          let tok := (span hex_upper u).1 in
          if one_of "?&" p && negb (String.eqb tok "") && (String.length tok <? cap)%nat then tok
          else find_w cap (Some c) t
      | _, _ => find_w cap (Some c) t
      end
  end.
Definition find_rticks (cap : nat) (js : string) : string :=
  match strstr (qq "rticks='") js with
  | Some r =>
      let r := sdrop 8 r in
      let r := match r with String "+" u => u | _ => r end in
      let d := (span is_digit r).1 in
      if (String.length d <? cap)%nat then d else ""
  | None => ""
  end.
Definition parse_mdt (js : string) : option (string * string) :=
  let w := find_w 64 None js in
  let rt := find_rticks 64 js in
  if String.eqb w "" || String.eqb rt "" then None else Some (w, rt).

Definition ban_message : string :=
  "Your IP address has been banned by Microsoft for issuing too many ISO download requests or for belonging to a region where sanctions currently apply. Try again later (message code 715-123130)".
(** the service's own error, if the reply holds one *)
Definition api_errors (j : MJ) : option string :=
  let e := mj_get (Some j) "Errors" in
  if mj_len e =? 0 then None
  else
    let first := mj_at e 0 in
    Some (if to_int (dtrunc (mj_get_num first "Type" double_zero)) =? 9 then ban_message
          else "Microsoft's service returned an error: " +:+ stake 300 (mj_get_str first "Value" "unknown")).

Definition whitelist_session (jar guid : string) : io (cres unit) :=
  u <- build_url 1024 "vlscppe.microsoft.com" ("/tags?org_id=" +:+ ORG_ID +:+ "&session_id=") ;;
  http_get jar (snprintf 1024 (u +:+ guid)) None ?;;
  u <- build_url 1024 "ov-df.microsoft.com"
         (snprintf 512 ("/mdt.js?instanceId=" +:+ INSTANCE_ID +:+ "&PageId=si&session_id=" +:+ guid)) ;;
  reply <-? http_get jar u None ;;
  match parse_mdt reply with
  | None => fail "could not read the session token from Microsoft's service (it may have changed)"
  | Some (w, rt) =>
      now <- call Time ;;
      u <- build_url 1024 "ov-df.microsoft.com"
             (snprintf 512 ("/?session_id=" +:+ guid +:+ "&CustomerId=" +:+ INSTANCE_ID +:+ "&PageId=si&w=" +:+ w
                            +:+ "&mdt=" +:+ dec (now * 1000) +:+ "&rticks=" +:+ rt)) ;;
      http_get jar u None ?;; ok tt
  end.

(** ** The languages *)
Fixpoint add_to (langs : list Lang) (s : nat) (lang sku : string) : option (list Lang) :=
  match langs with
  | [] => None
  | l :: t =>
      if String.eqb (l_name l) lang then
        Some ((if (length (l_d l) <? 2)%nat then Lang_ (l_name l) (l_display l) (l_d l ++ [SkuRef_ s (snprintf 40 sku)]) else l) :: t)
      else option_map (cons l) (add_to t s lang sku)
  end.
Definition add_sku (langs : list Lang) (s : nat) (lang display sku : string) : list Lang :=
  match add_to langs s lang sku with
  | Some l => l
  | None =>
      if (MAXLANG <=? length langs)%nat then langs
      else langs ++ [Lang_ (snprintf 64 lang) (snprintf 96 display) [SkuRef_ s (snprintf 40 sku)]]
  end.
Definition kids (j : option MJ) : list (option MJ) := map (mj_at j) (seq 0 (Z.to_nat (mj_len j))).
Definition add_one (s : nat) (langs : list Lang) (k : option MJ) : list Lang :=
  let id := mj_get_str k "Id" "" in
  let lang := mj_get_str k "Language" "" in
  if String.eqb id "" || String.eqb lang "" then langs
  else add_sku langs s lang (mj_get_str k "LocalizedLanguage" lang) id.

(** one request for the languages of an edition; [inr] leaves the retry loop *)
Definition sku_attempt (s : nat) (jar url : string) (st : list Lang * string) (attempt : Z)
    : io (list Lang * string + cres (list Lang)) :=
  let '(langs, err) := st in
  when (negb (attempt =? 0)) (call (Usleep 2000000)) ;;;
  r <- http_get jar url None ;;
  match r with
  | Fail m => Ret (inr (Fail m))
  | Ok reply =>
      match mj_parse point (Some reply) with
      | inr jerr => Ret (inl (langs, "Microsoft's service sent an unreadable reply (" +:+ jerr +:+ ")"))
      | inl j =>
          match api_errors j with
          | Some m => Ret (if contains "715-123130" m then inr (Fail m) else inl (langs, m))
          | None =>
              let langs := fold_left (add_one s) (kids (mj_get (Some j) "Skus")) langs in
              Ret (match langs with
                   | [] => inl (langs, "Microsoft's service returned no languages")
                   | _ => inr (Ok langs)
                   end)
          end
      end
  end.
Definition open_session (jar : string) (id : Z) (s : nat) (langs : list Lang) (guid : string) : io (cres (list Lang)) :=
  whitelist_session jar guid ?;;
  url <- build_url 1024 "www.microsoft.com"
           (snprintf 512 ("/software-download-connector/api/getskuinformationbyproductedition?profile=" +:+ PROFILE_ID
              +:+ "&productEditionId=" +:+ dec id +:+ "&SKU=undefined&friendlyFileName=undefined&Locale=" +:+ QUERY_LOCALE
              +:+ "&sessionID=" +:+ guid)) ;;
  r <- fold_io (sku_attempt s jar url) [0; 1; 2] (langs, "") ;;
  Ret (match r with inr res => res | inl (_, err) => Fail err end).
Fixpoint open_sessions (jar : string) (ids : list Z) (guids : list string) (langs : list Lang) : io (cres RufuxMsdl) :=
  match ids with
  | [] => ok (Msdl_ guids langs jar)
  | id :: t =>
      guid <- new_guid 40 ;;
      langs <-? open_session jar id (length guids) langs guid ;;
      open_sessions jar t (guids ++ [guid]) langs
  end.
Definition rufux_msdl_close (h : RufuxMsdl) : io unit := when (negb (String.eqb (jar h) "")) (call (Unlink (jar h)) ;;; Ret tt).
Definition edition_of (product edition : Z) : option Edition :=
  if (product <? 0) || (edition <? 0) then None
  else match nth_error products (Z.to_nat product) with Some p => nth_error (ed p) (Z.to_nat edition) | None => None end.
Definition rufux_msdl_open (product edition : Z) (stale_errno : string) : io (cres RufuxMsdl) :=
  match edition_of product edition with
  | None => fail "unknown Windows version or edition"
  | Some e =>
      m <- call (Mkstemp "/tmp/rufux-msdl-XXXXXX") ;;
      match m with
      | None => fail ("cannot create a cookie file: " +:+ stale_errno)
      | Some (jar, fd) =>
          call (Close fd) ;;;
          r <- open_sessions jar (ids e) [] [] ;;
          match r with
          | Ok h => ok h
          | Fail m => rufux_msdl_close (Msdl_ [] [] jar) ;;; fail m
          end
      end
  end.

Definition rufux_msdl_language_count (h : RufuxMsdl) : Z := zlen (langs h).
Definition lang_at (h : RufuxMsdl) (i : Z) : option Lang := if i <? 0 then None else nth_error (langs h) (Z.to_nat i).
Definition rufux_msdl_language_name (h : RufuxMsdl) (i : Z) : string := default "" (l_name <$> lang_at h i).
Definition rufux_msdl_language_display (h : RufuxMsdl) (i : Z) : string := default "" (l_display <$> lang_at h i).

(** ** Choosing a language *)
Definition LOCALES : list (string * string) :=
  [("en", "English"); ("fr", "French"); ("de", "German"); ("es", "Spanish"); ("it", "Italian");
   ("pt", "Portuguese"); ("nl", "Dutch"); ("pl", "Polish"); ("ru", "Russian"); ("ja", "Japanese");
   ("ko", "Korean"); ("zh", "Chinese"); ("sv", "Swedish"); ("da", "Danish"); ("nb", "Norwegian");
   ("fi", "Finnish"); ("cs", "Czech"); ("tr", "Turkish"); ("ar", "Arabic"); ("he", "Hebrew");
   ("uk", "Ukrainian"); ("hu", "Hungarian"); ("el", "Greek"); ("ro", "Romanian"); ("bg", "Bulgarian")].
Definition hint_of (l : string) : string :=
  if strlen l <? 2 then "English"
  else match List.find (fun m => strncaseeq 2 l m.1) LOCALES with Some m => m.2 | None => "English" end.
Definition locale_language_hint : io string :=
  a <- call (Getenv "LC_ALL") ;;
  l <- match a with Some (String c t) => Ret (Some (String c t)) | _ => call (Getenv "LANG") end ;;
  Ret (match l with Some l => hint_of l | None => "English" end).

Definition has_prefix (w s : string) : bool := strncaseeq (String.length w) s w.
Definition lang_match (pass : nat) (w : string) (l : Lang) : bool :=
  match pass with
  | O => strcaseeq (l_name l) w
  | S O => strcaseeq (l_display l) w
  | _ => has_prefix w (l_name l) || has_prefix w (l_display l)
  end.
Definition matches (pass : nat) (w : string) (ls : list Lang) : list nat :=
  map fst (List.filter (fun il => lang_match pass w il.2) (combine (seq 0 (length ls)) ls)).
(** exact on the name, exact on the display name, then a prefix of either; a
    pass with no match goes on to the next *)
Definition find_matches (w : string) (ls : list Lang) : list nat * nat :=
  match matches 0 w ls with
  | [] => match matches 1 w ls with [] => (matches 2 w ls, 2%nat) | m => (m, 1%nat) end
  | m => (m, 0%nat)
  end.
(** the first language whose name starts with the hint *)
Definition first_prefixed (w : string) (ls : list Lang) : option nat :=
  head (map fst (List.filter (fun il => has_prefix w (l_name il.2)) (combine (seq 0 (length ls)) ls))).
Definition list_step (several : bool) (w : string) (acc : string) (l : Lang) : string :=
  if strlen acc <? 400 then
    if several && negb (has_prefix w (l_name l)) && negb (has_prefix w (l_display l)) then acc
    else snprintf 512 (acc +:+ (if String.eqb acc "" then "" else ", ") +:+ "'" +:+ l_display l +:+ "'")
  else acc.
Definition choose_language (h : RufuxMsdl) (w : string) (hint : bool) : cres nat :=
  let '(m, pass) := find_matches w (langs h) in
  match m with
  | [i] => Ok i
  | _ =>
      let several := (1 <? length m)%nat in
      match (if several && (pass =? 2)%nat && hint then first_prefixed w (langs h) else None) with
      | Some i => Ok i
      | None =>
          let list_ := fold_left (list_step several w) (langs h) "" in
          Fail (if several then "'" +:+ w +:+ "' matches several languages: " +:+ list_
                else "no language matches '" +:+ w +:+ "'. Available: " +:+ list_)
      end
  end.
Definition rufux_msdl_find_language (h : RufuxMsdl) (want : option string) : io (cres nat) :=
  match want with
  | Some (String c t) => Ret (choose_language h (String c t) false)
  | _ => w <- locale_language_hint ;; Ret (choose_language h w true)
  end.

(** ** The links *)
Definition arch_of (type : Z) : string :=
  if type =? 0 then "x86" else if type =? 1 then "x64" else if type =? 2 then "ARM64" else "Unknown".
(** encrypted, or the test server *)
Definition allowed_url (u : string) : io bool :=
  if starts_with "https://" u then Ret true
  else m <- mock_base ;; Ret (bool_decide (is_Some m) && starts_with "http://127.0.0.1" u).
Definition link_step (max : Z) (out : list RufuxMsdlLink) (o : option MJ) : io (list RufuxMsdlLink + list RufuxMsdlLink) :=
  if zlen out <? max then
    let u := mj_get_str o "Uri" "" in
    a <- allowed_url u ;;
    Ret (inl (if (a : bool)
              then out ++ [Link_ (snprintf 8 (arch_of (to_int (dtrunc (mj_get_num o "DownloadType" (Z2double (-1))))))) (snprintf 2048 u)]
              else out))
  else Ret (inr out).
Definition sku_links (h : RufuxMsdl) (max : Z) (out : list RufuxMsdlLink) (d : SkuRef)
    : io (list RufuxMsdlLink + cres (list RufuxMsdlLink)) :=
  url <- build_url 1024 "www.microsoft.com"
           (snprintf 640 ("/software-download-connector/api/GetProductDownloadLinksBySku?profile=" +:+ PROFILE_ID
              +:+ "&productEditionId=undefined&SKU=" +:+ sku d +:+ "&friendlyFileName=undefined&Locale=" +:+ QUERY_LOCALE
              +:+ "&sessionID=" +:+ nth (sr_sess d) (sess h) "")) ;;
  r <- http_get (jar h) url (Some REFERER) ;;
  match r with
  | Fail m => Ret (inr (Fail m))
  | Ok reply =>
      match mj_parse point (Some reply) with
      | inr jerr => Ret (inr (Fail ("Microsoft's service sent an unreadable reply (" +:+ jerr +:+ ")")))
      | inl j =>
          match api_errors j with
          | Some m => Ret (inr (Fail m))
          | None =>
              l <- fold_io (link_step max) (kids (mj_get (Some j) "ProductDownloadOptions")) out ;;
              Ret (inl (match l with inl l => l | inr l => l end))
          end
      end
  end.
Definition rufux_msdl_links (h : RufuxMsdl) (language max : Z) : io (cres (list RufuxMsdlLink)) :=
  match lang_at h language with
  | None => fail "no such language"
  | Some l =>
      r <- fold_io (sku_links h max) (l_d l) [] ;;
      match r with
      | inr res => Ret res
      | inl [] => fail "Microsoft's service returned no ISO download links"
      | inl out => ok out
      end
  end.

(** * Downloading *)
Definition iso_char (c : ascii) : ascii :=
  if isalnum c || Ascii.eqb c "." || Ascii.eqb c "_" || Ascii.eqb c "-" then c else "_".
Definition iso_name (cap : nat) (url : string) : string :=
  let s := match strstr "://" url with Some s => sdrop 3 s | None => url end in
  let b := match strrchr "/" s with Some r => sdrop 1 r | None => s end in
  let out := snprintf cap (smap iso_char (span (fun c => negb (one_of "?#" c)) b).1) in
  if (strlen out <? 5) || negb (strcaseeq (sdrop (String.length out - 4) out) ".iso") || String.eqb out ".iso"
  then snprintf cap "Windows.iso" else out.
Definition fetch_argv (part url : string) : list string :=
  ["curl"; "-L"; "--fail"; "--retry"; "3"; "--retry-delay"; "2"; "--connect-timeout"; "30";
   "-A"; UA; "-C"; "-"; "-#"; "-o"; part; url].
(** the number before the last percent sign of a line: [None] without a sign,
    [Some ""] without a number *)
Definition is_num (c : ascii) : bool := is_digit c || Ascii.eqb c ".".
Fixpoint trailing (P : ascii -> bool) (s : string) : string :=
  match s with
  | "" => ""
  | String c t => if sall P (String c t) then String c t else trailing P t
  end.
Definition percent_of (line : string) : option string :=
  match strrchr "%" line with
  | Some pc => Some (trailing is_num (before line pc))
  | None => None
  end.
Definition atof (s : string) : double := match strtod point s with Some (d, _) => d | None => double_zero end.
(** the bar curl draws: characters up to a carriage return or line feed *)
Definition fetch_loop (h : Z) : io string :=
  loop fuel (fun '(line, tail_) =>
    c <- call (PipeRead h 1) ;;
    match c with
    | [] => Ret (inr tail_)
    | b :: _ =>
        if (u8 b =? 13) || (u8 b =? 10) then
          let l := cstr_of_bytes line in
          match percent_of l with
          | Some num =>
              when (negb (String.eqb num "")) (call (Progress (dtrunc (dmul (atof num) (Z2double 100))) 10000)) ;;;
              Ret (inl ([], tail_))
          | None => Ret (inl ([], if String.eqb l "" then tail_ else stake 290 l))
          end
        else Ret (inl (if zlen line <? 511 then line ++ [b] else line, tail_))
    end) ([], "").
Definition rufux_msdl_fetch (url dir spawn_error : string) (pathcap : nat) : io (cres string) :=
  a <- allowed_url url ;;
  if negb a then fail "refusing to download over an unencrypted connection"
  else
    h <- rufux_have "curl" ;;
    if negb h then fail "curl is not installed"
    else
      st <- call (Stat dir) ;;
      if negb (is_kind KDir st) then fail ("'" +:+ dir +:+ "' is not a directory")
      else
        let path := snprintf pathcap (stake 3000 dir +:+ "/" +:+ iso_name 256 url) in
        let part := snprintf 4096 (path +:+ ".part") in
        x <- call (Access path F_OK) ;;
        if (x : bool) then fail ("'" +:+ path +:+ "' already exists; move it away or pick another folder")
        else
          p <- call (PipeSpawn (fetch_argv part url)) ;;
          match p with
          | None => fail spawn_error
          | Some h =>
              tail_ <- fetch_loop h ;;
              st <- call (Waitpid h) ;;
              if negb (exited_ok st) then
                fail ("download failed (curl exit " +:+ dec (match st with Exited c => c | _ => -1 end) +:+ ")"
                      +:+ (if String.eqb tail_ "" then "" else ": ") +:+ tail_
                      +:+ ". The partial file was kept; run the same command to resume")
              else
                r <- call (Rename part path) ;;
                match r with
                | Some e => fail ("cannot rename '" +:+ part +:+ "': " +:+ strerror e)
                | None => call (Progress 10000 10000) ;;; ok path
                end
          end.
Variable evp : EVP.
(** the digest for display: read errors are not looked at *)
Definition sha_loop (f : Z) (c : ctx evp) : io (ctx evp) :=
  loop fuel (fun c =>
    l <- call (Fread f 65536) ;;
    match l with
    | [] => Ret (inr c)
    | _ => Ret (inl (default c (digest_update evp c l)))
    end) c.
Definition rufux_msdl_sha256 (path : string) : io (option string) :=
  f <- call (Fopen path "rb") ;;
  match f with
  | inl _ => Ret None
  | inr f =>
      match digest_init evp RUFUX_SHA256 with
      | None => call (Fclose f) ;;; Ret None
      | Some c =>
          c <- sha_loop f c ;;
          call (Fclose f) ;;;
          Ret (rufux_hex <$> digest_final evp c)
      end
  end.
End Msdl.
