(* ===== verification/MsdlSpec.v ===== *)
(** What src/src/linux/msdl.c promises: session identifiers are version 4
    UUIDs, the name a download gets is one safe file name, and a finished
    image appears under its name only after curl has succeeded. *)
From S2P Require Import Prelude Cstr Double Sys Exec Mjson Checksum Msdl ExtractSpec.

(** * Session identifiers *)
(** RFC 4122's text form of a version 4 UUID, in lower case *)
Definition lower_hex (c : ascii) : bool := one_of "0123456789abcdef" c.
Definition uuid4_char (i : nat) (c : ascii) : bool :=
  if existsb (Nat.eqb i) [8; 13; 18; 23]%nat then Ascii.eqb c "-"
  else if Nat.eqb i 14 then Ascii.eqb c "4"
  else if Nat.eqb i 19 then one_of "89ab" c
  else lower_hex c.
Fixpoint from_pos (P : nat -> ascii -> bool) (i : nat) (s : string) : bool :=
  match s with "" => true | String c t => P i c && from_pos P (S i) t end.
Definition uuid4 (s : string) : bool := (String.length s =? 36)%nat && from_pos uuid4_char 0 s.

Definition hi (b : byte) : ascii := hexdigit (Z.shiftr (u8 b) 4).
Definition lo (b : byte) : ascii := hexdigit (Z.land (u8 b) 15).
Lemma hex_hi b : lower_hex (hi b) = true.
Proof. by destruct b. Qed.
Lemma hex_lo b : lower_hex (lo b) = true.
Proof. by destruct b. Qed.
(** the two stamped bytes *)
Lemma version_byte b : Ascii.eqb (hi (b8 (Z.lor (Z.land (le [b]) 0x0f) 0x40))) "4" = true.
Proof. by destruct b. Qed.
Lemma variant_byte b : one_of "89ab" (hi (b8 (Z.lor (Z.land (le [b]) 0x3f) 0x80))) = true.
Proof. by destruct b. Qed.
Lemma stamped_uuid4 l : length l = 16%nat -> uuid4 (guid_text (stamp l)) = true.
Proof.
  intros H. do 16 (destruct l as [|? l]; [discriminate|]). destruct l; [|discriminate]. clear H.
  unfold guid_text, stamp, slice, ztake, zdrop.
  repeat match goal with |- context [Z.to_nat ?n] => let m := eval vm_compute in (Z.to_nat n) in change (Z.to_nat n) with m end.
  cbn [take drop app].
  match goal with |- context [Prelude.b8 (Z.lor (Z.land (le [?c]) 15) 64)] =>
    pose proof (version_byte c) as H6; set (v := Prelude.b8 (Z.lor (Z.land (le [c]) 15) 64)) in * end.
  match goal with |- context [Prelude.b8 (Z.lor (Z.land (le [?c]) 63) 128)] =>
    pose proof (variant_byte c) as H8; set (w := Prelude.b8 (Z.lor (Z.land (le [c]) 63) 128)) in * end.
  clearbody v w. cbn [rufux_hex String.append]. fold (hi v) (hi w).
  repeat match goal with |- context [hexdigit (Z.shiftr (u8 ?c) 4)] => fold (hi c) end.
  repeat match goal with |- context [hexdigit (Z.land (u8 ?c) 15)] => fold (lo c) end.
  unfold uuid4. cbn [String.length Nat.eqb andb from_pos].
  unfold uuid4_char. cbn [existsb Nat.eqb orb].
  by rewrite H6, H8, !hex_hi, !hex_lo.
Qed.
Lemma rand_bytes_length n t l : exec (rand_bytes n) t l -> length l = n.
Proof.
  revert t l; induction n as [|n IH]; intros t l; [by intros [_ ->]|].
  intros (r & u & -> & H). cbn [bind] in H.
  apply exec_bind in H as (u1 & k & u2 & -> & H1 & H2). destruct H2 as [-> ->]. cbn [length]. by rewrite (IH _ _ H1).
Qed.

(** Every session identifier is a version 4 UUID in RFC 4122's text form:
    36 characters, dashes at positions 8, 13, 18 and 23, the version digit 4,
    a variant digit from 8 to b, lower-case hexadecimal elsewhere. It is one
    whether or not /dev/urandom opens, and when it gives fewer bytes than were
    asked for. *)
Theorem new_guid_uuid4 t g : exec (new_guid 40) t g -> uuid4 g = true.
Proof.
  intros (f & u & -> & H). cbn [bind] in H.
  apply exec_bind in H as (u1 & l & u2 & -> & H1 & H).
  assert (Hl : length l = 16%nat).
  { destruct f as [e|f]; [by apply rand_bytes_length in H1|].
    destruct H1 as (b & u3 & -> & H1). cbn [bind] in H1. destruct (Z.eqb_spec (zlen b) 16) as [E|_].
    - destruct H1 as [_ ->]. unfold zlen in E. lia.
    - by apply rand_bytes_length in H1. }
  apply stamped_uuid4 in Hl. apply exec_bind in H as (u3 & [] & u4 & -> & _ & [_ ->]).
  rewrite snprintf_fits; [done|]. apply andb_true_iff in Hl as [Hl%Nat.eqb_eq _]. unfold strlen. lia.
Qed.
Lemma new_guid_uuid4_witness : exists t, exec (new_guid 40) t "00000000-0000-4000-8000-000000000000" /\
  uuid4 "00000000-0000-4000-8000-000000000000" = true.
Proof.
  set (hd := fun X (e : ev X) (w : unit) => (default_answer e, w)).
  assert (H : exec (new_guid 40) (run hd (new_guid 40) tt).1.2 "00000000-0000-4000-8000-000000000000")
    by (apply (run_computed hd (new_guid 40) tt); vm_compute; reflexivity).
  exists (run hd (new_guid 40) tt).1.2. split; [exact H|exact (new_guid_uuid4 _ _ H)].
Defined.

(** * Downloads *)
(** a character a downloaded file's name may have *)
Definition name_char (c : ascii) : bool := isalnum c || one_of "._-" c.
Definition safe_name (s : string) : Prop :=
  sall name_char s = true /\ strcaseeq (sdrop (String.length s - 4) s) ".iso" = true /\
  4 < strlen s < 256.
Lemma sall_all P s : (forall c, P c = true) -> sall P s = true.
Proof. intros H. induction s as [|c s IH]; cbn; [done|]. by rewrite H, IH. Qed.
Lemma iso_char_name c : name_char (iso_char c) = true.
Proof. by destruct c as [[] [] [] [] [] [] [] []]. Qed.
Lemma iso_name_safe url : safe_name (iso_name 256 url).
Proof.
  unfold iso_name. set (o := snprintf 256 _).
  assert (Ho : sall name_char o = true /\ strlen o < 256).
  { split; [|apply (snprintf_bound 256); lia]. apply sall_stake. rewrite sall_smap. apply sall_all, iso_char_name. }
  clearbody o. destruct Ho as [Ho Hl]. destruct (Z.ltb_spec (strlen o) 5) as [|H5]; [by vm_compute|].
  destruct (strcaseeq _ _) eqn:Hc; [|by vm_compute]. destruct (String.eqb _ _); [by vm_compute|].
  unfold safe_name. cbn [orb negb]. split_and!; try done. lia.
Qed.

Section Fetch.
Variable fuel : nat.
Variable point : ascii.
Variables (url dir spawn_error : string) (cap : nat).
(** what the image and its partial file are called *)
Definition image_path : string := snprintf cap (stake 3000 dir +:+ "/" +:+ iso_name 256 url).
Definition part_path : string := snprintf 4096 (image_path +:+ ".part").
Definition renames (o : obs) : bool :=
  match o with
  | Obs e x =>
      match e in ev X return X -> bool with
      | Rename _ _ => fun x => match x with None => true | Some _ => false end
      | _ => fun _ => false
      end x
  end.
Definition renames_nothing : forall X : Set, ev X -> Prop := fun X e =>
  match e with Rename _ _ => False | _ => True end.
Lemma no_renames {A} (m : io A) t a :
  always renames_nothing m -> exec m t a -> Forall (fun o => renames o = false) t.
Proof.
  intros H He. apply (always_exec _ _ _ _ H) in He. eapply List.Forall_impl; [|exact He].
  intros [X e x]. by destruct e.
Qed.
#[local] Hint Extern 1 (renames_nothing _ _) => exact I : rufux.
Lemma allowed_url_inv t a :
  exec (allowed_url url) t a -> a = true ->
  starts_with "https://" url = true \/
  starts_with "http://127.0.0.1" url = true /\ exists m, In (Obs (Getenv "RUFUX_MSDL_MOCK") (Some m)) t.
Proof.
  unfold allowed_url. destruct (starts_with "https://" url); [by left|].
  intros (m & u & -> & H) ->. destruct H as [_ H]. symmetry in H. apply andb_true_iff in H as [Hm Hu]. right.
  split; [done|]. destruct m as [s|]; [|done]. exists s. by left.
Qed.
Lemma fetch_loop_quiet h : always renames_nothing (fetch_loop fuel point h).
Proof. unfold fetch_loop. always_tac. Qed.

Lemma allowed_url_quiet : always renames_nothing (allowed_url url).
Proof. unfold allowed_url, mock_base. always_tac. Qed.
Lemma have_renames_nothing name : always renames_nothing (rufux_have name).
Proof. unfold rufux_have, path_dirs. always_tac. Qed.

(** everything after the checks on the URL and on curl *)
Definition fetch_rest : io (cres string) :=
  st <- call (Stat dir) ;;
  if negb (is_kind KDir st) then fail ("'" +:+ dir +:+ "' is not a directory")
  else
    x <- call (Access image_path F_OK) ;;
    if (x : bool) then fail ("'" +:+ image_path +:+ "' already exists; move it away or pick another folder")
    else
      p <- call (PipeSpawn (fetch_argv part_path url)) ;;
      match p with
      | None => fail spawn_error
      | Some h =>
          tail_ <- fetch_loop fuel point h ;;
          st <- call (Waitpid h) ;;
          if negb (exited_ok st) then
            fail ("download failed (curl exit " +:+ dec (match st with Exited c => c | _ => -1 end) +:+ ")"
                  +:+ (if String.eqb tail_ "" then "" else ": ") +:+ tail_
                  +:+ ". The partial file was kept; run the same command to resume")
          else
            r <- call (Rename part_path image_path) ;;
            match r with
            | Some e => fail ("cannot rename '" +:+ part_path +:+ "': " +:+ strerror e)
            | None => call (Progress 10000 10000) ;;; ok image_path
            end
      end.
Lemma fetch_rest_inv t r :
  exec fetch_rest t r ->
  match r with
  | Ok path =>
      path = image_path /\ exists h t1 t2 t3,
        t = t1 ++ Obs (Access image_path F_OK) false :: Obs (PipeSpawn (fetch_argv part_path url)) (Some h)
            :: t2 ++ Obs (Waitpid h) (Exited 0) :: Obs (Rename part_path image_path) None :: t3
  | Fail _ => Forall (fun o => renames o = false) t
  end.
Proof.
  intros (st & t1 & -> & H). cbn [bind] in H. destruct (negb _) in H; [destruct H as [-> ->]; by repeat constructor|].
  destruct H as (x & t2 & -> & H). cbn [bind] in H. destruct x; [destruct H as [-> ->]; by repeat constructor|].
  destruct H as (p & t3 & -> & H). cbn [bind] in H.
  destruct p as [h|]; [|destruct H as [-> ->]; by repeat constructor].
  apply exec_bind in H as (t4 & tl & t5 & -> & H1 & H). apply no_renames in H1; [|apply fetch_loop_quiet].
  destruct H as (w & t6 & -> & H). cbn [bind] in H.
  destruct (exited_ok w) eqn:Hw; cbn [negb] in H.
  2: { destruct H as [-> ->]. do 3 (constructor; [done|]). apply Forall_app. split; [done|]. by repeat constructor. }
  apply exited_ok_inv in Hw as ->. destruct H as (e & t7 & -> & H). cbn [bind] in H. destruct e as [e|].
  - destruct H as [-> ->]. do 3 (constructor; [done|]). apply Forall_app. split; [done|]. by repeat constructor.
  - destruct H as ([] & t8 & -> & H). destruct H as [-> ->]. split; [done|].
    by exists h, [Obs (Stat dir) st], t4, [Obs (Progress 10000 10000) tt].
Qed.

End Fetch.

(** a system where curl works *)
Definition curl_env : oracle := fun X e =>
  match e in ev X return X with
  | Access _ m => match m with X_OK => true | _ => false end
  | Stat _ => Some (Stat_ KDir 0 0 0)
  | PipeSpawn _ => Some 5
  | e => default_answer e
  end.
