(* ===== verification/Cli.v ===== *)
(** src/src/linux/main.c and src/src/gui/gui_stub.c: the command line.

    [main] checks the options, then dispatches to one definition per command.
    The progress callbacks only draw; their calls stay [Progress] events, and
    the lines of the log callback [Log] events. *)
From S2P Require Import Prelude Cstr Double Sys Exec Device Writer Vhd Checksum Badblocks Vdisk Partition.
From S2P Require Import Mkfs Host Bootcheck Iso Extract Create Msdl.

(** * Option checking *)
Record CmdSpec := CmdSpec_ { cmd : string; flags : string; values : string }.
Definition specs : list CmdSpec :=
  [CmdSpec_ "list" "--allow-fixed --json" "";
   CmdSpec_ "probe" "--detail" "";
   CmdSpec_ "checksum" "" "--algo";
   CmdSpec_ "write" "--allow-file --allow-fixed --dry-run --real --verify --yes" "";
   CmdSpec_ "partition" "--allow-file --allow-fixed --bios-boot --dry-run --real --yes" "--fs --layout --scheme";
   CmdSpec_ "format" "--allow-file --allow-fixed --dry-run --real --yes" "--fs --label";
   CmdSpec_ "extract" "--dry-run" "";
   CmdSpec_ "install-boot" "--allow-file --allow-fixed --dry-run --real --yes" "--mbr";
   CmdSpec_ "persist" "--dry-run" "--label --size";
   CmdSpec_ "badblocks" "--allow-file --yes" "--write-patterns";
   CmdSpec_ "mount" "--dry-run" "";
   CmdSpec_ "umount" "--dry-run" "";
   CmdSpec_ "secureboot-status" "" "";
   CmdSpec_ "validate-efi" "" "";
   CmdSpec_ "smart" "" "";
   CmdSpec_ "check-boot" "" "";
   CmdSpec_ "update-check" "" "";
   CmdSpec_ "download-windows" "--list --list-langs --url-only" "--arch --edition --lang --out --version";
   CmdSpec_ "create"
     "--allow-file --allow-fixed --dry-run --full --ignore-smart --no-autorun --quick --real --uefi-validate --verify --yes"
     "--badblock-passes --cluster-sectors --fs --keyboard --label --locale --mode --persist-mb --scheme --split-wim --timezone --wue"].

(** the space-separated words of a list; a list that ends with a space has an
    empty last word *)
Definition words (l : string) : list string :=
  tok_char " " l ++ match head (rev (list_ascii_of_string l)) with Some c => if Ascii.eqb c " " then [""] else [] | None => [] end.
Definition in_list (l word : string) : bool := existsb (String.eqb word) (words l).

(** ** The closest option *)
(** one row of the table after the one of [prev]: [diag] is the cell above and
    to the left, [left] the one to the left *)
Fixpoint row_cells (x : ascii) (b : list ascii) (diag left : Z) (prev : list Z) : list Z :=
  match b, prev with
  | y :: b', up :: prev' =>
      let c := if Ascii.eqb x y then 0 else 1 in
      let m := up + 1 in
      let m := if left + 1 <? m then left + 1 else m in
      let m := if diag + c <? m then diag + c else m in
      m :: row_cells x b' up m prev'
  | _, _ => []
  end.
Definition next_row (i : Z) (x : ascii) (b : list ascii) (row : list Z) : list Z :=
  match row with d0 :: prev => i :: row_cells x b d0 i prev | [] => [] end.
Fixpoint all_rows (i : Z) (a b : list ascii) (row : list Z) : list Z :=
  match a with [] => row | x :: a' => all_rows (i + 1) a' b (next_row i x b row) end.
Definition edit_distance (a b : string) : Z :=
  if (40 <? strlen a) || (40 <? strlen b) then 99
  else
    let b := list_ascii_of_string b in
    List.last (all_rows 1 (list_ascii_of_string a) b (seqZ 0 (zlen b + 1))) 0.

Definition closer (cap : nat) (bad : string) (best : Z * option string) (w : string) : Z * option string :=
  if negb (String.eqb w "") && (String.length w <? cap)%nat then
    let d := edit_distance bad (snprintf 64 w) in
    if d <? best.1 then (d, Some (snprintf cap (snprintf 64 w))) else best
  else best.
Definition closest_option (sp : CmdSpec) (bad : string) (cap : nat) : option string :=
  (fold_left (closer cap bad) (words (flags sp) ++ words (values sp)) (3, None)).2.

(** ** Validation *)
Definition find_spec (c : string) : option CmdSpec :=
  fold_left (fun sp s => if String.eqb c (cmd s) then Some s else sp) specs None.
(** a path or another positional argument *)
Definition positional (t : string) : bool :=
  match t with String "-" (String _ _) => false | _ => true end.
Fixpoint validate_args (sp : CmdSpec) (args : list string) : io Z :=
  match args with
  | [] => Ret 0
  | t :: rest =>
      if positional t then validate_args sp rest
      else if in_list (flags sp) t then validate_args sp rest
      else if in_list (values sp) t then
        match rest with
        | [] => call (Stderr ("rufux " +:+ cmd sp +:+ ": option '" +:+ t +:+ "' needs a value" +:+ LF)) ;;; Ret 2
        | _ :: rest => validate_args sp rest
        end
      else
        call (Stderr ("rufux " +:+ cmd sp +:+ ": unknown option '" +:+ t +:+ "'")) ;;;
        match closest_option sp t 64 with
        | Some g => call (Stderr (" (did you mean '" +:+ g +:+ "'?)"))
        | None => Ret tt
        end ;;;
        call (Stderr (LF +:+ "Nothing was changed. Run 'rufux' without arguments for the list of options." +:+ LF)) ;;;
        Ret 2
  end.
Definition validate_flags (argv : list string) : io Z :=
  match find_spec (nth 1 argv "") with
  | None => Ret 0
  | Some sp => validate_args sp (drop 2 argv)
  end.

(** the real node behind a link under /dev *)
Definition resolve_one (a : string) : io string :=
  if negb (starts_with "/dev/" a) then Ret a
  else
    st <- call (Lstat a) ;;
    if negb (is_kind KLnk st) then Ret a
    else
      r <- call (Realpath a) ;;
      match r with
      | inl _ => Ret a
      | inr p => call (Stderr ("rufux: " +:+ a +:+ " is " +:+ p +:+ LF)) ;;; Ret p
      end.
Fixpoint resolve_all (args : list string) : io (list string) :=
  match args with
  | [] => Ret []
  | a :: t => a <- resolve_one a ;; t <- resolve_all t ;; Ret (a :: t)
  end.
Definition resolve_device_links (argv : list string) : io (list string) :=
  t <- resolve_all (drop 2 argv) ;; Ret (take 2 argv ++ t).

(** * Option parsing *)
(** an option is a flag, or takes the next argument; anything else is skipped,
    and so is an option whose value is missing *)
Inductive opt (O : Type) := Flag (f : O -> O) | Value (f : string -> O -> O).
Arguments Flag {O}. Arguments Value {O}.
Definition table (O : Type) := list (string * opt O).
Definition lookup_opt {O} (tbl : table O) (t : string) : option (opt O) :=
  snd <$> List.find (fun e => String.eqb t e.1) tbl.
Fixpoint parse_opts {O} (tbl : table O) (args : list string) (o : O) : O :=
  match args with
  | [] => o
  | t :: rest =>
      match lookup_opt tbl t with
      | Some (Flag f) => parse_opts tbl rest (f o)
      | Some (Value f) => match rest with v :: rest => parse_opts tbl rest (f v o) | [] => o end
      | None => parse_opts tbl rest o
      end
  end.

(** ** The options of each command *)
Record ListOpts := ListOpts_ { lo_json : bool; lo_allow : bool }.
Definition list_opts : table ListOpts :=
  [("--json", Flag (fun o => ListOpts_ true (lo_allow o))); ("--allow-fixed", Flag (fun o => ListOpts_ (lo_json o) true))].
Definition probe_opts : table bool := [("--detail", Flag (fun _ => true))].
Definition alg_of (a : string) : option RufuxHashAlg :=
  if String.eqb a "md5" then Some RUFUX_MD5 else if String.eqb a "sha1" then Some RUFUX_SHA1
  else if String.eqb a "sha256" then Some RUFUX_SHA256 else if String.eqb a "sha512" then Some RUFUX_SHA512 else None.
(** an unknown algorithm ends the command *)
Definition checksum_opts : table (string + RufuxHashAlg) :=
  [("--algo", Value (fun a o =>
      match o with
      | inl e => inl e
      | inr _ => match alg_of a with Some g => inr g | None => inl ("unknown algo '" +:+ a +:+ "' (md5|sha1|sha256|sha512)" +:+ LF) end
      end))].
Definition write_opts : table RufuxWriteOpts :=
  [("--dry-run", Flag (fun o => WriteOpts_ true (verify o) (allow_fixed o) (allow_file o) (yes o) (src_len o)));
   ("--real", Flag (fun o => WriteOpts_ false (verify o) (allow_fixed o) (allow_file o) (yes o) (src_len o)));
   ("--verify", Flag (fun o => WriteOpts_ (dry_run o) true (allow_fixed o) (allow_file o) (yes o) (src_len o)));
   ("--allow-fixed", Flag (fun o => WriteOpts_ (dry_run o) (verify o) true (allow_file o) (yes o) (src_len o)));
   ("--allow-file", Flag (fun o => WriteOpts_ (dry_run o) (verify o) (allow_fixed o) true (yes o) (src_len o)));
   ("--yes", Flag (fun o => WriteOpts_ (dry_run o) (verify o) (allow_fixed o) (allow_file o) true (src_len o)))].
Definition part_with (o : RufuxPartOpts) sc la fs : RufuxPartOpts :=
  PartOpts_ sc la fs (po_bios_boot o) (po_dry_run o) (po_allow_fixed o) (po_allow_file o) (po_yes o).
Definition part_flags (o : RufuxPartOpts) bb dr fx fl y : RufuxPartOpts :=
  PartOpts_ (po_scheme o) (po_layout o) (po_fs_main o) bb dr fx fl y.
Definition partition_opts : table RufuxPartOpts :=
  [("--scheme", Value (fun v o => part_with o v (po_layout o) (po_fs_main o)));
   ("--layout", Value (fun v o => part_with o (po_scheme o) v (po_fs_main o)));
   ("--fs", Value (fun v o => part_with o (po_scheme o) (po_layout o) (Some v)));
   ("--bios-boot", Flag (fun o => part_flags o true (po_dry_run o) (po_allow_fixed o) (po_allow_file o) (po_yes o)));
   ("--dry-run", Flag (fun o => part_flags o (po_bios_boot o) true (po_allow_fixed o) (po_allow_file o) (po_yes o)));
   ("--real", Flag (fun o => part_flags o (po_bios_boot o) false (po_allow_fixed o) (po_allow_file o) (po_yes o)));
   ("--allow-file", Flag (fun o => part_flags o (po_bios_boot o) (po_dry_run o) (po_allow_fixed o) true (po_yes o)));
   ("--allow-fixed", Flag (fun o => part_flags o (po_bios_boot o) (po_dry_run o) true (po_allow_file o) (po_yes o)));
   ("--yes", Flag (fun o => part_flags o (po_bios_boot o) (po_dry_run o) (po_allow_fixed o) (po_allow_file o) true))].
Definition mkfs_flags (o : RufuxMkfsOpts) dr fx fl y : RufuxMkfsOpts :=
  MkfsOpts_ (mf_fs o) (mf_label o) (mf_cluster_sectors o) dr fx fl y.
Definition format_opts : table RufuxMkfsOpts :=
  [("--fs", Value (fun v o => MkfsOpts_ v (mf_label o) (mf_cluster_sectors o) (mf_dry_run o) (mf_allow_fixed o) (mf_allow_file o) (mf_yes o)));
   ("--label", Value (fun v o => MkfsOpts_ (mf_fs o) v (mf_cluster_sectors o) (mf_dry_run o) (mf_allow_fixed o) (mf_allow_file o) (mf_yes o)));
   ("--dry-run", Flag (fun o => mkfs_flags o true (mf_allow_fixed o) (mf_allow_file o) (mf_yes o)));
   ("--real", Flag (fun o => mkfs_flags o false (mf_allow_fixed o) (mf_allow_file o) (mf_yes o)));
   ("--allow-file", Flag (fun o => mkfs_flags o (mf_dry_run o) (mf_allow_fixed o) true (mf_yes o)));
   ("--allow-fixed", Flag (fun o => mkfs_flags o (mf_dry_run o) true (mf_allow_file o) (mf_yes o)));
   ("--yes", Flag (fun o => mkfs_flags o (mf_dry_run o) (mf_allow_fixed o) (mf_allow_file o) true))].
Definition dry_opts : table bool := [("--dry-run", Flag (fun _ => true))].
Definition boot_flags (o : RufuxBootOpts) dr fx fl y : RufuxBootOpts := BootOpts_ (bt_kind o) dr fx fl y.
Definition boot_opts : table RufuxBootOpts :=
  [("--mbr", Value (fun v o => BootOpts_ v (bt_dry_run o) (bt_allow_fixed o) (bt_allow_file o) (bt_yes o)));
   ("--dry-run", Flag (fun o => boot_flags o true (bt_allow_fixed o) (bt_allow_file o) (bt_yes o)));
   ("--real", Flag (fun o => boot_flags o false (bt_allow_fixed o) (bt_allow_file o) (bt_yes o)));
   ("--allow-file", Flag (fun o => boot_flags o (bt_dry_run o) (bt_allow_fixed o) true (bt_yes o)));
   ("--allow-fixed", Flag (fun o => boot_flags o (bt_dry_run o) true (bt_allow_file o) (bt_yes o)));
   ("--yes", Flag (fun o => boot_flags o (bt_dry_run o) (bt_allow_fixed o) (bt_allow_file o) true))].
Record PersistOpts := PersistOpts_ { ps_mb : Z; ps_label : string; ps_dry : bool }.
Definition persist_opts : table PersistOpts :=
  [("--size", Value (fun v o => PersistOpts_ (strtoul10 v) (ps_label o) (ps_dry o)));
   ("--label", Value (fun v o => PersistOpts_ (ps_mb o) v (ps_dry o)));
   ("--dry-run", Flag (fun o => PersistOpts_ (ps_mb o) (ps_label o) true))].
Record BadOpts := BadOpts_ { bb_allow_file : bool; bb_passes : Z; bb_yes : bool }.
Definition badblocks_opts : table BadOpts :=
  [("--allow-file", Flag (fun o => BadOpts_ true (bb_passes o) (bb_yes o)));
   ("--write-patterns", Value (fun v o => BadOpts_ (bb_allow_file o) (atoi v) (bb_yes o)));
   ("--yes", Flag (fun o => BadOpts_ (bb_allow_file o) (bb_passes o) true))].

(** create: three groups of options, and whether --fs was given *)
Definition create_texts (o : RufuxCreateOpts) a_mode a_scheme a_fs a_label a_wue a_locale a_keyboard a_timezone : RufuxCreateOpts :=
  CreateOpts_ a_mode a_scheme a_fs a_label a_wue (c_split_wim_mb o) a_locale a_keyboard a_timezone (c_persist_mb o)
    (c_cluster_sectors o) (c_quick_format o) (c_extended_label o) (c_uefi_validate o) (c_badblock_passes o)
    (c_verify o) (c_ignore_smart o) (c_dry_run o) (c_allow_fixed o) (c_allow_file o) (c_yes o).
Definition create_numbers (o : RufuxCreateOpts) a_split_wim_mb a_persist_mb a_cluster_sectors a_badblock_passes : RufuxCreateOpts :=
  CreateOpts_ (c_mode o) (c_scheme o) (c_fs o) (c_label o) (c_wue o) a_split_wim_mb (c_locale o) (c_keyboard o)
    (c_timezone o) a_persist_mb a_cluster_sectors (c_quick_format o) (c_extended_label o) (c_uefi_validate o)
    a_badblock_passes (c_verify o) (c_ignore_smart o) (c_dry_run o) (c_allow_fixed o) (c_allow_file o)
    (c_yes o).
Definition create_flags (o : RufuxCreateOpts) a_quick_format a_extended_label a_uefi_validate a_verify a_ignore_smart a_dry_run a_allow_fixed a_allow_file a_yes : RufuxCreateOpts :=
  CreateOpts_ (c_mode o) (c_scheme o) (c_fs o) (c_label o) (c_wue o) (c_split_wim_mb o) (c_locale o) (c_keyboard o)
    (c_timezone o) (c_persist_mb o) (c_cluster_sectors o) a_quick_format a_extended_label a_uefi_validate
    (c_badblock_passes o) a_verify a_ignore_smart a_dry_run a_allow_fixed a_allow_file a_yes.
Definition create_opts : table (RufuxCreateOpts * bool) :=
  [("--mode", Value (fun v '(o, g) => (create_texts o v (c_scheme o) (c_fs o) (c_label o) (c_wue o)
      (c_locale o) (c_keyboard o) (c_timezone o), g)));
   ("--scheme", Value (fun v '(o, g) => (create_texts o (c_mode o) v (c_fs o) (c_label o) (c_wue o)
      (c_locale o) (c_keyboard o) (c_timezone o), g)));
   ("--fs", Value (fun v '(o, g) => (create_texts o (c_mode o) (c_scheme o) v (c_label o) (c_wue o)
      (c_locale o) (c_keyboard o) (c_timezone o), true)));
   ("--label", Value (fun v '(o, g) => (create_texts o (c_mode o) (c_scheme o) (c_fs o) (Some v) (c_wue o)
      (c_locale o) (c_keyboard o) (c_timezone o), g)));
   ("--persist-mb", Value (fun v '(o, g) => (create_numbers o (c_split_wim_mb o) (strtoul10 v)
      (c_cluster_sectors o) (c_badblock_passes o), g)));
   ("--cluster-sectors", Value (fun v '(o, g) => (create_numbers o (c_split_wim_mb o) (c_persist_mb o) (atoi v)
      (c_badblock_passes o), g)));
   ("--badblock-passes", Value (fun v '(o, g) => (create_numbers o (c_split_wim_mb o) (c_persist_mb o)
      (c_cluster_sectors o) (atoi v), g)));
   ("--dry-run", Flag (fun '(o, g) => (create_flags o (c_quick_format o) (c_extended_label o)
      (c_uefi_validate o) (c_verify o) (c_ignore_smart o) true (c_allow_fixed o) (c_allow_file o) (c_yes o), g)));
   ("--real", Flag (fun '(o, g) => (create_flags o (c_quick_format o) (c_extended_label o) (c_uefi_validate o)
      (c_verify o) (c_ignore_smart o) false (c_allow_fixed o) (c_allow_file o) (c_yes o), g)));
   ("--allow-file", Flag (fun '(o, g) => (create_flags o (c_quick_format o) (c_extended_label o)
      (c_uefi_validate o) (c_verify o) (c_ignore_smart o) (c_dry_run o) (c_allow_fixed o) true (c_yes o), g)));
   ("--allow-fixed", Flag (fun '(o, g) => (create_flags o (c_quick_format o) (c_extended_label o)
      (c_uefi_validate o) (c_verify o) (c_ignore_smart o) (c_dry_run o) true (c_allow_file o) (c_yes o), g)));
   ("--yes", Flag (fun '(o, g) => (create_flags o (c_quick_format o) (c_extended_label o) (c_uefi_validate o)
      (c_verify o) (c_ignore_smart o) (c_dry_run o) (c_allow_fixed o) (c_allow_file o) true, g)));
   ("--verify", Flag (fun '(o, g) => (create_flags o (c_quick_format o) (c_extended_label o)
      (c_uefi_validate o) true (c_ignore_smart o) (c_dry_run o) (c_allow_fixed o) (c_allow_file o) (c_yes o), g)));
   ("--quick", Flag (fun '(o, g) => (create_flags o true (c_extended_label o) (c_uefi_validate o) (c_verify o)
      (c_ignore_smart o) (c_dry_run o) (c_allow_fixed o) (c_allow_file o) (c_yes o), g)));
   ("--full", Flag (fun '(o, g) => (create_flags o false (c_extended_label o) (c_uefi_validate o) (c_verify o)
      (c_ignore_smart o) (c_dry_run o) (c_allow_fixed o) (c_allow_file o) (c_yes o), g)));
   ("--no-autorun", Flag (fun '(o, g) => (create_flags o (c_quick_format o) false (c_uefi_validate o)
      (c_verify o) (c_ignore_smart o) (c_dry_run o) (c_allow_fixed o) (c_allow_file o) (c_yes o), g)));
   ("--uefi-validate", Flag (fun '(o, g) => (create_flags o (c_quick_format o) (c_extended_label o) true
      (c_verify o) (c_ignore_smart o) (c_dry_run o) (c_allow_fixed o) (c_allow_file o) (c_yes o), g)));
   ("--ignore-smart", Flag (fun '(o, g) => (create_flags o (c_quick_format o) (c_extended_label o)
      (c_uefi_validate o) (c_verify o) true (c_dry_run o) (c_allow_fixed o) (c_allow_file o) (c_yes o), g)));
   ("--wue", Value (fun v '(o, g) => (create_texts o (c_mode o) (c_scheme o) (c_fs o) (c_label o) (Some v)
      (c_locale o) (c_keyboard o) (c_timezone o), g)));
   ("--split-wim", Value (fun v '(o, g) => (create_numbers o (atoi v mod 2 ^ 32) (c_persist_mb o)
      (c_cluster_sectors o) (c_badblock_passes o), g)));
   ("--locale", Value (fun v '(o, g) => (create_texts o (c_mode o) (c_scheme o) (c_fs o) (c_label o) (c_wue o)
      (Some v) (c_keyboard o) (c_timezone o), g)));
   ("--keyboard", Value (fun v '(o, g) => (create_texts o (c_mode o) (c_scheme o) (c_fs o) (c_label o)
      (c_wue o) (c_locale o) (Some v) (c_timezone o), g)));
   ("--timezone", Value (fun v '(o, g) => (create_texts o (c_mode o) (c_scheme o) (c_fs o) (c_label o)
      (c_wue o) (c_locale o) (c_keyboard o) (Some v), g)))].

(** download-windows, which refuses any other argument *)
Record DlOpts := DlOpts_ {
  dl_ver : string; dl_lang : option string; dl_arch : option string; dl_out : string;
  dl_edition : Z; dl_list : bool; dl_list_langs : bool; dl_url_only : bool }.
Definition dl_texts (o : DlOpts) ve la ar out : DlOpts :=
  DlOpts_ ve la ar out (dl_edition o) (dl_list o) (dl_list_langs o) (dl_url_only o).
Definition dl_flags (o : DlOpts) l ll u : DlOpts :=
  DlOpts_ (dl_ver o) (dl_lang o) (dl_arch o) (dl_out o) (dl_edition o) l ll u.
Definition download_opts : table DlOpts :=
  [("--list", Flag (fun o => dl_flags o true (dl_list_langs o) (dl_url_only o)));
   ("--list-langs", Flag (fun o => dl_flags o (dl_list o) true (dl_url_only o)));
   ("--url-only", Flag (fun o => dl_flags o (dl_list o) (dl_list_langs o) true));
   ("--version", Value (fun v o => dl_texts o v (dl_lang o) (dl_arch o) (dl_out o)));
   ("--edition", Value (fun v o => DlOpts_ (dl_ver o) (dl_lang o) (dl_arch o) (dl_out o) (atoi v) (dl_list o) (dl_list_langs o) (dl_url_only o)));
   ("--lang", Value (fun v o => dl_texts o (dl_ver o) (Some v) (dl_arch o) (dl_out o)));
   ("--arch", Value (fun v o => dl_texts o (dl_ver o) (dl_lang o) (Some v) (dl_out o)));
   ("--out", Value (fun v o => dl_texts o (dl_ver o) (dl_lang o) (dl_arch o) v))].
Fixpoint parse_strict {O} (tbl : table O) (args : list string) (o : O) : string + O :=
  match args with
  | [] => inr o
  | t :: rest =>
      match lookup_opt tbl t with
      | Some (Flag f) => parse_strict tbl rest (f o)
      | Some (Value f) => match rest with v :: rest => parse_strict tbl rest (f v o) | [] => inl t end
      | None => inl t
      end
  end.

(** * The commands *)
Definition out (s : string) : io unit := call (Stdout s).
Definition quit (s : string) (rc : Z) : io Z := call (Stderr s) ;;; Ret rc.
(** the message as it fits in the caller's buffer *)
Definition failed (name : string) (cap : nat) (m : string) : io Z :=
  quit (name +:+ " failed: " +:+ snprintf cap m +:+ LF) 3.
Definition or_unknown (m : string) : string := if String.eqb m "" then "unknown" else m.
(** [rufux_need_root_for_block], unless it is a dry run *)
Definition root_check (name : string) (real : bool) (dev : string) (k : io Z) : io Z :=
  if real then
    r <- rufux_need_root_for_block dev ;;
    match r with Ok _ => k | Fail m => failed name 512 m end
  else k.
(** the last step of a command: its work, then its last line *)
Definition finish {A} (name : string) (work : io (cres A)) (line : A -> string) : io Z :=
  r <- work ;;
  match r with Ok a => out (line a) ;;; Ret 0 | Fail m => failed name 512 m end.
Definition planned (name : string) (dry : bool) : string :=
  name +:+ " " +:+ (if dry then "planned (dry-run)" else "OK") +:+ LF.
Definition dry_note (dry : bool) : string := if dry then " [dry-run]" else "".

(** ** gui_stub.c *)
Definition have_display : io bool :=
  d <- call (Getenv "DISPLAY") ;;
  match d with Some _ => Ret true | None => w <- call (Getenv "WAYLAND_DISPLAY") ;; Ret (bool_decide (is_Some w)) end.
Definition rufux_gui_run (argv : list string) : io Z :=
  d <- have_display ;;
  if negb d then
    quit ("This build of Rufux has no graphical interface linked in: run gui-tauri/ for the window, or use the command line (run rufux with no arguments for the options)." +:+ LF) 1
  else
    l <- call (Readlink "/proc/self/exe") ;;
    let self := snprintf 4096 (default "" l) in
    match strrchr "/" self with
    | None => Ret 1
    | Some slash =>
        let path := snprintf 4192 (before self slash +:+ "/rufux-gui") in
        x <- call (Access path X_OK) ;;
        when x (call (Execv path (path :: tl argv)) ;;; Ret tt) ;;;
        quit ("rufux: graphical interface not found next to " +:+ self +:+ LF) 1
    end.

Section Main.
Variable fuel : nat.
Variable point : ascii.
Variable stale : string.
Variable evp : EVP.
Variable sha : list byte -> list byte.
Variable certs : list byte -> option (string * list (list byte)).
Variable version : string.
Variable nls : bool.

Definition rufux_i18n_init : io unit :=
  when nls
    (ed <- rufux_exe_dir ;;
     when (negb (String.eqb ed "")) (call (Stat (snprintf 1152 (ed +:+ "/../share/locale"))) ;;; Ret tt)).

Definition cmd_list (argv : list string) : io Z :=
  let o := parse_opts list_opts (drop 2 argv) (ListOpts_ false false) in
  l <- rufux_list_devices 128 (lo_allow o) ;;
  match l with
  | None => quit ("cannot scan /sys/block" +:+ LF) 1
  | Some devs => out (if lo_json o then rufux_print_devices_json devs else rufux_print_devices point devs) ;;; Ret 0
  end.
Definition cmd_probe (argv : list string) : io Z :=
  let path := nth 2 argv "" in
  if negb (parse_opts probe_opts (drop 3 argv) false) then
    r <- rufux_probe_iso fuel path 64 ;;
    match r with
    | inl rc => out ("rc=" +:+ dec rc +:+ " label='?'" +:+ LF) ;;; Ret 2
    | inr label => out ("rc=0 label='" +:+ label +:+ "'" +:+ LF) ;;; Ret 0
    end
  else
    r <- rufux_probe_iso_detail fuel path ;;
    match r with
    | None => quit ("cannot probe '" +:+ path +:+ "'" +:+ LF) 2
    | Some info => out (rufux_print_iso_detail point path info) ;;; Ret (if valid_iso info then 0 else 2)
    end.
Definition cmd_checksum (argv : list string) : io Z :=
  match parse_opts checksum_opts (drop 3 argv) (inr RUFUX_SHA256) with
  | inl m => quit m 2
  | inr alg =>
      r <- rufux_hash_file evp fuel (nth 2 argv "") alg ;;
      match r with
      | Fail m => quit ("checksum failed: " +:+ snprintf 256 m +:+ LF) 2
      | Ok sum => out (rufux_hex sum +:+ "  " +:+ nth 2 argv "" +:+ LF) ;;; Ret 0
      end
  end.
Definition written_line (src dst : string) (o : RufuxWriteOpts) : string :=
  (if dry_run o then "dry-run" else "write") +:+ " OK: " +:+ src +:+ " -> " +:+ dst
  +:+ (if verify o then " (verified)" else "") +:+ LF.
Definition cmd_write (argv : list string) : io Z :=
  let src := nth 2 argv "" in let dst := nth 3 argv "" in
  let o := parse_opts write_opts (drop 4 argv) (WriteOpts_ true false false false false 0) in
  root_check "write" (negb (dry_run o)) dst
    (vk <- rufux_vdisk_detect point fuel src ;;
     match vk with
     | Fail m => failed "write" 512 m
     | Ok (Some vd) =>
         out (label vd +:+ " image detected (" +:+ gib point (virtual_size vd) +:+ " GiB expanded): converting with qemu-img." +:+ LF) ;;;
         r <- rufux_vdisk_write point fuel src vd dst o ;;
         match r with
         | Fail m => failed "write" 512 (or_unknown m)
         | Ok _ => out (written_line src dst o) ;;; Ret 0
         end
     | Ok None =>
         a <- rufux_vhd_adjust src o ;;
         match a with
         | Fail m => failed "write" 512 m
         | Ok o =>
             r <- rufux_write_image fuel src dst o ;;
             match r with
             | Fail m => failed "write" 512 (or_unknown m)
             | Ok _ => out (written_line src dst o) ;;; Ret 0
             end
         end
     end).
Definition cmd_partition (argv : list string) : io Z :=
  let dst := nth 2 argv "" in
  let o := parse_opts partition_opts (drop 3 argv) (PartOpts_ "gpt" "single" None false true false false false) in
  out (snprintf 512 (rufux_partition_plan dst o) +:+ LF) ;;;
  root_check "partition" (negb (po_dry_run o)) dst
    (finish "partition" (rufux_partition fuel stale dst o) (fun _ => planned "partition" (po_dry_run o))).
Definition cmd_format (argv : list string) : io Z :=
  let dst := nth 2 argv "" in
  let o := parse_opts format_opts (drop 3 argv) (MkfsOpts_ "vfat" "" 0 true false false false) in
  out ("format " +:+ dst +:+ " as " +:+ mf_fs o +:+ dry_note (mf_dry_run o) +:+ LF) ;;;
  root_check "format" (negb (mf_dry_run o)) dst
    (finish "format" (rufux_format point dst o) (fun _ => planned "format" (mf_dry_run o))).
Definition cmd_extract (argv : list string) : io Z :=
  let src := nth 2 argv "" in let dst := nth 3 argv "" in
  let dry := parse_opts dry_opts (drop 4 argv) false in
  out ("extract " +:+ src +:+ " -> " +:+ dst +:+ dry_note dry +:+ LF) ;;;
  finish "extract" (rufux_extract_iso_progress fuel src dst dry (Some (fun d t => call (Progress d t))))
    (fun _ => planned "extract" dry).
Definition cmd_install_boot (argv : list string) : io Z :=
  let dst := nth 2 argv "" in
  let o := parse_opts boot_opts (drop 3 argv) (BootOpts_ "bios" true false false false) in
  out ("install-boot " +:+ dst +:+ " (" +:+ bt_kind o +:+ ")" +:+ dry_note (bt_dry_run o) +:+ LF) ;;;
  root_check "install-boot" (negb (bt_dry_run o)) dst
    (finish "install-boot" (rufux_install_mbr dst o) (fun _ => planned "install-boot" (bt_dry_run o))).
Definition cmd_persist (argv : list string) : io Z :=
  let o := parse_opts persist_opts (drop 3 argv) (PersistOpts_ 0 "casper-rw" false) in
  finish "persist" (rufux_create_persist (nth 2 argv "") (ps_label o) (ps_mb o) (ps_dry o))
    (fun _ => planned "persist" (ps_dry o)).
Definition cmd_badblocks (argv : list string) : io Z :=
  let dev := nth 2 argv "" in
  let o := parse_opts badblocks_opts (drop 3 argv) (BadOpts_ false 0 false) in
  if 0 <? bb_passes o then
    if negb (bb_yes o) then quit ("badblocks: --write-patterns destroys data, add --yes" +:+ LF) 2
    else
      st <- call (Stat dev) ;;
      root_check "badblocks" (is_kind KBlk st) dev
        (r <- rufux_badblocks_write fuel stale dev (bb_allow_file o) (bb_passes o) 0 ;;
         match r with
         | Fail m => failed "badblocks" 512 m
         | Ok bad =>
             out ("badblocks: " +:+ dec bad +:+ " bad regions (0 = clean; " +:+ dec (Z.min 4 (bb_passes o))
                  +:+ " write pattern pass(es), destructive)" +:+ LF) ;;;
             Ret (if bad =? 0 then 0 else 4)
         end)
  else
    r <- rufux_badblocks fuel dev (bb_allow_file o) ;;
    match r with
    | Fail m => failed "badblocks" 512 m
    | Ok bad =>
        out ("badblocks: " +:+ dec bad +:+ " bad regions (0 = clean; read-only surface scan)" +:+ LF) ;;;
        Ret (if bad =? 0 then 0 else 4)
    end.
Definition cmd_mount (argv : list string) : io Z :=
  let dev := nth 2 argv "" in
  let dry := parse_opts dry_opts (drop 3 argv) false in
  if String.eqb (nth 1 argv "") "mount" then
    finish "mount" (rufux_mount fuel dev dry 512) (fun mnt => "mounted " +:+ dev +:+ " at " +:+ mnt +:+ LF)
  else finish "umount" (rufux_unmount fuel dev dry) (fun _ => "unmounted " +:+ dev +:+ LF).
Definition cmd_secureboot : io Z :=
  s <- rufux_sb_state fuel ;; out ("secure-boot: " +:+ rufux_sb_string s +:+ LF) ;;; Ret 0.
Definition cmd_validate_efi (argv : list string) : io Z :=
  r <- rufux_validate_efi (nth 2 argv "") ;;
  match r with
  | Fail m => quit ("validate-efi: " +:+ snprintf 512 m +:+ LF) 2
  | Ok sub => out ("validate-efi: OK '" +:+ nth 2 argv "" +:+ "' (PE subsystem " +:+ dec sub +:+ " = EFI)" +:+ LF) ;;; Ret 0
  end.
Definition is_revoked (s : RufuxBootState) : bool :=
  match s with RUFUX_BOOT_REVOKED_DBX | RUFUX_BOOT_REVOKED_SBAT | RUFUX_BOOT_REVOKED_SVN => true | _ => false end.
Definition tagged (tag s : string) : string := if String.eqb s "" then "" else tag +:+ s.
(** [None]: a malformed DBX makes the check read past its buffer *)
Definition cmd_check_boot (argv : list string) : io (option Z) :=
  let path := nth 2 argv "" in
  st <- call (Stat path) ;;
  match st with
  | None => rc <- quit ("check-boot: cannot open '" +:+ path +:+ "'" +:+ LF) 2 ;; Ret (Some rc)
  | Some s =>
      if bool_decide (st_kind s = KDir) then
        n <- rufux_bootcheck_tree sha certs path ;;
        Ret ((fun n => if n =? 0 then 0 else 4) <$> n)
      else
        r <- rufux_bootcheck_file sha certs path ;;
        match r with
        | None => Ret None
        | Some None => rc <- quit ("check-boot: cannot read '" +:+ path +:+ "'" +:+ LF) 2 ;; Ret (Some rc)
        | Some (Some bc) =>
            out (path +:+ ": " +:+ rufux_bootcheck_state_name (bc_state bc) +:+ tagged " arch=" (bc_arch bc)
                 +:+ tagged " signer=" (bc_signer bc) +:+ LF) ;;;
            when (negb (String.eqb (bc_detail bc) "")) (out ("  " +:+ bc_detail bc +:+ LF)) ;;;
            Ret (Some (if is_revoked (bc_state bc) then 4
                       else if bool_decide (bc_state bc = RUFUX_BOOT_NOTPE) then 2 else 0))
        end
  end.
Definition cmd_smart (argv : list string) : io Z :=
  r <- rufux_smart_check fuel (nth 2 argv "") ;;
  out (snprintf 256 r.2 +:+ LF) ;;;
  Ret (if bool_decide (r.1 = RUFUX_SMART_FAILED) then 4 else 0).
Definition cmd_update_check : io Z :=
  r <- rufux_update_check fuel 64 ;;
  match r with
  | Fail m => quit ("update-check: " +:+ snprintf 256 m +:+ LF) 5
  | Ok latest =>
      out (if String.eqb latest version then "rufux " +:+ version +:+ " is up to date" +:+ LF
           else "rufux " +:+ version +:+ " installed, latest is " +:+ latest +:+ ". See https://github.com/Hultwl/Rufux/releases" +:+ LF) ;;;
      Ret 0
  end.

(** ** download-windows *)
Definition arch_pick (arch : option string) (links : list RufuxMsdlLink) : option nat :=
  let hit l := match arch with Some a => strcaseeq (Msdl.arch l) a | None => String.eqb (Msdl.arch l) "x64" end in
  let pick := fold_left (fun p il => if hit il.2 then Some il.1 else p) (combine (seq 0 (length links)) links) None in
  match arch, pick with None, None => Some 0%nat | _, _ => pick end.
Fixpoint number_editions (i : Z) (l : list Edition) : string :=
  match l with
  | [] => ""
  | e :: t => "  --edition " +:+ dec i +:+ "  " +:+ ed_name e +:+ LF +:+ number_editions (i + 1) t
  end.
Definition products_text : string :=
  String.concat "" (map (fun p => pr_name p +:+ "  " +:+ release p +:+ LF +:+ number_editions 0 (ed p)) products).
Definition languages_text (h : RufuxMsdl) : string :=
  String.concat "" (map (fun l => l_name l +:+ "|" +:+ l_display l +:+ LF) (langs h)).
Definition dl_fail (m : string) (rc : Z) : io Z := quit ("download-windows: " +:+ snprintf 600 m +:+ LF) rc.
Definition download (o : DlOpts) (e : Edition) (l : RufuxMsdlLink) : io Z :=
  if dl_url_only o then out (url l +:+ LF) ;;; Ret 0
  else
    out ("Downloading " +:+ ed_name e +:+ " (" +:+ Msdl.arch l +:+ ")..." +:+ LF) ;;;
    r <- rufux_msdl_fetch fuel point (url l) (dl_out o) stale 4200 ;;
    match r with
    | Fail m => dl_fail m 3
    | Ok iso =>
        hex <- rufux_msdl_sha256 fuel evp iso ;;
        match hex with Some hex => out ("SHA-256: " +:+ hex +:+ LF) | None => Ret tt end ;;;
        out ("ISO: " +:+ iso +:+ LF) ;;; Ret 0
    end.
Definition choose_link (o : DlOpts) (e : Edition) (links : list RufuxMsdlLink) : io Z :=
  match (match arch_pick (dl_arch o) links with Some i => nth_error links i | None => None end) with
  | Some l => download o e l
  | None =>
      quit ("download-windows: no " +:+ default "" (dl_arch o) +:+ " ISO for this edition. Available:"
            +:+ String.concat "" (map (fun l => " " +:+ Msdl.arch l) links) +:+ LF) 2
  end.
Definition download_from (o : DlOpts) (e : Edition) (h : RufuxMsdl) : io Z :=
  if dl_list_langs o then out (languages_text h) ;;; rufux_msdl_close h ;;; Ret 0
  else
    li <- rufux_msdl_find_language h (dl_lang o) ;;
    match li with
    | Fail m => quit ("download-windows: " +:+ snprintf 600 m +:+ LF) 2 ;;; rufux_msdl_close h ;;; Ret 2
    | Ok li =>
        r <- rufux_msdl_links fuel point h (Z.of_nat li) 4 ;;
        rufux_msdl_close h ;;;
        match r with Fail m => dl_fail m 3 | Ok links => choose_link o e links end
    end.
Definition product_of (ver : string) : Z := if String.eqb ver "11" then 0 else if String.eqb ver "10" then 1 else -1.
Definition cmd_download (argv : list string) : io Z :=
  match parse_strict download_opts (drop 2 argv) (DlOpts_ "11" None None "." 0 false false false) with
  | inl t => quit ("download-windows: unexpected argument '" +:+ t +:+ "'" +:+ LF) 2
  | inr o =>
      if dl_list o then out products_text ;;; Ret 0
      else
        let pi := product_of (dl_ver o) in
        if pi <? 0 then quit ("download-windows: --version must be 11 or 10" +:+ LF) 2
        else
          h <- rufux_msdl_open fuel point pi (dl_edition o) stale ;;
          match h with
          | Fail m => dl_fail m 3
          | Ok h => download_from o (default (Edition_ "" []) (edition_of pi (dl_edition o))) h
          end
  end.

(** ** create *)
Definition create_args (argv : list string) : RufuxCreateOpts :=
  let '(o, fs_given) := parse_opts create_opts (drop 4 argv) (rufux_create_defaults, false) in
  if String.eqb (c_mode o) "windows" && negb fs_given
  then create_texts o (c_mode o) (c_scheme o) "ntfs" (c_label o) (c_wue o) (c_locale o) (c_keyboard o) (c_timezone o)
  else o.
Definition cmd_create (argv : list string) : io Z :=
  let src := if String.eqb (nth 2 argv "") "none" then None else Some (nth 2 argv "") in
  let o := create_args argv in
  let m := c_mode o in
  if (String.eqb m "dd" || String.eqb m "extract" || String.eqb m "windows") && negb (bool_decide (is_Some src)) then
    quit ("create: --mode " +:+ m +:+ " needs an image (use 'none' only with --mode format|dos)" +:+ LF) 2
  else
    r <- rufux_create fuel point stale sha certs true true src (nth 3 argv "") o ;;
    match r with
    | Ok _ => Ret 0
    | Fail m => quit ("create failed: " +:+ or_unknown (snprintf 1024 m) +:+ LF) 3
    end.

(** * The entry point *)
Definition USAGE : list string :=
  [" list [--json] [--allow-fixed]";
   " probe <file.iso> [--detail]";
   " checksum <file> [--algo md5|sha1|sha256|sha512]";
   " write SRC DST [--dry-run|--real] [--verify] [--allow-fixed] [--allow-file] [--yes]";
   " partition DST --scheme gpt|dos --layout single|esp+main [--fs vfat|fat16|ntfs|exfat|ext2|ext3|ext4] [--bios-boot] [--dry-run|--real] [--allow-file] [--allow-fixed] [--yes]";
   " format DST --fs vfat|fat16|ntfs|exfat|ext2|ext3|ext4|udf [--label L] [--dry-run|--real] [--allow-file] [--allow-fixed] [--yes]";
   " extract SRC.iso DEST_DIR [--dry-run]";
   " install-boot DST --mbr bios|gpt [--dry-run|--real] [--allow-file] [--allow-fixed] [--yes]";
   " persist DIR --size MB [--label casper-rw] [--dry-run]";
   " badblocks DST [--allow-file] [--write-patterns 1..4 --yes]";
   " mount|umount DEV [--dry-run]";
   " secureboot-status";
   " validate-efi FILE";
   " smart DEV";
   " check-boot FILE.efi|DIR";
   " update-check";
   " create SRC|none DST --mode dd|extract|format|dos|windows [--scheme gpt|dos] [--fs vfat|fat16|ntfs|exfat|ext2|ext3|ext4|udf] [--label L] [--persist-mb N] [--cluster-sectors N] [--badblock-passes N] [--wue bypass,nro,privacy,bitlocker,locale,qol,user=NAME,all,none] [--split-wim MB] [--locale TAG] [--keyboard KLID] [--timezone ZONE] [--quick|--full] [--no-autorun] [--uefi-validate] [--ignore-smart] [--dry-run|--real] [--allow-file] [--allow-fixed] [--yes] [--verify]";
   " download-windows [--list | --list-langs] [--version 11|10] [--edition N] [--lang NAME] [--arch x64|ARM64|x86] [--out DIR] [--url-only]";
   " --gui [image.iso]"].
Definition usage (p : string) : io unit :=
  out ("Rufux " +:+ version +:+ " (Stable)" +:+ LF +:+ "Usage:" +:+ LF
       +:+ String.concat "" (map (fun l => "  " +:+ p +:+ l +:+ LF) USAGE)).
Definition exits (m : io Z) : io (option Z) := rc <- m ;; Ret (Some rc).
(** the commands, in the order they are tried, with the arguments each needs *)
Definition run_command (argv : list string) : io (option Z) :=
  let asked c n := (n <=? zlen argv) && String.eqb (nth 1 argv "") c in
  if asked "list" 2 then exits (cmd_list argv)
  else if asked "probe" 3 then exits (cmd_probe argv)
  else if asked "checksum" 3 then exits (cmd_checksum argv)
  else if asked "write" 4 then exits (cmd_write argv)
  else if asked "partition" 3 then exits (cmd_partition argv)
  else if asked "format" 3 then exits (cmd_format argv)
  else if asked "extract" 4 then exits (cmd_extract argv)
  else if asked "install-boot" 3 then exits (cmd_install_boot argv)
  else if asked "persist" 3 then exits (cmd_persist argv)
  else if asked "badblocks" 3 then exits (cmd_badblocks argv)
  else if asked "mount" 3 || asked "umount" 3 then exits (cmd_mount argv)
  else if asked "secureboot-status" 2 then exits cmd_secureboot
  else if asked "validate-efi" 3 then exits (cmd_validate_efi argv)
  else if asked "check-boot" 3 then cmd_check_boot argv
  else if asked "smart" 3 then exits (cmd_smart argv)
  else if asked "update-check" 2 then exits cmd_update_check
  else if asked "create" 4 then exits (cmd_create argv)
  else
    gui <- (if zlen argv =? 1 then have_display else Ret false) ;;
    if gui : bool then exits (rufux_gui_run argv)
    else if asked "download-windows" 2 then exits (cmd_download argv)
    else usage (nth 0 argv "") ;;; Ret (Some 0).
Definition main (argv : list string) : io (option Z) :=
  rufux_i18n_init ;;;
  if (2 <=? zlen argv) && (String.eqb (nth 1 argv "") "--gui" || String.eqb (nth 1 argv "") "gui") then
    exits (rufux_gui_run argv)
  else if 2 <=? zlen argv then
    rc <- validate_flags argv ;;
    if negb (rc =? 0) then Ret (Some 2)
    else argv <- resolve_device_links argv ;; run_command argv
  else run_command argv.
End Main.
