(* ===== verification/CliSpec.v ===== *)
(** What src/src/linux/main.c promises: the suggested option is the nearest by
    edit distance, a misspelt option stops the program before it does anything,
    an accepted command line is read the way it was checked, and nothing is
    written unless --real was given. *)
From S2P Require Import Prelude Cstr Double Sys Exec Device DeviceSpec Writer Vhd Checksum Badblocks Vdisk.
From S2P Require Import Partition PartitionSpec Mkfs Host Bootcheck Iso Extract ExtractSpec Create CreateSpec.
From S2P Require Import Msdl Cli.
From stdpp Require Import relations.
#[local] Open Scope Z_scope.

(** * Edit distance *)
(** one insertion, deletion or substitution of a character *)
Inductive edit1 : list ascii -> list ascii -> Prop :=
| edit_sub u x y v : edit1 (u ++ x :: v) (u ++ y :: v)
| edit_ins u y v : edit1 (u ++ v) (u ++ y :: v)
| edit_del u x v : edit1 (u ++ x :: v) (u ++ v).
(** [n] edits turn [a] into [b], and no fewer do *)
Definition least_edits (a b : list ascii) (n : nat) : Prop :=
  nsteps edit1 n a b /\ forall m, nsteps edit1 m a b -> (n <= m)%nat.

Lemma edit1_cons c a b : edit1 a b -> edit1 (c :: a) (c :: b).
Proof.
  intros [u x y v|u y v|u x v].
  - apply (edit_sub (c :: u)).
  - apply (edit_ins (c :: u)).
  - apply (edit_del (c :: u)).
Qed.
Lemma edit1_rev a b : edit1 a b -> edit1 (rev a) (rev b).
Proof.
  intros [u x y v|u y v|u x v]; rewrite !rev_app_distr; cbn [rev]; rewrite <- !app_assoc; cbn [app]; constructor.
Qed.
Lemma nsteps_rev n a b : nsteps edit1 n a b <-> nsteps edit1 n (rev a) (rev b).
Proof.
  split; intros H; [by apply (nsteps_congruence (rev (A:=ascii)) edit1 n _ _ edit1_rev)|].
  rewrite <- (rev_involutive a), <- (rev_involutive b). by apply (nsteps_congruence (rev (A:=ascii)) edit1 n _ _ edit1_rev).
Qed.

(** ** Alignments *)
(** edits made from left to right *)
Inductive align : list ascii -> list ascii -> nat -> Prop :=
| al_nil : align [] [] 0
| al_keep x a b n : align a b n -> align (x :: a) (x :: b) n
| al_sub x y a b n : align a b n -> align (x :: a) (y :: b) (S n)
| al_ins y a b n : align a b n -> align a (y :: b) (S n)
| al_del x a b n : align a b n -> align (x :: a) b (S n).
#[local] Hint Constructors align : rufux.

Lemma align_refl a : align a a 0.
Proof. induction a; auto with rufux. Qed.
Lemma align_app a b n a' b' n' : align a b n -> align a' b' n' -> align (a ++ a') (b ++ b') (n + n').
Proof. intros H H'. induction H; cbn; auto with rufux. Qed.
Lemma align_split a u v n :
  align a (u ++ v) n -> exists a1 a2 n1 n2, a = a1 ++ a2 /\ n = (n1 + n2)%nat /\ align a1 u n1 /\ align a2 v n2.
Proof.
  remember (u ++ v) as w eqn:E. intros H. revert u v E.
  induction H as [|x a b n H IH|x y a b n H IH|y a b n H IH|x a b n H IH]; intros u v E.
  - symmetry in E. apply app_eq_nil in E as [-> ->]. exists [], [], 0%nat, 0%nat. auto with rufux.
  - destruct u as [|c u]; cbn in E.
    + subst v. exists [], (x :: a), 0%nat, n. auto with rufux.
    + injection E as <- E. destruct (IH _ _ E) as (a1 & a2 & n1 & n2 & -> & -> & ? & ?).
      exists (x :: a1), a2, n1, n2. auto with rufux.
  - destruct u as [|c u]; cbn in E.
    + subst v. exists [], (x :: a), 0%nat, (S n). auto with rufux.
    + injection E as <- E. destruct (IH _ _ E) as (a1 & a2 & n1 & n2 & -> & -> & ? & ?).
      exists (x :: a1), a2, (S n1), n2. auto with rufux.
  - destruct u as [|c u]; cbn in E.
    + subst v. exists [], a, 0%nat, (S n). auto with rufux.
    + injection E as <- E. destruct (IH _ _ E) as (a1 & a2 & n1 & n2 & -> & -> & ? & ?).
      exists a1, a2, (S n1), n2. auto with rufux.
  - destruct (IH _ _ E) as (a1 & a2 & n1 & n2 & -> & -> & ? & ?).
    exists (x :: a1), a2, (S n1), n2. auto with rufux.
Qed.
Lemma align_head_sub a x y v n : align a (x :: v) n -> exists m, (m <= S n)%nat /\ align a (y :: v) m.
Proof.
  remember (x :: v) as w eqn:E. intros H. induction H; try discriminate E; try injection E as -> ->; eauto with rufux.
  destruct (IHalign E) as (m & ? & ?). exists (S m). split; [lia|]. auto with rufux.
Qed.
Lemma align_head_del a x v n : align a (x :: v) n -> exists m, (m <= S n)%nat /\ align a v m.
Proof.
  remember (x :: v) as w eqn:E. intros H. induction H; try discriminate E; try injection E as -> ->; eauto with rufux.
  destruct (IHalign E) as (m & ? & ?). exists (S m). split; [lia|]. auto with rufux.
Qed.
Lemma align_edit a b c n : align a b n -> edit1 b c -> exists m, (m <= S n)%nat /\ align a c m.
Proof.
  intros H He. destruct He as [u x y v|u y v|u x v].
  all: apply align_split in H as (a1 & a2 & n1 & n2 & -> & -> & H1 & H2).
  - destruct (align_head_sub _ _ y _ _ H2) as (m & ? & ?). exists (n1 + m)%nat. split; [lia|]. by apply align_app.
  - exists (n1 + S n2)%nat. split; [lia|]. apply align_app; auto with rufux.
  - destruct (align_head_del _ _ _ _ H2) as (m & ? & ?). exists (n1 + m)%nat. split; [lia|]. by apply align_app.
Qed.
Lemma align_nsteps a b n : align a b n -> nsteps edit1 n a b.
Proof.
  intros H. induction H as [|x a b n H IH|x y a b n H IH|y a b n H IH|x a b n H IH].
  - constructor.
  - by apply (nsteps_congruence (cons x) edit1 n _ _ (edit1_cons x)).
  - apply nsteps_l with (y :: a); [apply (edit_sub [])|]. by apply (nsteps_congruence (cons y) edit1 n _ _ (edit1_cons y)).
  - apply nsteps_r with b; [done|]. apply (edit_ins []).
  - apply nsteps_l with a; [|done]. apply (edit_del []).
Qed.
Lemma nsteps_align a b n : nsteps edit1 n a b -> exists m, (m <= n)%nat /\ align a b m.
Proof.
  revert b; induction n as [|n IH]; intros b H.
  - inversion H; subst. exists 0%nat. auto using align_refl.
  - apply nsteps_inv_r in H as (c & H1 & H2). apply IH in H1 as (m & Hm & H1).
    destruct (align_edit _ _ _ _ H1 H2) as (k & ? & ?). exists k. split; [lia|done].
Qed.

(** ** The table *)
(** the cell for two prefixes, given in reverse *)
Definition cell_min (up left diag c : Z) : Z := Z.min (Z.min (up + 1) (left + 1)) (diag + c).
Definition cost (x y : ascii) : Z := if Ascii.eqb x y then 0 else 1.
Fixpoint cell (p : list ascii) : list ascii -> Z :=
  match p with
  | [] => zlen
  | x :: p' =>
      fix cell_x (q : list ascii) : Z :=
        match q with
        | [] => 1 + zlen p'
        | y :: q' => cell_min (cell p' (y :: q')) (cell_x q') (cell p' q') (cost x y)
        end
  end.
Lemma cell_cons x p y q : cell (x :: p) (y :: q) = cell_min (cell p (y :: q)) (cell (x :: p) q) (cell p q) (cost x y).
Proof. reflexivity. Qed.
Lemma cell_nil_r p : cell p [] = zlen p.
Proof. destruct p; [done|]. by rewrite zlen_cons. Qed.

Lemma cell_le p q n : align p q n -> cell p q <= Z.of_nat n.
Proof.
  intros H. induction H as [|x a b n H IH|x y a b n H IH|y a b n H IH|x a b n H IH].
  - done.
  - rewrite cell_cons. unfold cell_min, cost. rewrite Ascii.eqb_refl. lia.
  - rewrite cell_cons. unfold cell_min, cost. case_match; lia.
  - destruct a as [|x a]; [cbn [cell] in *; rewrite zlen_cons; lia|]. rewrite cell_cons. unfold cell_min. lia.
  - destruct b as [|y b]; [rewrite cell_nil_r in *; rewrite zlen_cons; lia|]. rewrite cell_cons. unfold cell_min. lia.
Qed.
Lemma align_ins_all q : align [] q (length q).
Proof. induction q; cbn; auto with rufux. Qed.
Lemma cell_align p : forall q, exists n, align p q n /\ cell p q = Z.of_nat n.
Proof.
  induction p as [|x p IHp]; intros q.
  - exists (length q). split; [apply align_ins_all|done].
  - induction q as [|y q IHq].
    + destruct (IHp []) as (n & H & E). exists (S n). split; [by constructor|].
      rewrite cell_nil_r in *. rewrite zlen_cons. lia.
    + rewrite cell_cons. unfold cell_min.
      destruct (IHp (y :: q)) as (n1 & H1 & E1), (IHp q) as (n2 & H2 & E2), IHq as (n3 & H3 & E3).
      destruct (Z.min_spec (Z.min (cell p (y :: q) + 1) (cell (x :: p) q + 1)) (cell p q + cost x y)) as [[? ->]|[? ->]].
      * destruct (Z.min_spec (cell p (y :: q) + 1) (cell (x :: p) q + 1)) as [[? ->]|[? ->]].
        -- exists (S n1). split; [by constructor|lia].
        -- exists (S n3). split; [by constructor|lia].
      * unfold cost. destruct (Ascii.eqb_spec x y) as [->|_].
        -- exists n2. split; [by constructor|lia].
        -- exists (S n2). split; [by constructor|lia].
Qed.
Lemma cell_least p q : least_edits p q (Z.to_nat (cell p q)).
Proof.
  destruct (cell_align p q) as (n & H & E). rewrite E, Nat2Z.id. split; [by apply align_nsteps|].
  intros m (k & Hk & Ha)%nsteps_align. apply cell_le in Ha. lia.
Qed.

(** the cells of a row from the prefix [q] on, for the rest of the word *)
Fixpoint row (p q rest : list ascii) : list Z :=
  match rest with [] => [] | y :: t => cell p (y :: q) :: row p (y :: q) t end.
Lemma row_cells_row x p q rest :
  row_cells x rest (cell p q) (cell (x :: p) q) (row p q rest) = row (x :: p) q rest.
Proof.
  revert q; induction rest as [|y t IH]; intros q; [done|]. cbn [row row_cells].
  set (m := if _ <? _ then _ else _). assert (Hm : m = cell (x :: p) (y :: q)).
  { rewrite cell_cons. unfold m, cell_min, cost. destruct (Z.ltb_spec (cell (x :: p) q + 1) (cell p (y :: q) + 1));
      case_match; lia. }
  rewrite Hm. f_equal. apply IH.
Qed.
Lemma next_row_row x p b : next_row (zlen (x :: p)) x b (cell p [] :: row p [] b) = cell (x :: p) [] :: row (x :: p) [] b.
Proof. unfold next_row. rewrite <- (row_cells_row x p [] b), !cell_nil_r. done. Qed.
Lemma all_rows_row a p b :
  all_rows (zlen p + 1) a b (cell p [] :: row p [] b) = cell (rev a ++ p) [] :: row (rev a ++ p) [] b.
Proof.
  revert p; induction a as [|x a IH]; intros p; [done|]. cbn [all_rows rev].
  replace (zlen p + 1) with (zlen (x :: p)) by (rewrite zlen_cons; lia).
  rewrite next_row_row, IH, <- app_assoc. done.
Qed.
Lemma row_nil q rest : row [] q rest = seqZ (zlen q + 1) (zlen rest).
Proof.
  revert q; induction rest as [|y t IH]; intros q; [done|]. cbn [row]. rewrite IH, !zlen_cons.
  rewrite (seqZ_cons (zlen q + 1)) by (pose proof (zlen_nonneg t); lia).
  f_equal; [|f_equal; lia]. cbn [cell]. rewrite zlen_cons. lia.
Qed.
Lemma last_row p q rest d : List.last (cell p q :: row p q rest) d = cell p (rev rest ++ q).
Proof.
  revert q; induction rest as [|y t IH]; intros q; [done|]. cbn [row rev].
  rewrite <- app_assoc. cbn [app]. rewrite <- (IH (y :: q)). done.
Qed.
Lemma table_cell a b :
  List.last (all_rows 1 a b (seqZ 0 (zlen b + 1))) 0 = cell (rev a) (rev b).
Proof.
  rewrite (seqZ_cons 0) by (pose proof (zlen_nonneg b); lia).
  replace (seqZ (Z.succ 0) (Z.pred (zlen b + 1))) with (row [] [] b) by (rewrite row_nil; f_equal; rewrite ?zlen_nil; lia).
  change 0 with (cell [] []) at 1. rewrite (all_rows_row a [] b : all_rows 1 _ _ _ = _), last_row, !app_nil_r. done.
Qed.

(** C9: edit_distance is the edit distance. For words of at most 40
    characters, the dynamic-programming table yields the least number of
    single-character insertions, deletions and substitutions, made anywhere
    and in any order, that turn one word into the other. *)
Theorem edit_distance_least a b :
  strlen a <= 40 -> strlen b <= 40 ->
  least_edits (list_ascii_of_string a) (list_ascii_of_string b) (Z.to_nat (edit_distance a b)).
Proof.
  intros Ha Hb. unfold edit_distance. replace ((40 <? strlen a) || (40 <? strlen b)) with false by lia.
  cbv zeta. rewrite table_cell. destruct (cell_least (rev (list_ascii_of_string a)) (rev (list_ascii_of_string b))) as [H1 H2].
  split; [by apply nsteps_rev|]. intros m Hm. by apply H2, nsteps_rev; rewrite !rev_involutive.
Qed.
Lemma edit_distance_least_witness :
  edit_distance "--rela" "--real" = 2 /\
  least_edits (list_ascii_of_string "--rela") (list_ascii_of_string "--real") 2.
Proof. split; [reflexivity|]. apply (edit_distance_least "--rela" "--real"); vm_compute; discriminate. Defined.

(** * Checked command lines *)
(** the options of a command line a command accepts, in order, each with its
    value if it takes one; other arguments are passed over *)
Inductive readings (sp : CmdSpec) : list string -> list (string * option string) -> Prop :=
| rd_nil : readings sp [] []
| rd_positional t rest l : positional t = true -> readings sp rest l -> readings sp (t :: rest) l
| rd_flag t rest l :
    positional t = false -> in_list (flags sp) t = true -> readings sp rest l ->
    readings sp (t :: rest) ((t, None) :: l)
| rd_value t v rest l :
    positional t = false -> in_list (flags sp) t = false -> in_list (values sp) t = true -> readings sp rest l ->
    readings sp (t :: v :: rest) ((t, Some v) :: l).

(** the check succeeds in silence exactly on those, and otherwise it explains
    itself on standard error and answers 2 *)
Lemma validate_args_correct sp : forall args t rc,
  exec (validate_args sp args) t rc ->
  (rc = 0 /\ t = [] /\ exists l, readings sp args l) \/ (rc = 2 /\ forall l, ~ readings sp args l).
Proof.
  fix IH 1. intros [|a rest] t rc H; cbn [validate_args] in H.
  - destruct H as [-> ->]. left. eauto using rd_nil.
  - destruct (positional a) eqn:Hp.
    { apply IH in H as [(-> & -> & l & H)|[-> H]]; [left; eauto using rd_positional|right; split; [done|]].
      intros l Hl. inversion Hl; subst; try congruence. by eapply H. }
    destruct (in_list (flags sp) a) eqn:Hf.
    { apply IH in H as [(-> & -> & l & H)|[-> H]]; [left; eauto using rd_flag|right; split; [done|]].
      intros l Hl. inversion Hl; subst; try congruence. by eapply H. }
    destruct (in_list (values sp) a) eqn:Hv.
    + destruct rest as [|v rest].
      * destruct H as ([] & u & -> & H). destruct H as [-> ->]. right. split; [done|].
        intros l Hl. inversion Hl; subst; congruence.
      * apply IH in H as [(-> & -> & l & H)|[-> H]]; [left; eauto using rd_value|right; split; [done|]].
        intros l Hl. inversion Hl; subst; try congruence. by eapply H.
    + right. split; [|intros l Hl; inversion Hl; subst; congruence].
      destruct H as ([] & u & -> & H). cbn [bind] in H. apply exec_bind in H as (u1 & [] & u2 & -> & _ & H).
      destruct H as ([] & u3 & -> & H). by destruct H as [_ ->].
Qed.
Lemma validate_args_harmless sp : forall args, always harmless (validate_args sp args).
Proof. fix IH 1. intros [|a [|b rest]]; cbn [validate_args]; always_tac; apply IH. Qed.

Lemma readings_validate sp args l : readings sp args l -> exec (validate_args sp args) [] 0.
Proof.
  induction 1 as [|a rest l Hp _ IH|a rest l Hp Hf _ IH|a v rest l Hp Hf Hv _ IH]; [done|..]; cbn [validate_args];
    rewrite Hp; [done|by rewrite Hf|by rewrite Hf, Hv].
Qed.

(** the commands there are *)
Lemma find_spec_cmd c sp : find_spec c = Some sp -> cmd sp = c /\ In sp specs.
Proof.
  unfold find_spec. assert (H : forall l acc, fold_left (fun sp s => if String.eqb c (cmd s) then Some s else sp) l acc = Some sp ->
    acc = Some sp \/ cmd sp = c /\ In sp l).
  { intros l. induction l as [|s l IH]; intros acc; cbn; [auto|]. intros Ha. apply IH in Ha as [Ha|[? ?]]; [|auto].
    destruct (String.eqb_spec c (cmd s)) as [->|_]; [|auto]. simplify_eq. auto. }
  intros Ha. by apply H in Ha as [|].
Qed.
Lemma known_command argv sp :
  find_spec (nth 1 argv "") = Some sp ->
  (2 <=? zlen argv) = true /\ (String.eqb (nth 1 argv "") "--gui" || String.eqb (nth 1 argv "") "gui") = false.
Proof.
  intros H. split.
  - destruct argv as [|p [|c l]]; try (vm_compute in H; discriminate). rewrite !zlen_cons. pose proof (zlen_nonneg l). lia.
  - destruct (String.eqb_spec (nth 1 argv "") "--gui") as [E|_]; [rewrite E in H; vm_compute in H; discriminate|].
    destruct (String.eqb_spec (nth 1 argv "") "gui") as [E|_]; [rewrite E in H; vm_compute in H; discriminate|done].
Qed.

Section Program.
Variable fuel : nat.
Variable point : ascii.
Variable stale : string.
Variable evp : EVP.
Variable sha : list byte -> list byte.
Variable certs : list byte -> option (string * list (list byte)).
Variable version : string.
Variable nls : bool.
Abbreviation program := (main fuel point stale evp sha certs version nls).

Lemma i18n_harmless : always harmless (rufux_i18n_init nls).
Proof. unfold rufux_i18n_init. always_tac. Qed.

(** C7: a misspelt option stops the program before it does anything. If some
    argument after a command's name begins with a dash and is not an option of
    that command, or a final option lacks its value, then main makes only
    harmless calls (it opens, writes, removes and starts nothing) and returns
    2, whatever else the command line asks for. *)
Theorem misspelt_option_stops argv sp :
  find_spec (nth 1 argv "") = Some sp -> (forall l, ~ readings sp (drop 2 argv) l) ->
  always harmless (program argv) /\ forall t r, exec (program argv) t r -> r = Some 2.
Proof.
  intros Hs Hb. destruct (known_command _ _ Hs) as [H2 Hg]. unfold main. rewrite H2, Hg. cbn [andb].
  unfold validate_flags. rewrite Hs.
  assert (Hrc : forall t rc, exec (validate_args sp (drop 2 argv)) t rc -> rc = 2).
  { intros t rc H. apply validate_args_correct in H as [(_ & _ & l & H)|[-> _]]; [by apply Hb in H|done]. }
  split.
  - apply always_bind; [apply i18n_harmless|]. intros _. apply always_bind_exec; [apply validate_args_harmless|].
    intros t rc ->%Hrc. exact I.
  - intros t r (t1 & [] & t2 & -> & _ & H)%exec_bind. apply exec_bind in H as (t3 & rc & t4 & -> & H & Hr).
    apply Hrc in H as ->. by destruct Hr as [_ ->].
Qed.
End Program.
Lemma misspelt_option_stops_witness :
  let argv := ["rufux"; "write"; "a.iso"; "/dev/sdb"; "--real"; "--yes"; "--verfy"] in
  always harmless (main 9 "." "" (EVP_ unit (fun _ => None) (fun _ _ => None) (fun _ => None)) (fun b => b) (fun _ => None) "3.0" true argv).
Proof.
  intros argv. refine (proj1 (misspelt_option_stops 9 "." "" _ _ _ "3.0" true argv (nth 3 specs (CmdSpec_ "" "" "")) _ _)).
  - reflexivity.
  - intros l H%readings_validate. by destruct H as (? & ? & [=] & _).
Defined.

(** * Reading what was checked *)
(** the tables of the commands, with the number of arguments before the options *)
Inductive option_table : string -> nat -> forall O, table O -> Prop :=
| ot_list : option_table "list" 2 _ list_opts
| ot_probe : option_table "probe" 3 _ probe_opts
| ot_checksum : option_table "checksum" 3 _ checksum_opts
| ot_write : option_table "write" 4 _ write_opts
| ot_partition : option_table "partition" 3 _ partition_opts
| ot_format : option_table "format" 3 _ format_opts
| ot_extract : option_table "extract" 4 _ dry_opts
| ot_install_boot : option_table "install-boot" 3 _ boot_opts
| ot_persist : option_table "persist" 3 _ persist_opts
| ot_badblocks : option_table "badblocks" 3 _ badblocks_opts
| ot_mount : option_table "mount" 3 _ dry_opts
| ot_umount : option_table "umount" 3 _ dry_opts
| ot_create : option_table "create" 4 _ create_opts.

(** a table and a specification know the same options, with the same arity *)
Definition agrees {O} (sp : CmdSpec) (tbl : table O) : Prop := forall t,
  match lookup_opt tbl t with
  | Some (Flag _) => positional t = false /\ in_list (flags sp) t = true
  | Some (Value _) => positional t = false /\ in_list (flags sp) t = false /\ in_list (values sp) t = true
  | None => positional t = false -> in_list (flags sp) t = false /\ in_list (values sp) t = false
  end.
Ltac agree_tac :=
  intros t; unfold lookup_opt, in_list;
  repeat match goal with |- context [words ?l] => let w := eval vm_compute in (words l) in change (words l) with w end;
  cbn [List.find fst snd fmap option_fmap option_map existsb list_opts probe_opts checksum_opts write_opts partition_opts
    format_opts dry_opts boot_opts persist_opts badblocks_opts create_opts];
  repeat match goal with
    | |- context [String.eqb t ?s] => destruct (String.eqb_spec t s) as [->|_]; [vm_compute; repeat split; congruence|]
    end;
  cbn; auto.
Lemma table_agrees c n O (tbl : table O) :
  option_table c n O tbl -> exists sp, find_spec c = Some sp /\ agrees sp tbl.
Proof. destruct 1; (eexists; split; [vm_compute; reflexivity|cbn [flags values]; agree_tac]). Qed.

(** what reading one option does; [None] if the table does not know it *)
Definition read_option {O} (tbl : table O) (o : option O) (r : string * option string) : option O :=
  match lookup_opt tbl r.1, r.2, o with
  | Some (Flag f), None, Some o => Some (f o)
  | Some (Value f), Some v, Some o => Some (f v o)
  | _, _, _ => None
  end.
Lemma parse_readings {O} sp (tbl : table O) args l o :
  agrees sp tbl -> readings sp args l -> fold_left (read_option tbl) l (Some o) = Some (parse_opts tbl args o).
Proof.
  intros Ha H. revert o. induction H as [|a rest l Hp _ IH|a rest l Hp Hf _ IH|a v rest l Hp Hf Hv _ IH];
    intros o; cbn [fold_left parse_opts]; [done|..].
  all: specialize (Ha a); try (unfold read_option at 2; cbn [fst snd]).
  all: destruct (lookup_opt tbl a) as [[f|f]|]; try apply IH; try (destruct Ha as [? Ha]); try congruence.
  all: destruct Ha; congruence.
Qed.
Lemma readings_positional sp args l n :
  forallb positional (take n args) = true -> readings sp args l -> readings sp (drop n args) l.
Proof.
  revert args; induction n as [|n IH]; intros args Hp H; [done|]. destruct args as [|a args]; [done|].
  cbn [take drop forallb] in *. apply andb_true_iff in Hp as [Hp Ha]. apply IH; [done|]. inversion H; subst; congruence.
Qed.


(** * Nothing is written without --real *)
(** the calls of a run, finished or cut short by its fuel *)
Definition made {A} (m : io A) (t : list obs) : Prop := (exists a, exec m t a) \/ runs_out m t.
Lemma made_bind {A B} (m : io A) (f : A -> io B) t :
  made (bind m f) t -> runs_out m t \/ exists t1 a t2, t = t1 ++ t2 /\ exec m t1 a /\ made (f a) t2.
Proof.
  intros [[b (t1 & a & t2 & -> & H1 & H2)%exec_bind]|[H|(t1 & a & t2 & -> & H1 & H2)]%runs_out_bind]; [right|by left|right].
  - exists t1, a, t2. split_and!; [done..|]. left. eauto.
  - exists t1, a, t2. split_and!; [done..|]. by right.
Qed.
Lemma always_made {A} P (m : io A) t :
  always P m -> made m t -> Forall (fun o => match o with Obs e _ => P _ e end) t.
Proof.
  intros Hm [[a H]|H]; [by eapply always_exec|]. revert t Hm H. induction m as [a|X e k IH|]; cbn; intros t Hm H; [done| |by subst].
  destruct H as (x & u & -> & H), Hm. constructor; eauto.
Qed.
(** realpath answers absolute paths *)
Definition absolute (o : obs) : Prop :=
  match o with
  | Obs e x =>
      match e in ev X return X -> Prop with
      | Realpath _ => fun x => match x with inr p => starts_with "/" p = true | inl _ => True end
      | _ => fun _ => True
      end x
  end.
Definition inert_obs (o : obs) : Prop := match o with Obs e _ => inert_ev _ e end.

Lemma resolve_one_inv a t b :
  exec (resolve_one a) t b -> Forall absolute t -> b = a \/ starts_with "/" b = true.
Proof.
  unfold resolve_one. destruct (starts_with "/dev/" a); [|by intros [_ ->]; left].
  intros (st & u & -> & H) Hp. cbn [bind negb] in H. destruct (is_kind KLnk st); [|by destruct H as [_ ->]; left].
  destruct H as (r & u1 & -> & H). cbn [bind] in H. destruct r as [e|p]; [by destruct H as [_ ->]; left|].
  destruct H as ([] & u2 & -> & H). destruct H as [_ ->]. right.
  by apply List.Forall_inv_tail, List.Forall_inv in Hp.
Qed.
Lemma resolve_all_inv x args : starts_with "/" x = false ->
  forall t l, exec (resolve_all args) t l -> Forall absolute t -> In x l -> In x args.
Proof.
  intros Hx. induction args as [|a args IH]; intros t l H Hp Hin; [by destruct H as [_ ->]|].
  apply exec_bind in H as (t1 & b & t2 & -> & H1 & H). apply exec_bind in H as (t3 & l' & t4 & -> & H2 & H).
  destruct H as [-> ->]. apply Forall_app in Hp as [Hp1 [Hp2 _]%Forall_app].
  destruct Hin as [->|Hin]; [|right; by eapply IH]. apply resolve_one_inv in H1 as [->|H1]; [by left|congruence|done].
Qed.
Lemma resolve_links_harmless argv : always harmless (resolve_device_links argv).
Proof.
  unfold resolve_device_links. apply always_bind; [|by intros].
  generalize (drop 2 argv) as l. induction l as [|a l IH]; [exact I|]. cbn [resolve_all]. unfold resolve_one. always_tac.
Qed.

(** a property of the options that every option but --real keeps *)
Definition keeps_but_real {O} (I : O -> Prop) (e : string * opt O) : Prop :=
  e.1 = "--real" \/ match e.2 with Flag f => forall o, I o -> I (f o) | Value f => forall v o, I o -> I (f v o) end.
Lemma parse_keeps {O} (I : O -> Prop) (tbl : table O) : Forall (keeps_but_real I) tbl ->
  forall args o, ~ In "--real" args -> I o -> I (parse_opts tbl args o).
Proof.
  intros Hk. assert (Hl : forall t x, lookup_opt tbl t = Some x -> keeps_but_real I (t, x)).
  { intros t x. unfold lookup_opt. destruct (List.find _ _) as [[s y]|] eqn:E; [|done]. intros [= <-].
    apply find_some in E as [Hin ->%String.eqb_eq]. by apply (proj1 (List.Forall_forall _ _) Hk). }
  fix IH 1. intros [|a rest] o Hn Ho; cbn [parse_opts]; [done|].
  assert (Ha : a <> "--real" /\ ~ In "--real" rest) by (split; intros ?; apply Hn; [left|right]; done).
  destruct Ha as [Ha Hr]. specialize (Hl a). destruct (lookup_opt tbl a) as [[f|f]|]; [| |by apply IH].
  - destruct (Hl _ eq_refl) as [?|H]; [done|]. apply IH; [done|]. by apply H.
  - destruct rest as [|v rest]; [done|]. destruct (Hl _ eq_refl) as [?|H]; [done|].
    apply IH; [|by apply H]. intros ?. apply Hr. by right.
Qed.
Ltac keeps_tac := repeat (constructor; [first [by left|right; cbn; intros; repeat case_match; simplify_eq; auto]|]); constructor.
Lemma write_keeps : Forall (keeps_but_real (fun o => Writer.dry_run o = true)) write_opts.
Proof. keeps_tac. Qed.
Lemma partition_keeps : Forall (keeps_but_real (fun o => po_dry_run o = true)) partition_opts.
Proof. keeps_tac. Qed.
Lemma format_keeps : Forall (keeps_but_real (fun o => mf_dry_run o = true)) format_opts.
Proof. keeps_tac. Qed.
Lemma boot_keeps : Forall (keeps_but_real (fun o => bt_dry_run o = true)) boot_opts.
Proof. keeps_tac. Qed.
Lemma create_keeps : Forall (keeps_but_real (fun o => c_dry_run o.1 = true)) create_opts.
Proof. keeps_tac. Qed.

Section Dry.
Variable fuel : nat.
Variable point : ascii.
Variable stale : string.
Variable evp : EVP.
Variable sha : list byte -> list byte.
Variable certs : list byte -> option (string * list (list byte)).
Variable version : string.
Variable nls : bool.
Abbreviation run_one := (run_command fuel point stale evp sha certs version).
Abbreviation program := (main fuel point stale evp sha certs version nls).
#[local] Hint Resolve always_harmless_inert : rufux.
#[local] Hint Extern 1 (inert_ev _ _) => reflexivity : rufux.

Lemma finish_inert {A} name (work : io (cres A)) line :
  always inert_ev work -> always inert_ev (finish name work line).
Proof. intros H. unfold finish, failed, quit, out. always_tac. Qed.
Lemma cmd_write_dry argv : ~ In "--real" (drop 4 argv) -> always inert_ev (cmd_write fuel point argv).
Proof.
  intros Hn. unfold cmd_write. cbv zeta. set (o := parse_opts _ _ _).
  assert (Hd : Writer.dry_run o = true) by by apply (parse_keeps _ _ write_keeps).
  clearbody o. rewrite Hd. cbn [root_check negb]. apply always_bind; [apply rufux_vdisk_detect_inert|].
  intros [[vd|]|m]; unfold failed, quit, out; [| |always_tac].
  - pose proof (rufux_vdisk_write_inert point fuel (nth 2 argv "") vd (nth 3 argv "") o (or_introl Hd)). always_tac.
  - apply always_bind_exec; [apply always_harmless_inert, rufux_vhd_adjust_harmless|].
    intros t [w|m] Hw; [|always_tac]. apply rufux_vhd_adjust_keeps in Hw.
    pose proof (rufux_write_image_inert fuel (nth 2 argv "") (nth 3 argv "") w (or_introl (eq_trans Hw Hd))). always_tac.
Qed.
Lemma cmd_partition_dry argv : ~ In "--real" (drop 3 argv) -> always inert_ev (cmd_partition fuel stale argv).
Proof.
  intros Hn. unfold cmd_partition. cbv zeta. set (o := parse_opts _ _ _).
  assert (Hd : po_dry_run o = true) by by apply (parse_keeps _ _ partition_keeps).
  clearbody o. rewrite Hd. apply always_bind; [by apply always_call|]. intros _. cbn [root_check negb].
  by apply finish_inert, always_harmless_inert, rufux_partition_dry.
Qed.
Lemma cmd_format_dry argv : ~ In "--real" (drop 3 argv) -> always inert_ev (cmd_format point argv).
Proof.
  intros Hn. unfold cmd_format. cbv zeta. set (o := parse_opts _ _ _).
  assert (Hd : mf_dry_run o = true) by by apply (parse_keeps _ _ format_keeps).
  clearbody o. rewrite Hd. apply always_bind; [by apply always_call|]. intros _. cbn [root_check negb].
  by apply finish_inert, always_harmless_inert, rufux_format_dry.
Qed.
Lemma cmd_install_boot_dry argv : ~ In "--real" (drop 3 argv) -> always inert_ev (cmd_install_boot argv).
Proof.
  intros Hn. unfold cmd_install_boot. cbv zeta. set (o := parse_opts _ _ _).
  assert (Hd : bt_dry_run o = true) by by apply (parse_keeps _ _ boot_keeps).
  clearbody o. rewrite Hd. apply always_bind; [by apply always_call|]. intros _. cbn [root_check negb].
  by apply finish_inert, always_harmless_inert, rufux_install_mbr_dry.
Qed.
Lemma create_args_dry argv : ~ In "--real" (drop 4 argv) -> c_dry_run (create_args argv) = true.
Proof.
  intros Hn. unfold create_args.
  pose proof (parse_keeps _ _ create_keeps (drop 4 argv) (rufux_create_defaults, false) Hn eq_refl) as H.
  destruct (parse_opts _ _ _) as [o g]. cbn in H. by case_match.
Qed.
Lemma cmd_create_dry argv : ~ In "--real" (drop 4 argv) -> always inert_ev (cmd_create fuel point stale sha certs argv).
Proof.
  intros Hn. unfold cmd_create. cbv zeta. apply create_args_dry in Hn. set (o := create_args argv) in *. clearbody o.
  set (src := if String.eqb _ _ then _ else _).
  pose proof (rufux_create_dry fuel point stale sha certs true src (nth 3 argv "") o Hn). unfold quit. always_tac.
Qed.

Lemma not_in_drop {A} (x : A) n m l : (n <= m)%nat -> ~ In x (drop n l) -> ~ In x (drop m l).
Proof.
  intros H Hn Hin. apply Hn. replace m with (n + (m - n))%nat in Hin by lia. rewrite <- drop_drop in Hin.
  rewrite <- (take_drop (m - n) (drop n l)). apply in_or_app. by right.
Qed.
Lemma run_command_dry c argv :
  In c ["write"; "partition"; "format"; "install-boot"; "create"] -> nth 1 argv "" = c ->
  ~ In "--real" (drop 2 argv) -> always inert_ev (run_one argv).
Proof.
  intros Hc Hn Hr. unfold run_command. rewrite Hn.
  assert (Ht : (zlen argv =? 1) = false).
  { destruct argv as [|p [|q l]]; [done|subst c; cbn in Hc; intuition congruence|]. rewrite !zlen_cons. pose proof (zlen_nonneg l). lia. }
  assert (H3 := not_in_drop _ 2 3 _ ltac:(lia) Hr). assert (H4 := not_in_drop _ 2 4 _ ltac:(lia) Hr).
  pose proof (cmd_write_dry _ H4). pose proof (cmd_partition_dry _ H3). pose proof (cmd_format_dry _ H3).
  pose proof (cmd_install_boot_dry _ H3). pose proof (cmd_create_dry _ H4).
  cbv zeta. rewrite Ht. cbn [bind]. unfold exits, usage, out. clear Ht Hn Hr.
  repeat (destruct Hc as [<-|Hc]; [cbn [String.eqb Ascii.eqb Bool.eqb andb orb]; rewrite ?andb_false_r, ?andb_true_r; cbn [orb]; always_tac|]).
  done.
Qed.

(** C4: without --real nothing is written. A command line that asks for write,
    partition, format, install-boot or create and does not contain --real
    makes only inert calls: whatever its other options, and whatever the
    system answers (realpath's answers being absolute paths), the whole
    program opens nothing for writing, removes and makes nothing, and starts
    no program except qemu-img's read-only inspections of the source. *)
Theorem without_real_inert argv t :
  In (nth 1 argv "") ["write"; "partition"; "format"; "install-boot"; "create"] ->
  ~ In "--real" (drop 2 argv) -> Forall absolute t -> made (program argv) t ->
  Forall inert_obs t.
Proof.
  intros Hc Hn Hp Hm. unfold main in Hm.
  assert (Hs : exists sp, find_spec (nth 1 argv "") = Some sp) by
    (repeat (destruct Hc as [<-|Hc]; [by eexists|]); done).
  destruct Hs as [sp Hs], (known_command _ _ Hs) as [H2 Hg]. rewrite H2, Hg in Hm. cbn [andb] in Hm.
  unfold validate_flags in Hm. rewrite Hs in Hm.
  assert (Hh : forall A (m : io A) u, always harmless m -> made m u -> Forall inert_obs u).
  { intros A m u H%always_harmless_inert Hu. by apply (always_made _ _ _ H Hu). }
  apply made_bind in Hm as [Hm|(t1 & [] & t2 & -> & H1 & Hm)].
  { eapply Hh; [apply (i18n_harmless nls)|by right]. }
  apply Forall_app in Hp as [_ Hp]. apply Forall_app. split; [eapply Hh; [apply (i18n_harmless nls)|left; eauto]|].
  apply made_bind in Hm as [Hm|(t3 & rc & t4 & -> & H3 & Hm)].
  { eapply Hh; [apply validate_args_harmless|right; exact Hm]. }
  apply Forall_app in Hp as [_ Hp]. apply Forall_app. split; [eapply Hh; [apply validate_args_harmless|left; eauto]|].
  destruct (rc =? 0); cbn [negb] in Hm; [|by destruct Hm as [[a [-> _]]|[]]].
  apply made_bind in Hm as [Hm|(t5 & argv' & t6 & -> & H5 & Hm)].
  { eapply Hh; [apply resolve_links_harmless|right; exact Hm]. }
  apply Forall_app in Hp as [Hp _]. apply Forall_app. split; [eapply Hh; [apply resolve_links_harmless|left; eauto]|].
  apply exec_bind in H5 as (u1 & l & u2 & -> & Hl & [-> ->]). rewrite app_nil_r in Hp.
  apply (always_made inert_ev (run_one (take 2 argv ++ l))); [|exact Hm].
  destruct argv as [|p [|c rest]]; try (vm_compute in H2; discriminate). cbn [take app drop nth] in *.
  apply (run_command_dry c); [done|done|]. cbn [drop]. intros Hin. apply Hn. by eapply resolve_all_inv.
Qed.
End Dry.
Lemma without_real_inert_witness :
  let argv := ["rufux"; "install-boot"; "/dev/sdb"; "--yes"; "--allow-fixed"] in
  let hd := fun X (e : ev X) (w : unit) => (default_answer e, w) in
  let m := main 9 "." "" (EVP_ unit (fun _ => None) (fun _ _ => None) (fun _ => None)) (fun b => b) (fun _ => None) "3.0" true argv in
  exec m (run hd m tt).1.2 (Some 3) /\ Forall inert_obs (run hd m tt).1.2.
Proof.
  intros argv hd m. assert (H : exec m (run hd m tt).1.2 (Some 3)) by (apply run_computed; vm_compute; reflexivity).
  split; [exact H|]. refine (without_real_inert 9 "." "" _ _ _ "3.0" true argv _ _ _ _ (or_introl (ex_intro _ _ H))).
  - cbn. auto 10.
  - cbn. intuition discriminate.
  - vm_compute. repeat constructor.
Defined.
