(* ===== verification/Xdr.v ===== *)
(** The data of the macOS mount server and its XDR encoding
    (src/macos/src/mountd_nfs.c): attributes, the cache of parent inodes, a
    reader over a received message and a growing reply buffer. *)
From stdpp Require Import gmap.
From S2P Require Import Prelude Cstr.

(** * Data *)

(** NFSv3 status codes (RFC 1813) and the other constants the replies use. *)
Definition NFS3_OK : Z := 0.
Definition NFS3ERR_PERM : Z := 1.
Definition NFS3ERR_NOENT : Z := 2.
Definition NFS3ERR_IO : Z := 5.
Definition NFS3ERR_NXIO : Z := 6.
Definition NFS3ERR_ACCES : Z := 13.
Definition NFS3ERR_EXIST : Z := 17.
Definition NFS3ERR_XDEV : Z := 18.
Definition NFS3ERR_NODEV : Z := 19.
Definition NFS3ERR_NOTDIR : Z := 20.
Definition NFS3ERR_ISDIR : Z := 21.
Definition NFS3ERR_INVAL : Z := 22.
Definition NFS3ERR_FBIG : Z := 27.
Definition NFS3ERR_NOSPC : Z := 28.
Definition NFS3ERR_ROFS : Z := 30.
Definition NFS3ERR_NAMETOOLONG : Z := 63.
Definition NFS3ERR_NOTEMPTY : Z := 66.
Definition NFS3ERR_STALE : Z := 70.
Definition NFS3ERR_BADHANDLE : Z := 10001.
Definition NFS3ERR_NOT_SYNC : Z := 10002.
Definition NFS3ERR_NOTSUPP : Z := 10004.
Definition NFS3ERR_TOOSMALL : Z := 10005.
Definition NFS3ERR_SERVERFAULT : Z := 10006.
Definition NF3REG : Z := 1.
Definition NF3DIR : Z := 2.
Definition NF3BLK : Z := 3.
Definition NF3CHR : Z := 4.
Definition NF3LNK : Z := 5.
Definition NF3SOCK : Z := 6.
Definition NF3FIFO : Z := 7.
Definition UNSTABLE : Z := 0.
Definition FILE_SYNC : Z := 2.
Definition CREATE_UNCHECKED : Z := 0.
Definition CREATE_GUARDED : Z := 1.
Definition CREATE_EXCLUSIVE : Z := 2.
Definition SET_TO_SERVER_TIME : Z := 1.
Definition SET_TO_CLIENT_TIME : Z := 2.
Definition MOUNTD_FH_LEN : Z := 8.
Definition MOUNTD_MAX_RPC_MSG : Z := 2 * 1024 * 1024.
Definition MOUNTD_MAX_IO_SIZE : Z := 1024 * 1024.
Definition PATH_MAX : Z := 1024.

Record NfsAttr := Attr {
  a_type : Z; a_mode : Z; a_nlink : Z; a_uid : Z; a_gid : Z; a_size : Z; a_used : Z;
  a_rdev1 : Z; a_rdev2 : Z; a_fsid : Z; a_fileid : Z; a_atime_sec : Z; a_atime_nsec : Z;
  a_mtime_sec : Z; a_mtime_nsec : Z; a_ctime_sec : Z; a_ctime_nsec : Z }.
Record WccPre := Wcc {
  w_valid : bool; w_size : Z; w_mtime_sec : Z; w_mtime_nsec : Z; w_ctime_sec : Z; w_ctime_nsec : Z }.
Definition zero_wcc : WccPre := Wcc false 0 0 0 0 0.
(** [s_atime], [s_mtime]: time_how *)
Record SAttr3 := Sattr {
  s_set_mode : bool; s_mode : Z; s_set_uid : bool; s_uid : Z; s_set_gid : bool; s_gid : Z;
  s_set_size : bool; s_size : Z; s_set_atime : Z; s_atime_sec : Z; s_atime_nsec : Z;
  s_set_mtime : Z; s_mtime_sec : Z; s_mtime_nsec : Z }.
(** DirEntryList: (fileid, name), in order *)
Definition DirEntryList := list (Z * string).
Record FsStatInfo := Fsstat { f_tbytes : Z; f_fbytes : Z; f_abytes : Z; f_tfiles : Z; f_ffiles : Z; f_afiles : Z }.

Definition attr_to_wcc_pre (ok : bool) (a : NfsAttr) : WccPre :=
  if ok then Wcc true (a_size a) (a_mtime_sec a) (a_mtime_nsec a) (a_ctime_sec a) (a_ctime_nsec a)
  else zero_wcc.

(** errno values of macOS *)
Definition errno_to_nfs3 (e : Z) : Z :=
  match e with
  | 0 => NFS3_OK | 1 => NFS3ERR_PERM | 2 => NFS3ERR_NOENT | 5 => NFS3ERR_IO | 6 => NFS3ERR_NXIO
  | 13 => NFS3ERR_ACCES | 17 => NFS3ERR_EXIST | 18 => NFS3ERR_XDEV | 19 => NFS3ERR_NODEV
  | 20 => NFS3ERR_NOTDIR | 21 => NFS3ERR_ISDIR | 22 => NFS3ERR_INVAL | 27 => NFS3ERR_FBIG
  | 28 => NFS3ERR_NOSPC | 30 => NFS3ERR_ROFS | 63 => NFS3ERR_NAMETOOLONG | 66 => NFS3ERR_NOTEMPTY
  | 70 => NFS3ERR_STALE | 102 => NFS3ERR_NOTSUPP | _ => NFS3ERR_IO
  end.

Definition valid_leaf_name (name : string) : bool :=
  negb (String.eqb name "") && negb (String.eqb name ".") && negb (String.eqb name "..")
  && match strchr "/" name with Some _ => false | None => true end.

(** * The cache of parents: open addressing over 16384 slots

    A slot that is in use is present in the map. *)
Definition PARENT_CACHE_CAP : Z := 16384.
Abbreviation ParentCache := (gmap Z (Z * Z)).   (* slot -> (child, parent) *)

Definition cache_hash (child : Z) : Z :=
  Z.land (Z.shiftr ((child * 11400714819323198485) mod 2 ^ 64) 50) (PARENT_CACHE_CAP - 1).
Definition cache_slot (idx probe : Z) : Z := Z.land (idx + probe) (PARENT_CACHE_CAP - 1).

(** the first slot from [probe] on that is free or holds [child] *)
Fixpoint cache_place (fuel : nat) (c : ParentCache) (child idx probe : Z) : option Z :=
  match fuel with
  | O => None
  | S f =>
      let s := cache_slot idx probe in
      match c !! s with
      | None => Some s
      | Some (k, _) => if k =? child then Some s else cache_place f c child idx (probe + 1)
      end
  end.
Definition cache_set_parent (child parent : Z) (c : ParentCache) : ParentCache :=
  if (child =? 0) || (parent =? 0) then c
  else
    let idx := cache_hash child in
    match cache_place (Z.to_nat PARENT_CACHE_CAP) c child idx 0 with
    | Some s => <[s := (child, parent)]> c
    | None => <[idx := (child, parent)]> c
    end.

Fixpoint cache_find (fuel : nat) (c : ParentCache) (child idx probe : Z) : option Z :=
  match fuel with
  | O => None
  | S f =>
      match c !! cache_slot idx probe with
      | None => None
      | Some (k, p) => if k =? child then Some p else cache_find f c child idx (probe + 1)
      end
  end.
Definition cache_get_parent (child : Z) (c : ParentCache) : option Z :=
  if child =? 0 then None else cache_find (Z.to_nat PARENT_CACHE_CAP) c child (cache_hash child) 0.

(** * Reading a message *)
Record XdrReader := Reader { r_data : list byte; r_pos : Z; r_err : bool }.
Definition r_fail (r : XdrReader) : XdrReader := Reader (r_data r) (r_pos r) true.
Definition r_skip (n : Z) (r : XdrReader) : XdrReader := Reader (r_data r) (r_pos r + n) (r_err r).
(** r->len - r->pos, as a size_t *)
Definition r_left (r : XdrReader) : Z := (zlen (r_data r) - r_pos r) mod 2 ^ 64.

(** A reading function: None is the return value -1. *)
Definition R (A : Type) := XdrReader -> option A * XdrReader.
Definition rret {A} (a : A) : R A := fun r => (Some a, r).
Definition rbind {A B} (m : R A) (f : A -> R B) : R B := fun r =>
  match m r with (Some a, r') => f a r' | (None, r') => (None, r') end.
(** if (r->err) return -1 *)
Definition rcheck : R unit := fun r => (if r_err r then None else Some tt, r).
Notation "'let*' x ':=' m 'in' k" := (rbind m (fun x => k))
  (at level 10, x pattern, m at level 100, k at level 200) : rufux_scope.

Definition xdr_get_u32 : R Z := fun r =>
  if r_err r || (zlen (r_data r) <? r_pos r + 4) then (Some 0, r_fail r)
  else (Some (be (slice (r_pos r) 4 (r_data r))), r_skip 4 r).
Definition xdr_get_u64 : R Z :=
  let* hi := xdr_get_u32 in let* lo := xdr_get_u32 in rret (Z.lor (Z.shiftl hi 32) lo).
Definition pad4 (n : Z) : Z := Z.land (4 - Z.land n 3) 3.
Definition xdr_get_fixed (n : Z) : R (list byte) := fun r =>
  let pad := pad4 n in
  if r_err r || (r_left r <? n) || ((r_left r - n) mod 2 ^ 64 <? pad) then (None, r_fail r)
  else (Some (slice (r_pos r) n (r_data r)), r_skip (n + pad) r).
(** if (r->err || bad) { r->err = 1; return -1; } *)
Definition rguard (bad : bool) : R unit := fun r =>
  if r_err r || bad then (None, r_fail r) else (Some tt, r).
Definition xdr_skip_opaque (max_len : Z) : R unit :=
  let* n := xdr_get_u32 in let* _ := rguard (max_len <? n) in let* _ := xdr_get_fixed n in rret tt.
Definition has_nul (l : list byte) : bool := existsb (fun b => u8 b =? 0) l.
Definition xdr_get_str (cap : Z) : R string :=
  let* n := xdr_get_u32 in
  let* _ := rguard ((cap =? 0) || (cap <=? n)) in
  let* out := xdr_get_fixed n in
  let* _ := rguard (has_nul out) in
  rret (cstr_of_bytes out).
Definition xdr_get_opaque_ptr (max_len : Z) : R (list byte) :=
  let* n := xdr_get_u32 in
  let* _ := (fun r => rguard ((max_len <? n) || (r_left r <? n) || ((r_left r - n) mod 2 ^ 64 <? pad4 n)) r) in
  fun r => (Some (slice (r_pos r) n (r_data r)), r_skip (n + pad4 n) r).
(** the inode of a handle, and whether the handle is bad *)
Definition xdr_get_fh : R (Z * bool) :=
  let* p := xdr_get_opaque_ptr 64 in
  if negb (zlen p =? MOUNTD_FH_LEN) then rret (0, true)
  else rret (be p, be p =? 0).
Definition r_opt (set : bool) (m : R Z) : R Z := if set then m else rret 0.
Definition xdr_get_sattr3 : R SAttr3 :=
  let* set_mode := xdr_get_u32 in
  let* mode := r_opt (negb (set_mode =? 0)) xdr_get_u32 in
  let* set_uid := xdr_get_u32 in
  let* uid := r_opt (negb (set_uid =? 0)) xdr_get_u32 in
  let* set_gid := xdr_get_u32 in
  let* gid := r_opt (negb (set_gid =? 0)) xdr_get_u32 in
  let* set_size := xdr_get_u32 in
  let* size := r_opt (negb (set_size =? 0)) xdr_get_u64 in
  let* set_atime := xdr_get_u32 in
  let* asec := r_opt (set_atime =? SET_TO_CLIENT_TIME) xdr_get_u32 in
  let* ansec := r_opt (set_atime =? SET_TO_CLIENT_TIME) xdr_get_u32 in
  let* set_mtime := xdr_get_u32 in
  let* msec := r_opt (set_mtime =? SET_TO_CLIENT_TIME) xdr_get_u32 in
  let* mnsec := r_opt (set_mtime =? SET_TO_CLIENT_TIME) xdr_get_u32 in
  let* _ := rcheck in
  rret (Sattr (negb (set_mode =? 0)) mode (negb (set_uid =? 0)) uid (negb (set_gid =? 0)) gid
          (negb (set_size =? 0)) size set_atime asec ansec set_mtime msec mnsec).

(** * Writing a reply

    [b_data] is what was written ([len] bytes); [b_cap] the room allocated. *)
Record XdrBuf := Buf { b_data : list byte; b_cap : Z }.
Definition b_len (b : XdrBuf) : Z := zlen (b_data b).
Definition empty_buf : XdrBuf := Buf [] 0.

Fixpoint cap_grow (fuel : nat) (ncap need : Z) : Z :=
  match fuel with O => ncap | S f => if ncap <? need then cap_grow f (ncap * 2) need else ncap end.
(** while (ncap < need) ncap *= 2; the doublings that [need] takes suffice *)
Definition grow (ncap need : Z) : Z := cap_grow (S (Z.to_nat (Z.log2 need))) ncap need.
Definition xdr_reserve (add : Z) (b : XdrBuf) : XdrBuf :=
  if b_len b + add <=? b_cap b then b
  else Buf (b_data b) (grow (if b_cap b =? 0 then 512 else b_cap b * 2) (b_len b + add)).
Definition b_write (l : list byte) (b : XdrBuf) : XdrBuf := Buf (b_data b ++ l) (b_cap b).
(** reply->len = n *)
Definition b_truncate (n : Z) (b : XdrBuf) : XdrBuf := Buf (ztake n (b_data b)) (b_cap b).

Definition be32 (v : Z) : list byte := [b8 (Z.shiftr v 24); b8 (Z.shiftr v 16); b8 (Z.shiftr v 8); b8 v].
Definition xdr_put_u32 (v : Z) (b : XdrBuf) : XdrBuf := b_write (be32 v) (xdr_reserve 4 b).
Definition xdr_put_u64 (v : Z) (b : XdrBuf) : XdrBuf := xdr_put_u32 v (xdr_put_u32 (Z.shiftr v 32) b).
Definition xdr_put_fixed (src : list byte) (b : XdrBuf) : XdrBuf :=
  let n := zlen src in
  let pad := pad4 n in
  b_write (replicate (Z.to_nat pad) Byte.x00) (b_write src (xdr_reserve (n + pad) b)).
Definition xdr_put_opaque (src : list byte) (b : XdrBuf) : XdrBuf :=
  xdr_put_fixed src (xdr_put_u32 (zlen src) b).
Definition xdr_put_str (s : string) (b : XdrBuf) : XdrBuf := xdr_put_opaque (bytes_of_string s) b.
Definition be64 (v : Z) : list byte :=
  [b8 (Z.shiftr v 56); b8 (Z.shiftr v 48); b8 (Z.shiftr v 40); b8 (Z.shiftr v 32);
   b8 (Z.shiftr v 24); b8 (Z.shiftr v 16); b8 (Z.shiftr v 8); b8 v].
Definition xdr_put_fh (ino : Z) (b : XdrBuf) : XdrBuf := xdr_put_opaque (be64 ino) b.

(** [b |> f]: [b] after [f] *)
Notation "b |> f" := (f b) (at level 50, left associativity, only parsing) : rufux_scope.

Definition xdr_put_post_op_fh (present : bool) (ino : Z) (b : XdrBuf) : XdrBuf :=
  if negb present then b |> xdr_put_u32 0 else b |> xdr_put_u32 1 |> xdr_put_fh ino.
Definition xdr_put_fattr3 (a : NfsAttr) (b : XdrBuf) : XdrBuf :=
  b |> xdr_put_u32 (a_type a) |> xdr_put_u32 (Z.land (a_mode a) 4095) |> xdr_put_u32 (a_nlink a)
    |> xdr_put_u32 (a_uid a) |> xdr_put_u32 (a_gid a) |> xdr_put_u64 (a_size a) |> xdr_put_u64 (a_used a)
    |> xdr_put_u32 (a_rdev1 a) |> xdr_put_u32 (a_rdev2 a) |> xdr_put_u64 (a_fsid a) |> xdr_put_u64 (a_fileid a)
    |> xdr_put_u32 (a_atime_sec a) |> xdr_put_u32 (a_atime_nsec a) |> xdr_put_u32 (a_mtime_sec a)
    |> xdr_put_u32 (a_mtime_nsec a) |> xdr_put_u32 (a_ctime_sec a) |> xdr_put_u32 (a_ctime_nsec a).
(** [present && a]: None stands for the null pointer *)
Definition xdr_put_post_op_attr (present : bool) (a : option NfsAttr) (b : XdrBuf) : XdrBuf :=
  match present, a with
  | true, Some a => b |> xdr_put_u32 1 |> xdr_put_fattr3 a
  | _, _ => b |> xdr_put_u32 0
  end.
Definition xdr_put_wcc_data (pre : option WccPre) (post_ok : bool) (post : option NfsAttr) (b : XdrBuf) : XdrBuf :=
  (match pre with
   | Some p =>
       if w_valid p then
         b |> xdr_put_u32 1 |> xdr_put_u64 (w_size p) |> xdr_put_u32 (w_mtime_sec p)
           |> xdr_put_u32 (w_mtime_nsec p) |> xdr_put_u32 (w_ctime_sec p) |> xdr_put_u32 (w_ctime_nsec p)
       else b |> xdr_put_u32 0
   | None => b |> xdr_put_u32 0
   end) |> xdr_put_post_op_attr post_ok post.
