(* ===== verification/XdrSpec.v ===== *)
(** The encoding of the mount server: what is written is read back, decoding
    stays inside the message, the reply buffer has room for what is put into
    it, and the cache of parents is a finite map. *)
From stdpp Require Import gmap.
From S2P Require Import Prelude Cstr Xdr.

(** * Big-endian values *)
Lemma be_app l k : be (l ++ k) = be l * 256 ^ zlen k + be k.
Proof.
  assert (H : forall v, fold_left (fun v b => v * 256 + u8 b) k v = v * 256 ^ zlen k + be k).
  { unfold be. induction k as [|b k IH] using rev_ind; intros v; [rewrite zlen_nil, Z.pow_0_r; cbn; lia|].
    rewrite !fold_left_app, zlen_app. cbn [fold_left]. rewrite (IH v).
    change (zlen [b]) with 1. rewrite Z.pow_add_r, Z.pow_1_r by (pose proof (zlen_nonneg k); lia). ring. }
  unfold be at 1. rewrite fold_left_app. apply H.
Qed.
Lemma be_range l : 0 <= be l < 256 ^ zlen l.
Proof.
  induction l as [|b l IH] using rev_ind; [by vm_compute|].
  rewrite be_app, zlen_app. change (zlen [b]) with 1. rewrite Z.pow_add_r by (pose proof (zlen_nonneg l); lia).
  change (be [b]) with (u8 b).
  rewrite Z.pow_1_r. pose proof (u8_range b). lia.
Qed.
Lemma be_be32 v : be (be32 v) = v mod 2 ^ 32.
Proof.
  unfold be32, be. cbn [fold_left]. rewrite !u8_b8, !Z.shiftr_div_pow2 by lia.
  change (2 ^ 24) with 16777216. change (2 ^ 16) with 65536. change (2 ^ 8) with 256. change (2 ^ 32) with 4294967296.
  Z.to_euclidean_division_equations; lia.
Qed.
Lemma be64_split v : be64 v = be32 (Z.shiftr v 32) ++ be32 v.
Proof. unfold be64, be32. rewrite !Z.shiftr_shiftr by lia. reflexivity. Qed.
Lemma be_be64 v : be (be64 v) = v mod 2 ^ 64.
Proof.
  rewrite be64_split, be_app, !be_be32, Z.shiftr_div_pow2 by lia.
  change (256 ^ zlen (be32 v)) with (2 ^ 32). change (2 ^ 64) with (2 ^ 32 * 2 ^ 32).
  rewrite (Z.rem_mul_r v (2 ^ 32)) by lia. lia.
Qed.
Lemma be32_be l : zlen l = 4 -> be32 (be l) = l.
Proof.
  intros H. destruct l as [|a [|b [|c [|d [|]]]]]; try (exfalso; unfold zlen in H; cbn in H; lia).
  unfold be32, be. cbn [fold_left]. pose proof (u8_range a); pose proof (u8_range b);
    pose proof (u8_range c); pose proof (u8_range d).
  repeat f_equal; apply u8_inj; rewrite u8_b8, ?Z.shiftr_div_pow2 by lia;
    change (2 ^ 24) with 16777216; change (2 ^ 16) with 65536; change (2 ^ 8) with 256;
    Z.to_euclidean_division_equations; lia.
Qed.

Lemma pad4_mod n : pad4 n = (- n) mod 4.
Proof.
  unfold pad4. change 3 with (2 ^ 2 - 1). rewrite !land_mask by lia. change (2 ^ 2) with 4.
  Z.to_euclidean_division_equations; lia.
Qed.
Lemma pad4_range n : 0 <= pad4 n < 4.
Proof. rewrite pad4_mod. apply Z.mod_pos_bound. lia. Qed.
Lemma pad4_aligns n : (n + pad4 n) mod 4 = 0.
Proof. rewrite pad4_mod. Z.to_euclidean_division_equations; lia. Qed.

(** * The reply buffer *)

Lemma cap_grow_enough fuel c need : 1 <= c -> need < c * 2 ^ Z.of_nat fuel -> need <= cap_grow fuel c need.
Proof.
  revert c; induction fuel as [|f IH]; intros c Hc H; cbn [cap_grow]; [cbn in H; lia|].
  destruct (Z.ltb_spec c need); [|done]. apply IH; [lia|].
  rewrite Nat2Z.inj_succ, Z.pow_succ_r in H by lia. lia.
Qed.
Lemma grow_enough c need : 1 <= c -> need <= grow c need.
Proof.
  intros Hc. apply cap_grow_enough; [done|]. destruct (Z.leb_spec need 0).
  { pose proof (Z.pow_pos_nonneg 2 (Z.of_nat (S (Z.to_nat (Z.log2 need)))) eq_refl ltac:(lia)). lia. }
  rewrite Nat2Z.inj_succ, Z2Nat.id by apply Z.log2_nonneg.
  pose proof (proj2 (Z.log2_spec need ltac:(lia))). nia.
Qed.

(** What was written fits the allocation and is a whole number of XDR units. *)
Definition buf_ok (b : XdrBuf) : Prop := b_len b <= b_cap b /\ b_len b mod 4 = 0.
(** [puts f l]: [f] appends [l] to any buffer, inside what it reserved *)
Definition puts (f : XdrBuf -> XdrBuf) (l : list byte) : Prop :=
  forall b, b_data (f b) = b_data b ++ l /\ (buf_ok b -> buf_ok (f b)).

Lemma reserve_data n b : b_data (xdr_reserve n b) = b_data b.
Proof. unfold xdr_reserve. by destruct (_ <=? _). Qed.
Lemma reserve_room n b : 0 <= n -> b_len b <= b_cap b -> b_len b + n <= b_cap (xdr_reserve n b).
Proof.
  intros Hn Hb. unfold xdr_reserve. destruct (Z.leb_spec (b_len b + n) (b_cap b)); [done|]. cbn [b_cap].
  apply grow_enough. destruct (Z.eqb_spec (b_cap b) 0); [lia|].
  assert (0 <= b_len b) by apply zlen_nonneg. lia.
Qed.
Lemma b_len_write l b : b_len (b_write l b) = b_len b + zlen l.
Proof. apply zlen_app. Qed.
Lemma b_len_reserve n b : b_len (xdr_reserve n b) = b_len b.
Proof. unfold b_len. by rewrite reserve_data. Qed.

Lemma puts_u32 v : puts (xdr_put_u32 v) (be32 v).
Proof.
  intros b. split; [cbn; by rewrite reserve_data|]. intros [Hb Ha].
  pose proof (reserve_room 4 b ltac:(lia) Hb).
  unfold xdr_put_u32, buf_ok. rewrite b_len_write, b_len_reserve. change (zlen (be32 v)) with 4.
  split; [done|]. rewrite Z.add_mod, Ha by lia. done.
Qed.
Lemma puts_comp f g l k : puts f l -> puts g k -> puts (fun b => g (f b)) (l ++ k).
Proof.
  intros Hf Hg b. destruct (Hf b) as [Hf1 Hf2], (Hg (f b)) as [Hg1 Hg2].
  rewrite Hg1, Hf1, app_assoc. auto.
Qed.
Lemma puts_id : puts (fun b => b) [].
Proof. intros b. by rewrite app_nil_r. Qed.
Lemma puts_u64 v : puts (xdr_put_u64 v) (be64 v).
Proof. rewrite be64_split. apply (puts_comp (xdr_put_u32 _) (xdr_put_u32 v)); apply puts_u32. Qed.

(** the padded bytes of an opaque of known length *)
Definition enc_fixed (l : list byte) : list byte := l ++ replicate (Z.to_nat (pad4 (zlen l))) Byte.x00.
Definition enc_opaque (l : list byte) : list byte := be32 (zlen l) ++ enc_fixed l.
Lemma zlen_enc_fixed l : zlen (enc_fixed l) = zlen l + pad4 (zlen l).
Proof. unfold enc_fixed. pose proof (pad4_range (zlen l)). rewrite zlen_app, zlen_replicate. lia. Qed.
Lemma puts_fixed l : puts (xdr_put_fixed l) (enc_fixed l).
Proof.
  intros b. split; [cbn; by rewrite reserve_data, <- app_assoc|]. intros [Hb Ha].
  pose proof (pad4_range (zlen l)). pose proof (zlen_nonneg l).
  pose proof (reserve_room (zlen l + pad4 (zlen l)) b ltac:(lia) Hb).
  unfold xdr_put_fixed, buf_ok. rewrite !b_len_write, b_len_reserve, zlen_replicate, Z2Nat.id by lia. cbn [b_write b_cap].
  split; [lia|]. rewrite <- Z.add_assoc, Z.add_mod, Ha, pad4_aligns by lia. done.
Qed.
Lemma puts_opaque l : puts (xdr_put_opaque l) (enc_opaque l).
Proof. apply (puts_comp (xdr_put_u32 _) (xdr_put_fixed l)); [apply puts_u32|apply puts_fixed]. Qed.
Lemma puts_str s : puts (xdr_put_str s) (enc_opaque (bytes_of_string s)).
Proof. apply puts_opaque. Qed.
Lemma puts_fh ino : puts (xdr_put_fh ino) (enc_opaque (be64 ino)).
Proof. apply puts_opaque. Qed.

(** [grows b b']: [b'] is [b] with something appended, inside what was
    reserved. *)
Definition grows (b b' : XdrBuf) : Prop :=
  (exists l, b_data b' = b_data b ++ l) /\ (buf_ok b -> buf_ok b').
#[export] Instance grows_preorder : PreOrder grows.
Proof.
  split; [intros b; split; [exists []; by rewrite app_nil_r|done]|].
  intros a b c [[l Hl] H1] [[k Hk] H2]. split; [|auto]. exists (l ++ k). by rewrite Hk, Hl, app_assoc.
Qed.
Lemma puts_grows f l a b : puts f l -> grows a b -> grows a (f b).
Proof. intros H ?. transitivity b; [done|]. destruct (H b). split; eauto. Qed.
Lemma grows_if (c : bool) a b b' : grows a b -> grows a b' -> grows a (if c then b else b').
Proof. by destruct c. Qed.
Create HintDb xdr.
#[export] Hint Extern 1 (grows ?a ?a) => reflexivity : xdr.
#[export] Hint Resolve grows_if : xdr.
Lemma grows_u32 v a b : grows a b -> grows a (xdr_put_u32 v b). Proof. apply (puts_grows _ _ _ _ (puts_u32 v)). Qed.
Lemma grows_u64 v a b : grows a b -> grows a (xdr_put_u64 v b). Proof. apply (puts_grows _ _ _ _ (puts_u64 v)). Qed.
Lemma grows_fixed l a b : grows a b -> grows a (xdr_put_fixed l b). Proof. apply (puts_grows _ _ _ _ (puts_fixed l)). Qed.
Lemma grows_opaque l a b : grows a b -> grows a (xdr_put_opaque l b). Proof. apply (puts_grows _ _ _ _ (puts_opaque l)). Qed.
Lemma grows_str s a b : grows a b -> grows a (xdr_put_str s b). Proof. apply (puts_grows _ _ _ _ (puts_str s)). Qed.
Lemma grows_fh i a b : grows a b -> grows a (xdr_put_fh i b). Proof. apply (puts_grows _ _ _ _ (puts_fh i)). Qed.
#[export] Hint Resolve grows_u32 grows_u64 grows_fixed grows_opaque grows_str grows_fh : xdr.
Lemma grows_fattr3 t a b : grows a b -> grows a (xdr_put_fattr3 t b).
Proof. intros. unfold xdr_put_fattr3. auto 20 with xdr. Qed.
#[export] Hint Resolve grows_fattr3 : xdr.
Lemma grows_post_op_fh p i a b : grows a b -> grows a (xdr_put_post_op_fh p i b).
Proof. intros. unfold xdr_put_post_op_fh. auto with xdr. Qed.
Lemma grows_post_op_attr p t a b : grows a b -> grows a (xdr_put_post_op_attr p t b).
Proof. intros. unfold xdr_put_post_op_attr. destruct p, t; auto with xdr. Qed.
#[export] Hint Resolve grows_post_op_fh grows_post_op_attr : xdr.
Lemma grows_wcc_data p ok t a b : grows a b -> grows a (xdr_put_wcc_data p ok t b).
Proof.
  intros. unfold xdr_put_wcc_data. apply grows_post_op_attr. destruct p as [w|]; [destruct (w_valid w)|]; auto 10 with xdr.
Qed.
#[export] Hint Resolve grows_wcc_data : xdr.

(** * Reading *)

(** [reads m l a]: in any message that has [l] at the position, [m] returns [a]
    and moves past [l]. *)
Definition reads {A} (m : R A) (l : list byte) (a : A) : Prop :=
  forall pre post, zlen (pre ++ l ++ post) < 2 ^ 64 ->
    m (Reader (pre ++ l ++ post) (zlen pre) false)
    = (Some a, Reader (pre ++ l ++ post) (zlen pre + zlen l) false).

Lemma reads_ret {A} (a : A) : reads (rret a) [] a.
Proof. intros pre post _. unfold rret. by rewrite zlen_nil, Z.add_0_r. Qed.
Lemma reads_bind {A B} (m : R A) (f : A -> R B) l k a b :
  reads m l a -> reads (f a) k b -> reads (rbind m f) (l ++ k) b.
Proof.
  intros Hm Hf pre post Hlen. unfold rbind.
  rewrite <- (app_assoc l k post). rewrite Hm by by rewrite <- app_assoc in Hlen.
  specialize (Hf (pre ++ l) post). rewrite !zlen_app, <- !app_assoc, <- !Z.add_assoc in *. auto.
Qed.
(** for the end of a decoder *)
Lemma reads_last {A B} (m : R A) (f : A -> R B) l a b :
  reads m l a -> reads (f a) [] b -> reads (rbind m f) l b.
Proof. intros. rewrite <- (app_nil_r l). by eapply reads_bind. Qed.
Lemma reads_check : reads rcheck [] tt.
Proof. intros pre post _. unfold rcheck. cbn. by rewrite zlen_nil, Z.add_0_r. Qed.
Lemma reads_guard c : c = false -> reads (rguard c) [] tt.
Proof. intros -> pre post _. unfold rguard. cbn. by rewrite zlen_nil, Z.add_0_r. Qed.
Lemma reads_opt (c : bool) m l (a : Z) : (if c then reads m l a else l = [] /\ a = 0) -> reads (r_opt c m) l a.
Proof. destruct c; [done|]. intros [-> ->]. apply reads_ret. Qed.

Lemma slice_middle {A} (pre l post : list A) : slice (zlen pre) (zlen l) (pre ++ l ++ post) = l.
Proof.
  unfold slice. rewrite zdrop_app, zdrop_all, Z.sub_diag by lia. cbn [app].
  change (zdrop 0 (l ++ post)) with (l ++ post). rewrite ztake_app, ztake_all, Z.sub_diag by lia.
  by rewrite ztake_neg, app_nil_r.
Qed.
Lemma reads_u32 v : 0 <= v < 2 ^ 32 -> reads xdr_get_u32 (be32 v) v.
Proof.
  intros Hv pre post Hlen. unfold xdr_get_u32. cbn [r_err r_data r_pos orb].
  rewrite !zlen_app. change (zlen (be32 v)) with 4. pose proof (zlen_nonneg post).
  destruct (Z.ltb_spec (zlen pre + (4 + zlen post)) (zlen pre + 4)); [lia|].
  change 4 with (zlen (be32 v)). by rewrite slice_middle, be_be32, Z.mod_small.
Qed.
Lemma reads_u64 v : 0 <= v < 2 ^ 64 -> reads xdr_get_u64 (be64 v) v.
Proof.
  intros Hv. rewrite be64_split. unfold xdr_get_u64.
  assert (Hhi : 0 <= Z.shiftr v 32 < 2 ^ 32).
  { rewrite Z.shiftr_div_pow2 by lia. split; [apply Z.div_pos; lia|apply Z.div_lt_upper_bound; lia]. }
  eapply reads_bind; [by apply reads_u32|].
  assert (Hlo : be32 v = be32 (v mod 2 ^ 32)).
  { rewrite <- (be32_be (be32 (v mod 2 ^ 32))), be_be32, Z.mod_mod, <- be_be32, be32_be by done. done. }
  rewrite Hlo. eapply reads_last; [apply reads_u32, Z.mod_pos_bound; lia|].
  replace (Z.lor _ _) with v; [apply reads_ret|].
  rewrite Z.shiftl_mul_pow2, lor_add, Z.shiftr_div_pow2 by (try apply Z.mod_pos_bound; lia).
  rewrite Z.mul_comm. by apply Z.div_mod.
Qed.

Lemma r_left_middle pre l post : zlen (pre ++ l ++ post) < 2 ^ 64 ->
  r_left (Reader (pre ++ l ++ post) (zlen pre) false) = zlen l + zlen post.
Proof.
  intros H. unfold r_left. cbn. rewrite !zlen_app in *.
  pose proof (zlen_nonneg l). pose proof (zlen_nonneg post). pose proof (zlen_nonneg pre). rewrite Z.mod_small; lia.
Qed.
Lemma slice_prefix {A} (l k : list A) pre post : slice (zlen pre) (zlen l) (pre ++ (l ++ k) ++ post) = l.
Proof. rewrite <- app_assoc. apply slice_middle. Qed.
Lemma reads_fixed l : reads (xdr_get_fixed (zlen l)) (enc_fixed l) l.
Proof.
  intros pre post Hlen. unfold xdr_get_fixed. rewrite r_left_middle by done. cbn [r_err r_data r_pos orb].
  rewrite zlen_enc_fixed. pose proof (pad4_range (zlen l)). pose proof (zlen_nonneg l). pose proof (zlen_nonneg post).
  rewrite !zlen_app, zlen_enc_fixed in Hlen. pose proof (zlen_nonneg pre).
  destruct (Z.ltb_spec (zlen l + pad4 (zlen l) + zlen post) (zlen l)); [lia|].
  rewrite Z.mod_small by lia.
  destruct (Z.ltb_spec (zlen l + pad4 (zlen l) + zlen post - zlen l) (pad4 (zlen l))); [lia|].
  unfold enc_fixed. by rewrite slice_prefix.
Qed.
Lemma reads_opaque_ptr l max : zlen l <= max < 2 ^ 32 -> reads (xdr_get_opaque_ptr max) (enc_opaque l) l.
Proof.
  intros Hl. unfold xdr_get_opaque_ptr, enc_opaque. pose proof (zlen_nonneg l).
  eapply reads_bind; [apply reads_u32; lia|]. intros pre post Hlen. unfold rbind, rguard. cbn [r_err orb].
  pose proof (reads_fixed l pre post Hlen) as Hf. unfold xdr_get_fixed in Hf. cbn [r_err orb] in Hf.
  destruct (Z.ltb_spec max (zlen l)); [lia|]. cbn [orb].
  revert Hf. destruct ((r_left _ <? zlen l) || _); intros Hf; [by simplify_eq|exact Hf].
Qed.

Lemma has_nul_bytes s : no_nul s = true -> has_nul (bytes_of_string s) = false.
Proof.
  unfold no_nul. induction s as [|c s IH]; cbn [sall bytes_of_string has_nul existsb]; [done|].
  intros [Hc Hs]%andb_true_iff. pose proof (code_range c). rewrite u8_b8, Z.mod_small by lia.
  destruct (code c =? 0); [done|]. by apply IH.
Qed.
Lemma reads_str s cap : no_nul s = true -> strlen s < cap <= 2 ^ 32 ->
  reads (xdr_get_str cap) (enc_opaque (bytes_of_string s)) s.
Proof.
  intros Hs Hl. pose proof (strlen_nonneg s). unfold xdr_get_str, enc_opaque.
  eapply reads_bind; [apply reads_u32; rewrite zlen_bytes_of_string; lia|].
  eapply (reads_bind _ _ []); [apply reads_guard; rewrite zlen_bytes_of_string; destruct (Z.eqb_spec cap 0), (Z.leb_spec cap (strlen s)); lia|].
  eapply reads_last; [apply reads_fixed|].
  eapply reads_last; [apply reads_guard, has_nul_bytes, Hs|].
  rewrite cstr_bytes_of_string by done. apply reads_ret.
Qed.
Lemma reads_fh ino : 0 <= ino < 2 ^ 64 -> reads xdr_get_fh (enc_opaque (be64 ino)) (ino, ino =? 0).
Proof.
  intros H. unfold xdr_get_fh. eapply reads_last; [apply reads_opaque_ptr; change (zlen (be64 ino)) with 8; lia|].
  change (negb (zlen (be64 ino) =? MOUNTD_FH_LEN)) with false. cbn [negb]. rewrite be_be64, Z.mod_small by done.
  apply reads_ret.
Qed.

(** ** Attributes of SETATTR, CREATE, ... *)

(** sattr3 as RFC 1813 encodes it *)
Definition enc_set (set : bool) (v : list byte) : list byte := be32 (if set then 1 else 0) ++ (if set then v else []).
Definition enc_time (how sec nsec : Z) : list byte :=
  be32 how ++ (if how =? SET_TO_CLIENT_TIME then be32 sec ++ be32 nsec else []).
Definition enc_sattr3 (s : SAttr3) : list byte :=
  enc_set (s_set_mode s) (be32 (s_mode s)) ++ enc_set (s_set_uid s) (be32 (s_uid s))
  ++ enc_set (s_set_gid s) (be32 (s_gid s)) ++ enc_set (s_set_size s) (be64 (s_size s))
  ++ enc_time (s_set_atime s) (s_atime_sec s) (s_atime_nsec s)
  ++ enc_time (s_set_mtime s) (s_mtime_sec s) (s_mtime_nsec s).
(** in range, and 0 where nothing is set *)
Definition opt_ok (set : bool) (w v : Z) : Prop := if set then 0 <= v < 2 ^ w else v = 0.
Definition sattr3_ok (s : SAttr3) : Prop :=
  opt_ok (s_set_mode s) 32 (s_mode s) /\ opt_ok (s_set_uid s) 32 (s_uid s) /\ opt_ok (s_set_gid s) 32 (s_gid s)
  /\ opt_ok (s_set_size s) 64 (s_size s) /\ 0 <= s_set_atime s < 2 ^ 32 /\ 0 <= s_set_mtime s < 2 ^ 32
  /\ opt_ok (s_set_atime s =? SET_TO_CLIENT_TIME) 32 (s_atime_sec s)
  /\ opt_ok (s_set_atime s =? SET_TO_CLIENT_TIME) 32 (s_atime_nsec s)
  /\ opt_ok (s_set_mtime s =? SET_TO_CLIENT_TIME) 32 (s_mtime_sec s)
  /\ opt_ok (s_set_mtime s =? SET_TO_CLIENT_TIME) 32 (s_mtime_nsec s).

#[local] Arguments enc_set : simpl never.
#[local] Arguments enc_time : simpl never.

(** one optional member, followed by the rest of the decoder *)
Lemma reads_set {A} (m : R Z) (set : bool) (w v : Z) enc (k : Z -> Z -> R A) rest a :
  opt_ok set w v -> (0 <= v < 2 ^ w -> reads m (enc v) v) ->
  reads (k (if set then 1 else 0) v) rest a ->
  reads (let* f := xdr_get_u32 in let* x := r_opt (negb (f =? 0)) m in k f x) (enc_set set (enc v) ++ rest) a.
Proof.
  intros Hok Hm Hk. unfold enc_set. rewrite <- app_assoc.
  eapply reads_bind; [apply reads_u32; by destruct set|].
  eapply reads_bind; [|exact Hk]. apply reads_opt. destruct set; cbn; auto.
Qed.
Lemma reads_time {A} (how sec nsec : Z) (k : Z -> Z -> Z -> R A) rest a :
  0 <= how < 2 ^ 32 -> opt_ok (how =? SET_TO_CLIENT_TIME) 32 sec -> opt_ok (how =? SET_TO_CLIENT_TIME) 32 nsec ->
  reads (k how sec nsec) rest a ->
  reads (let* f := xdr_get_u32 in let* x := r_opt (f =? SET_TO_CLIENT_TIME) xdr_get_u32 in
         let* y := r_opt (f =? SET_TO_CLIENT_TIME) xdr_get_u32 in k f x y) (enc_time how sec nsec ++ rest) a.
Proof.
  intros Hh Hs Hn Hk. unfold enc_time. rewrite <- app_assoc.
  eapply reads_bind; [by apply reads_u32|]. destruct (how =? SET_TO_CLIENT_TIME) eqn:E; cbn [opt_ok app] in *.
  - rewrite <- app_assoc. do 2 (eapply reads_bind; [apply reads_opt; rewrite ?E; by apply reads_u32|]). exact Hk.
  - subst. apply (reads_bind _ _ [] _ 0); [by apply reads_opt; rewrite ?E|].
    apply (reads_bind _ _ [] _ 0); [by apply reads_opt; rewrite ?E|]. exact Hk.
Qed.
Lemma reads_sattr3 s : sattr3_ok s -> reads xdr_get_sattr3 (enc_sattr3 s) s.
Proof.
  destruct s as [sm m su u sg g ss z ha as_ an hm ms mn]. unfold sattr3_ok, enc_sattr3. cbn.
  intros (Hm & Hu & Hg & Hs & Ha & Ht & Has & Han & Hms & Hmn). unfold xdr_get_sattr3.
  eapply (reads_set _ sm 32 m be32); [done|apply reads_u32|].
  eapply (reads_set _ su 32 u be32); [done|apply reads_u32|].
  eapply (reads_set _ sg 32 g be32); [done|apply reads_u32|].
  eapply (reads_set _ ss 64 z be64); [done|apply reads_u64|].
  eapply reads_time; [done..|]. rewrite <- (app_nil_r (enc_time hm ms mn)). eapply reads_time; [done..|].
  eapply reads_last; [apply reads_check|].
  destruct sm, su, sg, ss; apply reads_ret.
Qed.

(** ** What a decoder may return, and where it stops *)

(** [rends Q m]: what [m] returns satisfies [Q] *)
Definition rends {A} (Q : A -> Prop) (m : R A) : Prop := forall r a r', m r = (Some a, r') -> Q a.
Lemma rends_ret {A} (Q : A -> Prop) a : Q a -> rends Q (rret a).
Proof. intros H r b r' E. unfold rret in E. by simplify_eq. Qed.
Lemma rends_bind {A B} (P : A -> Prop) (Q : B -> Prop) m f :
  rends P m -> (forall a, P a -> rends Q (f a)) -> rends Q (rbind m f).
Proof.
  intros Hm Hf r b r' E. unfold rbind in E. destruct (m r) as [[a|] r1] eqn:Em; [|done].
  eapply (Hf a); eauto.
Qed.
Lemma rends_any {A} (m : R A) : rends (fun _ => True) m.
Proof. done. Qed.
Lemma rends_guard c : rends (fun _ => c = false) (rguard c).
Proof. intros r a r' E. unfold rguard in E. by destruct (r_err r), c. Qed.
Lemma rends_fixed n : 0 <= n -> rends (fun l => zlen l <= n) (xdr_get_fixed n).
Proof.
  intros Hn r l r' E. unfold xdr_get_fixed in E. destruct (_ || _); simplify_eq.
  unfold slice, ztake, zlen. rewrite length_take. lia.
Qed.
Lemma rends_u32 : rends (fun v => 0 <= v < 2 ^ 32) xdr_get_u32.
Proof.
  intros r v r' E. unfold xdr_get_u32 in E. destruct (_ || _); simplify_eq; [lia|].
  match goal with |- 0 <= be ?l < _ => pose proof (be_range l) as H; assert (Hl : zlen l <= 4) end.
  { unfold slice, ztake, zlen. rewrite length_take. lia. }
  split; [apply H|]. eapply Z.lt_le_trans; [apply H|]. change (2 ^ 32) with (256 ^ 4). apply Z.pow_le_mono_r; lia.
Qed.
Lemma cstr_of_bytes_ok l : no_nul (cstr_of_bytes l) = true /\ strlen (cstr_of_bytes l) <= zlen l.
Proof.
  induction l as [|b l [IH1 IH2]]; [done|]. rewrite zlen_cons. cbn [cstr_of_bytes].
  pose proof (u8_range b). pose proof (zlen_nonneg l).
  destruct (Z.eqb_spec (u8 b) 0); [split; [done|change (strlen "") with 0; lia]|]. rewrite strlen_cons. split; [|lia].
  unfold no_nul in *. cbn [sall]. rewrite IH1, code_chr, Z.mod_small by lia.
  by destruct (Z.eqb_spec (u8 b) 0).
Qed.
Lemma rends_str cap : rends (fun s => no_nul s = true /\ strlen s < cap) (xdr_get_str cap).
Proof.
  unfold xdr_get_str. eapply rends_bind; [apply rends_u32|]. intros n [Hn _].
  eapply rends_bind; [apply rends_guard|]. intros _ [_ Hc]%orb_false_iff. apply Z.leb_gt in Hc.
  eapply rends_bind; [apply rends_fixed; lia|]. cbv beta. intros l Hl.
  eapply rends_bind; [apply rends_guard|]. intros _ _. apply rends_ret.
  destruct (cstr_of_bytes_ok l). split; [done|lia].
Qed.
Lemma rends_opaque_ptr max : rends (fun l => zlen l <= max) (xdr_get_opaque_ptr max).
Proof.
  unfold xdr_get_opaque_ptr. eapply rends_bind; [apply rends_u32|]. intros n [Hn _].
  eapply (rends_bind (fun _ => n <= max)).
  { intros r a r' E. apply rends_guard in E. destruct (Z.ltb_spec max n); [done|lia]. }
  cbv beta. intros _ Hm r l r' E. simplify_eq. unfold slice, ztake, zlen. rewrite length_take. lia.
Qed.
(** a good handle names an inode *)
Lemma rends_fh : rends (fun '(ino, bad) => bad = false -> 0 < ino < 2 ^ 64) xdr_get_fh.
Proof.
  unfold xdr_get_fh. eapply rends_bind; [apply rends_opaque_ptr|]. intros l Hl.
  destruct (Z.eqb_spec (zlen l) MOUNTD_FH_LEN) as [Hz|]; cbn [negb]; apply rends_ret; [|done].
  pose proof (be_range l) as H. rewrite Hz in H. change (256 ^ MOUNTD_FH_LEN) with (2 ^ 64) in H.
  destruct (Z.eqb_spec (be l) 0); [done|]. lia.
Qed.

(** A decoder never moves outside the message, and what it returns was whole. *)
Definition r_ok (r : XdrReader) : Prop := 0 <= r_pos r <= zlen (r_data r) /\ zlen (r_data r) < 2 ^ 63.
Definition inside {A} (m : R A) : Prop := forall r, r_ok r -> r_ok (m r).2 /\ r_data (m r).2 = r_data r.
Lemma inside_ret {A} (a : A) : inside (rret a).
Proof. done. Qed.
Lemma inside_bind {A B} (m : R A) (f : A -> R B) : inside m -> (forall a, inside (f a)) -> inside (rbind m f).
Proof.
  intros Hm Hf r Hr. unfold rbind. specialize (Hm r Hr) as [H1 H2]. destruct (m r) as [[a|] r1]; [|done].
  specialize (Hf a r1 H1) as [H3 H4]. cbn in *. split; [done|congruence].
Qed.
Lemma inside_post {A B} (P : A -> Prop) (m : R A) (f : A -> R B) :
  inside m -> rends P m -> (forall a, P a -> inside (f a)) -> inside (rbind m f).
Proof.
  intros Hm HP Hf r Hr. unfold rbind. specialize (Hm r Hr) as [H1 H2]. specialize (HP r).
  destruct (m r) as [[a|] r1]; [|done]. destruct (Hf a (HP a r1 eq_refl) r1 H1) as [H3 H4].
  cbn in *. split; [done|congruence].
Qed.
Lemma inside_guard c : inside (rguard c).
Proof. intros r Hr. unfold rguard. by destruct (_ || _). Qed.
Lemma inside_check : inside rcheck.
Proof. done. Qed.
Lemma u32_inside r : r_ok r -> r_err (xdr_get_u32 r).2 = false -> r_pos r + 4 <= zlen (r_data r).
Proof. intros Hr. unfold xdr_get_u32. destruct (r_err r); [done|]. destruct (Z.ltb_spec (zlen (r_data r)) (r_pos r + 4)); done. Qed.
Lemma inside_u32 : inside xdr_get_u32.
Proof.
  intros r [Hp Hl]. unfold xdr_get_u32. destruct (r_err r || _) eqn:E; [done|]. cbn.
  apply orb_false_iff in E as [_ E%Z.ltb_ge]. split; [|done]. split; cbn; lia.
Qed.
Lemma fixed_inside n r l r' : 0 <= n -> r_ok r -> xdr_get_fixed n r = (Some l, r') ->
  zlen l = n /\ r_pos r' = r_pos r + n + pad4 n /\ r_pos r' <= zlen (r_data r).
Proof.
  intros Hn [Hp Hl] E. unfold xdr_get_fixed, r_left in E. pose proof (pad4_range n).
  destruct (_ || _ || _) eqn:Eo; simplify_eq. apply orb_false_iff in Eo as [[_ E1%Z.ltb_ge]%orb_false_iff E2%Z.ltb_ge].
  rewrite Z.mod_small in E1 by lia. rewrite (Z.mod_small (zlen (r_data r) - r_pos r)), Z.mod_small in E2 by lia.
  rewrite zlen_slice by lia. cbn. lia.
Qed.
Lemma inside_fixed n : 0 <= n -> inside (xdr_get_fixed n).
Proof.
  intros Hn r Hr. destruct (xdr_get_fixed n r) as [[l|] r'] eqn:E.
  - pose proof (fixed_inside n r l r' Hn Hr E) as (_ & H1 & H2). pose proof (pad4_range n).
    unfold xdr_get_fixed in E. destruct (_ || _); simplify_eq. destruct Hr. cbn in *. split; [split; cbn; lia|done].
  - unfold xdr_get_fixed in E. by destruct (_ || _); simplify_eq.
Qed.
Lemma inside_str cap : inside (xdr_get_str cap).
Proof.
  unfold xdr_get_str. eapply inside_post; [apply inside_u32|apply rends_u32|]. intros n [Hn _].
  apply inside_bind; [apply inside_guard|]. intros _. apply inside_bind; [apply inside_fixed; lia|]. intros l.
  apply inside_bind; [apply inside_guard|]. intros _. apply inside_ret.
Qed.

(** * The cache of parents *)
Section Cache.
Implicit Types (c : gmap Z (Z * Z)) (m : gmap Z Z).

Lemma cache_slot_mod idx i : cache_slot idx i = (idx + i) mod PARENT_CACHE_CAP.
Proof. unfold cache_slot. change (PARENT_CACHE_CAP - 1) with (2 ^ 14 - 1). by rewrite land_mask by lia. Qed.

(** slots [i..d) of the sequence from [idx] are used by other children *)
Definition busy c (k idx i d : Z) : Prop :=
  forall j, i <= j < d -> exists k' p', c !! cache_slot idx j = Some (k', p') /\ k' <> k.
Lemma busy_step c k idx i d k' p' :
  c !! cache_slot idx i = Some (k', p') -> k' <> k -> busy c k idx (i + 1) d -> busy c k idx i d.
Proof. intros H1 H2 Hb j Hj. destruct (decide (j = i)) as [->|]; [eauto|apply Hb; lia]. Qed.
Lemma busy_empty c k idx i : busy c k idx i i.
Proof. intros j Hj. lia. Qed.

Lemma cache_find_spec f c k idx i p :
  cache_find f c k idx i = Some p <->
  exists d, i <= d < i + Z.of_nat f /\ busy c k idx i d /\ c !! cache_slot idx d = Some (k, p).
Proof.
  revert i; induction f as [|f IH]; intros i; cbn [cache_find].
  { split; [done|]. intros (d & Hd & _). lia. }
  destruct (c !! cache_slot idx i) as [[k' p']|] eqn:E; [destruct (Z.eqb_spec k' k) as [->|Hk]|].
  - split.
    + intros [= ->]. exists i. split_and!; [lia|lia|apply busy_empty|done].
    + intros (d & Hd & Hb & He). destruct (decide (d = i)) as [->|]; [by simplify_eq|].
      destruct (Hb i ltac:(lia)) as (? & ? & ? & ?). by simplify_eq.
  - rewrite IH. split; intros (d & Hd & Hb & He); exists d.
    + split_and!; [lia|lia|by eapply busy_step|done].
    + assert (d <> i) by (intros ->; by simplify_eq). split_and!; [lia|lia| |done].
      intros j Hj. apply Hb. lia.
  - split; [done|]. intros (d & Hd & Hb & He). destruct (decide (d = i)) as [->|]; [by simplify_eq|].
    destruct (Hb i ltac:(lia)) as (? & ? & ? & ?). by simplify_eq.
Qed.

Lemma cache_place_Some f c k idx i s :
  cache_place f c k idx i = Some s -> exists d, i <= d < i + Z.of_nat f /\ busy c k idx i d
  /\ s = cache_slot idx d /\ (c !! s = None \/ exists p, c !! s = Some (k, p)).
Proof.
  revert i; induction f as [|f IH]; intros i; cbn [cache_place]; [done|].
  destruct (c !! cache_slot idx i) as [[k' p']|] eqn:E; [destruct (Z.eqb_spec k' k) as [->|Hk]|].
  - intros [= <-]. exists i. split_and!; [lia|lia|apply busy_empty|done|eauto].
  - intros (d & Hd & Hb & H)%IH. exists d. split_and!; [lia|lia|by eapply busy_step|apply H..].
  - intros [= <-]. exists i. split_and!; [lia|lia|apply busy_empty|done|eauto].
Qed.
Lemma cache_place_None f c k idx i :
  cache_place f c k idx i = None -> busy c k idx i (i + Z.of_nat f).
Proof.
  revert i; induction f as [|f IH]; intros i; cbn [cache_place]; [intros _ j Hj; lia|].
  destruct (c !! cache_slot idx i) as [[k' p']|] eqn:E; [destruct (Z.eqb_spec k' k) as [->|Hk]|]; [done| |done].
  intros H%IH. eapply busy_step; [done..|]. by replace (i + Z.of_nat (S f)) with (i + 1 + Z.of_nat f) by lia.
Qed.

(** Every entry can be found from its child's hash, past entries of others. *)
Definition cache_ok c : Prop :=
  forall s k p, c !! s = Some (k, p) ->
    exists d, 0 <= d < PARENT_CACHE_CAP /\ s = cache_slot (cache_hash k) d /\ busy c k (cache_hash k) 0 d.
Lemma cache_get_entry c k p : cache_ok c -> k <> 0 -> cache_get_parent k c = Some p <-> exists s, c !! s = Some (k, p).
Proof.
  intros Hc Hk. unfold cache_get_parent. destruct (Z.eqb_spec k 0); [done|]. rewrite cache_find_spec. split.
  - intros (d & _ & _ & H). eauto.
  - intros [s H]. destruct (Hc s k p H) as (d & Hd & -> & Hb). exists d. split_and!; [lia| |done..].
    rewrite Z2Nat.id by done. lia.
Qed.

(** storing an entry where [k] is, or is to be, keeps the invariant *)
Lemma cache_ok_insert c k p d s0 :
  cache_ok c -> 0 <= d < PARENT_CACHE_CAP -> busy c k (cache_hash k) 0 d -> s0 = cache_slot (cache_hash k) d ->
  (forall q s, c !! s = Some (k, q) -> forall k1 q1, c !! s0 = Some (k1, q1) -> k1 = k) ->
  cache_ok (<[s0 := (k, p)]> c).
Proof.
  intros Hc Hd Hb Es0 Hfree s k' p' H.
  assert (Hstay : forall k1 e, k1 <> k -> busy c k1 (cache_hash k1) 0 e ->
                    busy (<[s0 := (k, p)]> c) k1 (cache_hash k1) 0 e).
  { intros k1 e Hk1 H1 j Hj. destruct (decide (s0 = cache_slot (cache_hash k1) j)) as [E|].
    - exists k, p. rewrite <- E, lookup_insert_eq. by split; [|congruence].
    - rewrite lookup_insert_ne by done. by apply H1. }
  apply lookup_insert_Some in H as [[<- [= <- <-]]|[Hs H]].
  - exists d. split_and!; [lia|lia|done|]. intros j Hj. rewrite lookup_insert_ne; [by apply Hb|].
    rewrite Es0, !cache_slot_mod. unfold PARENT_CACHE_CAP in *.
    revert Hj Hd. clear. intros. Z.to_euclidean_division_equations. lia.
  - destruct (Hc s k' p' H) as (e & He & -> & Hbe).
    exists e. split_and!; [lia|lia|done|]. destruct (decide (k' = k)) as [->|]; [|by apply Hstay].
    exfalso. destruct (Z.lt_trichotomy d e) as [Hlt|[->|Hlt]]; [|done|].
    + destruct (Hbe d ltac:(lia)) as (k1 & p1 & H1 & H2). rewrite <- Es0 in H1. by eapply H2, Hfree.
    + destruct (Hb e ltac:(lia)) as (k1 & p1 & H1 & H2). by simplify_eq.
Qed.

(** [c] holds exactly the map [m]. *)
Definition caches c m : Prop := cache_ok c /\ forall k, cache_get_parent k c = m !! k.

Lemma caches_insert c m k p d s0 (m' : gmap Z Z) :
  caches c m -> k <> 0 -> m !! 0 = None -> 0 <= d < PARENT_CACHE_CAP ->
  busy c k (cache_hash k) 0 d -> s0 = cache_slot (cache_hash k) d ->
  (forall q s, c !! s = Some (k, q) -> forall k1 q1, c !! s0 = Some (k1, q1) -> k1 = k) ->
  (forall k', m' !! k' = if decide (k' = k) then Some p
                         else match c !! s0 with Some (k1, _) => if decide (k' = k1) then None else m !! k'
                              | None => m !! k' end) ->
  caches (<[s0 := (k, p)]> c) m'.
Proof.
  intros [Hc Hg] Hk H0 Hd Hb Es0 Hfree Hm'.
  assert (Hc' : cache_ok (<[s0 := (k, p)]> c)) by by eapply cache_ok_insert.
  split; [done|]. intros k'. rewrite Hm'. destruct (decide (k' = k)) as [->|Hne].
  { apply cache_get_entry; [done..|]. exists s0. apply lookup_insert_eq. }
  destruct (decide (k' = 0)) as [->|Hz]; [unfold cache_get_parent; cbn; by repeat case_match|].
  apply option_eq. intros q. rewrite cache_get_entry by done.
  assert (Hold : forall q, m !! k' = Some q <-> exists s, c !! s = Some (k', q)).
  { intros q'. by rewrite <- Hg, cache_get_entry. }
  split.
  - intros [s [[_ [= E _]]|[Hs Hs']]%lookup_insert_Some]; [congruence|].
    destruct (c !! s0) as [[k1 q1]|] eqn:E; [|apply Hold; eauto].
    destruct (decide (k' = k1)) as [->|]; [|apply Hold; eauto]. exfalso. apply Hs.
    destruct (Hc _ _ _ E) as (d1 & Hd1 & -> & Hb1), (Hc _ _ _ Hs') as (d2 & Hd2 & -> & Hb2). f_equal.
    destruct (Z.lt_trichotomy d1 d2) as [Hlt|[?|Hlt]]; [|done|].
    + destruct (Hb2 d1 ltac:(lia)) as (? & ? & ? & ?). by simplify_eq.
    + destruct (Hb1 d2 ltac:(lia)) as (? & ? & ? & ?). by simplify_eq.
  - intros H. assert (m !! k' = Some q /\ forall q1, c !! s0 <> Some (k', q1)) as [Hm Hs0].
    { destruct (c !! s0) as [[k1 q1]|]; [|done]. destruct (decide (k' = k1)); [done|]. split; [done|]. intros ?. congruence. }
    apply Hold in Hm as [s Hs]. exists s. rewrite lookup_insert_ne; [done|]. intros <-. by eapply Hs0.
Qed.

(** C31: The parent cache is a finite map. Recording a parent updates the map at
    that child and nothing else, except when all 16384 slots are in use by other
    children: then one other child is forgotten. Looking a child up always
    gives what the map holds. *)
Theorem parent_cache_refines_map c m child parent :
  caches c m -> m !! 0 = None -> child <> 0 -> parent <> 0 ->
  exists m', caches (cache_set_parent child parent c) m' /\
    (m' = <[child := parent]> m \/
     (forall j, 0 <= j < PARENT_CACHE_CAP -> exists k q, c !! j = Some (k, q) /\ k <> child) /\
     exists other, other <> child /\ m' = <[child := parent]> (delete other m)).
Proof.
  intros Hcm H0 Hk Hp. unfold cache_set_parent.
  destruct (Z.eqb_spec child 0); [done|]. destruct (Z.eqb_spec parent 0); [done|]. cbn [orb].
  destruct (cache_place _ c child _ 0) as [s|] eqn:E.
  - apply cache_place_Some in E as (d & Hd & Hb & -> & Hs). rewrite Z2Nat.id in Hd by done.
    exists (<[child := parent]> m). split; [|by left].
    eapply (caches_insert c m child parent d); try done.
    { intros q s _ k1 q1 H1. destruct Hs as [Hs|[q2 Hs]]; by simplify_eq. }
    intros k'. destruct (decide (k' = child)) as [->|]; [apply lookup_insert_eq|].
    rewrite lookup_insert_ne by done. destruct Hs as [->|[q2 ->]]; [done|]. by destruct (decide (k' = child)).
  - apply cache_place_None in E. rewrite Z.add_0_l, Z2Nat.id in E by done.
    destruct (E 0 ltac:(done)) as (k1 & q1 & H1 & Hk1).
    assert (Hidx : cache_slot (cache_hash child) 0 = cache_hash child).
    { rewrite cache_slot_mod, Z.add_0_r. unfold cache_hash. change (PARENT_CACHE_CAP - 1) with (2 ^ 14 - 1).
      rewrite land_mask by lia. apply Z.mod_mod. done. }
    exists (<[child := parent]> (delete k1 m)). split.
    + eapply (caches_insert c m child parent 0); try done; [intros j Hj; lia|..].
      { intros q s Hs. exfalso. destruct Hcm as [Hc _]. destruct (Hc _ _ _ Hs) as (d & Hd & -> & _).
        destruct (E d Hd) as (? & ? & ? & ?). by simplify_eq. }
      intros k'. rewrite <- Hidx, H1. destruct (decide (k' = child)) as [->|]; [apply lookup_insert_eq|].
      rewrite lookup_insert_ne by done. destruct (decide (k' = k1)) as [->|]; [apply lookup_delete_eq|].
      by rewrite lookup_delete_ne.
    + right. split; [|by exists k1]. intros j Hj.
      destruct (E ((j - cache_hash child) mod PARENT_CACHE_CAP)) as (k & q & H & ?).
      { apply Z.mod_pos_bound. done. }
      exists k, q. split; [|done]. rewrite <- H. f_equal. rewrite cache_slot_mod, Zplus_mod_idemp_r.
      replace (cache_hash child + (j - cache_hash child)) with j by lia. by rewrite Z.mod_small.
Qed.
Lemma parent_cache_refines_map_witness :
  caches ∅ ∅ /\ exists m', caches (cache_set_parent 12 2 ∅) m' /\
    (m' = {[12 := 2]} \/ (forall j, 0 <= j < PARENT_CACHE_CAP -> exists k q, (∅ : ParentCache) !! j = Some (k, q) /\ k <> 12) /\
     exists other, other <> 12 /\ m' = <[12 := 2]> (delete other ∅)).
Proof.
  assert (H : caches ∅ ∅).
  { split; [by intros s k p H|]. intros k. rewrite lookup_empty. unfold cache_get_parent.
    destruct (k =? 0); [done|]. cbn [cache_find]. by destruct (Z.to_nat PARENT_CACHE_CAP). }
  split; [exact H|]. apply (parent_cache_refines_map ∅ ∅ 12 2 H); done.
Defined.
End Cache.
