(* ===== verification/Mountd.v ===== *)
(** The effects of the mount server: system and library calls over the cache
    of parents, and the interface the protocol handlers use the mounted file
    system through ([Backend]). *)
From stdpp Require Import gmap.
From S2P Require Import Prelude Cstr Ext2fs Ntfs3g Sys Xdr.

(** * Programs over the cache *)
Definition M (A : Type) := ParentCache -> io (ParentCache * A).
Definition mret {A} (a : A) : M A := fun c => Ret (c, a).
Definition mbind {A B} (m : M A) (f : A -> M B) : M B := fun c => bind (m c) (fun p => f p.2 p.1).
Definition mcall {X : Set} (e : ev X) : M X := fun c => bind (call e) (fun x => Ret (c, x)).
Definition mset_parent (child parent : Z) : M unit := fun c => Ret (cache_set_parent child parent c, tt).
Definition mget_parent (child : Z) : M (option Z) := fun c => Ret (c, cache_get_parent child c).
Definition mwhen (b : bool) (m : M unit) : M unit := if b then m else mret tt.
Notation "x <~ m ;; k" := (mbind m (fun x => k))
  (at level 60, m at next level, right associativity) : rufux_scope.
Notation "' x <~ m ;; k" := (mbind m (fun x => k))
  (at level 20, x pattern, m at level 59, k at level 200) : rufux_scope.
Notation "m ~;; k" := (mbind m (fun _ => k)) (at level 60, right associativity) : rufux_scope.

(** Early return: [inl] is what the caller returns. *)
Definition mtry {E A} (m : M (E + A)) (f : A -> M E) : M E :=
  mbind m (fun r => match r with inl e => mret e | inr a => f a end).
Notation "x <~? m ;; k" := (mtry m (fun x => k))
  (at level 60, m at next level, right associativity) : rufux_scope.
Notation "' x <~? m ;; k" := (mtry m (fun x => k))
  (at level 20, x pattern, m at level 59, k at level 200) : rufux_scope.

(** A loop with a state; [inr] leaves it. *)
Fixpoint mloop {S A} (fuel : nat) (body : S -> M (S + A)) (s : S) : M A :=
  match fuel with
  | O => fun _ => OutOfFuel
  | Datatypes.S f => r <~ body s ;; match r with inl s' => mloop f body s' | inr a => mret a end
  end.
Fixpoint mfold {B S} (body : S -> B -> M S) (l : list B) (s : S) : M S :=
  match l with [] => mret s | b :: t => s' <~ body s b ;; mfold body t s' end.

(** * What every program over the cache calls *)
Definition malways {A} (P : forall X : Set, ev X -> Prop) (m : M A) : Prop := forall c, always P (m c).
(** [mexec m c t c' a]: from the cache [c], with the calls and answers [t], [m]
    returns [a] and leaves [c']. *)
Definition mexec {A} (m : M A) (c : ParentCache) (t : list obs) (c' : ParentCache) (a : A) : Prop :=
  exec (m c) t (c', a).

Lemma malways_ret {A} P (a : A) : malways P (mret a).
Proof. done. Qed.
Lemma malways_bind {A B} P (m : M A) (f : A -> M B) :
  malways P m -> (forall a, malways P (f a)) -> malways P (mbind m f).
Proof. intros Hm Hf c. apply always_bind; [apply Hm|]. intros [c' a]. apply Hf. Qed.
Lemma malways_try {E A} P (m : M (E + A)) (f : A -> M E) :
  malways P m -> (forall a, malways P (f a)) -> malways P (mtry m f).
Proof. intros. apply malways_bind; [done|]. intros [e|a]; [apply malways_ret|done]. Qed.
Lemma malways_call {X : Set} P (e : ev X) : P X e -> malways P (mcall e).
Proof. intros H c. cbn. auto. Qed.
Lemma malways_set P k p : malways P (mset_parent k p).
Proof. done. Qed.
Lemma malways_get P k : malways P (mget_parent k).
Proof. done. Qed.
Lemma malways_when P b m : (b = true -> malways P m) -> malways P (mwhen b m).
Proof. destruct b; cbn; [auto|]. intros _. apply malways_ret. Qed.
Lemma malways_loop {S A} P fuel (body : S -> M (S + A)) s :
  (forall s, malways P (body s)) -> malways P (mloop fuel body s).
Proof.
  intros Hb. revert s; induction fuel as [|n IH]; intros s; cbn; [done|].
  apply malways_bind; [done|]. intros [s'|a]; [apply IH|apply malways_ret].
Qed.
Lemma malways_fold {B S} P (body : S -> B -> M S) l s :
  (forall s b, malways P (body s b)) -> malways P (mfold body l s).
Proof.
  intros Hb. revert s; induction l as [|b l IH]; intros s; cbn; [apply malways_ret|].
  apply malways_bind; auto.
Qed.
Lemma malways_mono {A} (P Q : forall X : Set, ev X -> Prop) (m : M A) :
  (forall X e, P X e -> Q X e) -> malways P m -> malways Q m.
Proof. intros H Hm c. eapply always_mono; eauto. Qed.

Lemma mexec_bind {A B} (m : M A) (f : A -> M B) c t c' b :
  mexec (mbind m f) c t c' b <->
  exists t1 c1 a t2, t = t1 ++ t2 /\ mexec m c t1 c1 a /\ mexec (f a) c1 t2 c' b.
Proof.
  unfold mexec, mbind. rewrite exec_bind. split.
  - intros (t1 & [c1 a] & t2 & -> & H1 & H2). eauto 10.
  - intros (t1 & c1 & a & t2 & -> & H1 & H2). exists t1, (c1, a), t2. eauto.
Qed.
Lemma mexec_ret {A} (a : A) c t c' b : mexec (mret a) c t c' b <-> t = [] /\ c' = c /\ b = a.
Proof. unfold mexec, mret. cbn. split; [intros [-> H]; by simplify_eq|]. intros (-> & -> & ->). done. Qed.
Lemma mexec_call {X : Set} (e : ev X) c t c' x :
  mexec (mcall e) c t c' x <-> t = [Obs e x] /\ c' = c.
Proof.
  unfold mexec, mcall. cbn. split.
  - intros (y & t' & -> & -> & H). by simplify_eq.
  - intros [-> ->]. eauto.
Qed.
Lemma mexec_set k p c t c' u : mexec (mset_parent k p) c t c' u <-> t = [] /\ c' = cache_set_parent k p c.
Proof. unfold mexec, mset_parent. cbn. destruct u. split; [intros [-> H]; by simplify_eq|]. by intros [-> ->]. Qed.
Lemma mexec_get k c t c' p : mexec (mget_parent k) c t c' p <-> t = [] /\ c' = c /\ p = cache_get_parent k c.
Proof. unfold mexec, mget_parent. cbn. split; [intros [-> H]; by simplify_eq|]. by intros (-> & -> & ->). Qed.
Lemma mexec_when (b : bool) m c t c' u :
  mexec (mwhen b m) c t c' u -> if b then mexec m c t c' u else t = [] /\ c' = c.
Proof. destruct b; cbn; [done|]. by intros (-> & -> & _)%mexec_ret. Qed.

(** ** What a program can return *)
Definition mends {A} (Q : A -> Prop) (m : M A) : Prop := forall c t c' a, mexec m c t c' a -> Q a.
Lemma mends_ret {A} (Q : A -> Prop) a : Q a -> mends Q (mret a).
Proof. by intros H c t c' b (_ & _ & ->)%mexec_ret. Qed.
Lemma mends_bind {A B} (P : A -> Prop) (Q : B -> Prop) (m : M A) (f : A -> M B) :
  mends P m -> (forall a, P a -> mends Q (f a)) -> mends Q (mbind m f).
Proof. intros Hm Hf c t c' b (t1 & c1 & a & t2 & _ & H1 & H2)%mexec_bind. eapply Hf; eauto. Qed.
Lemma mends_any {A B} (Q : B -> Prop) (m : M A) (f : A -> M B) :
  (forall a, mends Q (f a)) -> mends Q (mbind m f).
Proof. intros. apply (mends_bind (fun _ => True)); [done|auto]. Qed.
Lemma mends_mono {A} (P Q : A -> Prop) (m : M A) : (forall a, P a -> Q a) -> mends P m -> mends Q m.
Proof. intros H Hm c t c' a Ha. eauto. Qed.

(** * Properties of programs closed under sequencing

    [S m] is a property of the calls [m] makes. A client's theorem over such an
    [S] needs only that it holds of the operations the client uses. *)
Class Logic (S : forall A, M A -> Prop) : Prop := {
  l_ret : forall A (a : A), S A (mret a);
  l_bind : forall A B (m : M A) (f : A -> M B) (Q : A -> Prop),
    S A m -> mends Q m -> (forall a, Q a -> S B (f a)) -> S B (mbind m f) }.
Lemma l_seq {S} `{!Logic S} {A B} (m : M A) (f : A -> M B) : S A m -> (forall a, S B (f a)) -> S B (mbind m f).
Proof. intros. apply (l_bind _ _ _ _ (fun _ => True)); [done..|auto]. Qed.
Lemma l_when {S} `{!Logic S} b m : (b = true -> S unit m) -> S unit (mwhen b m).
Proof. destruct b; cbn; [auto|]. intros _. apply l_ret. Qed.
Lemma l_try {S} `{!Logic S} {E A} (m : M (E + A)) (f : A -> M E) (Q : E + A -> Prop) :
  S _ m -> mends Q m -> (forall a, Q (inr a) -> S E (f a)) -> S E (mtry m f).
Proof. intros Hm HQ Hf. apply (l_bind _ _ _ _ Q); [done..|]. intros [e|a] Ha; [apply l_ret|auto]. Qed.
(** properties that a run cut short has *)
Class Partial (S : forall A, M A -> Prop) : Prop := l_fuel : forall A, S A (fun _ => OutOfFuel).
Lemma l_loop {S} `{!Logic S, !Partial S} {T A} fuel (body : T -> M (T + A)) s :
  (forall s, S _ (body s)) -> S A (mloop fuel body s).
Proof.
  intros Hb. revert s; induction fuel as [|n IH]; intros s; cbn; [apply l_fuel|].
  apply l_seq; [done|]. intros [s'|a]; [apply IH|apply l_ret].
Qed.
Lemma l_fold {S} `{!Logic S} {B T} (body : T -> B -> M T) l s :
  (forall s b, S T (body s b)) -> S T (mfold body l s).
Proof.
  intros Hb. revert s; induction l as [|b l IH]; intros s; cbn; [apply l_ret|]. apply l_seq; auto.
Qed.

(** every call satisfies [P], also in runs that do not end *)
#[export] Instance malways_logic P : Logic (fun A => @malways A P).
Proof.
  split; [intros; apply malways_ret|]. intros A B m f Q Hm HQ Hf c. unfold mbind.
  apply always_bind_exec; [apply Hm|]. intros t [c' a] Ha. cbn. apply Hf. by eapply HQ.
Qed.
#[export] Instance malways_partial P : Partial (fun A => @malways A P).
Proof. done. Qed.
(** the calls of every completed run satisfy [T] *)
Definition mtraces (T : list obs -> Prop) {A} (m : M A) : Prop := forall c t c' a, mexec m c t c' a -> T t.
Class Monoidal (T : list obs -> Prop) : Prop := {
  mon_nil : T []; mon_app : forall t u, T t -> T u -> T (t ++ u) }.
#[export] Instance mtraces_logic T : Monoidal T -> Logic (fun A => @mtraces T A).
Proof.
  intros HT. split.
  - by intros A a c t c' b (-> & _)%mexec_ret; apply mon_nil.
  - intros A B m f Q Hm HQ Hf c t c' b (t1 & c1 & a & t2 & -> & H1 & H2)%mexec_bind.
    apply mon_app; [by eapply Hm|]. eapply Hf; [by eapply HQ|done].
Qed.
#[export] Instance mtraces_partial T : Partial (fun A => @mtraces T A).
Proof. by intros A c t c' a Hf. Qed.
(** with answers in [L], the fuel suffices *)
Definition returns (L : obs -> Prop) {A} (m : M A) : Prop := forall c t, Forall L t -> ~ runs_out (m c) t.
#[export] Instance returns_logic L : Logic (fun A => @returns L A).
Proof.
  split; [intros A a c t _ []|]. intros A B m f Q Hm HQ Hf c t Ht.
  intros [H|(t1 & [c1 a] & t2 & -> & H1 & H2)]%runs_out_bind; [by apply (Hm c t)|].
  apply Forall_app in Ht as [Ht1 Ht2]. eapply (Hf a); [by eapply HQ|exact Ht2|exact H2].
Qed.
(** a loop every turn of which lowers a measure *)
Lemma returns_loop {T A} L (measure : T -> nat) (Inv : T -> Prop) fuel (body : T -> M (T + A)) s :
  (forall s, returns L (body s)) ->
  (forall c t c' s s', Inv s -> Forall L t -> mexec (body s) c t c' (inl s') -> Inv s' /\ (measure s' < measure s)%nat) ->
  Inv s -> (measure s < fuel)%nat -> returns L (mloop fuel body s).
Proof.
  intros Hb Hm. revert s; induction fuel as [|n IH]; intros s Hs Hf c t Ht; [lia|]. cbn [mloop].
  intros [H|(t1 & [c1 [s'|a]] & t2 & -> & H1 & H2)]%runs_out_bind; [by apply (Hb s c t)| |done].
  apply Forall_app in Ht as [Ht1 Ht2]. destruct (Hm _ _ _ _ _ Hs Ht1 H1) as [Hs' Hlt].
  eapply (IH s'); [done|lia|exact Ht2|exact H2].
Qed.
(** * Observers

    A state that every call and its answer move ([step]), and what the answers
    must be in it ([law]): the contents of a file, counts of what was allocated.
    [from s m Q]: observed from [s], with answers in [law], [m] ends with [Q]. *)
Section Observer.
Context {St : Type} (step : obs -> St -> St) (law : obs -> St -> Prop).
#[local] Notation observe := (observe step).
#[local] Notation abides := (abides step law).

Definition from (s : St) {A} (m : M A) (Q : A -> St -> Prop) : Prop :=
  forall c t c' a, mexec m c t c' a -> abides t s -> Q a (observe t s).
(** [m] moves no state *)
Definition idle {A} (m : M A) : Prop := mtraces (fun t => forall s, observe t s = s) m.
#[export] Instance idle_monoidal : Monoidal (fun t => forall s, observe t s = s).
Proof. split; [done|]. intros t u Ht Hu s. by rewrite observe_app, Ht, Hu. Qed.

Lemma from_ret {A} s (a : A) (Q : A -> St -> Prop) : Q a s -> from s (mret a) Q.
Proof. by intros H c t c' b (-> & _ & ->)%mexec_ret _. Qed.
Lemma from_bind {A B} s (m : M A) (f : A -> M B) P Q :
  from s m P -> (forall a s', P a s' -> from s' (f a) Q) -> from s (mbind m f) Q.
Proof.
  intros Hm Hf c t c' b (t1 & c1 & a & t2 & -> & H1 & H2)%mexec_bind [Hl1 Hl2]%abides_app.
  rewrite observe_app. eapply Hf; eauto.
Qed.
Lemma from_step {X : Set} {B} s (e : ev X) (f : X -> M B) Q :
  (forall x, law (Obs e x) s -> from (step (Obs e x) s) (f x) Q) -> from s (mbind (mcall e) f) Q.
Proof.
  intros Hf c t c' b (t1 & c1 & x & t2 & -> & (-> & _)%mexec_call & H2)%mexec_bind [Hx Hl].
  apply (Hf x Hx _ _ _ _ H2 Hl).
Qed.
Lemma from_set {B} s k p (f : unit -> M B) Q : from s (f tt) Q -> from s (mbind (mset_parent k p) f) Q.
Proof. intros Hf c t c' b (t1 & c1 & [] & t2 & -> & (-> & _)%mexec_set & H2)%mexec_bind Hl. apply (Hf _ _ _ _ H2 Hl). Qed.
Lemma from_get {B} s k (f : option Z -> M B) Q : (forall p, from s (f p) Q) -> from s (mbind (mget_parent k) f) Q.
Proof. intros Hf c t c' b (t1 & c1 & p & t2 & -> & (-> & -> & _)%mexec_get & H2)%mexec_bind Hl. apply (Hf _ _ _ _ _ H2 Hl). Qed.
Lemma from_idle {A B} s (m : M A) (f : A -> M B) Q : idle m -> (forall a, from s (f a) Q) -> from s (mbind m f) Q.
Proof. intros Hm Hf. apply (from_bind _ _ _ (fun _ s' => s' = s)); [|by intros a ? ->]. intros c t c' a H _. by eapply Hm. Qed.
Lemma from_mono {A} s (m : M A) (P Q : A -> St -> Prop) : (forall a s, P a s -> Q a s) -> from s m P -> from s m Q.
Proof. intros H Hm c t c' a Hx Hl. eauto. Qed.
Lemma from_loop {T A} (Inv : T -> St -> Prop) (Q : A -> St -> Prop) n (body : T -> M (T + A)) x s :
  (forall x s, Inv x s -> from s (body x) (fun r s' => match r with inl x' => Inv x' s' | inr a => Q a s' end)) ->
  Inv x s -> from s (mloop n body x) Q.
Proof.
  intros Hb. revert x s; induction n as [|n IH]; intros x s Hi; [by intros c t c' a Hf|]. cbn [mloop].
  eapply from_bind; [by apply Hb|]. intros [x'|a] s' H; [by apply IH|by apply from_ret].
Qed.

Lemma idle_call {X : Set} (e : ev X) : (forall x s, step (Obs e x) s = s) -> idle (mcall e).
Proof. intros He c t c' x (-> & _)%mexec_call s. cbn. apply He. Qed.
Lemma idle_set k p : idle (mset_parent k p).
Proof. by intros c t c' u (-> & _)%mexec_set. Qed.
Lemma idle_get k : idle (mget_parent k).
Proof. by intros c t c' p (-> & _)%mexec_get. Qed.
Lemma idle_ret {A} (a : A) : idle (mret a).
Proof. by intros c t c' b (-> & _)%mexec_ret. Qed.
Lemma idle_seq {A B} (m : M A) (f : A -> M B) : idle m -> (forall a, idle (f a)) -> idle (mbind m f).
Proof. apply (@l_seq (fun A => @idle A) _). Qed.
Lemma idle_when b m : idle m -> idle (mwhen b m).
Proof. intros H. destruct b; [done|apply idle_ret]. Qed.
End Observer.
Arguments from_ret {St step law A}.
Arguments from_bind {St step law A B}.
Arguments from_step {St step law X B}.
Arguments from_idle {St step law A B}.
Arguments from_mono {St step law A}.
Arguments from_loop {St step law T A}.
Arguments idle_call {St step X}.
Arguments idle_when {St step}.

(** [mrun]: a run in one environment *)
Definition mrun {W A} (h : handler W) (m : M A) (c : ParentCache) (w : W) : option (ParentCache * A) * list obs * W :=
  run h (m c) w.
Lemma mrun_bind {W A B} (h : handler W) (m : M A) (f : A -> M B) c w :
  mrun h (mbind m f) c w =
  let '(r, t, w1) := mrun h m c w in
  match r with
  | Some (c1, a) => let '(r2, t2, w2) := mrun h (f a) c1 w1 in (r2, t ++ t2, w2)
  | None => (None, t, w1)
  end.
Proof.
  unfold mrun, mbind. rewrite run_bind. by destruct (run h (m c) w) as [[[[c1 a]|] t] w1].
Qed.

(** [malways_tac]: as [always_tac], over the cache *)
Create HintDb mountd.
Ltac malways_step :=
  match goal with
  | |- malways _ (mbind _ _) => apply malways_bind
  | |- malways _ (mtry _ _) => apply malways_try
  | |- malways _ (mret _) => apply malways_ret
  | |- malways _ (mcall _) => apply malways_call
  | |- malways _ (mset_parent _ _) => apply malways_set
  | |- malways _ (mwhen _ _) => apply malways_when
  | |- malways _ (mloop _ _ _) => apply malways_loop
  | |- malways _ (mfold _ _ _) => apply malways_fold
  | |- forall _, _ => intro
  | |- malways _ (match ?x with _ => _ end) => destruct x eqn:?
  | |- malways _ (let '_ := ?x in _) => destruct x eqn:?
  | |- _ => solve [auto with mountd]
  end.
Ltac malways_tac := repeat (cbv beta zeta; malways_step).
(** [mexec_inv H]: takes one execution apart, call by call *)
Ltac mexec_inv H :=
  lazymatch type of H with
  | mexec (mbind _ _) _ _ _ _ =>
      apply mexec_bind in H; let H1 := fresh H in destruct H as (? & ? & ? & ? & -> & H1 & H)
  | mexec (mret _) _ _ _ _ => apply mexec_ret in H; destruct H as (-> & -> & H)
  | mexec (mcall _) _ _ _ _ => apply mexec_call in H; destruct H as (-> & ->)
  | mexec (mset_parent _ _) _ _ _ _ => apply mexec_set in H; destruct H as (-> & ->)
  end.

(** * The mounted file system

    The fs_* functions dispatch on the kind of the file system to the ntfs_op_*
    or ext_op_* function of the same name; a [Backend] is one such family. An
    attribute a function leaves unwritten is None. [DirOut]: the attributes of a
    directory before and after. *)
Record DirOut := Dout { d_pre : WccPre; d_post : option NfsAttr; d_post_ok : bool }.
Class Backend := {
  fs_root_ino : Z;
  fs_sync_all : M unit;
  fs_getattr (ino : Z) : M (Z * option NfsAttr);
  fs_setattr (ino : Z) (s : SAttr3) : M (Z * option NfsAttr);
  fs_lookup (dir : Z) (name : string) : M (Z * Z * option NfsAttr);
  fs_readlink (ino cap : Z) : M (Z * string * option NfsAttr * bool);
  fs_read (ino offset count : Z) : M (Z * list byte * bool * option NfsAttr * bool);
  fs_write (ino offset : Z) (buf : list byte) (stable : Z) : M (Z * Z * Z * DirOut);
  fs_create (dir : Z) (name : string) (mode : Z) (s : option SAttr3) : M (Z * Z * option NfsAttr * DirOut);
  fs_mkdir (dir : Z) (name : string) (s : SAttr3) : M (Z * Z * option NfsAttr * DirOut);
  fs_symlink (dir : Z) (name : string) (s : SAttr3) (target : string) : M (Z * Z * option NfsAttr * DirOut);
  fs_remove (dir : Z) (name : string) : M (Z * DirOut);
  fs_rmdir (dir : Z) (name : string) : M (Z * DirOut);
  fs_rename (from : Z) (from_name : string) (to : Z) (to_name : string) : M (Z * DirOut * DirOut);
  fs_link (ino dir : Z) (name : string) : M (Z * option NfsAttr * bool * DirOut);
  fs_readdir (dir : Z) : M (Z * DirEntryList * option NfsAttr * bool);
  fs_fsstat (ino : Z) : M (Z * FsStatInfo * option NfsAttr * bool);
  fs_commit (ino : Z) : M (Z * DirOut) }.

(** What a client of a [Backend] must keep to: numbers in range, names without
    a NUL that fit their buffers, transfers of at most 1 MiB. Under that, [S]
    holds of each operation. *)
Definition ino_ok (ino : Z) : Prop := 0 < ino < 2 ^ 64.
Definition cstr_below (cap : Z) (s : string) : Prop := no_nul s = true /\ strlen s < cap.
Class Sat (S : forall A, M A -> Prop) (fs : Backend) : Prop := {
  s_sync : S _ fs_sync_all;
  s_getattr ino : S _ (fs_getattr ino);
  s_setattr ino s : ino_ok ino -> S _ (fs_setattr ino s);
  s_lookup dir name : ino_ok dir -> cstr_below 1025 name -> S _ (fs_lookup dir name);
  s_readlink ino : ino_ok ino -> S _ (fs_readlink ino PATH_MAX);
  s_read ino off count : ino_ok ino -> 0 <= count <= MOUNTD_MAX_IO_SIZE -> S _ (fs_read ino off count);
  s_write ino off buf stable : ino_ok ino -> zlen buf <= MOUNTD_MAX_IO_SIZE -> S _ (fs_write ino off buf stable);
  s_create dir name mode s : ino_ok dir -> cstr_below 1025 name -> S _ (fs_create dir name mode s);
  s_mkdir dir name s : ino_ok dir -> cstr_below 1025 name -> S _ (fs_mkdir dir name s);
  s_symlink dir name s target :
    ino_ok dir -> cstr_below 1025 name -> cstr_below PATH_MAX target -> S _ (fs_symlink dir name s target);
  s_remove dir name : ino_ok dir -> cstr_below 1025 name -> S _ (fs_remove dir name);
  s_rmdir dir name : ino_ok dir -> cstr_below 1025 name -> S _ (fs_rmdir dir name);
  s_rename from n1 to n2 : ino_ok from -> ino_ok to -> cstr_below 1025 n1 -> cstr_below 1025 n2 ->
    S _ (fs_rename from n1 to n2);
  s_link ino dir name : ino_ok ino -> ino_ok dir -> cstr_below 1025 name -> S _ (fs_link ino dir name);
  s_readdir dir : ino_ok dir -> S _ (fs_readdir dir);
  s_fsstat ino : ino_ok ino -> S _ (fs_fsstat ino);
  s_commit ino : ino_ok ino -> S _ (fs_commit ino) }.
