(* ===== verification/Nfsd.v ===== *)
(** The MOUNT and NFS protocol handlers of the mount server
    (src/macos/src/mountd_nfs.c, handle_mount_proc to dispatch_rpc_call), over
    any [Backend].

    A handler decodes its arguments first ([with_args]: -1, GARBAGE_ARGS, when
    that fails) and then works on the file system. An attribute variable the
    file system left unwritten holds [junk], what the stack held. *)
From S2P Require Import Prelude Cstr Ext2fs Sys Xdr Mountd.

Definition RPC_VERSION_2 : Z := 2.
Definition RPC_CALL : Z := 0.
Definition RPC_REPLY : Z := 1.
Definition RPC_MSG_ACCEPTED : Z := 0.
Definition RPC_MSG_DENIED : Z := 1.
Definition RPC_SUCCESS : Z := 0.
Definition RPC_PROG_UNAVAIL : Z := 1.
Definition RPC_PROG_MISMATCH : Z := 2.
Definition RPC_PROC_UNAVAIL : Z := 3.
Definition RPC_GARBAGE_ARGS : Z := 4.
Definition RPC_MISMATCH : Z := 0.
Definition AUTH_NONE : Z := 0.
Definition AUTH_SYS : Z := 1.
Definition NFS_PROGRAM : Z := 100003.
Definition NFS_V3 : Z := 3.
Definition MOUNT_PROGRAM : Z := 100005.
Definition MOUNT_V3 : Z := 3.
Definition MNT3_OK : Z := 0.
Definition MNT3ERR_NOENT : Z := 2.
Definition ACCESS3_READ : Z := 1.
Definition ACCESS3_LOOKUP : Z := 2.
Definition ACCESS3_MODIFY : Z := 4.
Definition ACCESS3_EXTEND : Z := 8.
Definition ACCESS3_DELETE : Z := 16.
Definition ACCESS3_EXECUTE : Z := 32.

Section Handlers.
Context {fs : Backend}.
(** what an uninitialised NfsAttr of handle_nfs_proc holds *)
Variable junk : NfsAttr.
(** g_writeverf *)
Variable writeverf : list byte.

(** A procedure: 0 and the reply, -1 for garbage arguments, -2 when there is none. *)
Definition Handler := XdrReader -> XdrBuf -> M (Z * XdrBuf).
Definition with_args {A} (args : R A) (k : A -> XdrBuf -> M (Z * XdrBuf)) : Handler := fun r out =>
  match (args r).1 with None => mret (-1, out) | Some a => k a out end.
Definition reply (out : XdrBuf) : M (Z * XdrBuf) := mret (0, out).
(** [&attr], a pointer to a variable that was or was not written *)
Definition addr (a : option NfsAttr) : option NfsAttr := Some (default junk a).

(** * MOUNT *)
Definition handle_mount_proc (proc : Z) : Handler :=
  match proc with
  | 0 (* NULL *) => fun r out => reply out
  | 1 (* MNT *) =>
      with_args (xdr_get_str 1025) (fun dirpath out =>
        if negb (String.eqb dirpath "/") && negb (String.eqb dirpath "") then reply (out |> xdr_put_u32 MNT3ERR_NOENT)
        else reply (out |> xdr_put_u32 MNT3_OK |> xdr_put_fh fs_root_ino |> xdr_put_u32 2
                        |> xdr_put_u32 AUTH_SYS |> xdr_put_u32 AUTH_NONE))
  | 2 (* DUMP *) => fun r out => reply (out |> xdr_put_u32 0)
  | 3 (* UMNT *) => with_args (xdr_get_str 1025) (fun _ out => fs_sync_all ~;; reply out)
  | 4 (* UMNTALL *) => fun r out => fs_sync_all ~;; reply out
  | 5 (* EXPORT *) => fun r out =>
      reply (out |> xdr_put_u32 1 |> xdr_put_str "/" |> xdr_put_u32 1 |> xdr_put_str "127.0.0.1"
                 |> xdr_put_u32 0 |> xdr_put_u32 0)
  | _ => fun r out => mret (-2, out)
  end.

(** * NFS, procedure by procedure *)
Definition bad_attr (out : XdrBuf) : M (Z * XdrBuf) :=
  reply (out |> xdr_put_u32 NFS3ERR_BADHANDLE |> xdr_put_post_op_attr false None).
Definition bad_wcc (out : XdrBuf) : M (Z * XdrBuf) :=
  reply (out |> xdr_put_u32 NFS3ERR_BADHANDLE |> xdr_put_wcc_data None false None).
Definition put_dir (d : DirOut) (out : XdrBuf) : XdrBuf :=
  out |> xdr_put_wcc_data (Some (d_pre d)) (d_post_ok d) (addr (d_post d)).

Definition nfs_getattr : Handler :=
  with_args xdr_get_fh (fun '(ino, bad) out =>
    '(st, a) <~ (if bad : bool then mret (NFS3ERR_BADHANDLE, None) else fs_getattr ino) ;;
    let out := out |> xdr_put_u32 st in
    reply (if st =? NFS3_OK then out |> xdr_put_fattr3 (default junk a) else out)).

Definition nfs_setattr : Handler :=
  with_args (let* fh := xdr_get_fh in let* s := xdr_get_sattr3 in
             let* guard := xdr_get_u32 in
             let* sec := r_opt (negb (guard =? 0)) xdr_get_u32 in
             let* nsec := r_opt (negb (guard =? 0)) xdr_get_u32 in
             let* _ := rcheck in rret (fh, s, guard, sec, nsec))
    (fun '((ino, bad), s, guard, sec, nsec) out =>
      if bad : bool then bad_wcc out
      else
        '(pst, a) <~ fs_getattr ino ;;
        let attr := default junk a in
        let pre := attr_to_wcc_pre (pst =? NFS3_OK) attr in
        if negb (pst =? NFS3_OK) then
          reply (out |> xdr_put_u32 NFS3ERR_STALE |> xdr_put_wcc_data (Some pre) false None)
        else if negb (guard =? 0) && (negb (a_ctime_sec attr =? sec) || negb (a_ctime_nsec attr =? nsec)) then
          reply (out |> xdr_put_u32 NFS3ERR_NOT_SYNC |> xdr_put_wcc_data (Some pre) true (Some attr))
        else
          '(st, a2) <~ fs_setattr ino s ;;
          '(ok, a3) <~ (if st =? NFS3_OK then mret (true, None)
                       else '(st2, a3) <~ fs_getattr ino ;; mret (st2 =? NFS3_OK, a3)) ;;
          reply (out |> xdr_put_u32 st
                     |> xdr_put_wcc_data (Some pre) ok (Some (default (default junk a2) a3)))).

Definition nfs_lookup : Handler :=
  with_args (let* fh := xdr_get_fh in let* name := xdr_get_str 1025 in rret (fh, name))
    (fun '((dir, bad), name) out =>
      if bad : bool then bad_attr out
      else
        '(st, child, a) <~ fs_lookup dir name ;;
        '(dst, da) <~ fs_getattr dir ;;
        let out := out |> xdr_put_u32 st in
        let out := if st =? NFS3_OK then out |> xdr_put_fh child |> xdr_put_post_op_attr true (addr a) else out in
        reply (out |> xdr_put_post_op_attr (dst =? NFS3_OK) (addr da))).

Definition nfs_access : Handler :=
  with_args (let* fh := xdr_get_fh in let* req := xdr_get_u32 in let* _ := rcheck in rret (fh, req))
    (fun '((ino, bad), req) out =>
      if bad : bool then bad_attr out
      else
        '(st, a) <~ fs_getattr ino ;;
        let attr := default junk a in
        let out := out |> xdr_put_u32 st |> xdr_put_post_op_attr (st =? NFS3_OK) (Some attr) in
        reply (if st =? NFS3_OK then
          let allowed := Z.lor (Z.lor ACCESS3_READ ACCESS3_MODIFY) ACCESS3_EXTEND in
          let allowed := if a_type attr =? NF3DIR then Z.lor allowed (Z.lor ACCESS3_LOOKUP ACCESS3_DELETE)
                         else Z.lor allowed ACCESS3_EXECUTE in
          out |> xdr_put_u32 (Z.land req allowed)
        else out)).

Definition nfs_readlink : Handler :=
  with_args xdr_get_fh (fun '(ino, bad) out =>
    if bad : bool then bad_attr out
    else
      '(st, path, a, ok) <~ fs_readlink ino PATH_MAX ;;
      let out := out |> xdr_put_u32 st |> xdr_put_post_op_attr ok (addr a) in
      reply (if st =? NFS3_OK then out |> xdr_put_str path else out)).

Definition nfs_read : Handler :=
  with_args (let* fh := xdr_get_fh in let* offset := xdr_get_u64 in let* count := xdr_get_u32 in
             let* _ := rcheck in rret (fh, offset, count))
    (fun '((ino, bad), offset, count) out =>
      if bad : bool then bad_attr out
      else
        let count := if MOUNTD_MAX_IO_SIZE <? count then MOUNTD_MAX_IO_SIZE else count in
        '(st, data, eof, a, ok) <~ fs_read ino offset count ;;
        let out := out |> xdr_put_u32 st |> xdr_put_post_op_attr ok (addr a) in
        reply (if st =? NFS3_OK then
          out |> xdr_put_u32 (zlen data) |> xdr_put_u32 (if eof : bool then 1 else 0) |> xdr_put_opaque data
        else out)).

Definition nfs_write : Handler :=
  with_args (let* fh := xdr_get_fh in let* offset := xdr_get_u64 in let* count := xdr_get_u32 in
             let* stable := xdr_get_u32 in let* data := xdr_get_opaque_ptr MOUNTD_MAX_IO_SIZE in
             rret (fh, offset, count, stable, data))
    (fun '((ino, bad), offset, count, stable, data) out =>
      if bad : bool then bad_wcc out
      else
        let to_write := if count <? zlen data then count else zlen data in
        '(st, written, committed, d) <~ fs_write ino offset (ztake to_write data) stable ;;
        let out := out |> xdr_put_u32 st |> put_dir d in
        reply (if st =? NFS3_OK then
          out |> xdr_put_u32 written |> xdr_put_u32 committed |> xdr_put_fixed writeverf
        else out)).

(** the reply of CREATE, MKDIR and SYMLINK *)
Definition put_new (st child : Z) (a : option NfsAttr) (d : DirOut) (out : XdrBuf) : XdrBuf :=
  let out := out |> xdr_put_u32 st in
  let out := if st =? NFS3_OK then out |> xdr_put_post_op_fh true child |> xdr_put_post_op_attr true (addr a)
             else out in
  out |> put_dir d.

Definition nfs_create : Handler :=
  with_args (let* fh := xdr_get_fh in let* name := xdr_get_str 1025 in let* mode := xdr_get_u32 in
             let* s := (if (mode =? CREATE_UNCHECKED) || (mode =? CREATE_GUARDED) then
                          let* s := xdr_get_sattr3 in rret (Some s)
                        else if mode =? CREATE_EXCLUSIVE then let* _ := xdr_get_fixed 8 in rret None
                        else fun r => (None, r)) in
             rret (fh, name, mode, s))
    (fun '((dir, bad), name, mode, s) out =>
      if bad : bool then bad_wcc out
      else '(st, child, a, d) <~ fs_create dir name mode s ;; reply (put_new st child a d out)).

Definition nfs_mkdir : Handler :=
  with_args (let* fh := xdr_get_fh in let* name := xdr_get_str 1025 in let* s := xdr_get_sattr3 in
             rret (fh, name, s))
    (fun '((dir, bad), name, s) out =>
      if bad : bool then bad_wcc out
      else '(st, child, a, d) <~ fs_mkdir dir name s ;; reply (put_new st child a d out)).

Definition nfs_symlink : Handler :=
  with_args (let* fh := xdr_get_fh in let* name := xdr_get_str 1025 in let* s := xdr_get_sattr3 in
             let* target := xdr_get_str PATH_MAX in rret (fh, name, s, target))
    (fun '((dir, bad), name, s, target) out =>
      if bad : bool then bad_wcc out
      else '(st, child, a, d) <~ fs_symlink dir name s target ;; reply (put_new st child a d out)).

Definition nfs_mknod : Handler :=
  with_args (let* fh := xdr_get_fh in let* name := xdr_get_str 1025 in let* ftype := xdr_get_u32 in
             let* _ := (if (ftype =? NF3CHR) || (ftype =? NF3BLK) then
                          let* _ := xdr_get_sattr3 in let* _ := xdr_get_u32 in let* _ := xdr_get_u32 in rret tt
                        else if (ftype =? NF3SOCK) || (ftype =? NF3FIFO) then let* _ := xdr_get_sattr3 in rret tt
                        else rret tt) in
             let* _ := rcheck in rret fh)
    (fun '(dir, bad) out =>
      '(ok, a) <~ (if bad : bool then mret (false, None)
                  else '(st, a) <~ fs_getattr dir ;; mret (st =? NFS3_OK, a)) ;;
      reply (out |> xdr_put_u32 (if bad then NFS3ERR_BADHANDLE else NFS3ERR_NOTSUPP)
                 |> xdr_put_wcc_data (Some (attr_to_wcc_pre ok (default junk a))) ok (addr a))).

Definition nfs_remove : Handler :=
  with_args (let* fh := xdr_get_fh in let* name := xdr_get_str 1025 in rret (fh, name))
    (fun '((dir, bad), name) out =>
      if bad : bool then bad_wcc out
      else '(st, d) <~ fs_remove dir name ;; reply (out |> xdr_put_u32 st |> put_dir d)).

Definition nfs_rmdir : Handler :=
  with_args (let* fh := xdr_get_fh in let* name := xdr_get_str 1025 in rret (fh, name))
    (fun '((dir, bad), name) out =>
      if bad : bool then bad_wcc out
      else '(st, d) <~ fs_rmdir dir name ;; reply (out |> xdr_put_u32 st |> put_dir d)).

Definition nfs_rename : Handler :=
  with_args (let* fh := xdr_get_fh in let* name := xdr_get_str 1025 in
             let* fh2 := xdr_get_fh in let* name2 := xdr_get_str 1025 in rret (fh, name, fh2, name2))
    (fun '((dir, bad), name, (to_dir, bad2), name2) out =>
      if (bad || bad2 : bool) then
        reply (out |> xdr_put_u32 NFS3ERR_BADHANDLE |> xdr_put_wcc_data None false None
                   |> xdr_put_wcc_data None false None)
      else
        '(st, d, d2) <~ fs_rename dir name to_dir name2 ;;
        reply (out |> xdr_put_u32 st |> put_dir d |> put_dir d2)).

Definition nfs_link : Handler :=
  with_args (let* fh := xdr_get_fh in let* fh2 := xdr_get_fh in let* name := xdr_get_str 1025 in
             rret (fh, fh2, name))
    (fun '((ino, bad), (dir, bad2), name) out =>
      if (bad || bad2 : bool) then
        reply (out |> xdr_put_u32 NFS3ERR_BADHANDLE |> xdr_put_post_op_attr false None
                   |> xdr_put_wcc_data None false None)
      else
        '(st, a, ok, d) <~ fs_link ino dir name ;;
        reply (out |> xdr_put_u32 st |> xdr_put_post_op_attr ok (addr a) |> put_dir d)).

(** ** Directory listings *)
Definition zeros8 : list byte := replicate 8 Byte.x00.
Definition xdr_padded_strlen (s : string) : Z := 4 + strlen s + pad4 (strlen s).
Definition start_index (cookie : Z) (l : DirEntryList) : Z := if cookie <? zlen l then cookie else zlen l.

(** the loop of READDIR over the entries from [idx] on; the index it stopped at *)
Fixpoint readdir_loop (l : DirEntryList) (idx emitted start_len max_bytes : Z) (out : XdrBuf) : Z * XdrBuf :=
  match l with
  | [] => (idx, out)
  | (fileid, name) :: t =>
      let entry_sz := 4 + 8 + xdr_padded_strlen name + 8 in
      let used := b_len out - start_len in
      if (0 <? emitted) && (max_bytes <? used + entry_sz + 8) then (idx, out)
      else
        readdir_loop t (idx + 1) (emitted + 1) start_len max_bytes
          (out |> xdr_put_u32 1 |> xdr_put_u64 fileid |> xdr_put_str name |> xdr_put_u64 (idx + 1))
  end.
Definition nfs_readdir : Handler :=
  with_args (let* fh := xdr_get_fh in let* cookie := xdr_get_u64 in let* _ := xdr_get_fixed 8 in
             let* max_bytes := xdr_get_u32 in let* _ := rcheck in rret (fh, cookie, max_bytes))
    (fun '((dir, bad), cookie, max_bytes) out =>
      if bad : bool then bad_attr out
      else
        '(st, l, a, ok) <~ fs_readdir dir ;;
        if negb (st =? NFS3_OK) then reply (out |> xdr_put_u32 st |> xdr_put_post_op_attr ok (addr a))
        else if max_bytes <? 128 then
          reply (out |> xdr_put_u32 NFS3ERR_TOOSMALL |> xdr_put_post_op_attr ok (addr a))
        else
          let start_len := b_len out in
          let out := out |> xdr_put_u32 NFS3_OK |> xdr_put_post_op_attr ok (addr a) |> xdr_put_fixed zeros8 in
          let i := start_index cookie l in
          let '(idx, out) := readdir_loop (zdrop i l) i 0 start_len max_bytes out in
          reply (out |> xdr_put_u32 0 |> xdr_put_u32 (if zlen l <=? idx then 1 else 0))).

Fixpoint readdirplus_loop (l : DirEntryList) (idx emitted start_len maxcount : Z) (out : XdrBuf) : M (Z * XdrBuf) :=
  match l with
  | [] => mret (idx, out)
  | (fileid, name) :: t =>
      let entry_sz := 4 + 8 + xdr_padded_strlen name + 8 + 88 + 16 in
      let used := b_len out - start_len in
      if (0 <? emitted) && (maxcount <? used + entry_sz + 8) then mret (idx, out)
      else
        '(st, a) <~ fs_getattr fileid ;;
        let eok := st =? NFS3_OK in
        readdirplus_loop t (idx + 1) (emitted + 1) start_len maxcount
          (out |> xdr_put_u32 1 |> xdr_put_u64 fileid |> xdr_put_str name |> xdr_put_u64 (idx + 1)
               |> xdr_put_post_op_attr eok (addr a) |> xdr_put_post_op_fh eok fileid)
  end.
Definition nfs_readdirplus : Handler :=
  with_args (let* fh := xdr_get_fh in let* cookie := xdr_get_u64 in let* _ := xdr_get_fixed 8 in
             let* dircount := xdr_get_u32 in let* maxcount := xdr_get_u32 in
             let* _ := rcheck in rret (fh, cookie, maxcount))
    (fun '((dir, bad), cookie, maxcount) out =>
      if bad : bool then bad_attr out
      else
        '(st, l, a, ok) <~ fs_readdir dir ;;
        if negb (st =? NFS3_OK) then reply (out |> xdr_put_u32 st |> xdr_put_post_op_attr ok (addr a))
        else if maxcount <? 256 then
          reply (out |> xdr_put_u32 NFS3ERR_TOOSMALL |> xdr_put_post_op_attr ok (addr a))
        else
          let start_len := b_len out in
          let out := out |> xdr_put_u32 NFS3_OK |> xdr_put_post_op_attr ok (addr a) |> xdr_put_fixed zeros8 in
          let i := start_index cookie l in
          '(idx, out) <~ readdirplus_loop (zdrop i l) i 0 start_len maxcount out ;;
          reply (out |> xdr_put_u32 0 |> xdr_put_u32 (if zlen l <=? idx then 1 else 0))).

Definition nfs_fsstat : Handler :=
  with_args xdr_get_fh (fun '(ino, bad) out =>
    if bad : bool then bad_attr out
    else
      '(st, f, a, ok) <~ fs_fsstat ino ;;
      let out := out |> xdr_put_u32 st |> xdr_put_post_op_attr ok (addr a) in
      reply (if st =? NFS3_OK then
        out |> xdr_put_u64 (f_tbytes f) |> xdr_put_u64 (f_fbytes f) |> xdr_put_u64 (f_abytes f)
            |> xdr_put_u64 (f_tfiles f) |> xdr_put_u64 (f_ffiles f) |> xdr_put_u64 (f_afiles f) |> xdr_put_u32 0
      else out)).

(** FSINFO and PATHCONF answer with constants when the handle is good *)
Definition nfs_constants (put : XdrBuf -> XdrBuf) : Handler :=
  with_args xdr_get_fh (fun '(ino, bad) out =>
    if bad : bool then bad_attr out
    else
      '(st, a) <~ fs_getattr ino ;;
      let out := out |> xdr_put_u32 st |> xdr_put_post_op_attr (st =? NFS3_OK) (addr a) in
      reply (if st =? NFS3_OK then put out else out)).
Definition nfs_fsinfo : Handler := nfs_constants (fun out =>
  out |> xdr_put_u32 MOUNTD_MAX_IO_SIZE |> xdr_put_u32 65536 |> xdr_put_u32 4096
      |> xdr_put_u32 MOUNTD_MAX_IO_SIZE |> xdr_put_u32 65536 |> xdr_put_u32 4096 |> xdr_put_u32 65536
      |> xdr_put_u64 0x7FFFFFFFFFFFFFFF |> xdr_put_u32 1 |> xdr_put_u32 0
      |> xdr_put_u32 (Z.lor (Z.lor (Z.lor 1 2) 8) 16)).
Definition nfs_pathconf : Handler := nfs_constants (fun out =>
  out |> xdr_put_u32 1023 |> xdr_put_u32 255 |> xdr_put_u32 1 |> xdr_put_u32 0 |> xdr_put_u32 0 |> xdr_put_u32 1).

Definition nfs_commit : Handler :=
  with_args (let* fh := xdr_get_fh in let* _ := xdr_get_u64 in let* _ := xdr_get_u32 in let* _ := rcheck in rret fh)
    (fun '(ino, bad) out =>
      if bad : bool then bad_wcc out
      else
        '(st, d) <~ fs_commit ino ;;
        let out := out |> xdr_put_u32 st |> put_dir d in
        reply (if st =? NFS3_OK then out |> xdr_put_fixed writeverf else out)).

Definition handle_nfs_proc (proc : Z) : Handler :=
  match proc with
  | 0 => fun r out => reply out
  | 1 => nfs_getattr | 2 => nfs_setattr | 3 => nfs_lookup | 4 => nfs_access | 5 => nfs_readlink
  | 6 => nfs_read | 7 => nfs_write | 8 => nfs_create | 9 => nfs_mkdir | 10 => nfs_symlink
  | 11 => nfs_mknod | 12 => nfs_remove | 13 => nfs_rmdir | 14 => nfs_rename | 15 => nfs_link
  | 16 => nfs_readdir | 17 => nfs_readdirplus | 18 => nfs_fsstat | 19 => nfs_fsinfo | 20 => nfs_pathconf
  | 21 => nfs_commit
  | _ => fun r out => mret (-2, out)
  end.

(** * RPC *)

(** xid and rpcvers; a message that is no call is dropped *)
Definition rpc_head : R (Z * Z) :=
  let* xid := xdr_get_u32 in let* mtype := xdr_get_u32 in
  let* _ := rguard (negb (mtype =? RPC_CALL)) in
  let* rpcvers := xdr_get_u32 in let* _ := rcheck in rret (xid, rpcvers).
(** program, version and procedure, past the credentials and the verifier *)
Definition rpc_body : R (Z * Z * Z) :=
  let* prog := xdr_get_u32 in let* vers := xdr_get_u32 in let* proc := xdr_get_u32 in
  let* _ := xdr_get_u32 in let* _ := xdr_skip_opaque 400 in
  let* _ := xdr_get_u32 in let* _ := xdr_skip_opaque 400 in
  rret (prog, vers, proc).

(** None: the return value -1, on which the connection is closed. *)
Definition dispatch_rpc_call (msg : list byte) (out : XdrBuf) : M (option XdrBuf) :=
  match rpc_head (Reader msg 0 false) with
  | (None, _) => mret None
  | (Some (xid, rpcvers), r) =>
      if negb (rpcvers =? RPC_VERSION_2) then
        mret (Some (out |> xdr_put_u32 xid |> xdr_put_u32 RPC_REPLY |> xdr_put_u32 RPC_MSG_DENIED
                        |> xdr_put_u32 RPC_MISMATCH |> xdr_put_u32 RPC_VERSION_2 |> xdr_put_u32 RPC_VERSION_2))
      else
        match rpc_body r with
        | (None, _) => mret None
        | (Some (prog, vers, proc), r) =>
            let out := out |> xdr_put_u32 xid |> xdr_put_u32 RPC_REPLY |> xdr_put_u32 RPC_MSG_ACCEPTED
                           |> xdr_put_u32 AUTH_NONE |> xdr_put_u32 0 in
            if negb (prog =? MOUNT_PROGRAM) && negb (prog =? NFS_PROGRAM) then
              mret (Some (out |> xdr_put_u32 RPC_PROG_UNAVAIL))
            else
              let want_vers := if prog =? MOUNT_PROGRAM then MOUNT_V3 else NFS_V3 in
              if negb (vers =? want_vers) then
                mret (Some (out |> xdr_put_u32 RPC_PROG_MISMATCH |> xdr_put_u32 want_vers |> xdr_put_u32 want_vers))
              else
                let stat_pos := b_len out in
                let out := out |> xdr_put_u32 RPC_SUCCESS in
                '(hrc, out) <~ (if prog =? MOUNT_PROGRAM then handle_mount_proc proc r out
                               else handle_nfs_proc proc r out) ;;
                mret (Some (if hrc =? -1 then out |> b_truncate stat_pos |> xdr_put_u32 RPC_GARBAGE_ARGS
                            else if hrc =? -2 then out |> b_truncate stat_pos |> xdr_put_u32 RPC_PROC_UNAVAIL
                            else out))
        end
  end.
End Handlers.
