(* ===== verification/NfsdSpec.v ===== *)
(** Theorems of the protocol handlers, for every backend: the file system is
    used within its contract, a rejected call does nothing, replies are well
    formed, and a directory is listed completely. *)
From S2P Require Import Prelude Cstr Sys Xdr XdrSpec Mountd Nfsd.

(** * Arguments *)
Definition fh_ok (fh : Z * bool) : Prop := fh.2 = false -> ino_ok fh.1.
Lemma rends_handle : rends fh_ok xdr_get_fh.
Proof. intros r [ino bad] r' E. exact (rends_fh r _ r' E). Qed.
Lemma rends_name cap : rends (cstr_below cap) (xdr_get_str cap).
Proof. apply rends_str. Qed.

(** [args_tac]: a decoder member by member *)
Ltac args_tac :=
  repeat match goal with
  | |- rends _ (rbind xdr_get_fh _) => eapply rends_bind; [apply rends_handle|intros ? ?]
  | |- rends _ (rbind (xdr_get_str _) _) => eapply rends_bind; [apply rends_name|intros ? ?]
  | |- rends _ (rbind xdr_get_u32 _) => eapply rends_bind; [apply rends_u32|intros ? ?]
  | |- rends _ (rbind (xdr_get_opaque_ptr _) _) => eapply rends_bind; [apply rends_opaque_ptr|intros ? ?]
  | |- rends _ (rbind _ _) => eapply (rends_bind (fun _ => True)); [apply rends_any|intros ? _]
  | |- rends _ xdr_get_fh => apply rends_handle
  | |- rends _ (rret _) => apply rends_ret
  end.

Section Client.
Context {S : forall A, M A -> Prop} `{!Logic S} {fs : Backend} `{!Sat S fs}.
Variables (junk : NfsAttr) (writeverf : list byte).

Lemma s_args {A} (Q : A -> Prop) (args : R A) k :
  rends Q args -> (forall a out, Q a -> S _ (k a out)) -> forall r out, S _ (with_args args k r out).
Proof.
  intros Ha Hk r out. unfold with_args. destruct (args r) as [[a|] r'] eqn:E; cbn; [|apply l_ret].
  apply Hk. by eapply Ha.
Qed.
Lemma s_reply out : S _ (reply out).
Proof. apply l_ret. Qed.

(** [sat_tac]: a handler call by call, each under its contract *)
Ltac sat_step :=
  match goal with
  | |- S _ (mbind _ _) => apply l_seq
  | |- S _ (mret _) => apply l_ret
  | |- S _ (reply _) => apply s_reply
  | |- S _ (bad_attr _) => apply s_reply
  | |- S _ (bad_wcc _) => apply s_reply
  | |- S _ (match ?x with _ => _ end) => destruct x eqn:?
  | |- forall _, _ => intro
  end.
Ltac sat_tac := repeat (cbv beta iota zeta; sat_step).
(** [handler Q]: the decoder gives [Q] *)
Ltac handler Q :=
  intros; eapply (s_args Q); [args_tac; cbn in *; repeat match goal with |- _ /\ _ => split end; first [assumption | lia]|];
  intros ? ? ?; repeat match goal with p : (_ * _)%type |- _ => destruct p end; sat_tac; destruct_and?;
  repeat match goal with H : fh_ok _ |- _ => unfold fh_ok in H; cbn in H end.

Lemma s_nfs_getattr r out : S _ (nfs_getattr junk r out).
Proof. handler fh_ok; apply s_getattr. Qed.
Lemma s_nfs_setattr r out : S _ (nfs_setattr junk r out).
Proof. handler (fun a : Z * bool * SAttr3 * Z * Z * Z => fh_ok a.1.1.1.1); [apply s_getattr|apply s_setattr; auto|apply s_getattr]. Qed.
Lemma s_nfs_lookup r out : S _ (nfs_lookup junk r out).
Proof.
  handler (fun a : Z * bool * string => fh_ok a.1 /\ cstr_below 1025 a.2); [apply s_lookup; auto|apply s_getattr].
Qed.
Lemma s_nfs_access r out : S _ (nfs_access junk r out).
Proof. handler (fun a : Z * bool * Z => fh_ok a.1); apply s_getattr. Qed.
Lemma s_nfs_readlink r out : S _ (nfs_readlink junk r out).
Proof. handler fh_ok; apply s_readlink; auto. Qed.
Lemma s_nfs_read r out : S _ (nfs_read junk r out).
Proof.
  handler (fun a : Z * bool * Z * Z => fh_ok a.1.1 /\ 0 <= a.2); apply s_read; auto.
  cbn in *. unfold MOUNTD_MAX_IO_SIZE in *. case_match; lia.
Qed.
Lemma s_nfs_write r out : S _ (nfs_write junk writeverf r out).
Proof.
  handler (fun a : Z * bool * Z * Z * Z * list byte => fh_ok a.1.1.1.1 /\ zlen a.2 <= MOUNTD_MAX_IO_SIZE).
  apply s_write; [auto|]. unfold ztake. cbn in *. unfold zlen in *. rewrite length_take. lia.
Qed.
Lemma s_nfs_create r out : S _ (nfs_create junk r out).
Proof.
  handler (fun a : Z * bool * string * Z * option SAttr3 => fh_ok a.1.1.1 /\ cstr_below 1025 a.1.1.2).
  apply s_create; auto.
Qed.
Lemma s_nfs_mkdir r out : S _ (nfs_mkdir junk r out).
Proof. handler (fun a : Z * bool * string * SAttr3 => fh_ok a.1.1 /\ cstr_below 1025 a.1.2). apply s_mkdir; auto. Qed.
Lemma s_nfs_symlink r out : S _ (nfs_symlink junk r out).
Proof.
  handler (fun a : Z * bool * string * SAttr3 * string =>
    fh_ok a.1.1.1 /\ cstr_below 1025 a.1.1.2 /\ cstr_below PATH_MAX a.2). apply s_symlink; auto.
Qed.
Lemma s_nfs_mknod r out : S _ (nfs_mknod junk r out).
Proof. handler fh_ok. apply s_getattr. Qed.
Lemma s_nfs_remove r out : S _ (nfs_remove junk r out).
Proof. handler (fun a : Z * bool * string => fh_ok a.1 /\ cstr_below 1025 a.2). apply s_remove; auto. Qed.
Lemma s_nfs_rmdir r out : S _ (nfs_rmdir junk r out).
Proof. handler (fun a : Z * bool * string => fh_ok a.1 /\ cstr_below 1025 a.2). apply s_rmdir; auto. Qed.
Lemma s_nfs_rename r out : S _ (nfs_rename junk r out).
Proof.
  handler (fun a : Z * bool * string * (Z * bool) * string =>
    fh_ok a.1.1.1 /\ cstr_below 1025 a.1.1.2 /\ fh_ok a.1.2 /\ cstr_below 1025 a.2).
  match goal with H : _ || _ = false |- _ => apply orb_false_iff in H as [? ?] end. apply s_rename; auto.
Qed.
Lemma s_nfs_link r out : S _ (nfs_link junk r out).
Proof.
  handler (fun a : Z * bool * (Z * bool) * string => fh_ok a.1.1 /\ fh_ok a.1.2 /\ cstr_below 1025 a.2).
  match goal with H : _ || _ = false |- _ => apply orb_false_iff in H as [? ?] end. apply s_link; auto.
Qed.
Lemma s_nfs_readdir r out : S _ (nfs_readdir junk r out).
Proof. handler (fun a : Z * bool * Z * Z => fh_ok a.1.1). apply s_readdir; auto. Qed.
Lemma s_readdirplus_loop l idx em st mx out : S _ (readdirplus_loop junk l idx em st mx out).
Proof.
  revert idx em out; induction l as [|[fileid name] l IH]; intros; cbn [readdirplus_loop]; sat_tac; auto.
  apply s_getattr.
Qed.
Lemma s_nfs_readdirplus r out : S _ (nfs_readdirplus junk r out).
Proof.
  handler (fun a : Z * bool * Z * Z => fh_ok a.1.1); [apply s_readdir; auto|apply s_readdirplus_loop].
Qed.
Lemma s_nfs_fsstat r out : S _ (nfs_fsstat junk r out).
Proof. handler fh_ok. apply s_fsstat; auto. Qed.
Lemma s_nfs_constants put r out : S _ (nfs_constants junk put r out).
Proof. handler fh_ok. apply s_getattr. Qed.
Lemma s_nfs_commit r out : S _ (nfs_commit junk writeverf r out).
Proof. handler fh_ok. apply s_commit; auto. Qed.

Lemma s_nfs_proc proc r out : S _ (handle_nfs_proc junk writeverf proc r out).
Proof.
  unfold handle_nfs_proc, nfs_fsinfo, nfs_pathconf. repeat case_match; auto using s_nfs_getattr, s_nfs_setattr, s_nfs_lookup, s_nfs_access,
    s_nfs_readlink, s_nfs_read, s_nfs_write, s_nfs_create, s_nfs_mkdir, s_nfs_symlink, s_nfs_mknod, s_nfs_remove,
    s_nfs_rmdir, s_nfs_rename, s_nfs_link, s_nfs_readdir, s_nfs_readdirplus, s_nfs_fsstat, s_nfs_constants,
    s_nfs_commit, s_reply; apply l_ret.
Qed.
Lemma s_mount_proc proc r out : S _ (handle_mount_proc proc r out).
Proof.
  unfold handle_mount_proc. repeat case_match; try apply s_reply; try apply l_ret.
  all: try (eapply (s_args (fun _ => True)); [apply rends_any|]; intros); sat_tac; apply s_sync.
Qed.

(** The handlers keep to the contract of the file system. *)
Lemma s_dispatch msg out : S _ (dispatch_rpc_call junk writeverf msg out).
Proof.
  unfold dispatch_rpc_call. repeat (case_match; try apply l_ret); apply l_seq; try (intros; repeat case_match; apply l_ret).
  - apply s_mount_proc.
  - apply s_nfs_proc.
Qed.
End Client.

(** * Replies *)
Section Replies.
Context {fs : Backend}.
Variables (junk : NfsAttr) (writeverf : list byte).

(** A procedure that ran returns 0 and extends the reply; one that did not run
    made no call. *)
Definition answers (h : Handler) : Prop := forall r out c t c' hrc out',
  mexec (h r out) c t c' (hrc, out') ->
  (hrc = 0 /\ grows out out') \/ ((hrc = -1 \/ hrc = -2) /\ t = [] /\ c' = c /\ out' = out).
Definition extends (out : XdrBuf) (r : Z * XdrBuf) : Prop := r.1 = 0 /\ grows out r.2.

Lemma answers_args {A} (args : R A) k : (forall a out, mends (extends out) (k a out)) -> answers (with_args args k).
Proof.
  intros Hk r out c t c' hrc out'. unfold with_args. destruct (args r) as [[a|] r']; cbn.
  - intros H. left. exact (Hk a out c t c' _ H).
  - intros (-> & -> & [= -> ->])%mexec_ret. right. auto.
Qed.
Lemma extends_reply out b : grows out b -> mends (extends out) (reply b).
Proof. intros H. by apply mends_ret. Qed.
Lemma answers_ends (h : Handler) : (forall r out, mends (extends out) (h r out)) -> answers h.
Proof. intros Hh r out c t c' hrc out' H. left. exact (Hh r out c t c' _ H). Qed.
Lemma answers_none : answers (fun r out => mret (-2, out)).
Proof. intros r out c t c' hrc out' (-> & -> & [= -> ->])%mexec_ret. right. auto. Qed.

Lemma grows_put_dir d a b : grows a b -> grows a (put_dir junk d b).
Proof. intros. unfold put_dir. auto with xdr. Qed.
Hint Resolve grows_put_dir : xdr.
Lemma grows_put_new st ch t d a b : grows a b -> grows a (put_new junk st ch t d b).
Proof. intros. unfold put_new. cbv zeta. auto 10 with xdr. Qed.
Hint Resolve grows_put_new : xdr.
Lemma grows_readdir_loop l idx em st mx a b : grows a b -> grows a (readdir_loop l idx em st mx b).2.
Proof.
  revert idx em b; induction l as [|[fileid name] l IH]; intros idx em b H; cbn [readdir_loop]; [done|].
  case_match; [done|]. apply IH. auto 10 with xdr.
Qed.
Lemma grows_readdirplus_loop l idx em st mx a b :
  grows a b -> mends (fun r => grows a r.2) (readdirplus_loop junk l idx em st mx b).
Proof.
  revert idx em b; induction l as [|[fileid name] l IH]; intros idx em b H; cbn [readdirplus_loop]; [by apply mends_ret|].
  case_match; [by apply mends_ret|]. apply mends_any. intros [st' at']. apply IH. auto 10 with xdr.
Qed.

Ltac split_pairs := repeat match goal with p : (_ * _)%type |- _ => destruct p end.
Ltac reply_step :=
  match goal with
  | |- answers (with_args _ _) => apply answers_args; intros; split_pairs
  | |- answers (fun r out => mret (-2, out)) => apply answers_none
  | |- answers (fun r out => _) => apply answers_ends; intros
  | |- mends _ (bad_attr _) => apply extends_reply; solve [auto 20 with xdr]
  | |- mends _ (bad_wcc _) => apply extends_reply; solve [auto 20 with xdr]
  | |- mends _ (reply _) => apply extends_reply; solve [auto 30 with xdr]
  | |- mends (extends ?o) (mbind (readdirplus_loop _ _ _ _ _ _ _) _) =>
      eapply mends_bind; [apply (grows_readdirplus_loop _ _ _ _ _ o); solve [auto 20 with xdr]|intros [? ?] ?]
  | |- mends _ (mbind _ _) => apply mends_any; intros
  | |- mends (extends ?o) (match readdir_loop ?l ?i ?e ?s ?m ?b with _ => _ end) =>
      let H := fresh in
      assert (grows o (readdir_loop l i e s m b).2) as H by (apply grows_readdir_loop; auto 20 with xdr);
      destruct (readdir_loop l i e s m b); cbn in H
  | |- mends _ (match ?x with _ => _ end) => destruct x
  end.
Ltac reply_tac := repeat (cbv beta iota zeta; reply_step).

Lemma nfs_proc_answers proc : answers (handle_nfs_proc junk writeverf proc).
Proof.
  unfold handle_nfs_proc. repeat case_match.
  all: try (unfold nfs_getattr, nfs_setattr, nfs_lookup, nfs_access, nfs_readlink, nfs_read, nfs_write, nfs_create,
    nfs_mkdir, nfs_symlink, nfs_mknod, nfs_remove, nfs_rmdir, nfs_rename, nfs_link, nfs_readdir, nfs_readdirplus,
    nfs_fsstat, nfs_fsinfo, nfs_pathconf, nfs_constants, nfs_commit; reply_tac).
Qed.
Lemma mount_proc_answers proc : answers (handle_mount_proc proc).
Proof. unfold handle_mount_proc. repeat case_match; reply_tac. Qed.

(** ** A message and its reply *)
Lemma rpc_head_inv msg xid v r : rpc_head (Reader msg 0 false) = (Some (xid, v), r) ->
  4 <= zlen msg /\ be32 xid = slice 0 4 msg.
Proof.
  unfold rpc_head, rbind at 1. unfold xdr_get_u32 at 1. cbn [r_err r_data r_pos orb].
  destruct (Z.ltb_spec (zlen msg) (0 + 4)) as [Hs|Hs].
  - unfold rbind, xdr_get_u32, rguard, r_fail. cbn. done.
  - intros H. split; [lia|]. assert (xid = be (slice 0 4 msg)) as ->.
    { revert H. unfold rbind. destruct (xdr_get_u32 _) as [[]]; [|done]. destruct (rguard _ _) as [[]]; [|done].
      destruct (xdr_get_u32 _) as [[]]; [|done]. destruct (rcheck _) as [[]]; [|done]. cbn. by intros [= ->]. }
    apply be32_be. rewrite zlen_slice; lia.
Qed.

(** the fixed part of a reply *)
Definition accepted (xid : Z) : list byte := be32 xid ++ be32 RPC_REPLY ++ be32 RPC_MSG_ACCEPTED ++ be32 AUTH_NONE ++ be32 0.
Definition denied (xid : Z) : list byte := be32 xid ++ be32 RPC_REPLY ++ be32 RPC_MSG_DENIED.
Lemma grows_put v a b : grows a b -> grows a (xdr_put_u32 v b).
Proof. auto with xdr. Qed.

(** What a dispatched message can come to. *)
Lemma dispatch_cases msg c t c' b :
  mexec (dispatch_rpc_call junk writeverf msg empty_buf) c t c' (Some b) ->
  buf_ok b /\ 4 <= zlen msg /\ exists xid tail, be32 xid = slice 0 4 msg /\
    ((b_data b = denied xid ++ tail /\ 12 <= zlen tail /\ t = [] /\ c' = c) \/
     exists st, b_data b = accepted xid ++ be32 st ++ tail /\ 0 <= st < 5 /\ (st = 0 \/ t = [] /\ c' = c)).
Proof.
  unfold dispatch_rpc_call. destruct (rpc_head _) as [[[xid v]|] r] eqn:Eh; [|by intros (_ & _ & ?)%mexec_ret].
  apply rpc_head_inv in Eh as [Hlen Hxid].
  assert (Hok : buf_ok empty_buf) by done.
  assert (Hfin : forall b1 b2, grows b1 b2 -> buf_ok b1 -> buf_ok b2) by (intros ? ? [_ ?]; auto).
  destruct (negb (v =? _)).
  { intros (-> & -> & [= ->])%mexec_ret. split; [eapply Hfin; [|exact Hok]; auto 20 with xdr|]. split; [done|].
    eexists xid, _. split; [done|]. left. split; [reflexivity|done]. }
  destruct (rpc_body r) as [[[[prog vers] proc]|] r']; [|by intros (_ & _ & ?)%mexec_ret].
  set (b0 := xdr_put_u32 0 _).
  assert (H0 : buf_ok b0) by (eapply Hfin; [|exact Hok]; unfold b0; auto 20 with xdr).
  assert (D0 : b_data b0 = accepted xid) by reflexivity.
  destruct (negb (prog =? _) && _).
  { intros (-> & -> & [= ->])%mexec_ret. split; [eapply Hfin; [|exact H0]; auto 20 with xdr|]. split; [done|].
    eexists xid, []. split; [done|]. right. exists RPC_PROG_UNAVAIL. split; [|split; [done|auto]].
    destruct (puts_u32 RPC_PROG_UNAVAIL b0) as [-> _]. by rewrite D0, app_nil_r. }
  destruct (negb (vers =? _)).
  { intros (-> & -> & [= ->])%mexec_ret. split; [eapply Hfin; [|exact H0]; auto 20 with xdr|]. split; [done|].
    eexists xid, _. split; [done|]. right. exists RPC_PROG_MISMATCH. split; [|split; [done|auto]].
    rewrite !(proj1 (puts_u32 _ _)), D0, <- !app_assoc. reflexivity. }
  set (b1 := xdr_put_u32 RPC_SUCCESS b0).
  intros (t1 & c1 & [hrc out] & t2 & -> & H1 & (-> & -> & [= ->])%mexec_ret)%mexec_bind.
  assert (Hans : (hrc = 0 /\ grows b1 out) \/ ((hrc = -1 \/ hrc = -2) /\ t1 = [] /\ c1 = c /\ out = b1)).
  { destruct (prog =? MOUNT_PROGRAM); [by eapply mount_proc_answers|by eapply nfs_proc_answers]. }
  assert (H1ok : buf_ok b1) by (eapply Hfin; [|exact H0]; unfold b1; auto with xdr).
  destruct Hans as [[-> Hg]|(Hrc & -> & -> & ->)].
  - cbn. split; [by eapply Hfin|]. split; [done|]. destruct Hg as [[l Hl] _]. exists xid, l. split; [done|]. right.
    exists RPC_SUCCESS. split; [|split; [done|by left]]. rewrite Hl. unfold b1.
    rewrite (proj1 (puts_u32 _ _)), D0, <- app_assoc. done.
  - assert (Htr : b_data (b_truncate (b_len b0) b1) = accepted xid) by reflexivity.
    assert (Hok2 : buf_ok (b_truncate (b_len b0) b1)).
    { destruct H0 as [Hc _]. split; [|reflexivity]. transitivity (b_cap b0); [|apply (Z.le_trans _ (b_cap b0))]; done. }
    assert (Hst : forall st, 0 <= st < 5 -> buf_ok (xdr_put_u32 st (b_truncate (b_len b0) b1)) /\
      b_data (xdr_put_u32 st (b_truncate (b_len b0) b1)) = accepted xid ++ be32 st ++ []).
    { intros st Hst. split; [eapply Hfin; [|exact Hok2]; auto with xdr|].
      rewrite (proj1 (puts_u32 _ _)), Htr. by rewrite app_nil_r. }
    destruct Hrc as [-> | ->]; cbn [Z.eqb Pos.eqb Z.opp].
    + destruct (Hst RPC_GARBAGE_ARGS ltac:(done)) as [Ha Hb]. split; [done|]. split; [done|].
      exists xid, []. split; [done|]. right. exists RPC_GARBAGE_ARGS. split; [done|]. split; [done|auto].
    + destruct (Hst RPC_PROC_UNAVAIL ltac:(done)) as [Ha Hb]. split; [done|]. split; [done|].
      exists xid, []. split; [done|]. right. exists RPC_PROC_UNAVAIL. split; [done|]. split; [done|auto].
Qed.

(** the [i]-th word of a reply *)
Definition word (i : Z) (b : XdrBuf) : Z := be (slice (4 * i) 4 (b_data b)).

(** C30: Every reply is well formed: it answers the call it was made for (the
    transaction id is the call's), it is a REPLY that was accepted or denied
    with a status, it is a whole number of XDR units, and it was written inside
    the memory that was reserved for it. Whatever the message, the file system
    and its answers. *)
Theorem dispatch_reply_wf msg :
  mends (fun r => match r with
    | Some b => buf_ok b /\ 24 <= b_len b /\ slice 0 4 (b_data b) = slice 0 4 msg /\
                word 1 b = RPC_REPLY /\ (word 2 b = RPC_MSG_ACCEPTED \/ word 2 b = RPC_MSG_DENIED)
    | None => True
    end) (dispatch_rpc_call junk writeverf msg empty_buf).
Proof.
  intros c t c' [b|] H; [|done]. apply dispatch_cases in H as (Hok & _ & xid & tail & <- & H).
  unfold word, b_len. destruct H as [(-> & Hz & _)|(st & -> & _)]; (split; [done|]); pose proof (zlen_nonneg tail).
  - split; [unfold denied; rewrite !zlen_app; change (zlen (be32 _)) with 4; lia|]. repeat split. by right.
  - split; [unfold accepted; rewrite !zlen_app; change (zlen (be32 _)) with 4; lia|]. repeat split. by left.
Qed.

(** A call that is rejected, because its RPC version, program, program
    version or procedure is unknown or its arguments do not decode, does
    nothing: no call to the file system is made and no state changes. *)
Theorem rejected_call_inert msg c t c' b :
  mexec (dispatch_rpc_call junk writeverf msg empty_buf) c t c' (Some b) ->
  word 2 b = RPC_MSG_DENIED \/ word 5 b <> RPC_SUCCESS -> t = [] /\ c' = c.
Proof.
  intros (_ & _ & xid & tail & _ & H)%dispatch_cases Hw. unfold word in Hw.
  destruct H as [(_ & _ & H)|(st & Hb & Hst & H)]; [done|]. rewrite Hb in Hw. destruct H as [->|H]; [|done].
  destruct Hw as [Hw|Hw]; [discriminate Hw|]. by destruct Hw.
Qed.
End Replies.

(** * Listing a directory *)

(** A client: it reads a page, and as long as the page is not the last asks for
    the next with the cookie of the last entry it got. *)
Definition fixed_reply_attr : R unit :=
  let* present := xdr_get_u32 in
  if present =? 0 then rret tt else let* _ := xdr_get_fixed 84 in rret tt.
Fixpoint get_entries (fuel : nat) : R (list (Z * string * Z) * bool) :=
  match fuel with
  | O => fun r => (None, r)
  | S f =>
      let* more := xdr_get_u32 in
      if more =? 0 then let* eof := xdr_get_u32 in rret ([], negb (eof =? 0))
      else
        let* id := xdr_get_u64 in let* name := xdr_get_str 1025 in let* cookie := xdr_get_u64 in
        let* rest := get_entries f in rret ((id, name, cookie) :: rest.1, rest.2)
  end.
Definition get_page (fuel : nat) : R (list (Z * string * Z) * bool) :=
  let* st := xdr_get_u32 in let* _ := rguard (negb (st =? NFS3_OK)) in
  let* _ := fixed_reply_attr in let* _ := xdr_get_fixed 8 in get_entries fuel.
Definition readdir_args (dir cookie count : Z) : list byte :=
  enc_opaque (be64 dir) ++ be64 cookie ++ enc_fixed zeros8 ++ be32 count.

Section Listing.
Context {fs : Backend}.
Variables (junk : NfsAttr) (writeverf : list byte).
Variables (W : Type) (h : handler W).
(** the directory, and the size of the pages the client asks for *)
Variables (dir count : Z).

Fixpoint client_readdir (fuel : nat) (cookie : Z) (c : ParentCache) (w : W) : option DirEntryList :=
  match fuel with
  | O => None
  | S f =>
      match mrun h (handle_nfs_proc junk writeverf 16 (Reader (readdir_args dir cookie count) 0 false) empty_buf) c w with
      | (Some (c', (0, b)), _, w') =>
          match (get_page (S (length (b_data b))) (Reader (b_data b) 0 false)).1 with
          | Some (es, eof) =>
              let got := map fst es in
              if eof : bool then Some got
              else match list.last es with
                   | Some (_, cookie') => app got <$> client_readdir f cookie' c' w'
                   | None => None
                   end
          | None => None
          end
      | _ => None
      end
  end.

Definition enc_entry (idx : Z) (e : Z * string) : list byte :=
  be32 1 ++ be64 e.1 ++ enc_opaque (bytes_of_string e.2) ++ be64 (idx + 1).
Fixpoint enc_entries (idx : Z) (l : DirEntryList) : list byte :=
  match l with [] => [] | e :: t => enc_entry idx e ++ enc_entries (idx + 1) t end.
Fixpoint numbered (idx : Z) (l : DirEntryList) : list (Z * string * Z) :=
  match l with [] => [] | e :: t => (e, idx + 1) :: numbered (idx + 1) t end.
Definition entry_ok (e : Z * string) : Prop := 0 <= e.1 < 2 ^ 64 /\ cstr_below 1025 e.2.

Lemma reads_entries fuel idx l eof : Forall entry_ok l -> 0 <= idx -> idx + zlen l < 2 ^ 64 -> (length l < fuel)%nat ->
  reads (get_entries fuel) (enc_entries idx l ++ be32 0 ++ be32 (if eof : bool then 1 else 0)) (numbered idx l, eof).
Proof.
  revert fuel idx; induction l as [|[id name] l IH]; intros fuel idx Hl Hi Hz Hf; (destruct fuel as [|fuel]; [cbn in Hf; lia|]);
    cbn [get_entries enc_entries numbered app].
  - eapply reads_bind; [by apply reads_u32|]. cbn [Z.eqb].
    eapply reads_last; [apply reads_u32; by destruct eof|]. destruct eof; apply reads_ret.
  - apply list.Forall_cons in Hl as [[Hid [Hn Hs]] Hl]. rewrite zlen_cons in Hz. pose proof (zlen_nonneg l).
    unfold enc_entry. rewrite <- !app_assoc.
    eapply reads_bind; [by apply reads_u32|]. cbn [Z.eqb Pos.eqb].
    eapply reads_bind; [by apply reads_u64|]. cbn [fst snd] in *.
    eapply reads_bind; [apply reads_str; [done|lia]|].
    eapply reads_bind; [apply reads_u64; lia|].
    eapply reads_last; [apply IH; [done|lia|lia|cbn in Hf; lia]|]. apply reads_ret.
Qed.

Lemma reads_whole {A} (m : R A) l a : reads m l a -> zlen l < 2 ^ 64 -> (m (Reader l 0 false)).1 = Some a.
Proof.
  intros H Hl. specialize (H [] []). cbn [app] in H. rewrite app_nil_r, zlen_nil in H. by rewrite H.
Qed.
Lemma numbered_fst idx l : map fst (numbered idx l) = l.
Proof. revert idx; induction l as [|e l IH]; intros idx; cbn; [done|]. by rewrite IH. Qed.
Lemma numbered_last idx l : l <> [] ->
  exists e, list.last (numbered idx l) = Some (e, idx + zlen l).
Proof.
  revert idx; induction l as [|e l IH]; intros idx Hl; [done|]. rewrite zlen_cons. cbn [numbered].
  destruct l as [|e' l]; [exists e; by rewrite zlen_nil|].
  destruct (IH (idx + 1)) as [e2 H]; [done|]. exists e2.
  transitivity (list.last (numbered (idx + 1) (e' :: l))); [reflexivity|]. rewrite H. do 2 f_equal. lia.
Qed.

Lemma readdir_loop_spec l idx em st mx out : 0 <= em -> exists n, 0 <= n <= zlen l /\
  (em = 0 -> l <> [] -> 1 <= n) /\ (readdir_loop l idx em st mx out).1 = idx + n /\
  b_data (readdir_loop l idx em st mx out).2 = b_data out ++ enc_entries idx (ztake n l).
Proof.
  revert idx em out; induction l as [|[id name] l IH]; intros idx em out Hem; cbn [readdir_loop].
  - exists 0. change (zlen (@nil (Z * string))) with 0. cbn [fst snd]. split_and!; try lia; [done|]. by rewrite app_nil_r.
  - rewrite zlen_cons. pose proof (zlen_nonneg l). destruct ((0 <? em) && _) eqn:E.
    + exists 0. apply andb_true_iff in E as [E%Z.ltb_lt _]. cbn [fst snd]. split_and!; try lia; []. by rewrite app_nil_r.
    + edestruct (IH (idx + 1) (em + 1)) as (n & Hn & _ & -> & ->); [lia|]. exists (n + 1).
      split_and!; try lia. unfold ztake. replace (Z.to_nat (n + 1)) with (S (Z.to_nat n)) by lia. cbn [take enc_entries].
      unfold enc_entry. rewrite (proj1 (puts_u64 _ _)), (proj1 (puts_str _ _)), (proj1 (puts_u64 _ _)), (proj1 (puts_u32 _ _)).
      by rewrite <- !app_assoc.
Qed.

Lemma zlen_enc_entries idx l : Forall entry_ok l -> zlen (enc_entries idx l) <= 1100 * zlen l.
Proof.
  intros Hl. revert idx; induction Hl as [|[id name] l [_ [_ Hs]] Hl IH]; intros idx; cbn [enc_entries]; [done|].
  rewrite zlen_cons, zlen_app. specialize (IH (idx + 1)). cbn [snd] in Hs.
  assert (zlen (enc_entry idx (id, name)) <= 1100); [|lia].
  unfold enc_entry, enc_opaque. rewrite !zlen_app, zlen_enc_fixed, zlen_bytes_of_string. cbn [fst snd].
  change (zlen (be64 _)) with 8. change (zlen (be32 _)) with 4. pose proof (pad4_range (strlen name)). lia.
Qed.

Lemma length_enc_entries idx l : (length l <= length (enc_entries idx l))%nat.
Proof.
  revert idx; induction l as [|e l IH]; intros idx; cbn [enc_entries]; [done|].
  rewrite length_app. specialize (IH (idx + 1)). cbn. lia.
Qed.

Lemma puts_fattr3 a : exists l, zlen l = 84 /\ puts (xdr_put_fattr3 a) l.
Proof.
  eexists. split; [|intros b; split; [|intros Hb; by apply (grows_fattr3 a b b)]].
  2: { unfold xdr_put_fattr3. rewrite !(proj1 (puts_u32 _ _)), !(proj1 (puts_u64 _ _)), !(proj1 (puts_u32 _ _)),
         !(proj1 (puts_u64 _ _)), !(proj1 (puts_u32 _ _)). rewrite <- !app_assoc. reflexivity. }
  reflexivity.
Qed.
Lemma puts_post_op_attr ok a : exists l, zlen l <= 88 /\ puts (xdr_put_post_op_attr ok (Some a)) l /\ reads fixed_reply_attr l tt.
Proof.
  destruct ok.
  - destruct (puts_fattr3 a) as (l & Hl & Hp). exists (be32 1 ++ l).
    split; [rewrite zlen_app, Hl; done|]. split; [apply (puts_comp (xdr_put_u32 1) (xdr_put_fattr3 a)); [apply puts_u32|done]|].
    eapply reads_bind; [by apply reads_u32|]. cbn [Z.eqb]. eapply reads_last; [|apply reads_ret].
    pose proof (reads_fixed l) as Hf. unfold enc_fixed in Hf. rewrite Hl in Hf. by rewrite app_nil_r in Hf.
  - exists (be32 0). split; [done|]. split; [apply puts_u32|].
    eapply reads_last; [by apply reads_u32|]. apply reads_ret.
Qed.

Variables (l : DirEntryList) (a : option NfsAttr) (ok : bool).
Hypothesis dir_ok : ino_ok dir.
Hypothesis count_ok : 128 <= count < 2 ^ 32.
Hypothesis entries_ok : Forall entry_ok l.
Hypothesis few : zlen l < 2 ^ 40.
(** the directory stays as it is while it is listed *)
Hypothesis listing : forall c w, exists c' t w', mrun h (fs_readdir dir) c w = (Some (c', (NFS3_OK, l, a, ok)), t, w').

(** one page: some entries from the cookie on, at least one while there are any *)
Lemma readdir_page cookie c w : 0 <= cookie <= zlen l ->
  exists c' t w' b n,
    mrun h (handle_nfs_proc junk writeverf 16 (Reader (readdir_args dir cookie count) 0 false) empty_buf) c w
    = (Some (c', (0, b)), t, w') /\
    0 <= n <= zlen l - cookie /\ (cookie < zlen l -> 1 <= n) /\
    (get_page (S (length (b_data b))) (Reader (b_data b) 0 false)).1
    = Some (numbered cookie (ztake n (zdrop cookie l)), zlen l <=? cookie + n).
Proof.
  intros Hc. destruct (listing c w) as (c' & t & w' & Hl).
  pose proof (zlen_nonneg l) as Hl0. destruct dir_ok as [Hd0 Hd1].
  assert (Hargs : reads (let* fh := xdr_get_fh in let* cookie := xdr_get_u64 in let* _ := xdr_get_fixed 8 in
             let* max_bytes := xdr_get_u32 in let* _ := rcheck in rret (fh, cookie, max_bytes))
             (readdir_args dir cookie count) ((dir, false), cookie, count)).
  { unfold readdir_args. eapply reads_bind; [apply reads_fh; lia|]. eapply reads_bind; [apply reads_u64; lia|].
    eapply reads_bind; [apply (reads_fixed zeros8)|]. eapply reads_last; [apply reads_u32; lia|].
    eapply reads_last; [apply reads_check|]. replace (dir =? 0) with false by lia. apply reads_ret. }
  change (handle_nfs_proc junk writeverf 16) with (nfs_readdir junk). unfold nfs_readdir, with_args.
  rewrite (reads_whole _ _ _ Hargs) by reflexivity.
  rewrite mrun_bind, Hl. cbn [negb Z.eqb NFS3_OK]. destruct (Z.ltb_spec count 128); [lia|].
  set (b0 := xdr_put_fixed zeros8 _). unfold start_index.
  replace (if cookie <? zlen l then cookie else zlen l) with cookie by (destruct (Z.ltb_spec cookie (zlen l)); lia).
  destruct (readdir_loop_spec (zdrop cookie l) cookie 0 (b_len empty_buf) count b0) as (n & Hn & Hn1 & E1 & E2); [done|].
  rewrite zlen_zdrop in Hn by lia.
  destruct (readdir_loop (zdrop cookie l) cookie 0 _ count b0) as [idx b]. cbn [fst snd] in E1, E2. subst idx.
  eexists c', _, w', _, n. split; [reflexivity|]. split; [lia|].
  split. { intros Hlt. apply Hn1; [done|]. intros E. apply (f_equal zlen) in E. rewrite zlen_zdrop in E by lia.
           change (zlen (@nil (Z * string))) with 0 in E. lia. }
  destruct (puts_post_op_attr ok (default junk a)) as (pa & Hpa & Hput & Hread).
  assert (D : b_data b0 = be32 0 ++ pa ++ zeros8).
  { unfold b0, addr. rewrite (proj1 (puts_fixed _ _)), (proj1 (Hput _)), (proj1 (puts_u32 _ _)). cbn [empty_buf b_data app].
    by rewrite <- app_assoc. }
  rewrite !(proj1 (puts_u32 _ _)), E2, D.
  set (es := ztake n (zdrop cookie l)).
  assert (Hes : Forall entry_ok es) by (apply Forall_take, Forall_drop, entries_ok).
  assert (Hzes : zlen es = n) by (unfold es; rewrite zlen_ztake, zlen_zdrop by lia; lia).
  pose proof (zlen_enc_entries cookie es Hes) as Hsz.
  replace (if zlen l <=? cookie + n then 1 else 0) with (if (zlen l <=? cookie + n) : bool then 1 else 0) by done.
  rewrite <- !app_assoc. eapply reads_whole.
  - unfold get_page. eapply reads_bind; [by apply reads_u32|].
    eapply (reads_bind _ _ []); [by apply reads_guard|].
    eapply reads_bind; [exact Hread|]. eapply reads_bind; [apply (reads_fixed zeros8)|].
    apply reads_entries; [done|lia|lia|]. rewrite !length_app.
    pose proof (length_enc_entries cookie es). lia.
  - rewrite !zlen_app. change (zlen (be32 _)) with 4. change (zlen zeros8) with 8. lia.
Qed.

(** C26: A client that reads a directory page by page, starting at cookie 0 and
    following the cookie of the last entry it got until the server says there
    are no more, ends, and has then seen every entry exactly once, in order,
    with its inode number, however small the pages it asks for (from 128 bytes)
    and however long the names. *)
Theorem readdir_complete c w fuel : (length l < fuel)%nat -> client_readdir fuel 0 c w = Some l.
Proof.
  intros Hf. assert (H : forall f k c w, 0 <= k <= zlen l -> (Z.to_nat (zlen l - k) < f)%nat ->
    client_readdir f k c w = Some (zdrop k l)).
  { clear c w fuel Hf. induction f as [|f IH]; intros k c w Hk Hf; [lia|]. cbn [client_readdir].
    destruct (readdir_page k c w Hk) as (c' & t & w' & b & n & -> & Hn & Hn1 & ->).
    rewrite numbered_fst. destruct (Z.leb_spec (zlen l) (k + n)).
    { f_equal. apply ztake_all. rewrite zlen_zdrop; lia. }
    destruct (numbered_last k (ztake n (zdrop k l))) as [[id name] ->].
    { intros E. apply (f_equal zlen) in E. rewrite zlen_ztake, zlen_zdrop in E by lia.
      change (zlen (@nil (Z * string))) with 0 in E. lia. }
    rewrite zlen_ztake, zlen_zdrop by lia. replace (k + Z.min n (Z.max 0 (zlen l - k))) with (k + n) by lia.
    rewrite IH by lia. cbn. f_equal. rewrite <- (ztake_zdrop n (zdrop k l)) at 2. f_equal.
    by rewrite zdrop_zdrop by lia. }
  rewrite H; [done|pose proof (zlen_nonneg l); lia|]. unfold zlen. lia.
Qed.
End Listing.

(** A file system that holds one directory, for the witnesses. *)
Definition no_attr : NfsAttr := Attr 0 0 0 0 0 0 0 0 0 0 0 0 0 0 0 0 0.
Definition no_dir : DirOut := Dout zero_wcc None false.
Definition one_dir (l : DirEntryList) : Backend := {|
  fs_root_ino := 2; fs_sync_all := mret tt;
  fs_getattr _ := mret (NFS3ERR_IO, None); fs_setattr _ _ := mret (NFS3ERR_IO, None);
  fs_lookup _ _ := mret (NFS3ERR_IO, 0, None); fs_readlink _ _ := mret (NFS3ERR_IO, "", None, false);
  fs_read _ _ _ := mret (NFS3ERR_IO, [], false, None, false); fs_write _ _ _ _ := mret (NFS3ERR_IO, 0, 0, no_dir);
  fs_create _ _ _ _ := mret (NFS3ERR_IO, 0, None, no_dir); fs_mkdir _ _ _ := mret (NFS3ERR_IO, 0, None, no_dir);
  fs_symlink _ _ _ _ := mret (NFS3ERR_IO, 0, None, no_dir); fs_remove _ _ := mret (NFS3ERR_IO, no_dir);
  fs_rmdir _ _ := mret (NFS3ERR_IO, no_dir); fs_rename _ _ _ _ := mret (NFS3ERR_IO, no_dir, no_dir);
  fs_link _ _ _ := mret (NFS3ERR_IO, None, false, no_dir);
  fs_readdir _ := mret (NFS3_OK, l, Some no_attr, true);
  fs_fsstat _ := mret (NFS3ERR_IO, Fsstat 0 0 0 0 0 0, None, false); fs_commit _ := mret (NFS3ERR_IO, no_dir) |}.

(** three pages of 128 bytes *)
Lemma readdir_complete_witness :
  @client_readdir (one_dir [(2, "."); (2, ".."); (12, "lost+found"); (13, "notes")]) no_attr [] unit
    (fun X e w => (default_answer e, w)) 2 128 5 0 ∅ tt = Some [(2, "."); (2, ".."); (12, "lost+found"); (13, "notes")].
Proof.
  refine (@readdir_complete (one_dir [(2, "."); (2, ".."); (12, "lost+found"); (13, "notes")]) no_attr [] unit
    (fun X e w => (default_answer e, w)) 2 128 [(2, "."); (2, ".."); (12, "lost+found"); (13, "notes")]
    (Some no_attr) true _ _ _ _ _ ∅ tt 5 _).
  - vm_compute; split; congruence.
  - vm_compute; split; congruence.
  - repeat constructor; vm_compute; congruence.
  - vm_compute; congruence.
  - intros c w. exists c, [], w. reflexivity.
  - cbn. lia.
Defined.

(** a GETATTR whose handle is cut short *)
Definition short_getattr : list byte :=
  be32 7 ++ be32 RPC_CALL ++ be32 2 ++ be32 NFS_PROGRAM ++ be32 NFS_V3 ++ be32 1 ++ be32 0 ++ be32 0 ++ be32 0 ++ be32 0
  ++ be32 8 ++ be32 0.
Lemma rejected_call_inert_witness : exists c' t b,
  mexec (@dispatch_rpc_call (one_dir []) no_attr [] short_getattr empty_buf) ∅ t c' (Some b) /\ t = [] /\ c' = ∅.
Proof.
  eexists _, _, _. split; [split; reflexivity|].
  eapply (@rejected_call_inert (one_dir []) no_attr [] short_getattr ∅); [split; reflexivity|].
  right. vm_compute. congruence.
Defined.
