(* ===== verification/Ext2.v ===== *)
(** The ext2/3/4 backend of the mount server (src/macos/src/mountd_nfs.c,
    ext_err_to_nfs3 to ext_op_commit): NFS operations as sequences of libext2fs
    calls.

    A C function that fills output parameters returns them with its status; an
    output it leaves unwritten is None. The casts to the 32-bit ext2_ino_t are
    of numbers that passed ext_read_valid_inode or came from the library. *)
From S2P Require Import Prelude Cstr Ext2fs Sys Xdr Mountd.

Definition ext_err_to_nfs3 (ec : Z) : Z :=
  if ec =? 0 then NFS3_OK
  else if ec =? EXT2_ET_FILE_NOT_FOUND then NFS3ERR_NOENT
  else if ec =? EXT2_ET_FILE_EXISTS then NFS3ERR_EXIST
  else if (ec =? EXT2_ET_DIR_NO_SPACE) || (ec =? EXT2_ET_DIR_NO_SPACE_FOR_CSUM) then NFS3ERR_NOSPC
  else if ec =? EXT2_ET_RO_FILSYS then NFS3ERR_ROFS
  else if ec =? EXT2_ET_INVALID_ARGUMENT then NFS3ERR_INVAL
  else if ec =? EXT2_ET_TOOSMALL then NFS3ERR_TOOSMALL
  else if (0 <? ec) && (ec <? 256) then errno_to_nfs3 ec
  else NFS3ERR_IO.

Definition ext_now_sec : M Z :=
  t <~ mcall Realtime ;; mret (if 0 <? t then t mod 2 ^ 32 else 0).

Definition ext_read_valid_inode (ino : Z) : M (Z * ext2_inode) :=
  n <~ mcall EInodesCount ;;
  if (ino <? EXT2_ROOT_INO) || (n <? ino) then mret (NFS3ERR_STALE, zero_inode)
  else
    used <~ mcall (ETestInodeBitmap ino) ;;
    match used with
    | Some false => mret (NFS3ERR_STALE, zero_inode)
    | _ =>
        '(ec, i) <~ mcall (EReadInode ino) ;;
        if negb (ec =? 0) then mret (ext_err_to_nfs3 ec, i)
        else if i_links_count i =? 0 then mret (NFS3ERR_STALE, i)
        else mret (NFS3_OK, i)
    end.

Section Ext.
(** bounds on the loops that move file contents *)
Variable fuel : nat.
(** g_uid, g_gid, g_fsid *)
Variables g_uid g_gid g_fsid : Z.

Definition ext_type (m : Z) : Z :=
  if LINUX_S_ISDIR m then NF3DIR else if LINUX_S_ISLNK m then NF3LNK
  else if LINUX_S_ISBLK m then NF3BLK else if LINUX_S_ISCHR m then NF3CHR
  else if LINUX_S_ISFIFO m then NF3FIFO else if LINUX_S_ISSOCK m then NF3SOCK else NF3REG.

Definition ext_fill_attr (ino : Z) (i : ext2_inode) : M NfsAttr :=
  let m := i_mode i in
  let type := ext_type m in
  let perm := Z.land m 4095 in
  let perm := if type =? NF3DIR then Z.lor perm 448 else if type =? NF3REG then Z.lor perm 384 else perm in
  let nlink := if i_links_count i =? 0 then 1 else i_links_count i in
  let size := if (type =? NF3DIR) || (type =? NF3LNK) then i_size i else EXT2_I_SIZE i in
  blocks <~ mcall (EStatBlocks i) ;;
  mret (Attr type perm nlink g_uid g_gid size ((blocks * 512) mod 2 ^ 64) 0 0 g_fsid ino
          (i_atime i) 0 (i_mtime i) 0 (i_ctime i) 0).

Definition ext_op_getattr (ino : Z) : M (Z * option NfsAttr) :=
  '(st, i) <~ ext_read_valid_inode ino ;;
  if negb (st =? NFS3_OK) then mret (st, None)
  else a <~ ext_fill_attr ino i ;; mret (NFS3_OK, Some a).

Definition no_space (ec : Z) : bool := (ec =? EXT2_ET_DIR_NO_SPACE) || (ec =? EXT2_ET_DIR_NO_SPACE_FOR_CSUM).
Definition ext_link_with_expand (dir : Z) (name : string) (ino ft : Z) : M Z :=
  ec <~ mcall (ELink dir name ino ft) ;;
  if no_space ec then
    ec <~ mcall (EExpandDir dir) ;;
    if ec =? 0 then mcall (ELink dir name ino ft) else mret ec
  else mret ec.

Definition ext_touch_dir (dir : Z) : M unit :=
  '(ec, din) <~ mcall (EReadInode dir) ;;
  if ec =? 0 then
    now <~ ext_now_sec ;;
    mcall (EWriteInode dir (set_times (i_atime din) now now din)) ~;; mret tt
  else mret tt.

Definition ext_apply_sattr_meta (i : ext2_inode) (s : SAttr3) : M ext2_inode :=
  now <~ ext_now_sec ;;
  let i := if s_set_mode s then
             set_mode (Z.lor (Z.land (i_mode i) LINUX_S_IFMT) (Z.land (s_mode s) 4095) mod 65536) i else i in
  let i := if s_set_uid s then set_uid (s_uid s) i else i in
  let i := if s_set_gid s then set_gid (s_gid s) i else i in
  let i := if s_set_atime s =? SET_TO_SERVER_TIME then set_atime now i
           else if s_set_atime s =? SET_TO_CLIENT_TIME then set_atime (s_atime_sec s) i else i in
  let i := if s_set_mtime s =? SET_TO_SERVER_TIME then set_mtime now i
           else if s_set_mtime s =? SET_TO_CLIENT_TIME then set_mtime (s_mtime_sec s) i else i in
  let touched := s_set_mode s || s_set_uid s || s_set_gid s
    || (s_set_atime s =? SET_TO_SERVER_TIME) || (s_set_atime s =? SET_TO_CLIENT_TIME)
    || (s_set_mtime s =? SET_TO_SERVER_TIME) || (s_set_mtime s =? SET_TO_CLIENT_TIME) in
  mret (if touched then set_ctime now i else i).

(** the truncation of SETATTR: the inode as it is afterwards *)
Definition ext_set_file_size (ino : Z) (i : ext2_inode) (n : Z) : M ((Z * option NfsAttr) + ext2_inode) :=
  if LINUX_S_ISDIR (i_mode i) then mret (inl (NFS3ERR_ISDIR, None))
  else if negb (LINUX_S_ISREG (i_mode i)) then mret (inl (NFS3ERR_INVAL, None))
  else
    '(ec, ef) <~ mcall (EFileOpen ino true) ;;
    if negb (ec =? 0) then mret (inl (ext_err_to_nfs3 ec, None))
    else
      ec <~ mcall (EFileSetSize ef n) ;;
      cec <~ mcall (EFileClose ef) ;;
      if negb (ec =? 0) then mret (inl (ext_err_to_nfs3 ec, None))
      else if negb (cec =? 0) then mret (inl (ext_err_to_nfs3 cec, None))
      else
        '(rec, i) <~ mcall (EReadInode ino) ;;
        if negb (rec =? 0) then mret (inl (NFS3ERR_IO, None))
        else now <~ ext_now_sec ;; mret (inr (set_times (i_atime i) now now i)).

Definition ext_op_setattr (ino : Z) (s : SAttr3) : M (Z * option NfsAttr) :=
  '(st, i) <~ ext_read_valid_inode ino ;;
  if negb (st =? NFS3_OK) then mret (st, None)
  else
    i <~? (if s_set_size s then ext_set_file_size ino i (s_size s) else mret (inr i)) ;;
    i <~ ext_apply_sattr_meta i s ;;
    wec <~ mcall (EWriteInode ino i) ;;
    if negb (wec =? 0) then mret (ext_err_to_nfs3 wec, None)
    else a <~ ext_fill_attr ino i ;; mret (NFS3_OK, Some a).

Definition ext_op_lookup (dir : Z) (name : string) : M (Z * Z * option NfsAttr) :=
  if String.eqb name "" || bool_decide (is_Some (strchr "/" name)) then mret (NFS3ERR_INVAL, 0, None)
  else
    '(st, din) <~ ext_read_valid_inode dir ;;
    if negb (st =? NFS3_OK) then mret (st, 0, None)
    else if negb (LINUX_S_ISDIR (i_mode din)) then mret (NFS3ERR_NOTDIR, 0, None)
    else
      '(ec, cino) <~ mcall (ELookup dir name) ;;
      if negb (ec =? 0) then mret (ext_err_to_nfs3 ec, 0, None)
      else
        '(st, cin) <~ ext_read_valid_inode cino ;;
        if negb (st =? NFS3_OK) then mret (st, 0, None)
        else
          mwhen (negb (String.eqb name ".") && negb (String.eqb name "..")) (mset_parent cino dir) ~;;
          a <~ ext_fill_attr cino cin ;;
          mret (NFS3_OK, cino, Some a).

Definition ext_op_readlink (ino cap : Z) : M (Z * string * option NfsAttr * bool) :=
  '(st, i) <~ ext_read_valid_inode ino ;;
  if negb (st =? NFS3_OK) then mret (st, "", None, false)
  else
    a <~ ext_fill_attr ino i ;;
    if negb (LINUX_S_ISLNK (i_mode i)) then mret (NFS3ERR_INVAL, "", Some a, true)
    else
      let sz := i_size i in
      if cap <=? sz then mret (NFS3ERR_NAMETOOLONG, "", Some a, true)
      else
        fast <~ mcall (EFastSymlink i) ;;
        if fast : bool then
          mret (NFS3_OK, cstr_of_bytes (ztake (Z.min sz 60) (i_block i)), Some a, true)
        else
          '(ec, ef) <~ mcall (EFileOpen ino false) ;;
          if negb (ec =? 0) then mret (ext_err_to_nfs3 ec, "", Some a, true)
          else
            '(ec, data) <~ mcall (EFileRead ef sz) ;;
            mcall (EFileClose ef) ~;;
            if negb (ec =? 0) then mret (ext_err_to_nfs3 ec, "", Some a, true)
            else mret (NFS3_OK, cstr_of_bytes data, Some a, true).

(** the loop of READ: the bytes so far; [inl ec] when a read failed *)
Definition ext_read_loop (ef to_read : Z) : M (Z + list byte) :=
  mloop fuel (fun got =>
    if zlen got <? to_read then
      '(ec, data) <~ mcall (EFileRead ef (to_read - zlen got)) ;;
      if negb (ec =? 0) then mret (inr (inl ec))
      else if zlen data =? 0 then mret (inr (inr got))
      else mret (inl (got ++ data))
    else mret (inr (inr got))) [].

Definition ext_op_read (ino offset count : Z) : M (Z * list byte * bool * option NfsAttr * bool) :=
  '(st, i) <~ ext_read_valid_inode ino ;;
  if negb (st =? NFS3_OK) then mret (st, [], false, None, false)
  else
    a <~ ext_fill_attr ino i ;;
    if LINUX_S_ISDIR (i_mode i) then mret (NFS3ERR_ISDIR, [], false, Some a, true)
    else if negb (LINUX_S_ISREG (i_mode i)) then mret (NFS3ERR_INVAL, [], false, Some a, true)
    else
      let fsize := EXT2_I_SIZE i in
      if (fsize <=? offset) || (count =? 0) then mret (NFS3_OK, [], fsize <=? offset, Some a, true)
      else
        '(ec, ef) <~ mcall (EFileOpen ino false) ;;
        if negb (ec =? 0) then mret (ext_err_to_nfs3 ec, [], false, Some a, true)
        else
          ec <~ mcall (EFileSeek ef offset) ;;
          if negb (ec =? 0) then mcall (EFileClose ef) ~;; mret (ext_err_to_nfs3 ec, [], false, Some a, true)
          else
            let avail := fsize - offset in
            let to_read := if avail <? count then avail else count in
            r <~ ext_read_loop ef to_read ;;
            mcall (EFileClose ef) ~;;
            match r with
            | inl ec => mret (ext_err_to_nfs3 ec, [], false, Some a, true)
            | inr data => mret (NFS3_OK, data, fsize <=? offset + zlen data, Some a, true)
            end.

(** the loop of WRITE: [Some (ec, wr)] when a write failed or wrote nothing *)
Definition ext_write_loop (ef : Z) (buf : list byte) : M (option (Z * Z)) :=
  mloop fuel (fun total =>
    if total <? zlen buf then
      '(ec, wr) <~ mcall (EFileWrite ef (zdrop total buf)) ;;
      if negb (ec =? 0) || (wr =? 0) then mret (inr (Some (ec, wr)))
      else mret (inl (total + wr))
    else mret (inr None)) 0.

Definition ext_op_write (ino offset : Z) (buf : list byte) (stable : Z) : M (Z * Z * Z * DirOut) :=
  '(st, i) <~ ext_read_valid_inode ino ;;
  if negb (st =? NFS3_OK) then mret (st, 0, FILE_SYNC, Dout zero_wcc None false)
  else
    pre_attr <~ ext_fill_attr ino i ;;
    let pre := attr_to_wcc_pre true pre_attr in
    let refused st := mret (st, 0, FILE_SYNC, Dout pre (Some pre_attr) true) in
    let failed st := mret (st, 0, FILE_SYNC, Dout pre None false) in
    if LINUX_S_ISDIR (i_mode i) then refused NFS3ERR_ISDIR
    else if negb (LINUX_S_ISREG (i_mode i)) then refused NFS3ERR_INVAL
    else
      '(ec, ef) <~ mcall (EFileOpen ino true) ;;
      if negb (ec =? 0) then refused (ext_err_to_nfs3 ec)
      else
        ec <~ mcall (EFileSeek ef offset) ;;
        if negb (ec =? 0) then mcall (EFileClose ef) ~;; refused (ext_err_to_nfs3 ec)
        else
          r <~ ext_write_loop ef buf ;;
          match r with
          | Some (ec, wr) =>
              mcall (EFileClose ef) ~;;
              '(rec, i) <~ mcall (EReadInode ino) ;;
              d <~ (if rec =? 0 then a <~ ext_fill_attr ino i ;; mret (Dout pre (Some a) true)
                    else mret (Dout pre None false)) ;;
              mret (if negb (ec =? 0) then ext_err_to_nfs3 ec else NFS3ERR_NOSPC, 0, FILE_SYNC, d)
          | None =>
              ec <~ mcall (EFileFlush ef) ;;
              cec <~ mcall (EFileClose ef) ;;
              if negb (ec =? 0) then failed (ext_err_to_nfs3 ec)
              else if negb (cec =? 0) then failed (ext_err_to_nfs3 cec)
              else
                '(rec, i) <~ mcall (EReadInode ino) ;;
                d <~ (if rec =? 0 then
                        now <~ ext_now_sec ;;
                        let i := set_times (i_atime i) now now i in
                        mcall (EWriteInode ino i) ~;;
                        a <~ ext_fill_attr ino i ;; mret (Dout pre (Some a) true)
                      else mret (Dout pre None false)) ;;
                mwhen (negb (stable =? UNSTABLE)) (mcall EWriteBitmaps ~;; mcall EFlush ~;; mret tt) ~;;
                mret (NFS3_OK, zlen buf, FILE_SYNC, d)
          end.

(** ** Operations on a directory *)

(** the return of an operation that left the directory as [dpre] says *)
Definition ext_stay (st : Z) (dpre : NfsAttr) : Z * DirOut := (st, Dout (attr_to_wcc_pre true dpre) (Some dpre) true).
(** the attributes of the directory afterwards *)
Definition ext_dir_after (dir : Z) (dpre : NfsAttr) : M DirOut :=
  '(st, a) <~ ext_op_getattr dir ;; mret (Dout (attr_to_wcc_pre true dpre) a (st =? NFS3_OK)).

(** How CREATE, MKDIR, SYMLINK, REMOVE and RMDIR begin: a valid directory and a
    name that can be an entry of it. *)
Definition ext_enter_dir (dir : Z) (name : string) (too_long : bool) : M ((Z * DirOut) + NfsAttr) :=
  '(st, din) <~ ext_read_valid_inode dir ;;
  if negb (st =? NFS3_OK) then mret (inl (st, Dout zero_wcc None false))
  else
    dpre <~ ext_fill_attr dir din ;;
    if negb (LINUX_S_ISDIR (i_mode din)) then mret (inl (ext_stay NFS3ERR_NOTDIR dpre))
    else if negb (valid_leaf_name name) then mret (inl (ext_stay NFS3ERR_INVAL dpre))
    else if too_long then mret (inl (ext_stay NFS3ERR_NAMETOOLONG dpre))
    else mret (inr dpre).

Definition no_child (r : Z * DirOut) : Z * Z * option NfsAttr * DirOut := (r.1, 0, None, r.2).
Definition sattr_or (s : option SAttr3) (get : SAttr3 -> option Z) (d : Z) : Z :=
  default d (match s with Some s => get s | None => None end).
Definition sattr_mode (s : SAttr3) : option Z := if s_set_mode s then Some (Z.land (s_mode s) 4095) else None.
Definition sattr_uid (s : SAttr3) : option Z := if s_set_uid s then Some (s_uid s) else None.
Definition sattr_gid (s : SAttr3) : option Z := if s_set_gid s then Some (s_gid s) else None.

(** CREATE of a name that exists *)
Definition ext_create_existing (dir existing mode : Z) (s : option SAttr3) (dpre : NfsAttr)
    : M (Z * Z * option NfsAttr * DirOut) :=
  if negb (mode =? CREATE_UNCHECKED) then mret (no_child (ext_stay NFS3ERR_EXIST dpre))
  else
    mset_parent existing dir ~;;
    '(st, a) <~ match s with Some s => ext_op_setattr existing s | None => ext_op_getattr existing end ;;
    d <~ ext_dir_after dir dpre ;;
    mret (st, existing, a, d).

Definition new_file_inode (perm uid gid now : Z) : ext2_inode :=
  set_times now now now (set_links 1 (set_gid gid (set_uid uid (set_mode (Z.lor LINUX_S_IFREG perm mod 65536) zero_inode)))).

(** the empty extent tree of a new file *)
Definition ext_init_extents (ino : Z) (i : ext2_inode) : M ext2_inode :=
  '(xec, eh, i) <~ mcall (EExtentOpen ino i) ;;
  mwhen (xec =? 0) (mcall (EExtentFree eh)) ~;; mret i.

Definition ext_op_create (dir : Z) (name : string) (mode : Z) (s : option SAttr3)
    : M (Z * Z * option NfsAttr * DirOut) :=
  dpre <~? (r <~ ext_enter_dir dir name (255 <? strlen name) ;;
            mret (match r with inl e => inl (no_child e) | inr d => inr d end)) ;;
  '(lec, existing) <~ mcall (ELookup dir name) ;;
  if lec =? 0 then ext_create_existing dir existing mode s dpre
  else
    let perm := sattr_or s sattr_mode 420 in
    '(ec, new_ino) <~ mcall (ENewInode dir (Z.lor LINUX_S_IFREG perm)) ;;
    if negb (ec =? 0) then mret (no_child (ext_stay (ext_err_to_nfs3 ec) dpre))
    else
      mcall (EAllocStats new_ino 1 0) ~;;
      now <~ ext_now_sec ;;
      let nin := new_file_inode perm (sattr_or s sattr_uid g_uid) (sattr_or s sattr_gid g_gid) now in
      nin <~ match s with Some s => ext_apply_sattr_meta nin s | None => mret nin end ;;
      ec <~ mcall (EWriteNewInode new_ino nin) ;;
      ext <~ (if ec =? 0 then mcall EExtents else mret false) ;;
      nin <~ (if ext : bool then ext_init_extents new_ino nin else mret nin) ;;
      ec <~ (if ec =? 0 then ext_link_with_expand dir name new_ino EXT2_FT_REG_FILE else mret ec) ;;
      if negb (ec =? 0) then
        mcall (EWriteInode new_ino (set_dtime now (set_links 0 nin))) ~;;
        mcall (EAllocStats new_ino (-1) 0) ~;;
        d <~ ext_dir_after dir dpre ;;
        mret (ext_err_to_nfs3 ec, 0, None, d)
      else
        ext_touch_dir dir ~;;
        mset_parent new_ino dir ~;;
        '(_, a) <~ match s with
                  | Some s => if s_set_size s && (0 <? s_size s) then ext_op_setattr new_ino s
                              else ext_op_getattr new_ino
                  | None => ext_op_getattr new_ino
                  end ;;
        d <~ ext_dir_after dir dpre ;;
        mret (NFS3_OK, new_ino, a, d).

Definition ext_op_mkdir (dir : Z) (name : string) (s : SAttr3) : M (Z * Z * option NfsAttr * DirOut) :=
  dpre <~? (r <~ ext_enter_dir dir name (255 <? strlen name) ;;
            mret (match r with inl e => inl (no_child e) | inr d => inr d end)) ;;
  '(lec, _) <~ mcall (ELookup dir name) ;;
  if lec =? 0 then mret (no_child (ext_stay NFS3ERR_EXIST dpre))
  else
    '(ec, new_ino) <~ mcall (EMkdir dir name) ;;
    '(ec, new_ino) <~ (if no_space ec then
                        xec <~ mcall (EExpandDir dir) ;;
                        if xec =? 0 then mcall (EMkdir dir name) else mret (ec, new_ino)
                      else mret (ec, new_ino)) ;;
    if negb (ec =? 0) then
      d <~ ext_dir_after dir dpre ;; mret (ext_err_to_nfs3 ec, 0, None, d)
    else
      '(rec, nin) <~ mcall (EReadInode new_ino) ;;
      a <~ (if rec =? 0 then
              now <~ ext_now_sec ;;
              let nin := set_times now now now
                (set_gid (sattr_or (Some s) sattr_gid g_gid)
                  (set_uid (sattr_or (Some s) sattr_uid g_uid)
                    (set_mode (Z.lor LINUX_S_IFDIR (sattr_or (Some s) sattr_mode 493) mod 65536) nin))) in
              nin <~ ext_apply_sattr_meta nin s ;;
              mcall (EWriteInode new_ino nin) ~;;
              a <~ ext_fill_attr new_ino nin ;; mret (Some a)
            else mret None) ;;
      ext_touch_dir dir ~;;
      mset_parent new_ino dir ~;;
      d <~ ext_dir_after dir dpre ;;
      mret (NFS3_OK, new_ino, a, d).

Definition ext_op_symlink (dir : Z) (name : string) (s : SAttr3) (target : string)
    : M (Z * Z * option NfsAttr * DirOut) :=
  if String.eqb target "" then mret (NFS3ERR_INVAL, 0, None, Dout zero_wcc None false)
  else
    dpre <~? (r <~ ext_enter_dir dir name ((255 <? strlen name) || (PATH_MAX <=? strlen target)) ;;
              mret (match r with inl e => inl (no_child e) | inr d => inr d end)) ;;
    '(lec, _) <~ mcall (ELookup dir name) ;;
    if lec =? 0 then mret (no_child (ext_stay NFS3ERR_EXIST dpre))
    else
      ec <~ mcall (ESymlink dir name target) ;;
      ec <~ (if no_space ec then
               xec <~ mcall (EExpandDir dir) ;;
               if xec =? 0 then mcall (ESymlink dir name target) else mret ec
             else mret ec) ;;
      if negb (ec =? 0) then
        d <~ ext_dir_after dir dpre ;; mret (ext_err_to_nfs3 ec, 0, None, d)
      else
        '(ec, lino) <~ mcall (ELookup dir name) ;;
        if negb (ec =? 0) then
          d <~ ext_dir_after dir dpre ;; mret (ext_err_to_nfs3 ec, 0, None, d)
        else
          '(rec, lin) <~ mcall (EReadInode lino) ;;
          a <~ (if rec =? 0 then
                  now <~ ext_now_sec ;;
                  lin <~ ext_apply_sattr_meta (set_times now now now (set_gid g_gid (set_uid g_uid lin))) s ;;
                  mcall (EWriteInode lino lin) ~;;
                  a <~ ext_fill_attr lino lin ;; mret (Some a)
                else mret None) ;;
          ext_touch_dir dir ~;;
          mset_parent lino dir ~;;
          d <~ ext_dir_after dir dpre ;;
          mret (NFS3_OK, lino, a, d).

(** REMOVE and RMDIR: the entry and the inode it names *)
Definition ext_find_entry (dir : Z) (name : string) (keep_root : bool) (dpre : NfsAttr)
    : M ((Z * DirOut) + (Z * ext2_inode)) :=
  '(ec, cino) <~ mcall (ELookup dir name) ;;
  if negb (ec =? 0) then mret (inl (ext_stay (ext_err_to_nfs3 ec) dpre))
  else if keep_root && (cino =? EXT2_ROOT_INO) then mret (inl (ext_stay NFS3ERR_ACCES dpre))
  else
    '(st, cin) <~ ext_read_valid_inode cino ;;
    if negb (st =? NFS3_OK) then mret (inl (ext_stay st dpre)) else mret (inr (cino, cin)).

(** the inode of a file or directory that is gone *)
Definition dead_inode (now : Z) (i : ext2_inode) : ext2_inode :=
  set_ctime now (set_dtime now (set_size 0 0 (set_links 0 i))).

Definition ext_op_remove (dir : Z) (name : string) : M (Z * DirOut) :=
  dpre <~? ext_enter_dir dir name false ;;
  '(cino, cin) <~? ext_find_entry dir name false dpre ;;
  if LINUX_S_ISDIR (i_mode cin) then mret (ext_stay NFS3ERR_ISDIR dpre)
  else
    ec <~ mcall (EUnlink dir name cino) ;;
    if negb (ec =? 0) then mret (ext_stay (ext_err_to_nfs3 ec) dpre)
    else
      now <~ ext_now_sec ;;
      (if 1 <? i_links_count cin then
         mcall (EWriteInode cino (set_ctime now (set_links (i_links_count cin - 1) cin))) ~;; mret tt
       else
         fast <~ (if negb (LINUX_S_ISLNK (i_mode cin)) then mret false else mcall (EFastSymlink cin)) ;;
         cin <~ (if fast : bool then mret (set_block (replicate 60 Byte.x00) cin)
                 else mcall (EPunch cino cin)) ;;
         mcall (EWriteInode cino (dead_inode now cin)) ~;;
         mcall (EAllocStats cino (-1) 0)) ~;;
      ext_touch_dir dir ~;;
      d <~ ext_dir_after dir dpre ;;
      mret (NFS3_OK, d).

Definition d_len (d : ext2_dirent) : Z := Z.land (d_name_len d) 255.
Definition d_byte (d : ext2_dirent) (i : nat) : byte := default Byte.x00 (d_name d !! i).
Definition is_dot (b : byte) : bool := u8 b =? 46.
Definition is_dotdot_entry (d : ext2_dirent) : bool := (d_len d =? 2) && is_dot (d_byte d 0) && is_dot (d_byte d 1).
(** ext_check_empty_cb over the entries: an entry that is not "." or ".." *)
Definition ext_check_empty_cb (d : ext2_dirent) : bool :=
  negb (d_inode d =? 0) && negb ((d_len d =? 1) && is_dot (d_byte d 0)) && negb (is_dotdot_entry d).

Definition ext_op_rmdir (dir : Z) (name : string) : M (Z * DirOut) :=
  dpre <~? ext_enter_dir dir name false ;;
  '(cino, cin) <~? ext_find_entry dir name true dpre ;;
  if negb (LINUX_S_ISDIR (i_mode cin)) then mret (ext_stay NFS3ERR_NOTDIR dpre)
  else
    '(entries, ec) <~ mcall (EDirIterate cino) ;;
    if negb (ec =? 0) then mret (ext_stay (ext_err_to_nfs3 ec) dpre)
    else if existsb ext_check_empty_cb entries then mret (ext_stay NFS3ERR_NOTEMPTY dpre)
    else
      ec <~ mcall (EUnlink dir name cino) ;;
      if negb (ec =? 0) then mret (ext_stay (ext_err_to_nfs3 ec) dpre)
      else
        now <~ ext_now_sec ;;
        cin <~ mcall (EPunch cino cin) ;;
        mcall (EWriteInode cino (dead_inode now cin)) ~;;
        mcall (EAllocStats cino (-1) 1) ~;;
        '(rec, din) <~ mcall (EReadInode dir) ;;
        (if rec =? 0 then
           let din := if 2 <? i_links_count din then set_links (i_links_count din - 1) din else din in
           mcall (EWriteInode dir (set_times (i_atime din) now now din)) ~;; mret tt
         else mret tt) ~;;
        d <~ ext_dir_after dir dpre ;;
        mret (NFS3_OK, d).

(** ext_set_dotdot_cb: the first ".." entry gets the new parent *)
Fixpoint ext_set_dotdot (ino parent : Z) (entries : list ext2_dirent) : M unit :=
  match entries with
  | [] => mret tt
  | d :: t =>
      if is_dotdot_entry d then mcall (EDirentChanged ino (Dirent parent (d_name_len d) (d_name d)))
      else ext_set_dotdot ino parent t
  end.
Definition ext_mode_to_ft (m : Z) : Z :=
  if LINUX_S_ISDIR m then EXT2_FT_DIR else if LINUX_S_ISLNK m then EXT2_FT_SYMLINK
  else if LINUX_S_ISCHR m then EXT2_FT_CHRDEV else if LINUX_S_ISBLK m then EXT2_FT_BLKDEV
  else if LINUX_S_ISFIFO m then EXT2_FT_FIFO else if LINUX_S_ISSOCK m then EXT2_FT_SOCK
  else EXT2_FT_REG_FILE.

(** ** RENAME *)
Definition rename_out := (Z * DirOut * DirOut)%type.
(** the directories before the operation *)
Record renaming := Renaming { n_from : Z; n_to : Z; n_fpre : NfsAttr; n_tpre : NfsAttr }.
Definition ren_stay (n : renaming) (st : Z) : rename_out :=
  (st, (ext_stay st (n_fpre n)).2, (ext_stay st (n_tpre n)).2).
Definition ren_blank (n : renaming) (st : Z) : rename_out :=
  (st, Dout (attr_to_wcc_pre true (n_fpre n)) None false, Dout (attr_to_wcc_pre true (n_tpre n)) None false).
Definition ren_after (n : renaming) (st : Z) : M rename_out :=
  df <~ ext_dir_after (n_from n) (n_fpre n) ;;
  dt <~ ext_dir_after (n_to n) (n_tpre n) ;;
  mret (st, df, dt).

(** the guards at the start of ext_op_rename *)
Definition ext_rename_enter (from : Z) (from_name : string) (to : Z) (to_name : string) : M (rename_out + renaming) :=
  '(fst_, fa) <~ ext_op_getattr from ;;
  '(tst, ta) <~ ext_op_getattr to ;;
  let pre ok a := match a : option NfsAttr with Some a => attr_to_wcc_pre ok a | None => zero_wcc end in
  match fst_ =? NFS3_OK, fa, tst =? NFS3_OK, ta with
  | true, Some fpre, true, Some tpre =>
      let n := Renaming from to fpre tpre in
      if negb (a_type fpre =? NF3DIR) || negb (a_type tpre =? NF3DIR) then mret (inl (ren_stay n NFS3ERR_NOTDIR))
      else if negb (valid_leaf_name from_name) || negb (valid_leaf_name to_name) then
        mret (inl (ren_stay n NFS3ERR_INVAL))
      else if (255 <? strlen from_name) || (255 <? strlen to_name) then mret (inl (ren_stay n NFS3ERR_NAMETOOLONG))
      else mret (inr n)
  | fok, _, tok, _ =>
      mret (inl (NFS3ERR_STALE, Dout (pre fok fa) None false, Dout (pre tok ta) None false))
  end.

(** an entry of the new name gives way, if it may *)
Definition ext_rename_replace (n : renaming) (to_name : string) (from_ino : Z) (fin : ext2_inode)
    : M (rename_out + unit) :=
  '(tec, to_ino) <~ mcall (ELookup (n_to n) to_name) ;;
  if tec =? 0 then
    if to_ino =? from_ino then mret (inl (ren_stay n NFS3_OK))
    else
      '(st, tin) <~ ext_read_valid_inode to_ino ;;
      if negb (st =? NFS3_OK) then mret (inl (ren_blank n st))
      else
        let from_dir := LINUX_S_ISDIR (i_mode fin) in
        let to_dir := LINUX_S_ISDIR (i_mode tin) in
        if from_dir && negb to_dir then mret (inl (ren_stay n NFS3ERR_NOTDIR))
        else if negb from_dir && to_dir then mret (inl (ren_stay n NFS3ERR_ISDIR))
        else
          '(st, _) <~ (if to_dir then ext_op_rmdir (n_to n) to_name else ext_op_remove (n_to n) to_name) ;;
          if negb (st =? NFS3_OK) then o <~ ren_after n st ;; mret (inl o) else mret (inr tt)
  else if negb (tec =? EXT2_ET_FILE_NOT_FOUND) then mret (inl (ren_stay n (ext_err_to_nfs3 tec)))
  else mret (inr tt).

(** a directory that moved: its "..", and the link counts of the two parents *)
Definition ext_rename_reparent (from to from_ino : Z) : M unit :=
  '(entries, _) <~ mcall (EDirIterate from_ino) ;;
  ext_set_dotdot from_ino to entries ~;;
  '(fec, fdin) <~ mcall (EReadInode from) ;;
  (if fec =? 0 then
     mcall (EWriteInode from (if 2 <? i_links_count fdin then set_links (i_links_count fdin - 1) fdin else fdin))
     ~;; mret tt
   else mret tt) ~;;
  '(tec, tdin) <~ mcall (EReadInode to) ;;
  (if tec =? 0 then
     mcall (EWriteInode to (if (2 <=? i_links_count tdin) && (i_links_count tdin <? 65000)
                            then set_links (i_links_count tdin + 1) tdin else tdin)) ~;; mret tt
   else mret tt).

Definition ext_op_rename (from : Z) (from_name : string) (to : Z) (to_name : string) : M rename_out :=
  n <~? ext_rename_enter from from_name to to_name ;;
  '(ec, from_ino) <~ mcall (ELookup from from_name) ;;
  if negb (ec =? 0) then mret (ren_stay n (ext_err_to_nfs3 ec))
  else
    '(st, fin) <~ ext_read_valid_inode from_ino ;;
    if negb (st =? NFS3_OK) then mret (ren_blank n st)
    else
      _ <~? ext_rename_replace n to_name from_ino fin ;;
      ec <~ ext_link_with_expand to to_name from_ino (ext_mode_to_ft (i_mode fin)) ;;
      if negb (ec =? 0) then ren_after n (ext_err_to_nfs3 ec)
      else
        ec <~ mcall (EUnlink from from_name from_ino) ;;
        if negb (ec =? 0) then ren_after n (ext_err_to_nfs3 ec)
        else
          mwhen (LINUX_S_ISDIR (i_mode fin) && negb (from =? to)) (ext_rename_reparent from to from_ino) ~;;
          ext_touch_dir from ~;;
          mwhen (negb (to =? from)) (ext_touch_dir to) ~;;
          mset_parent from_ino to ~;;
          ren_after n NFS3_OK.

Definition ext_op_link (ino dir : Z) (name : string) : M (Z * option NfsAttr * bool * DirOut) :=
  '(st, din) <~ ext_read_valid_inode dir ;;
  if negb (st =? NFS3_OK) then mret (st, None, false, Dout zero_wcc None false)
  else
    dpre <~ ext_fill_attr dir din ;;
    '(st, fin) <~ ext_read_valid_inode ino ;;
    if negb (st =? NFS3_OK) then mret (st, None, false, Dout (attr_to_wcc_pre true dpre) None false)
    else
      fa <~ ext_fill_attr ino fin ;;
      let refused st := mret (st, Some fa, true, (ext_stay st dpre).2) in
      if negb (LINUX_S_ISDIR (i_mode din)) then refused NFS3ERR_NOTDIR
      else if LINUX_S_ISDIR (i_mode fin) then refused NFS3ERR_ISDIR
      else if negb (valid_leaf_name name) then refused NFS3ERR_INVAL
      else if 255 <? strlen name then refused NFS3ERR_NAMETOOLONG
      else
        '(lec, _) <~ mcall (ELookup dir name) ;;
        if lec =? 0 then refused NFS3ERR_EXIST
        else
          ec <~ ext_link_with_expand dir name ino (ext_mode_to_ft (i_mode fin)) ;;
          if negb (ec =? 0) then
            d <~ ext_dir_after dir dpre ;; mret (ext_err_to_nfs3 ec, Some fa, true, d)
          else
            now <~ ext_now_sec ;;
            let fin := set_ctime now (set_links (i_links_count fin + 1) fin) in
            mcall (EWriteInode ino fin) ~;;
            fa <~ ext_fill_attr ino fin ;;
            ext_touch_dir dir ~;;
            d <~ ext_dir_after dir dpre ;;
            mret (NFS3_OK, Some fa, true, d).

(** ** Listing *)
(** ext_readdir_cb over the entries: the list and the number of ".." so far.
    An entry with an empty name stops the listing (None). *)
Fixpoint ext_readdir_cb (dir : Z) (entries : list ext2_dirent) (dotdot : Z) (l : DirEntryList)
    : M (option (Z * DirEntryList)) :=
  match entries with
  | [] => mret (Some (dotdot, l))
  | d :: t =>
      if (d_inode d =? 0) || (d_len d =? 0) then ext_readdir_cb dir t dotdot l
      else
        let name := cstr_of_bytes (ztake (d_len d) (d_name d)) in
        if String.eqb name "." then ext_readdir_cb dir t dotdot l
        else if String.eqb name ".." then ext_readdir_cb dir t (d_inode d) l
        else
          mset_parent (d_inode d) dir ~;;
          if String.eqb name "" then mret None
          else ext_readdir_cb dir t dotdot (l ++ [(d_inode d, name)])
  end.

Definition ext_op_readdir (dir : Z) : M (Z * DirEntryList * option NfsAttr * bool) :=
  '(st, din) <~ ext_read_valid_inode dir ;;
  if negb (st =? NFS3_OK) then mret (st, [], None, false)
  else
    a <~ ext_fill_attr dir din ;;
    if negb (LINUX_S_ISDIR (i_mode din)) then mret (NFS3ERR_NOTDIR, [], Some a, true)
    else
      '(lec, dotdot) <~ mcall (ELookup dir "..") ;;
      let pino := if (lec =? 0) && (EXT2_ROOT_INO <=? dotdot) then dotdot else EXT2_ROOT_INO in
      '(entries, ec) <~ mcall (EDirIterate dir) ;;
      r <~ ext_readdir_cb dir entries pino [] ;;
      match r with
      | None => mret (NFS3ERR_SERVERFAULT, [], Some a, true)
      | Some (dotdot, l) =>
          if negb (ec =? 0) then mret (ext_err_to_nfs3 ec, [], Some a, true)
          else mret (NFS3_OK, (dir, ".") :: (dotdot, "..") :: l, Some a, true)
      end.

Definition ext_op_fsstat (ino : Z) : M (Z * FsStatInfo * option NfsAttr * bool) :=
  '(st, a) <~ ext_op_getattr ino ;;
  if negb (st =? NFS3_OK) then mret (NFS3ERR_STALE, Fsstat 0 0 0 0 0 0, a, false)
  else
    u <~ mcall EUsage ;;
    let free := if u_blocks u <? u_free_blocks u then u_blocks u else u_free_blocks u in
    let bytes n := (n * u_blocksize u) mod 2 ^ 64 in
    mret (NFS3_OK, Fsstat (bytes (u_blocks u)) (bytes free) (bytes free)
                     (u_inodes u) (u_free_inodes u) (u_free_inodes u), a, true).

Definition ext_op_commit (ino : Z) : M (Z * DirOut) :=
  '(st, a) <~ ext_op_getattr ino ;;
  match st =? NFS3_OK, a with
  | true, Some post =>
      ec <~ mcall EWriteBitmaps ;;
      ec <~ (if ec =? 0 then mcall EFlush else mret ec) ;;
      io <~ (if ec =? 0 then mcall EHasIo else mret false) ;;
      ec <~ (if io : bool then mcall EIoFlush else mret ec) ;;
      mret (ext_err_to_nfs3 ec, Dout (attr_to_wcc_pre true post) (Some post) true)
  | _, _ => mret (NFS3ERR_STALE, Dout zero_wcc a false)
  end.

Definition ext_sync_all : M unit :=
  mcall EWriteBitmaps ~;; mcall EFlush ~;;
  io <~ mcall EHasIo ;;
  mwhen io (mcall EIoFlush ~;; mret tt).

(** * The backend *)
#[export] Instance ext_backend : Backend := {|
  fs_root_ino := EXT2_ROOT_INO; fs_sync_all := ext_sync_all;
  fs_getattr := ext_op_getattr; fs_setattr := ext_op_setattr; fs_lookup := ext_op_lookup;
  fs_readlink := ext_op_readlink; fs_read := ext_op_read; fs_write := ext_op_write;
  fs_create := ext_op_create; fs_mkdir := ext_op_mkdir; fs_symlink := ext_op_symlink;
  fs_remove := ext_op_remove; fs_rmdir := ext_op_rmdir; fs_rename := ext_op_rename; fs_link := ext_op_link;
  fs_readdir := ext_op_readdir; fs_fsstat := ext_op_fsstat; fs_commit := ext_op_commit |}.
End Ext.
