(* ===== verification/Ext2Spec.v ===== *)
(** Theorems of the ext backend, whatever libext2fs answers: what the library
    is asked for, that what is opened is closed, what a success of each
    operation means. *)
From S2P Require Import Prelude Cstr Ext2fs Sys Xdr XdrSpec Mountd Nfsd NfsdSpec Ext2.

(** * What the library may be asked for *)

(** a name that can be an entry of a directory *)
Definition leaf (name : string) : Prop := valid_leaf_name name = true /\ no_nul name = true.
Definition lookup_name (name : string) : Prop := name <> "" /\ strchr "/" name = None /\ no_nul name = true.

(** Nothing is called but the library and the clock. Directories and files are valid inode numbers; names that are entered,
    removed or looked up cannot lead out of their directory; names that are
    entered fit a directory entry; a transfer is at most 1 MiB. *)
Definition guarded {X : Set} (e : ev X) : Prop :=
  match e with
  | ELink dir name _ _ | EMkdir dir name => EXT2_ROOT_INO <= dir /\ leaf name /\ strlen name <= 255
  | ESymlink dir name target =>
      EXT2_ROOT_INO <= dir /\ leaf name /\ strlen name <= 255 /\ no_nul target = true /\ 0 < strlen target < PATH_MAX
  | EUnlink dir name _ => EXT2_ROOT_INO <= dir /\ leaf name
  | ELookup dir name => EXT2_ROOT_INO <= dir /\ lookup_name name
  | ENewInode dir _ | EExpandDir dir => EXT2_ROOT_INO <= dir
  | EFileOpen ino _ => EXT2_ROOT_INO <= ino
  | EFileRead _ n => n <= MOUNTD_MAX_IO_SIZE
  | EFileWrite _ b => zlen b <= MOUNTD_MAX_IO_SIZE
  | EWriteBitmaps | EFlush | EHasIo | EIoFlush | EInodesCount | EUsage | ETestInodeBitmap _ | EReadInode _
  | EWriteInode _ _ | EWriteNewInode _ _ | EAllocStats _ _ _ | EStatBlocks _ | EFastSymlink _ | EExtents
  | EExtentOpen _ _ | EExtentFree _ | EPunch _ _ | EDirIterate _ | EDirentChanged _ _
  | EFileSeek _ _ | EFileSetSize _ _ | EFileFlush _ | EFileClose _ | Realtime => True
  | _ => False
  end.

(** ** What the common beginnings give *)
Lemma valid_leaf_spec name : valid_leaf_name name = true ->
  name <> "" /\ name <> "." /\ name <> ".." /\ strchr "/" name = None.
Proof.
  unfold valid_leaf_name. intros [[[H1 H2]%andb_true_iff H3]%andb_true_iff H4]%andb_true_iff.
  apply negb_true_iff, String.eqb_neq in H1, H2, H3. destruct (strchr "/" name); done.
Qed.
Lemma leaf_lookup name : leaf name -> lookup_name name.
Proof. intros [(? & _ & _ & ?)%valid_leaf_spec ?]. by repeat split. Qed.

Definition status_ok (r : Z * ext2_inode) (Q : Prop) : Prop := (r.1 =? NFS3_OK) = true -> Q.
(** [mends_tac]: every way a program ends *)
Ltac mends_tac :=
  repeat (cbv beta iota zeta;
    match goal with
    | |- mends _ (mtry _ _) => unfold mtry
    | |- mends _ (mbind _ _) => apply mends_any; intros
    | |- mends _ (mret _) => apply mends_ret
    | |- mends _ (match ?x with _ => _ end) => destruct x eqn:?
    end).

Lemma err_not_ok ec : (ec =? 0) = false -> (ext_err_to_nfs3 ec =? NFS3_OK) = false.
Proof.
  unfold ext_err_to_nfs3, errno_to_nfs3, NFS3_OK. intros ->.
  repeat (case_match; try done).
Qed.
Lemma read_valid_ends ino :
  mends (fun r => (r.1 =? NFS3_OK) = true -> EXT2_ROOT_INO <= ino /\ i_links_count r.2 <> 0) (ext_read_valid_inode ino).
Proof.
  unfold ext_read_valid_inode. mends_tac; cbn [fst snd]; try done.
  all: repeat match goal with H : _ || _ = false |- _ => apply orb_false_iff in H as [? ?] end.
  all: try (intros H1; match goal with E : negb _ = true |- _ => apply negb_true_iff in E; exfalso; rewrite err_not_ok in H1; done end).
  all: intros _; split; lia.
Qed.

Lemma getattr_ends uid gid fsid ino :
  mends (fun r => (r.1 =? NFS3_OK) = true -> EXT2_ROOT_INO <= ino) (ext_op_getattr uid gid fsid ino).
Proof.
  unfold ext_op_getattr. eapply mends_bind; [apply read_valid_ends|]. intros [st i] H. cbn in H.
  destruct (st =? NFS3_OK) eqn:E; cbn [negb].
  - apply mends_any. intros a. apply mends_ret. intros _. by destruct H.
  - apply mends_ret. cbn. by rewrite E.
Qed.
Lemma enter_ends uid gid fsid dir name long : no_nul name = true ->
  mends (fun r => match r with inr _ => EXT2_ROOT_INO <= dir /\ leaf name /\ long = false | inl _ => True end)
    (ext_enter_dir uid gid fsid dir name long).
Proof.
  intros Hn. unfold ext_enter_dir. eapply mends_bind; [apply read_valid_ends|]. intros [st i] H. cbn in H.
  destruct (st =? NFS3_OK); cbn [negb]; [|by apply mends_ret]. destruct H as [H _]; [done|].
  apply mends_any. intros dpre. mends_tac; try done.
  match goal with E : negb (valid_leaf_name _) = false |- _ => apply negb_false_iff in E end. done.
Qed.

(** * Every property closed under sequencing

    [S] holds of the backend as soon as it holds of the calls that are no part
    of a file or extent handle, and of the operations that use one. *)
Definition plain {X : Set} (e : ev X) : Prop :=
  match e with
  | EFileOpen _ _ | EFileSeek _ _ | EFileRead _ _ | EFileWrite _ _ | EFileSetSize _ _ | EFileFlush _ | EFileClose _
  | EExtentOpen _ _ | EExtentFree _ => False
  | _ => True
  end.

Section Backend.
Context {S : forall A, M A -> Prop} `{!Logic S}.
Variables (fuel : nat) (uid gid fsid : Z).
Hypothesis s_call : forall (X : Set) (e : ev X), guarded e -> plain e -> S X (mcall e).
Hypothesis s_set_parent : forall k p, S unit (mset_parent k p).
Hypothesis s_set_size : forall ino i n, EXT2_ROOT_INO <= ino -> S _ (ext_set_file_size ino i n).
Hypothesis s_extents : forall ino i, S _ (ext_init_extents ino i).
Hypothesis s_ext_readlink : forall ino, S _ (ext_op_readlink uid gid fsid ino PATH_MAX).
Hypothesis s_ext_read : forall ino off count, count <= MOUNTD_MAX_IO_SIZE ->
  S _ (ext_op_read fuel uid gid fsid ino off count).
Hypothesis s_ext_write : forall ino off buf stable, zlen buf <= MOUNTD_MAX_IO_SIZE ->
  S _ (ext_op_write fuel uid gid fsid ino off buf stable).

(** [ext_tac]: an operation call by call; the calls that are not free of
    conditions are left *)
Create HintDb ext2.
Ltac ext_step :=
  match goal with
  | |- S _ (mbind (ext_read_valid_inode ?i) _) => eapply (l_bind _ _ _ _ _); [|apply read_valid_ends|intros [? ?] ?]
  | |- S _ (mbind (ext_op_getattr _ _ _ ?i) _) => eapply (l_bind _ _ _ _ _); [|apply getattr_ends|intros [? ?] ?]
  | |- S _ (mbind _ _) => apply l_seq
  | |- S _ (mtry _ _) => apply (l_try _ _ (fun _ => True)); [|done|intros]
  | |- S _ (mret _) => apply l_ret
  | |- S _ (mset_parent _ _) => apply s_set_parent
  | |- S _ (mwhen _ _) => apply l_when; intros
  | |- S _ (mcall _) => apply s_call; [cbn [guarded]|exact I]
  | |- True => exact I
  | |- S _ (match ?x with _ => _ end) => destruct x eqn:?
  | |- S _ _ => solve [auto with ext2]
  | |- forall _, _ => intro
  end.
Ltac ext_tac := repeat (cbv beta iota zeta; ext_step).

Lemma s_now : S _ ext_now_sec.
Proof. unfold ext_now_sec. ext_tac. Qed.
Lemma s_read_valid ino : S _ (ext_read_valid_inode ino).
Proof. unfold ext_read_valid_inode. ext_tac. Qed.
Lemma s_fill_attr ino i : S _ (ext_fill_attr uid gid fsid ino i).
Proof. unfold ext_fill_attr. ext_tac. Qed.
Hint Resolve s_now s_read_valid s_fill_attr : ext2.
Lemma s_op_getattr ino : S _ (ext_op_getattr uid gid fsid ino).
Proof. unfold ext_op_getattr. ext_tac. Qed.
Hint Resolve s_op_getattr : ext2.
Lemma s_link_with_expand dir name ino ft : EXT2_ROOT_INO <= dir -> leaf name -> strlen name <= 255 ->
  S _ (ext_link_with_expand dir name ino ft).
Proof. intros. unfold ext_link_with_expand. ext_tac; auto. Qed.
Lemma s_touch_dir dir : S _ (ext_touch_dir dir).
Proof. unfold ext_touch_dir. ext_tac. Qed.
Lemma s_apply_sattr i s : S _ (ext_apply_sattr_meta i s).
Proof. unfold ext_apply_sattr_meta. ext_tac. Qed.
Hint Resolve s_touch_dir s_apply_sattr : ext2.
Lemma s_op_setattr ino s : S _ (ext_op_setattr uid gid fsid ino s).
Proof.
  unfold ext_op_setattr. ext_tac. apply s_set_size. cbn in *.
  match goal with H : negb _ = false |- _ => apply negb_false_iff in H end. intuition.
Qed.
Hint Resolve s_op_setattr : ext2.
Lemma s_op_lookup dir name : cstr_below 1025 name -> S _ (ext_op_lookup uid gid fsid dir name).
Proof.
  intros [Hn _]. unfold ext_op_lookup. ext_tac. cbn in *.
  repeat match goal with H : negb _ = false |- _ => apply negb_false_iff in H end.
  match goal with H : _ || _ = false |- _ => apply orb_false_iff in H as [?%String.eqb_neq Hs] end.
  apply bool_decide_eq_false in Hs. rewrite <- eq_None_not_Some in Hs.
  split; [intuition|]. repeat split; done.
Qed.

(** the beginning of an operation on a directory *)
Ltac s_enter Hn :=
  eapply (l_bind _ _ _ _ _); [|apply (enter_ends _ _ _ _ _ _ Hn)|].
Lemma s_enter_dir dir name long : S _ (ext_enter_dir uid gid fsid dir name long).
Proof. unfold ext_enter_dir. ext_tac. Qed.
Lemma s_dir_after dir dpre : S _ (ext_dir_after uid gid fsid dir dpre).
Proof. unfold ext_dir_after. ext_tac. Qed.
Hint Resolve s_enter_dir s_dir_after : ext2.

Lemma s_entered {E} dir name long (wrap : Z * DirOut -> E) (k : NfsAttr -> M E) : no_nul name = true ->
  (forall dpre, EXT2_ROOT_INO <= dir -> leaf name -> long = false -> S _ (k dpre)) ->
  S _ (mtry (mbind (ext_enter_dir uid gid fsid dir name long)
              (fun r => mret (match r with inl e => inl (wrap e) | inr d => inr d end))) k).
Proof.
  intros Hn Hk. apply (l_try _ _ (fun r => match r with inr _ => EXT2_ROOT_INO <= dir /\ leaf name /\ long = false | _ => True end)).
  - ext_tac.
  - eapply mends_bind; [by apply enter_ends|]. intros [e|d] H; by apply mends_ret.
  - intros d (? & ? & ?). auto.
Qed.
Lemma s_entered_plain dir name (k : NfsAttr -> M (Z * DirOut)) : no_nul name = true ->
  (forall dpre, EXT2_ROOT_INO <= dir -> leaf name -> S _ (k dpre)) ->
  S _ (mtry (ext_enter_dir uid gid fsid dir name false) k).
Proof.
  intros Hn Hk. apply (l_try _ _ (fun r => match r with inr _ => EXT2_ROOT_INO <= dir /\ leaf name /\ false = false | _ => True end)).
  - ext_tac.
  - by apply enter_ends.
  - intros d (? & ? & _). auto.
Qed.
Hint Resolve leaf_lookup : ext2.
Hint Extern 1 (_ /\ _) => split : ext2.

Lemma s_op_create dir name mode s : cstr_below 1025 name -> S _ (ext_op_create uid gid fsid dir name mode s).
Proof.
  intros [Hn _]. unfold ext_op_create. apply s_entered; [done|]. intros dpre Hd Hl Hlen%Z.ltb_ge.
  unfold ext_create_existing. ext_tac; auto with ext2. by apply s_link_with_expand.
Qed.
Lemma s_op_mkdir dir name s : cstr_below 1025 name -> S _ (ext_op_mkdir uid gid fsid dir name s).
Proof.
  intros [Hn _]. unfold ext_op_mkdir. apply s_entered; [done|]. intros dpre Hd Hl Hlen%Z.ltb_ge.
  ext_tac; auto with ext2.
Qed.
Lemma s_op_symlink dir name s target : cstr_below 1025 name -> cstr_below PATH_MAX target ->
  S _ (ext_op_symlink uid gid fsid dir name s target).
Proof.
  intros [Hn _] [Ht Htl]. unfold ext_op_symlink. destruct (String.eqb_spec target ""); [apply l_ret|].
  apply s_entered; [done|]. intros dpre Hd Hl [Hlen%Z.ltb_ge _]%orb_false_iff.
  assert (0 < strlen target) by (destruct target; [done|]; rewrite strlen_cons; pose proof (strlen_nonneg target); lia).
  ext_tac; auto 10 with ext2.
Qed.
Lemma s_find_entry dir name root dpre : EXT2_ROOT_INO <= dir -> leaf name -> S _ (ext_find_entry dir name root dpre).
Proof. intros. unfold ext_find_entry. ext_tac; auto with ext2. Qed.
Lemma s_op_remove dir name : no_nul name = true -> S _ (ext_op_remove uid gid fsid dir name).
Proof.
  intros Hn. unfold ext_op_remove. apply s_entered_plain; [done|]. intros dpre Hd Hl.
  pose proof (s_find_entry dir name false dpre Hd Hl). ext_tac; auto with ext2.
Qed.
Lemma s_op_rmdir dir name : no_nul name = true -> S _ (ext_op_rmdir uid gid fsid dir name).
Proof.
  intros Hn. unfold ext_op_rmdir. apply s_entered_plain; [done|]. intros dpre Hd Hl.
  pose proof (s_find_entry dir name true dpre Hd Hl). ext_tac; auto with ext2.
Qed.
Hint Resolve s_op_remove s_op_rmdir : ext2.

(** RENAME *)
Lemma rename_enter_ends from n1 to n2 : no_nul n1 = true -> no_nul n2 = true ->
  mends (fun r => match r with
    | inr n => EXT2_ROOT_INO <= from /\ EXT2_ROOT_INO <= to /\ n_from n = from /\ n_to n = to /\ leaf n1 /\ leaf n2
               /\ strlen n1 <= 255 /\ strlen n2 <= 255
    | inl _ => True end) (ext_rename_enter uid gid fsid from n1 to n2).
Proof.
  intros Hn1 Hn2. unfold ext_rename_enter.
  eapply mends_bind; [apply getattr_ends|]. intros [st1 a1] H1.
  eapply mends_bind; [apply getattr_ends|]. intros [st2 a2] H2. cbn in H1, H2. mends_tac; try done.
  all: repeat match goal with H : _ || _ = false |- _ => apply orb_false_iff in H as [? ?] end.
  all: repeat match goal with H : negb (valid_leaf_name _) = false |- _ => apply negb_false_iff in H end.
  all: split_and!; auto; try done; lia.
Qed.
Lemma s_rename_enter from n1 to n2 : S _ (ext_rename_enter uid gid fsid from n1 to n2).
Proof. unfold ext_rename_enter. ext_tac. Qed.
Lemma s_ren_after n st : S _ (ren_after uid gid fsid n st).
Proof. unfold ren_after. ext_tac. Qed.
Hint Resolve s_rename_enter s_ren_after : ext2.
Lemma s_rename_replace n to_name from_ino fin : EXT2_ROOT_INO <= n_to n -> leaf to_name ->
  S _ (ext_rename_replace uid gid fsid n to_name from_ino fin).
Proof. intros Hd Hl. pose proof (proj2 Hl). unfold ext_rename_replace. ext_tac; auto with ext2. Qed.
Lemma s_set_dotdot ino parent l : S _ (ext_set_dotdot ino parent l).
Proof. induction l as [|d l IH]; cbn [ext_set_dotdot]; ext_tac. Qed.
Hint Resolve s_set_dotdot : ext2.
Lemma s_reparent from to ino : S _ (ext_rename_reparent from to ino).
Proof. unfold ext_rename_reparent. ext_tac. Qed.
Hint Resolve s_reparent : ext2.
Lemma s_op_rename from n1 to n2 : no_nul n1 = true -> no_nul n2 = true -> S _ (ext_op_rename uid gid fsid from n1 to n2).
Proof.
  intros Hn1 Hn2. unfold ext_op_rename.
  eapply l_try; [apply s_rename_enter|by apply rename_enter_ends|].
  intros n (Hf & Ht & En1 & En2 & Hl1 & Hl2 & H1 & H2).
  ext_tac; auto with ext2.
  - apply s_rename_replace; [congruence|done].
  - by apply s_link_with_expand.
Qed.

Lemma s_op_link ino dir name : no_nul name = true -> S _ (ext_op_link uid gid fsid ino dir name).
Proof.
  intros Hn. unfold ext_op_link.
  eapply l_bind; [apply s_read_valid|apply read_valid_ends|]. intros [st din] H. cbn in H.
  destruct (st =? NFS3_OK); cbn [negb]; [|apply l_ret]. destruct H as [Hd _]; [done|].
  ext_tac; repeat match goal with E : negb (valid_leaf_name _) = false |- _ => apply negb_false_iff in E end.
  all: repeat match goal with E : (_ <? strlen _) = false |- _ => apply Z.ltb_ge in E end.
  - split; [done|]. by apply leaf_lookup.
  - by apply s_link_with_expand.
Qed.

Lemma s_readdir_cb dir l dd acc : S _ (ext_readdir_cb dir l dd acc).
Proof. revert dd acc; induction l as [|d l IH]; intros; cbn [ext_readdir_cb]; ext_tac; auto. Qed.
Hint Resolve s_readdir_cb : ext2.
Lemma s_op_readdir dir : S _ (ext_op_readdir uid gid fsid dir).
Proof.
  unfold ext_op_readdir. eapply l_bind; [apply s_read_valid|apply read_valid_ends|]. intros [st din] H. cbn in H.
  destruct (st =? NFS3_OK); cbn [negb]; [|apply l_ret]. destruct H as [Hd _]; [done|].
  ext_tac. split; [done|]. by repeat split.
Qed.
Lemma s_op_fsstat ino : S _ (ext_op_fsstat uid gid fsid ino).
Proof. unfold ext_op_fsstat. ext_tac. Qed.
Lemma s_op_commit ino : S _ (ext_op_commit uid gid fsid ino).
Proof. unfold ext_op_commit. ext_tac. Qed.
Lemma s_sync_all : S _ ext_sync_all.
Proof. unfold ext_sync_all. ext_tac. Qed.

(** The backend keeps its side of the interface. *)
Lemma ext_backend_sat : Sat S (ext_backend fuel uid gid fsid).
Proof.
  split; cbn.
  - apply s_sync_all.
  - auto with ext2.
  - intros ino s _. auto with ext2.
  - intros dir name _ Hn. by apply s_op_lookup.
  - intros ino _. apply s_ext_readlink.
  - intros ino off count _ Hc. apply s_ext_read. lia.
  - intros ino off buf stable _ Hb. by apply s_ext_write.
  - intros dir name mode s _ Hn. by apply s_op_create.
  - intros dir name s _ Hn. by apply s_op_mkdir.
  - intros dir name s target _ Hn Ht. by apply s_op_symlink.
  - intros dir name _ [Hn _]. by apply s_op_remove.
  - intros dir name _ [Hn _]. by apply s_op_rmdir.
  - intros from n1 to n2 _ _ [H1 _] [H2 _]. by apply s_op_rename.
  - intros ino dir name _ _ [Hn _]. by apply s_op_link.
  - intros dir _. apply s_op_readdir.
  - intros ino _. apply s_op_fsstat.
  - intros ino _. apply s_op_commit.
Qed.
End Backend.

(** * Every call is within its contract *)
Section Guarded.
Variables (fuel : nat) (uid gid fsid : Z).
Let G : forall X : Set, ev X -> Prop := fun X e => guarded e.

Ltac guard_step :=
  match goal with
  | |- malways _ (mbind (ext_read_valid_inode ?i) _) =>
      eapply (l_bind (S := fun A => @malways A G)); [|apply read_valid_ends|intros [? ?] ?]
  | |- malways _ (mbind _ _) => apply malways_bind
  | |- malways _ (mret _) => apply malways_ret
  | |- malways _ (mcall _) => apply malways_call; cbn
  | |- malways _ (mwhen _ _) => apply malways_when
  | |- malways _ (mloop _ _ _) => apply malways_loop
  | |- malways _ (ext_read_valid_inode _) => apply (@s_read_valid (fun A => @malways A G))
  | |- malways _ (ext_fill_attr _ _ _ _ _) => apply (@s_fill_attr (fun A => @malways A G))
  | |- malways _ ext_now_sec => apply (@s_now (fun A => @malways A G))
  | |- Logic _ => apply malways_logic
  | |- forall (X : Set) (e : ev X), guarded e -> plain e -> _ => intros ? ? ? _; by apply malways_call
  | |- True => exact I
  | |- malways _ (match ?x with _ => _ end) => destruct x eqn:?
  | |- forall _, _ => intro
  end.
Ltac guard_tac := repeat (cbv beta iota zeta; guard_step).
Ltac valid_ino := cbn in *; repeat match goal with H : negb _ = false |- _ => apply negb_false_iff in H end; intuition.

Lemma g_set_size ino i n : EXT2_ROOT_INO <= ino -> malways G (ext_set_file_size ino i n).
Proof. intros. unfold ext_set_file_size. guard_tac; auto. Qed.
Lemma g_extents ino i : malways G (ext_init_extents ino i).
Proof. unfold ext_init_extents. guard_tac. Qed.
Lemma g_readlink ino : malways G (ext_op_readlink uid gid fsid ino PATH_MAX).
Proof.
  unfold ext_op_readlink. guard_tac.
  - valid_ino.
  - match goal with H : (PATH_MAX <=? _) = false |- _ => apply Z.leb_gt in H end. unfold PATH_MAX, MOUNTD_MAX_IO_SIZE in *. lia.
Qed.
Lemma g_read ino off count : count <= MOUNTD_MAX_IO_SIZE -> malways G (ext_op_read fuel uid gid fsid ino off count).
Proof.
  intros Hc. unfold ext_op_read, ext_read_loop. guard_tac; [valid_ino|]. pose proof (zlen_nonneg s). case_match; lia.
Qed.
Lemma g_write ino off buf stable : zlen buf <= MOUNTD_MAX_IO_SIZE ->
  malways G (ext_op_write fuel uid gid fsid ino off buf stable).
Proof.
  intros Hb. unfold ext_op_write, ext_write_loop. guard_tac; [valid_ino|].
  unfold zdrop, zlen in *. rewrite length_drop. lia.
Qed.
Lemma ext_backend_guarded : Sat (fun A => @malways A G) (ext_backend fuel uid gid fsid).
Proof.
  apply ext_backend_sat.
  - intros X e He _. by apply malways_call.
  - intros k p. apply malways_set.
  - apply g_set_size.
  - apply g_extents.
  - apply g_readlink.
  - apply g_read.
  - apply g_write.
Qed.
End Guarded.

(** * What is opened is closed *)

(** Opened minus closed, files and extent handles together. *)
Definition handle_diff (o : obs) : Z :=
  match o with
  | Obs e x =>
      match e in ev X return X -> Z with
      | EFileOpen _ _ => fun x => if x.1 =? 0 then 1 else 0
      | EFileClose _ => fun _ => -1
      | EExtentOpen _ _ => fun x => if x.1.1 =? 0 then 1 else 0
      | EExtentFree _ => fun _ => -1
      | _ => fun _ => 0
      end x
  end.
Fixpoint handles (t : list obs) : Z := match t with [] => 0 | o :: t => handle_diff o + handles t end.
Lemma handles_app t u : handles (t ++ u) = handles t + handles u.
Proof. induction t as [|o t IH]; cbn [app handles]; lia. Qed.
#[export] Instance balanced_monoidal : Monoidal (fun t => handles t = 0).
Proof. split; [done|]. intros t u Ht Hu. rewrite handles_app. lia. Qed.

(** [bal k m]: [m] closes [k] more than it opens *)
Definition bal (k : Z) {A} (m : M A) : Prop := mtraces (fun t => handles t = - k) m.
Lemma bal_ret {A} (a : A) : bal 0 (mret a).
Proof. by intros c t c' b (-> & _)%mexec_ret. Qed.
Lemma bal_seq {A B} k (m : M A) (f : A -> M B) : bal 0 m -> (forall a, bal k (f a)) -> bal k (mbind m f).
Proof.
  intros Hm Hf c t c' b (t1 & c1 & a & t2 & -> & H1 & H2)%mexec_bind. rewrite handles_app.
  rewrite (Hm _ _ _ _ H1), (Hf _ _ _ _ _ H2). lia.
Qed.
Lemma bal_call {X : Set} (e : ev X) : plain e -> bal 0 (mcall e).
Proof. intros He c t c' x (-> & _)%mexec_call. cbn. by destruct e. Qed.
Lemma bal_step {X : Set} {B} (e : ev X) k (f : X -> M B) :
  (forall x, bal (k + handle_diff (Obs e x)) (f x)) -> bal k (mbind (mcall e) f).
Proof.
  intros Hf c t c' b (t1 & c1 & x & t2 & -> & (-> & _)%mexec_call & H2)%mexec_bind.
  rewrite handles_app, (Hf _ _ _ _ _ H2). cbn [handles]. lia.
Qed.
Lemma bal_when b m : bal 0 m -> bal 0 (mwhen b m).
Proof. intros Hm. destruct b; [done|apply bal_ret]. Qed.
Lemma bal_loop {T A} fuel (body : T -> M (T + A)) s : (forall s, bal 0 (body s)) -> bal 0 (mloop fuel body s).
Proof. intros Hb. by apply (l_loop (S := fun A => @mtraces (fun t => handles t = 0) A)). Qed.

Section Balanced.
Variables (fuel : nat) (uid gid fsid : Z).
Let B0 : forall A, M A -> Prop := fun A => @mtraces (fun t => handles t = 0) A.

Lemma bal_valid ino : bal 0 (ext_read_valid_inode ino).
Proof.
  apply (@s_read_valid B0 _). intros X e _ He. by apply bal_call.
Qed.
Lemma bal_now : bal 0 ext_now_sec.
Proof. apply (@s_now B0 _). intros X e _ He. by apply bal_call. Qed.
Lemma bal_fill ino i : bal 0 (ext_fill_attr uid gid fsid ino i).
Proof. apply (@s_fill_attr B0 _). intros X e _ He. by apply bal_call. Qed.

(** the branches in which an open succeeded are closed by hand, call by call *)
Ltac bal_open x := cbn [handle_diff fst]; cbv beta iota; destruct (x =? 0) eqn:?; cbn [negb];
  match goal with |- bal (0 + 1) _ => change (0 + 1) with 1 | |- bal (0 + 0) _ => change (0 + 0) with 0 end.
Ltac bal_step_tac :=
  match goal with
  | |- bal _ (mbind (mcall (EFileOpen _ _)) _) => apply bal_step; intros [ec ?]; bal_open ec
  | |- bal _ (mbind (mcall (EExtentOpen _ _)) _) => apply bal_step; intros [[ec ?] ?]; bal_open ec
  | |- bal 1 (mbind (mcall (EFileClose _)) ?f) => apply (bal_step _ 1 f); intros; cbn [handle_diff]; change (1 + -1) with 0
  | |- bal _ (mbind (mcall _) _) => apply bal_step; intros; cbn [handle_diff]; rewrite Z.add_0_r
  | |- bal _ (mbind (ext_read_valid_inode _) _) => apply bal_seq; [apply bal_valid|intros]
  | |- bal _ (mbind (ext_fill_attr _ _ _ _ _) _) => apply bal_seq; [apply bal_fill|intros]
  | |- bal _ (mbind ext_now_sec _) => apply bal_seq; [apply bal_now|intros]
  | |- bal _ (mbind (mloop _ _ _) _) => apply bal_seq; [apply bal_loop; intros|intros]
  | |- bal _ (mbind (mwhen _ _) _) => apply bal_seq; [apply bal_when|intros]
  | |- bal _ (mbind (match ?x with _ => _ end) _) => destruct x eqn:?
  | |- bal _ (mbind (mret _) _) => apply bal_seq; [apply bal_ret|intros]
  | |- bal 0 (mbind (mbind _ _) _) => apply bal_seq; [|intros]
  | |- bal _ (mret _) => apply bal_ret
  | |- bal _ (match ?x with _ => _ end) => destruct x eqn:?
  end.
Ltac bal_tac := repeat (cbv beta iota zeta; bal_step_tac).

Lemma bal_set_size ino i n : bal 0 (ext_set_file_size ino i n).
Proof. unfold ext_set_file_size. bal_tac. Qed.
Lemma bal_readlink ino : bal 0 (ext_op_readlink uid gid fsid ino PATH_MAX).
Proof. unfold ext_op_readlink. bal_tac. Qed.
Lemma bal_read ino off count : bal 0 (ext_op_read fuel uid gid fsid ino off count).
Proof. unfold ext_op_read, ext_read_loop. bal_tac. Qed.
Lemma bal_write ino off buf stable : bal 0 (ext_op_write fuel uid gid fsid ino off buf stable).
Proof. unfold ext_op_write, ext_write_loop. bal_tac. Qed.
Lemma bal_extents ino i : bal 0 (ext_init_extents ino i).
Proof.
  unfold ext_init_extents. bal_step_tac; cbn [mwhen].
  - apply (bal_step _ 1). intros []. apply bal_ret.
  - bal_tac.
Qed.
Lemma ext_backend_balanced : Sat B0 (ext_backend fuel uid gid fsid).
Proof.
  apply (@ext_backend_sat B0 _).
  - intros X e _ He. by apply bal_call.
  - by intros k p c t c' u (-> & _)%mexec_set.
  - intros ino i n _. apply bal_set_size.
  - apply bal_extents.
  - apply bal_readlink.
  - intros ino off count _. apply bal_read.
  - intros ino off buf stable _. apply bal_write.
Qed.
End Balanced.
