(* ===== verification/Ext2FileSpec.v ===== *)
(** READ and WRITE of the ext backend against the contents of the file they are
    of: what they do to it, what they return of it, that they end. *)
From S2P Require Import Prelude Cstr Ext2fs Contents Sys Xdr XdrSpec Mountd Nfsd NfsdSpec Ext2 Ext2Spec.

(** * A file as libext2fs documents it

    [f_open]: the handle that is open on it and its position. [f_dirty]: data
    was written that no flush has covered. *)
Record file := File { f_open : option (Z * Z); f_data : list byte; f_dirty : bool }.
(** [on h s f]: [f] of the position, when [h] is the handle that is open *)
Definition on (h : Z) (s : file) (f : Z -> file) : file :=
  match f_open s with Some (h', p) => if h =? h' then f p else s | None => s end.
(** the file [ino] after one call and its answer *)
Definition file_step (ino : Z) (o : obs) (s : file) : file :=
  match o with
  | Obs e x =>
      match e in ev X return X -> file with
      | EFileOpen i _ => fun x =>
          if (i =? ino) && (x.1 =? 0) then File (Some (x.2, 0)) (f_data s) (f_dirty s) else s
      | EFileSeek h off => fun x =>
          on h s (fun p => if x =? 0 then File (Some (h, off)) (f_data s) (f_dirty s) else s)
      | EFileRead h _ => fun x => on h s (fun p => File (Some (h, p + zlen x.2)) (f_data s) (f_dirty s))
      | EFileWrite h b => fun x =>
          on h s (fun p => File (Some (h, p + x.2)) (splice p (ztake x.2 b) (f_data s)) (f_dirty s || (0 <? x.2)))
      | EFileFlush h => fun x => on h s (fun p => File (f_open s) (f_data s) (f_dirty s && negb (x =? 0)))
      | EFileClose h => fun _ => on h s (fun p => File None (f_data s) (f_dirty s))
      | _ => fun _ => s
      end x
  end.
Definition file_run (ino : Z) : list obs -> file -> file := observe (file_step ino).

(** The answers libext2fs may give: a read returns bytes of the file from the
    position on, none only at the end or when it failed; a write takes at most
    what it was given; the inode says how long the file is. *)
Definition lawful_step (ino : Z) (o : obs) (s : file) : Prop :=
  match o with
  | Obs e x =>
      match e in ev X return X -> Prop with
      | EFileRead h n => fun x => forall p, f_open s = Some (h, p) ->
          x.2 = slice p (zlen x.2) (f_data s) /\ zlen x.2 <= n /\
          (x.1 = 0 -> x.2 = [] -> n <= 0 \/ zlen (f_data s) <= p)
      | EFileWrite _ b => fun x => 0 <= x.2 <= zlen b
      | EReadInode i => fun x => i = ino -> x.1 = 0 -> EXT2_I_SIZE x.2 = zlen (f_data s)
      | _ => fun _ => True
      end x
  end.
Definition lawful (ino : Z) : list obs -> file -> Prop := abides (file_step ino) (lawful_step ino).

(** * READ and WRITE observed *)
Section Transfer.
Variables (fuel : nat) (uid gid fsid ino : Z).

#[local] Abbreviation from := (from (file_step ino) (lawful_step ino)).
#[local] Abbreviation idle := (idle (file_step ino)).
Lemma idle_plain {X : Set} (e : ev X) : plain e -> idle (mcall e).
Proof. intros He. apply idle_call. intros x s. by destruct e. Qed.
Lemma idle_fill i : idle (ext_fill_attr uid gid fsid ino i).
Proof. apply (@s_fill_attr (fun A => @Mountd.idle _ (file_step ino) A) _). intros X e _ He. by apply idle_plain. Qed.
Lemma idle_now : idle ext_now_sec.
Proof. apply (@s_now (fun A => @Mountd.idle _ (file_step ino) A) _). intros X e _ He. by apply idle_plain. Qed.

Lemma from_valid s : from s (ext_read_valid_inode ino)
  (fun r s' => s' = s /\ (r.1 = NFS3_OK -> EXT2_I_SIZE r.2 = zlen (f_data s))).
Proof.
  unfold ext_read_valid_inode. apply from_idle; [by apply idle_plain|]. intros n.
  destruct (_ || _); [by apply from_ret|]. apply from_idle; [by apply idle_plain|]. intros used.
  assert (H : from s (' (ec, i) <~ mcall (EReadInode ino) ;;
        if negb (ec =? 0) then mret (ext_err_to_nfs3 ec, i)
        else if i_links_count i =? 0 then mret (NFS3ERR_STALE, i) else mret (NFS3_OK, i))
      (fun r s' => s' = s /\ (r.1 = NFS3_OK -> EXT2_I_SIZE r.2 = zlen (f_data s)))).
  { apply from_step. intros [ec i] Hl. cbn [file_step]. destruct (ec =? 0) eqn:E; cbn [negb].
    - case_match; apply from_ret; (split; [done|]); cbn; [done|]. intros _. apply Hl; [done|]. cbn. lia.
    - apply from_ret. split; [done|]. cbn. intros H. apply err_not_ok in E. by rewrite H in E. }
  destruct used as [[|]|]; [exact H|by apply from_ret|exact H].
Qed.

(** [from_tac]: an operation call by call, up to the calls on a handle *)
Ltac from_step_tac :=
  match goal with
  | |- from _ (mbind (ext_fill_attr _ _ _ _ _) _) _ => apply from_idle; [apply idle_fill|intros]
  | |- from _ (mbind ext_now_sec _) _ => apply from_idle; [apply idle_now|intros]
  | |- from _ (mbind (mcall _) _) _ => apply from_idle; [by apply idle_plain|intros]
  | |- from _ (mbind (mwhen _ _) _) _ => apply from_idle; [apply idle_when|intros]
  | |- from _ (mret _) _ => apply from_ret
  | |- idle (mbind _ _) => apply idle_seq; [|intros]
  | |- idle (mcall _) => by apply idle_plain
  | |- idle (mret _) => apply idle_ret
  | |- idle (ext_fill_attr _ _ _ _ _) => apply idle_fill
  | |- idle ext_now_sec => apply idle_now
  | |- idle (match ?x with _ => _ end) => destruct x
  | |- from _ (match ?x with _ => _ end) _ => destruct x eqn:?
  end.
Ltac from_tac := repeat (cbv beta iota zeta; from_step_tac).

(** ** WRITE *)
Section Write.
Variables (off : Z) (buf data : list byte).
Hypothesis off_ok : 0 <= off.

(** [k] bytes of the buffer are in the file *)
Definition wrote (k : Z) (op : option (Z * Z)) (s : file) : Prop :=
  0 <= k <= zlen buf /\ f_open s = op /\ f_data s = splice off (ztake k buf) data.

Lemma on_here h p s f : f_open s = Some (h, p) -> on h s f = f p.
Proof. intros H. unfold on. by rewrite H, Z.eqb_refl. Qed.

Lemma from_write_loop ef s : f_open s = Some (ef, off) -> f_data s = data ->
  from s (ext_write_loop fuel ef buf) (fun r s' =>
    exists k, wrote k (Some (ef, off + k)) s' /\ (r = None -> k = zlen buf) /\
      (forall ec wr, r = Some (ec, wr) -> ec <> 0 \/ wr = 0)).
Proof.
  intros Ho Hd. unfold ext_write_loop.
  apply (from_loop (fun k s' => wrote k (Some (ef, off + k)) s')).
  2: { unfold wrote. pose proof (zlen_nonneg buf). rewrite Z.add_0_r, (ztake_neg 0), splice_nil by lia. split_and!; auto; lia. }
  clear s Ho Hd. intros k s (Hk & Ho & Hd). destruct (Z.ltb_spec k (zlen buf)).
  - apply from_step. intros [ec w] Hl. cbn [file_step lawful_step snd] in *. rewrite (on_here _ _ _ _ Ho).
    assert (Hn : wrote (k + w) (Some (ef, off + (k + w)))
                   (File (Some (ef, off + k + w)) (splice (off + k) (ztake w (zdrop k buf)) (f_data s)) (f_dirty s || (0 <? w)))).
    { rewrite zlen_zdrop in Hl by lia. split_and!; [lia|lia|cbn; do 2 f_equal; lia|]. cbn. rewrite Hd.
      apply write_turn; [done..|]. rewrite zlen_zdrop; lia. }
    destruct (negb (ec =? 0) || (w =? 0)) eqn:E; apply from_ret; [|exact Hn].
    exists (k + w). split; [exact Hn|]. split; [done|]. intros ? ? [= <- <-].
    apply orb_true_iff in E as [E|E]; [left; destruct (Z.eqb_spec ec 0); done|right; lia].
  - apply from_ret. exists k. split; [done|]. split; [intros _; lia|done].
Qed.

Definition write_done (r : Z * Z * Z * DirOut) (s' : file) : Prop :=
  exists k, wrote k None s' /\
    (r.1.1.1 = NFS3_OK -> k = zlen buf /\ r.1.1.2 = zlen buf /\ f_dirty s' = false) /\ (r.1.1.1 <> NFS3_OK -> r.1.1.2 = 0).
Lemma write_failed st how d s' k : wrote k None s' -> (st =? NFS3_OK) = false -> write_done (st, 0, how, d) s'.
Proof. intros H E. exists k. split; [done|]. cbn. split; [|done]. intros ->. discriminate E. Qed.
Lemma wrote_none b : wrote 0 None (File None data b).
Proof. split_and!; [done|apply zlen_nonneg|done|]. cbn. by rewrite ztake_neg. Qed.

Lemma from_write stable : from (File None data false) (ext_op_write fuel uid gid fsid ino off buf stable) write_done.
Proof.
  unfold ext_op_write. eapply from_bind; [apply from_valid|]. intros [st i] s' [-> _].
  destruct (st =? NFS3_OK) eqn:Est; cbn [negb].
  2: { from_tac. eapply write_failed; [apply wrote_none|done]. }
  cbv zeta. apply from_idle; [apply idle_fill|]. intros pre.
  destruct (LINUX_S_ISDIR _); [from_tac; by eapply write_failed; [apply wrote_none|]|].
  destruct (negb (LINUX_S_ISREG _)); [from_tac; by eapply write_failed; [apply wrote_none|]|].
  apply from_step. intros [ec ef] _. cbn [file_step fst snd]. rewrite Z.eqb_refl. cbn [andb].
  destruct (ec =? 0) eqn:E; cbn [negb]; [|from_tac; eapply write_failed; [apply wrote_none|by apply err_not_ok]].
  apply from_step. intros ec2 _. cbn [file_step]. rewrite (on_here ef 0) by done.
  destruct (ec2 =? 0) eqn:E2; cbn [negb].
  2: { apply from_step. intros cec _. cbn [file_step]. rewrite (on_here ef 0) by done. from_tac.
       eapply write_failed; [apply wrote_none|by apply err_not_ok]. }
  eapply from_bind; [by apply from_write_loop|]. intros r s (k & (Hk & Ho & Hd) & Hall & Hsome).
  destruct r as [[ec3 wr]|].
  - apply from_step. intros cec _. cbn [file_step]. rewrite (on_here _ _ _ _ Ho).
    apply from_idle; [by apply idle_plain|]. intros [rec i2]. cbv beta iota.
    apply from_idle; [from_tac|]. intros d. apply from_ret.
    eapply write_failed; [split; [exact Hk|split; [done|exact Hd]]|]. destruct (ec3 =? 0) eqn:E3; cbn [negb]; [done|by apply err_not_ok].
  - apply from_step. intros ec3 _. cbn [file_step]. rewrite (on_here _ _ _ _ Ho).
    apply from_step. intros cec _. cbn [file_step]. rewrite (on_here ef (off + k)) by (by cbn).
    cbn [f_data f_dirty f_open].
    assert (Hw : forall b, wrote k None (File None (f_data s) b)) by (intros b; split; [exact Hk|split; [done|exact Hd]]).
    destruct (ec3 =? 0) eqn:E3; cbn [negb]; [|from_tac; eapply write_failed; [apply Hw|by apply err_not_ok]].
    destruct (cec =? 0) eqn:E4; cbn [negb]; [|from_tac; eapply write_failed; [apply Hw|by apply err_not_ok]].
    rewrite andb_false_r. apply from_idle; [by apply idle_plain|]. intros [rec i2]. cbv beta iota.
    apply from_idle; [from_tac|]. intros d. apply from_idle; [apply idle_when; from_tac|]. intros _.
    apply from_ret. exists k. split; [apply Hw|]. cbn. split; [|by intros []]. intros _. by rewrite Hall.
Qed.
End Write.
(** ** READ *)
Section Read.
Variables (off count : Z) (d : list byte).
Hypothesis off_ok : 0 <= off.
Hypothesis count_ok : 0 <= count.

(** where the handle is when [got] was read *)
Definition read_at (ef : Z) (got : list byte) (s : file) : Prop :=
  s = File (Some (ef, off + zlen got)) d false /\ got = slice off (zlen got) d.

Lemma from_read_loop ef to_read : 0 <= to_read <= zlen d - off ->
  from (File (Some (ef, off)) d false) (ext_read_loop fuel ef to_read) (fun r s' =>
    (exists p, s' = File (Some (ef, p)) d false) /\
    match r with inl ec => ec <> 0 | inr got => got = slice off to_read d end).
Proof.
  intros Ht. unfold ext_read_loop.
  apply (from_loop (fun got s' => read_at ef got s' /\ zlen got <= to_read)).
  2: { split; [split; [by rewrite zlen_nil, Z.add_0_r|done]|]. rewrite zlen_nil. lia. }
  intros got s [[-> Hg] Hle]. pose proof (zlen_nonneg got). destruct (Z.ltb_spec (zlen got) to_read) as [Hlt|Hge].
  - apply from_step. intros [ec l] Hl. cbn [file_step fst snd]. rewrite (on_here ef (off + zlen got)) by done.
    destruct (Hl (off + zlen got) eq_refl) as (Hs & Hn & He). cbn [fst snd f_data] in Hs, Hn, He. pose proof (zlen_nonneg l).
    cbn [f_data f_dirty]. destruct (ec =? 0) eqn:E; cbn [negb].
    + destruct (zlen l =? 0) eqn:El; apply from_ret.
      * split; [eauto|]. assert (l = []) as -> by (destruct l; [done|rewrite zlen_cons in El; pose proof (zlen_nonneg l); lia]).
        destruct He as [?|?]; [lia|done|lia|]. rewrite Hg at 1. unfold slice. rewrite !ztake_all; [done|rewrite zlen_zdrop; lia..].
      * split; [|rewrite zlen_app; lia]. split; [rewrite zlen_app; do 3 f_equal; lia|].
        rewrite zlen_app, <- slice_app by lia. by rewrite <- Hg, <- Hs.
    + apply from_ret. split; [eauto|]. lia.
  - apply from_ret. split; [eauto|]. by replace to_read with (zlen got) by lia.
Qed.

Definition read_done (r : Z * list byte * bool * option NfsAttr * bool) (s' : file) : Prop :=
  (f_open s' = None /\ f_data s' = d) /\
  (r.1.1.1.1 = NFS3_OK ->
     r.1.1.1.2 = slice off count d /\ r.1.1.2 = (zlen d <=? off + zlen r.1.1.1.2)).
Lemma read_failed st l eof a ok b : (st =? NFS3_OK) = false -> read_done (st, l, eof, a, ok) (File None d b).
Proof. intros E. split; [done|]. cbn. intros ->. discriminate E. Qed.
Lemma from_read : from (File None d false) (ext_op_read fuel uid gid fsid ino off count) read_done.
Proof.
  unfold ext_op_read. eapply from_bind; [apply from_valid|]. intros [st i] s' [-> Hsz]. cbn [fst snd f_data] in Hsz.
  destruct (st =? NFS3_OK) eqn:Est; cbn [negb]; [|apply from_ret; by apply read_failed].
  rewrite Hsz by lia. apply from_idle; [apply idle_fill|]. intros a.
  destruct (LINUX_S_ISDIR _); [apply from_ret; by apply read_failed|].
  destruct (negb (LINUX_S_ISREG _)); [apply from_ret; by apply read_failed|]. cbv zeta.
  destruct ((zlen d <=? off) || (count =? 0)) eqn:E0.
  { apply from_ret. split; [done|]. intros _. cbn. rewrite Z.add_0_r. split; [|done]. unfold slice.
    apply orb_true_iff in E0 as [E0|E0]; [rewrite zdrop_all by lia; unfold ztake; by rewrite take_nil|by rewrite ztake_neg by lia]. }
  apply orb_false_iff in E0 as [E1 E2].
  apply from_step. intros [ec ef] _. cbn [file_step fst snd]. rewrite Z.eqb_refl. cbn [andb].
  destruct (ec =? 0) eqn:E; cbn [negb]; [|apply from_ret; by apply read_failed, err_not_ok].
  apply from_step. intros ec2 _. cbn [file_step]. rewrite (on_here ef 0) by done. cbn [f_data f_dirty].
  destruct (ec2 =? 0) eqn:E3; cbn [negb].
  2: { apply from_step. intros cec _. cbn [file_step]. rewrite (on_here ef 0) by done. apply from_ret. by apply read_failed, err_not_ok. }
  eapply from_bind; [apply from_read_loop; case_match; lia|]. intros r s [[p ->] Hr].
  apply from_step. intros cec _. cbn [file_step]. rewrite (on_here ef p) by done. cbn [f_data f_dirty].
  destruct r as [ec3|got]; apply from_ret; [apply read_failed, err_not_ok; lia|].
  split; [done|]. intros _. cbn. split; [|done]. rewrite Hr. destruct (Z.ltb_spec (zlen d - off) count); [|done].
  unfold slice. rewrite !ztake_all; [done|rewrite zlen_zdrop; lia..].
Qed.
End Read.
End Transfer.

(** * The theorems *)

(** C21: WRITE does to the file what pwrite does. Whatever happens, the file
    then holds what it held with the first [k] bytes of the buffer at the
    offset (a gap before it zero), and no handle is left open. A success means
    that all of the buffer is there, that it was flushed, and that the client
    is told so; a failure is reported with a count of 0. *)
Theorem ext_op_write_correct fuel uid gid fsid ino off buf stable data c t c' st n how d :
  0 <= off ->
  mexec (ext_op_write fuel uid gid fsid ino off buf stable) c t c' (st, n, how, d) ->
  lawful ino t (File None data false) ->
  exists k, 0 <= k <= zlen buf /\
    f_open (file_run ino t (File None data false)) = None /\
    f_data (file_run ino t (File None data false)) = splice off (ztake k buf) data /\
    (st = NFS3_OK -> k = zlen buf /\ n = zlen buf /\ f_dirty (file_run ino t (File None data false)) = false) /\
    (st <> NFS3_OK -> n = 0).
Proof.
  intros Ho H Hl. destruct (from_write fuel uid gid fsid ino off buf data Ho stable _ _ _ _ H Hl) as (k & (? & ? & ?) & H1 & H2).
  exists k. cbn [fst snd] in H1, H2. tauto.
Qed.

(** C22: READ returns the file: a success carries exactly the bytes from the
    offset on that there are, up to the count asked for, and says whether the
    end was reached; the file is left as it was and closed. *)
Theorem ext_op_read_correct fuel uid gid fsid ino off count data c t c' st bytes eof a ok :
  0 <= off -> 0 <= count ->
  mexec (ext_op_read fuel uid gid fsid ino off count) c t c' (st, bytes, eof, a, ok) ->
  lawful ino t (File None data false) ->
  f_open (file_run ino t (File None data false)) = None /\
  f_data (file_run ino t (File None data false)) = data /\
  (st = NFS3_OK -> bytes = slice off count data /\ eof = (zlen data <=? off + zlen bytes)).
Proof.
  intros Ho Hc H Hl. destruct (from_read fuel uid gid fsid ino off count data Ho Hc _ _ _ _ H Hl) as ([? ?] & H1).
  cbn [fst snd] in H1. tauto.
Qed.

(** What a successful WRITE stored a READ of the same range returns,
    byte for byte, when both succeed, whatever the pieces in which the library
    moved them. *)
Theorem write_then_read fuel uid gid fsid ino off buf stable data c t c1 n how d u c2 bytes eof a ok :
  0 <= off ->
  mexec (ext_op_write fuel uid gid fsid ino off buf stable) c t c1 (NFS3_OK, n, how, d) ->
  mexec (ext_op_read fuel uid gid fsid ino off (zlen buf)) c1 u c2 (NFS3_OK, bytes, eof, a, ok) ->
  lawful ino (t ++ u) (File None data false) -> bytes = buf.
Proof.
  intros Ho Hw Hr [Hl1 Hl2]%abides_app.
  destruct (from_write fuel uid gid fsid ino off buf data Ho stable _ _ _ _ Hw Hl1) as (k & (Hk & Ho1 & Hd) & Hok & _).
  destruct (Hok eq_refl) as (-> & _ & Hf). rewrite (ztake_all (zlen buf)) in Hd by lia.
  unfold file_run in *. destruct (observe (file_step ino) t (File None data false)) as [op dd dirty]. cbn in Ho1, Hd, Hf. subst.
  destruct (from_read fuel uid gid fsid ino off (zlen buf) _ Ho (zlen_nonneg buf) _ _ _ _ Hr Hl2) as (_ & Hb).
  destruct (Hb eq_refl) as [Hbytes _]. cbn in Hbytes. subst. by apply slice_splice.
Qed.

(** A library that has one file and moves at most three bytes at a time, for
    the witnesses. *)
Definition file_inode (n : Z) : ext2_inode :=
  set_size n 0 (set_links 1 (set_mode (Z.lor LINUX_S_IFREG 420) zero_inode)).
Definition file_env : handler file := fun X e s =>
  let x := match e in ev X return X with
    | EInodesCount => 100
    | EReadInode _ => (0, file_inode (zlen (f_data s)))
    | EFileOpen _ _ => (0, 7)
    | EFileRead _ n => (0, match f_open s with Some (_, p) => slice p (Z.min n 3) (f_data s) | None => [] end)
    | EFileWrite _ b => (0, Z.min 3 (zlen b))
    | e => default_answer e
    end in (x, file_step 12 (Obs e x) s).
Definition the_file : file := File None (bytes_of_string "rufux") false.
Definition the_write : M (Z * Z * Z * DirOut) := ext_op_write 10 0 0 0 12 3 (bytes_of_string "mount") FILE_SYNC.
Definition the_read : M (Z * list byte * bool * option NfsAttr * bool) := ext_op_read 10 0 0 0 12 3 5.
Definition the_trace {A} (m : M A) (s : file) : list obs := (mrun file_env m ∅ s).1.2.
Definition written : file := (mrun file_env the_write ∅ the_file).2.
Definition write_reply : DirOut := Dout (Wcc true 5 0 0 0 0) (Some (Attr 1 420 1 0 0 8 0 0 0 0 12 0 0 0 0 0 0)) true.
Definition read_reply : option NfsAttr := Some (Attr 1 420 1 0 0 8 0 0 0 0 12 0 0 0 0 0 0).
Lemma the_write_runs : mexec (ext_op_write 10 0 0 0 12 3 (bytes_of_string "mount") FILE_SYNC) ∅
  (the_trace the_write the_file) ∅ (NFS3_OK, 5, FILE_SYNC, write_reply).
Proof. apply (run_exec file_env _ the_file _ _ written). vm_compute. reflexivity. Qed.
Lemma the_read_runs : mexec (ext_op_read 10 0 0 0 12 3 (zlen (bytes_of_string "mount"))) ∅
  (the_trace the_read written) ∅ (NFS3_OK, bytes_of_string "mount", true, read_reply, true).
Proof. apply (run_exec file_env _ written _ _ written). vm_compute. reflexivity. Qed.

(** [lawful], computed *)
Definition lawful_stepb (ino : Z) (o : obs) (s : file) : bool :=
  match o with
  | Obs e x =>
      match e in ev X return X -> bool with
      | EFileRead h n => fun x =>
          match f_open s with
          | Some (h', p) => negb (h =? h') ||
              bool_decide (x.2 = slice p (zlen x.2) (f_data s)) && (zlen x.2 <=? n) &&
              (negb (x.1 =? 0) || negb (bool_decide (x.2 = [])) || (n <=? 0) || (zlen (f_data s) <=? p))
          | None => true
          end
      | EFileWrite _ b => fun x => (0 <=? x.2) && (x.2 <=? zlen b)
      | EReadInode i => fun x => negb (i =? ino) || negb (x.1 =? 0) || (EXT2_I_SIZE x.2 =? zlen (f_data s))
      | _ => fun _ => true
      end x
  end.
Fixpoint lawfulb (ino : Z) (t : list obs) (s : file) : bool :=
  match t with [] => true | o :: t => lawful_stepb ino o s && lawfulb ino t (file_step ino o s) end.
Lemma lawfulb_lawful ino t s : lawfulb ino t s = true -> lawful ino t s.
Proof.
  revert s; induction t as [|o t IH]; intros s; cbn [lawfulb lawful]; [done|]. intros [Ho Ht]%andb_true_iff.
  split; [|by apply IH]. clear -Ho. destruct o as [X e x]. destruct e; cbn in Ho |- *; try done.
  - intros -> H1. rewrite H1, !Z.eqb_refl in Ho. cbn in Ho. lia.
  - intros p Hp. rewrite Hp, Z.eqb_refl in Ho. cbn in Ho.
    apply andb_true_iff in Ho as [[H1%bool_decide_eq_true H2]%andb_true_iff H3]. split; [done|]. split; [lia|].
    intros E1 E2. rewrite E1, E2 in H3. cbn in H3. lia.
  - lia.
Qed.

Lemma ext_op_write_correct_witness :
  lawful 12 (the_trace the_write the_file) (File None (bytes_of_string "rufux") false) /\
  f_data (file_run 12 (the_trace the_write the_file) (File None (bytes_of_string "rufux") false))
  = bytes_of_string "rufmount".
Proof.
  assert (Hl : lawful 12 (the_trace the_write the_file) (File None (bytes_of_string "rufux") false))
    by (apply lawfulb_lawful; vm_compute; reflexivity).
  split; [exact Hl|].
  destruct (ext_op_write_correct 10 0 0 0 12 3 (bytes_of_string "mount") FILE_SYNC (bytes_of_string "rufux")
    _ _ _ _ _ _ _ ltac:(lia) the_write_runs Hl) as (k & _ & _ & E & Hok & _).
  rewrite E. destruct (Hok eq_refl) as (-> & _ & _). vm_compute. reflexivity.
Defined.
Lemma ext_op_read_correct_witness :
  lawful 12 (the_trace the_read written) (File None (bytes_of_string "rufmount") false) /\
  bytes_of_string "mount" = slice 3 (zlen (bytes_of_string "mount")) (bytes_of_string "rufmount").
Proof.
  assert (Hl : lawful 12 (the_trace the_read written) (File None (bytes_of_string "rufmount") false))
    by (apply lawfulb_lawful; vm_compute; reflexivity).
  split; [exact Hl|].
  destruct (ext_op_read_correct 10 0 0 0 12 3 (zlen (bytes_of_string "mount")) (bytes_of_string "rufmount")
    _ _ _ _ _ _ _ _ ltac:(lia) (zlen_nonneg _) the_read_runs Hl) as (_ & _ & Hok).
  apply (Hok eq_refl).
Defined.
Lemma write_then_read_witness :
  lawful 12 (the_trace the_write the_file ++ the_trace the_read written) (File None (bytes_of_string "rufux") false) /\
  bytes_of_string "mount" = bytes_of_string "mount".
Proof.
  assert (Hl : lawful 12 (the_trace the_write the_file ++ the_trace the_read written) (File None (bytes_of_string "rufux") false))
    by (apply lawfulb_lawful; vm_compute; reflexivity).
  split; [exact Hl|].
  exact (write_then_read 10 0 0 0 12 3 (bytes_of_string "mount") FILE_SYNC (bytes_of_string "rufux")
    _ _ _ _ _ _ _ _ _ _ _ _ ltac:(lia) the_write_runs the_read_runs Hl).
Defined.

(** * The server answers *)
Section Returns.
Variables (fuel : nat) (uid gid fsid : Z).
Hypothesis fuel_ok : MOUNTD_MAX_IO_SIZE < Z.of_nat fuel.
Let Rt : forall A, M A -> Prop := fun A => @returns posix A.

Lemma r_call {X : Set} (e : ev X) : Rt _ (mcall e).
Proof. by intros c t _ (x & t' & -> & H). Qed.
Lemma r_valid ino : Rt _ (ext_read_valid_inode ino).
Proof. apply (@s_read_valid Rt _). intros. apply r_call. Qed.
Lemma r_fill ino i : Rt _ (ext_fill_attr uid gid fsid ino i).
Proof. apply (@s_fill_attr Rt _). intros. apply r_call. Qed.
Lemma r_now : Rt _ ext_now_sec.
Proof. apply (@s_now Rt _). intros. apply r_call. Qed.
Lemma r_read_loop ef n : n <= MOUNTD_MAX_IO_SIZE -> Rt _ (ext_read_loop fuel ef n).
Proof.
  intros Hn. apply (returns_loop _ (fun got => Z.to_nat (n - zlen got)) (fun _ => True)); [| |done|cbv beta; change (zlen (@nil byte)) with 0; unfold MOUNTD_MAX_IO_SIZE in *; lia].
  - intros got. case_match; [|apply l_ret]. apply l_seq; [apply r_call|]. intros [ec l]. repeat case_match; apply l_ret.
  - intros c t c' got got' _ _ H. split; [done|]. destruct (Z.ltb_spec (zlen got) n); [|by apply mexec_ret in H as (_ & _ & ?)].
    apply mexec_bind in H as (t1 & c1 & [ec l] & t2 & -> & _ & H). destruct (negb _); [by apply mexec_ret in H as (_ & _ & ?)|].
    destruct (Z.eqb_spec (zlen l) 0); [by apply mexec_ret in H as (_ & _ & ?)|].
    apply mexec_ret in H as (_ & _ & [= ->]). rewrite zlen_app. pose proof (zlen_nonneg l). lia.
Qed.
Lemma r_write_loop ef buf : zlen buf <= MOUNTD_MAX_IO_SIZE -> Rt _ (ext_write_loop fuel ef buf).
Proof.
  intros Hn. apply (returns_loop _ (fun k => Z.to_nat (zlen buf - k)) (fun _ => True)); [| |done|unfold MOUNTD_MAX_IO_SIZE in *; lia].
  - intros k. case_match; [|apply l_ret]. apply l_seq; [apply r_call|]. intros [ec l]. repeat case_match; apply l_ret.
  - intros c t c' k k' _ Ht H. split; [done|]. destruct (Z.ltb_spec k (zlen buf)); [|by apply mexec_ret in H as (_ & _ & ?)].
    apply mexec_bind in H as (t1 & c1 & [ec w] & t2 & -> & (-> & _)%mexec_call & H).
    apply Forall_app in Ht as [[Hp _]%list.Forall_cons _]. cbn in Hp.
    destruct (negb _ || _) eqn:E; [by apply mexec_ret in H as (_ & _ & ?)|]. apply orb_false_iff in E as [_ E].
    apply mexec_ret in H as (_ & _ & [= ->]). lia.
Qed.

Ltac returns_step :=
  match goal with
  | |- Rt _ (mbind _ _) => apply l_seq
  | |- Rt _ (mret _) => apply l_ret
  | |- Rt _ (mcall _) => apply r_call
  | |- Rt _ (mwhen _ _) => apply l_when; intros
  | |- Rt _ (ext_read_valid_inode _) => apply r_valid
  | |- Rt _ (ext_fill_attr _ _ _ _ _) => apply r_fill
  | |- Rt _ ext_now_sec => apply r_now
  | |- Rt _ (ext_read_loop _ _ _) => apply r_read_loop
  | |- Rt _ (ext_write_loop _ _ _) => apply r_write_loop
  | |- Rt _ (match ?x with _ => _ end) => destruct x eqn:?
  | |- forall _, _ => intro
  end.
Ltac returns_tac := repeat (cbv beta iota zeta; returns_step).

Lemma ext_backend_returns : Sat Rt (ext_backend fuel uid gid fsid).
Proof.
  apply (@ext_backend_sat Rt _).
  - intros. apply r_call.
  - by intros k p c t _ [].
  - intros. unfold ext_set_file_size. returns_tac.
  - intros. unfold ext_init_extents. returns_tac.
  - intros. unfold ext_op_readlink. returns_tac.
  - intros ino off count Hc. unfold ext_op_read. returns_tac. case_match; lia.
  - intros ino off buf stable Hb. unfold ext_op_write. returns_tac. done.
Qed.
End Returns.

(** a READ of the file of [file_env], by its handle *)
Definition read_call : list byte :=
  be32 8 ++ be32 RPC_CALL ++ be32 2 ++ be32 NFS_PROGRAM ++ be32 NFS_V3 ++ be32 6 ++ be32 0 ++ be32 0 ++ be32 0 ++ be32 0
  ++ enc_opaque (be64 12) ++ be64 3 ++ be32 5.
Definition the_dispatch : M (option XdrBuf) :=
  @dispatch_rpc_call (ext_backend 10 0 0 0) no_attr [] read_call empty_buf.

Definition the_reply : XdrBuf :=
  match (mrun file_env the_dispatch ∅ written).1.1 with Some (_, Some b) => b | _ => empty_buf end.
Lemma the_dispatch_runs :
  mexec (@dispatch_rpc_call (ext_backend 10 0 0 0) no_attr [] read_call empty_buf) ∅
    (the_trace the_dispatch written) ∅ (Some the_reply).
Proof. apply (run_exec file_env _ written _ _ written). vm_compute. reflexivity. Qed.

(** C27: Every file and every extent handle of libext2fs that a call opens has
    been closed when the call's reply is ready, on each of the error paths too:
    a client cannot make the server run out of them. *)
Theorem handles_balanced fuel uid gid fsid junk writeverf msg out c t c' r :
  mexec (@dispatch_rpc_call (ext_backend fuel uid gid fsid) junk writeverf msg out) c t c' r -> handles t = 0.
Proof.
  apply (@s_dispatch (fun A => @mtraces (fun t => handles t = 0) A) _ _ (ext_backend_balanced fuel uid gid fsid)).
Qed.
Lemma handles_balanced_witness :
  mexec (@dispatch_rpc_call (ext_backend 10 0 0 0) no_attr [] read_call empty_buf) ∅
    (the_trace the_dispatch written) ∅ (Some the_reply) /\
  word 6 the_reply = NFS3_OK /\ handles (the_trace the_dispatch written) = 0.
Proof.
  split; [exact the_dispatch_runs|]. split; [vm_compute; reflexivity|].
  exact (handles_balanced _ _ _ _ _ _ _ _ _ _ _ _ the_dispatch_runs).
Defined.

(** * What a reply to WRITE claims *)
Definition syncs {X : Set} (e : ev X) : bool :=
  match e with EWriteBitmaps | EFlush | EIoFlush => true | _ => false end.

(** WRITE answers that the data is on stable storage (FILE_SYNC) whatever
    the client asked for, although of an UNSTABLE write neither the bitmaps nor
    the file system are written back; a client that trusts the answer never
    sends the COMMIT that would do it. *)
Theorem unstable_write_claims_sync fuel uid gid fsid ino off buf :
  malways (fun X e => syncs e = false) (ext_op_write fuel uid gid fsid ino off buf UNSTABLE) /\
  mends (fun r => r.1.2 = FILE_SYNC) (ext_op_write fuel uid gid fsid ino off buf UNSTABLE).
Proof.
  split.
  - unfold ext_op_write, ext_read_valid_inode, ext_fill_attr, ext_write_loop, ext_now_sec. malways_tac; done.
  - unfold ext_op_write. mends_tac; done.
Qed.
