(* ===== verification/Ext2DirSpec.v ===== *)
(** The ext backend's operations on names against the invariant that fsck
    checks of an inode: its link count is the number of entries that name it,
    and it is in use exactly when there is one. *)
From S2P Require Import Prelude Cstr Ext2fs Sys Xdr Mountd Nfsd NfsdSpec Ext2 Ext2Spec.

(** * An inode that is not a directory, and what names it *)
Record usage_of := Inu { u_links : Z; u_entries : Z; u_used : Z }.
Definition inode_ok (s : usage_of) : Prop :=
  0 <= u_links s /\ u_entries s = u_links s /\ u_used s = if u_links s =? 0 then 0 else 1.
Definition links_to (i : ext2_inode) (s : usage_of) : usage_of := Inu (i_links_count i) (u_entries s) (u_used s).
(** the inode [n] after one call and its answer *)
Definition usage_step (n : Z) (o : obs) (s : usage_of) : usage_of :=
  match o with
  | Obs e x =>
      match e in ev X return X -> usage_of with
      | EWriteInode i v => fun _ => if i =? n then links_to v s else s
      | EWriteNewInode i v => fun x => if (i =? n) && (x =? 0) then links_to v s else s
      | EAllocStats i k _ => fun _ => if i =? n then Inu (u_links s) (u_entries s) (u_used s + k) else s
      | ELink _ _ i _ => fun x => if (i =? n) && (x =? 0) then Inu (u_links s) (u_entries s + 1) (u_used s) else s
      | EUnlink _ _ i => fun x => if (i =? n) && (x =? 0) then Inu (u_links s) (u_entries s - 1) (u_used s) else s
      | _ => fun _ => s
      end x
  end.
(** What the library may answer: an inode it reads is as it was last written,
    its link count has 16 bits and it is no directory; a new inode is one that
    is not in use; an inode that is written is stored; when [strict], an entry
    that was found can be removed. *)
Definition usage_law (strict : bool) (n : Z) (o : obs) (s : usage_of) : Prop :=
  match o with
  | Obs e x =>
      match e in ev X return X -> Prop with
      | EReadInode i => fun x => i = n -> x.1 = 0 ->
          i_links_count x.2 = u_links s /\ i_links_count x.2 < 65536 /\ LINUX_S_ISDIR (i_mode x.2) = false
      | ENewInode _ _ => fun x => x.1 = 0 -> x.2 = n -> u_used s = 0
      | EWriteInode i _ => fun x => i = n -> x = 0
      | EUnlink _ _ _ => fun x => strict = true -> x = 0
      | _ => fun _ => True
      end x
  end.

Section Inode.
Variables (fuel : nat) (uid gid fsid : Z).
Variables (strict : bool) (n : Z).
#[local] Abbreviation step := (usage_step n).
#[local] Abbreviation law := (usage_law strict n).
#[local] Abbreviation from := (from step law).
#[local] Abbreviation idle := (idle step).
(** [m] leaves the inode as it is *)
Definition keeps {A} (m : M A) : Prop := forall s, from s m (fun _ s' => s' = s).
(** [m] keeps the invariant *)
Definition sound {A} (s : usage_of) (m : M A) : Prop := from s m (fun _ s' => inode_ok s').

Lemma keeps_ret {A} (a : A) : keeps (mret a).
Proof. intros s. by apply from_ret. Qed.
Lemma keeps_seq {A B} (m : M A) (f : A -> M B) : keeps m -> (forall a, keeps (f a)) -> keeps (mbind m f).
Proof. intros Hm Hf s. eapply from_bind; [apply Hm|]. intros a ? ->. apply Hf. Qed.
Lemma keeps_idle {A} (m : M A) : idle m -> keeps m.
Proof. intros H s c t c' a Hx _. by eapply H. Qed.
Lemma keeps_when b m : keeps m -> keeps (mwhen b m).
Proof. intros H. destruct b; [done|apply keeps_ret]. Qed.
Lemma keeps_set k p : keeps (mset_parent k p).
Proof. apply keeps_idle, idle_set. Qed.
Lemma keeps_call {X : Set} (e : ev X) : (forall x s, step (Obs e x) s = s) -> keeps (mcall e).
Proof. intros H. by apply keeps_idle, idle_call. Qed.
Lemma from_keeps {A B} s (m : M A) (f : A -> M B) Q : keeps m -> (forall a, from s (f a) Q) -> from s (mbind m f) Q.
Proof. intros Hm Hf. eapply from_bind; [apply Hm|]. by intros a ? ->. Qed.
Lemma sound_keeps {A} s (m : M A) : inode_ok s -> keeps m -> sound s m.
Proof. intros Hs Hm. eapply from_mono; [|apply Hm]. by intros a ? ->. Qed.

(** ** What was read, and is written back *)

(** [i] is the inode number [ino] as it is *)
Definition is_now (ino : Z) (i : ext2_inode) (s : usage_of) : Prop :=
  ino = n -> i_links_count i = u_links s /\ i_links_count i < 65536 /\ LINUX_S_ISDIR (i_mode i) = false.
Lemma from_read_inode {B} ino s (f : Z * ext2_inode -> M B) Q :
  (forall ec i, (ec = 0 -> is_now ino i s) -> from s (f (ec, i)) Q) -> from s (mbind (mcall (EReadInode ino)) f) Q.
Proof. intros H. apply from_step. intros [ec i] Hl. cbn [usage_step]. apply H. intros -> E. by apply Hl. Qed.
Lemma valid_spec ino s : from s (ext_read_valid_inode ino)
  (fun r s' => s' = s /\ (r.1 = NFS3_OK -> is_now ino r.2 s /\ i_links_count r.2 <> 0)).
Proof.
  unfold ext_read_valid_inode. apply from_idle; [by apply idle_call|]. intros k.
  destruct (_ || _); [by apply from_ret|]. apply from_idle; [by apply idle_call|]. intros used.
  assert (Hr : from s (' (ec, i) <~ mcall (EReadInode ino) ;;
        if negb (ec =? 0) then mret (ext_err_to_nfs3 ec, i)
        else if i_links_count i =? 0 then mret (NFS3ERR_STALE, i) else mret (NFS3_OK, i))
      (fun r s' => s' = s /\ (r.1 = NFS3_OK -> is_now ino r.2 s /\ i_links_count r.2 <> 0))).
  { apply from_read_inode. intros ec i Hi. destruct (ec =? 0) eqn:E; cbn [negb].
    - destruct (Z.eqb_spec (i_links_count i) 0); apply from_ret; (split; [done|]); cbn; [done|]. intros _. split; [|done]. apply Hi. lia.
    - apply from_ret. split; [done|]. cbn. intros Hst. apply err_not_ok in E. by rewrite Hst in E. }
  destruct used as [[|]|]; [exact Hr|by apply from_ret|exact Hr].
Qed.
Lemma from_valid_inode {B} ino s (f : Z * ext2_inode -> M B) Q :
  (forall st i, (st = NFS3_OK -> is_now ino i s /\ i_links_count i <> 0) -> from s (f (st, i)) Q) ->
  from s (mbind (ext_read_valid_inode ino) f) Q.
Proof. intros H. eapply from_bind; [apply valid_spec|]. intros [st i] ? [-> Hi]. by apply H. Qed.
Lemma keeps_write {B} ino i s (f : Z -> M B) Q :
  (ino = n -> i_links_count i = u_links s) -> (forall x, (ino = n -> x = 0) -> from s (f x) Q) ->
  from s (mbind (mcall (EWriteInode ino i)) f) Q.
Proof.
  intros Hi Hf. apply from_step. intros x Hx. cbn [usage_step].
  destruct (Z.eqb_spec ino n) as [E|E]; [|by apply Hf]. unfold links_to. rewrite (Hi E). destruct s. by apply Hf.
Qed.

(** [keeps_tac]: a program call by call, up to those that move the state *)
Create HintDb keeps.
Ltac keeps_step :=
  match goal with
  | |- keeps (mbind (ext_read_valid_inode _) _) => intro; apply from_valid_inode; intros
  | |- keeps (mbind (mcall (EReadInode _)) _) => intro; apply from_read_inode; intros
  | |- keeps (mbind _ _) => apply keeps_seq; intros
  | |- keeps (mtry _ _) => unfold mtry
  | |- keeps (mret _) => apply keeps_ret
  | |- keeps (mset_parent _ _) => apply keeps_set
  | |- keeps (mwhen _ _) => apply keeps_when
  | |- keeps (mcall _) => by apply keeps_call
  | |- keeps (match ?x with _ => _ end) => destruct x eqn:?
  | |- keeps _ => solve [auto with keeps]
  | |- from _ (mbind (ext_read_valid_inode _) _) _ => apply from_valid_inode; intros
  | |- from _ (mbind (mcall (EReadInode _)) _) _ => apply from_read_inode; intros
  | |- from _ (mbind _ _) _ => apply from_keeps; [|intros]
  | |- from _ (mret _) _ => apply from_ret; reflexivity
  | |- from _ (match ?x with _ => _ end) _ => destruct x eqn:?
  end.
Ltac keeps_tac := repeat (cbv beta iota zeta; keeps_step).

Lemma keeps_now : keeps ext_now_sec.
Proof. unfold ext_now_sec. keeps_tac. Qed.
Lemma keeps_valid ino : keeps (ext_read_valid_inode ino).
Proof. unfold ext_read_valid_inode. keeps_tac. Qed.
Lemma keeps_fill ino i : keeps (ext_fill_attr uid gid fsid ino i).
Proof. unfold ext_fill_attr. keeps_tac. Qed.
Hint Resolve keeps_now keeps_valid keeps_fill : keeps.
Lemma keeps_getattr ino : keeps (ext_op_getattr uid gid fsid ino).
Proof. unfold ext_op_getattr. keeps_tac. Qed.
Lemma keeps_dir_after dir dpre : keeps (ext_dir_after uid gid fsid dir dpre).
Proof. unfold ext_dir_after. apply keeps_seq; [apply keeps_getattr|]. intros []. apply keeps_ret. Qed.
Lemma keeps_enter dir name long : keeps (ext_enter_dir uid gid fsid dir name long).
Proof. unfold ext_enter_dir. keeps_tac. Qed.
Hint Resolve keeps_getattr keeps_dir_after keeps_enter : keeps.

Lemma links_times a c m i : i_links_count (set_times a c m i) = i_links_count i.
Proof. done. Qed.
Lemma keeps_touch dir : keeps (ext_touch_dir dir).
Proof.
  intros s. unfold ext_touch_dir. apply from_read_inode. intros ec i Hi. destruct (ec =? 0) eqn:E; [|by apply from_ret].
  apply from_keeps; [apply keeps_now|]. intros now. apply keeps_write; [|by intros; apply from_ret].
  intros ->. apply Hi; [lia|done].
Qed.
Hint Resolve keeps_touch : keeps.

(** the links of an inode that SETATTR changes *)
Lemma sattr_spec i a s : from s (ext_apply_sattr_meta i a) (fun i' s' => s' = s /\ i_links_count i' = i_links_count i).
Proof.
  unfold ext_apply_sattr_meta. apply from_keeps; [apply keeps_now|]. intros now. cbv zeta. apply from_ret. split; [done|].
  repeat case_match; done.
Qed.
Lemma sattr_links {B} i a s (f : ext2_inode -> M B) Q :
  (forall i', i_links_count i' = i_links_count i -> from s (f i') Q) -> from s (mbind (ext_apply_sattr_meta i a) f) Q.
Proof. intros H. eapply from_bind; [apply sattr_spec|]. intros i' ? [-> E]. by apply H. Qed.

(** ** SETATTR *)
Lemma from_set_size ino i m s : from s (ext_set_file_size ino i m)
  (fun r s' => s' = s /\ match r with inr i' => is_now ino i' s | inl _ => True end).
Proof.
  unfold ext_set_file_size. do 2 (case_match; [by apply from_ret|]).
  apply from_idle; [by apply idle_call|]. intros [ec ef]. case_match; [by apply from_ret|].
  do 2 (apply from_idle; [by apply idle_call|]; intros ?). do 2 (case_match; [by apply from_ret|]).
  apply from_read_inode. intros rec i' Hi. destruct (rec =? 0) eqn:E; cbn [negb]; [|by apply from_ret].
  apply from_keeps; [apply keeps_now|]. intros now. apply from_ret. split; [done|]. apply Hi. lia.
Qed.
Lemma keeps_setattr ino a : keeps (ext_op_setattr uid gid fsid ino a).
Proof.
  intros s. unfold ext_op_setattr. apply from_valid_inode. intros st i Hi.
  destruct (st =? NFS3_OK) eqn:Est; cbn [negb]; [|by apply from_ret]. unfold mtry.
  apply (from_bind _ _ _ (fun r s' => s' = s /\ match r with inr i' => is_now ino i' s | inl _ => True end)).
  { destruct (s_set_size a); [apply from_set_size|]. apply from_ret. split; [done|]. apply Hi. lia. }
  intros [e|i'] ? [-> Hi']; [by apply from_ret|]. apply sattr_links. intros i2 E.
  apply keeps_write; [intros H; rewrite E; by apply Hi'|]. intros x _. case_match; [by apply from_ret|].
  apply from_keeps; [apply keeps_fill|]. intros. by apply from_ret.
Qed.
Hint Resolve keeps_setattr : keeps.

(** ** Calls about other inodes *)
Lemma other_write i v : i <> n -> keeps (mcall (EWriteInode i v)).
Proof. intros H. apply keeps_call. intros x s. cbn. by destruct (Z.eqb_spec i n). Qed.
Lemma other_write_new i v : i <> n -> keeps (mcall (EWriteNewInode i v)).
Proof. intros H. apply keeps_call. intros x s. cbn. by destruct (Z.eqb_spec i n). Qed.
Lemma other_alloc i k d : i <> n -> keeps (mcall (EAllocStats i k d)).
Proof. intros H. apply keeps_call. intros x s. cbn. by destruct (Z.eqb_spec i n). Qed.
Lemma other_link dir name i ft : i <> n -> keeps (mcall (ELink dir name i ft)).
Proof. intros H. apply keeps_call. intros x s. cbn. by destruct (Z.eqb_spec i n). Qed.
Lemma other_unlink dir name i : i <> n -> keeps (mcall (EUnlink dir name i)).
Proof. intros H. apply keeps_call. intros x s. cbn. by destruct (Z.eqb_spec i n). Qed.
Hint Resolve other_write other_write_new other_alloc other_link other_unlink : keeps.
Lemma keeps_extents ino i : keeps (ext_init_extents ino i).
Proof. unfold ext_init_extents. keeps_tac. Qed.
Lemma keeps_sattr i a : keeps (ext_apply_sattr_meta i a).
Proof. unfold ext_apply_sattr_meta. keeps_tac. Qed.
Lemma other_expand dir name i ft : i <> n -> keeps (ext_link_with_expand dir name i ft).
Proof. intros H. unfold ext_link_with_expand. keeps_tac. Qed.
Hint Resolve keeps_extents keeps_sattr other_expand : keeps.

Definition entered (k : Z) (s : usage_of) : usage_of := Inu (u_links s) (u_entries s + k) (u_used s).
Lemma link_spec dir name ft s :
  from s (ext_link_with_expand dir name n ft) (fun ec s' => s' = if ec =? 0 then entered 1 s else s).
Proof.
  unfold ext_link_with_expand. apply from_step. intros ec _. cbn [usage_step]. rewrite Z.eqb_refl. cbn [andb].
  destruct (no_space ec) eqn:E; [|by apply from_ret].
  assert ((ec =? 0) = false) as Ee by (unfold no_space, EXT2_ET_DIR_NO_SPACE, EXT2_ET_DIR_NO_SPACE_FOR_CSUM in E; lia).
  rewrite Ee. apply from_idle; [by apply idle_call|]. intros xec. destruct (xec =? 0) eqn:Ex.
  - intros c t c' ec2 (-> & _)%mexec_call _. cbn. rewrite Z.eqb_refl. by destruct (ec2 =? 0).
  - apply from_ret. by rewrite Ex.
Qed.

(** ** CREATE *)
Lemma sound_create dir name mode a s : inode_ok s -> sound s (ext_op_create uid gid fsid dir name mode a).
Proof.
  intros Hs. unfold sound, ext_op_create, mtry. apply from_keeps; [keeps_tac|]. intros [e|dpre]; [by apply from_ret|].
  apply from_idle; [by apply idle_call|]. intros [lec existing]. case_match.
  { apply sound_keeps; [done|]. unfold ext_create_existing. keeps_tac. }
  apply from_step. intros [ec new] Hnew. cbn [usage_step usage_law fst snd] in *.
  destruct (ec =? 0) eqn:E0; cbn [negb]; [|by apply from_ret].
  destruct (Z.eqb_spec new n) as [->|Hne]; [|apply sound_keeps; [done|]; keeps_tac].
  destruct s as [l e u]. destruct Hs as (Hl & He & Hu). cbn in *. rewrite Hnew in * by lia.
  destruct (Z.eqb_spec l 0); [subst|done]. 
  apply from_step. intros [] _. cbn [usage_step]. rewrite Z.eqb_refl. cbn [u_links u_entries u_used Z.add].
  apply from_keeps; [apply keeps_now|]. intros now.
  set (nin := new_file_inode _ _ _ _).
  apply (from_bind _ _ _ (fun i s' => s' = Inu 0 0 1 /\ i_links_count i = 1)).
  { destruct a as [a|]; [|by apply from_ret]. apply sattr_spec. }
  intros nin' ? [-> Hn]. clear nin.
  apply from_step. intros ec2 _. cbn [usage_step]. rewrite Z.eqb_refl. cbn [andb]. unfold links_to. cbn [u_entries u_used]. rewrite Hn.
  set (s := if ec2 =? 0 then Inu 1 0 1 else Inu 0 0 1).
  apply from_keeps; [keeps_tac|]. intros ext. apply from_keeps; [keeps_tac|]. intros nin2.
  apply (from_bind _ _ _ (fun ec s' => s' = if ec =? 0 then Inu 1 1 1 else s)).
  { unfold s. destruct (ec2 =? 0) eqn:E2; [|apply from_ret; by rewrite E2].
    eapply from_mono; [|apply link_spec]. cbn. intros ec3 ? ->. by destruct (ec3 =? 0). }
  intros ec3 ? ->. destruct (ec3 =? 0); cbn [negb].
  - apply sound_keeps; [done|]. keeps_tac.
  - apply from_step. intros x _. cbn [usage_step]. rewrite Z.eqb_refl.
    apply from_step. intros [] _. cbn [usage_step]. rewrite Z.eqb_refl.
    apply sound_keeps; [|keeps_tac]. unfold s. by destruct (ec2 =? 0).
Qed.

(** ** REMOVE *)
Lemma from_find {B} dir name root dpre s (f : (Z * DirOut) + (Z * ext2_inode) -> M B) Q :
  (forall e, from s (f (inl e)) Q) ->
  (forall cino cin, is_now cino cin s -> i_links_count cin <> 0 -> from s (f (inr (cino, cin))) Q) ->
  from s (mbind (ext_find_entry dir name root dpre) f) Q.
Proof.
  intros He Hf. apply (from_bind _ _ _ (fun r s' => s' = s /\
    match r with inr (cino, cin) => is_now cino cin s /\ i_links_count cin <> 0 | inl _ => True end)).
  2: { intros [e|[cino cin]] ? [-> H]; [apply He|]. apply Hf; apply H. }
  unfold ext_find_entry. apply from_idle; [by apply idle_call|]. intros [ec cino]. do 2 (case_match; [by apply from_ret|]).
  apply from_valid_inode. intros st cin H'. destruct (st =? NFS3_OK) eqn:E; cbn [negb]; [|by apply from_ret].
  apply from_ret. split; [done|]. apply H'. lia.
Qed.
Lemma sound_ret {A} s (a : A) : inode_ok s -> sound s (mret a).
Proof. intros. by apply from_ret. Qed.

Lemma sound_remove dir name s : inode_ok s -> sound s (ext_op_remove uid gid fsid dir name).
Proof.
  intros Hs. unfold sound, ext_op_remove, mtry. apply from_keeps; [apply keeps_enter|]. intros [e|dpre]; [by apply from_ret|].
  apply from_find; [intros; by apply from_ret|]. intros cino cin Hi H0. cbv beta iota.
  destruct (LINUX_S_ISDIR (i_mode cin)) eqn:Edir; [by apply from_ret|].
  destruct (Z.eqb_spec cino n) as [->|Hne]; [|apply sound_keeps; [done|]; keeps_tac].
  destruct (Hi eq_refl) as (E1 & E2 & _). rewrite E1 in *.
  destruct s as [l e u]. destruct Hs as (Hl & He & Hu). cbn [u_links u_entries u_used] in *. subst e.
  destruct (Z.eqb_spec l 0); [done|]. subst u.
  apply from_step. intros ec _. cbn [usage_step]. rewrite Z.eqb_refl. cbn [andb u_links u_entries u_used].
  destruct (ec =? 0); cbn [negb].
  2: { apply from_ret. split; [done|]. split; [done|]. cbn. by destruct (Z.eqb_spec l 0). }
  apply from_keeps; [apply keeps_now|]. intros now.
  apply (from_bind _ _ _ (fun _ s' => inode_ok s')); [|intros; apply sound_keeps; [done|]; keeps_tac].
  destruct (Z.ltb_spec 1 l).
  - apply from_step. intros x _. cbn [usage_step]. rewrite Z.eqb_refl. apply from_ret.
    unfold links_to, inode_ok. cbn. rewrite Z.mod_small by lia. split; [lia|]. split; [done|]. by destruct (Z.eqb_spec (l - 1) 0); [lia|].
  - assert (l = 1) as -> by lia. apply from_keeps; [keeps_tac|]. intros fast. apply from_keeps; [keeps_tac|]. intros cin'.
    apply from_step. intros x _. cbn [usage_step]. rewrite Z.eqb_refl. unfold links_to. cbn [u_links u_entries u_used].
    intros c t c' [] (-> & _)%mexec_call _. cbn. rewrite Z.eqb_refl. by split_and!.
Qed.

(** ** LINK *)
Definition linked (s : usage_of) : usage_of := Inu ((u_links s + 1) mod 65536) (u_entries s + 1) (u_used s).
Lemma link_effect dir name s : from s (ext_op_link uid gid fsid n dir name) (fun r s' =>
  if r.1.1.1 =? NFS3_OK then s' = linked s /\ (u_links s <> 0 /\ u_links s < 65536) else s' = s).
Proof.
  unfold ext_op_link. apply from_keeps; [keeps_tac|]. intros [st din].
  destruct (st =? NFS3_OK) eqn:E0; cbn [negb]; [|apply from_ret; cbn; by rewrite E0].
  apply from_keeps; [keeps_tac|]. intros dpre. apply from_valid_inode. intros st2 fin Hfin.
  destruct (st2 =? NFS3_OK) eqn:E; cbn [negb]; [|apply from_ret; cbn; by rewrite E].
  apply from_keeps; [keeps_tac|]. intros fa. cbv zeta. do 4 (case_match; [by apply from_ret|]).
  apply from_idle; [by apply idle_call|]. intros [lec x]. case_match; [by apply from_ret|].
  destruct (Hfin ltac:(lia)) as [Hi Hnz]. destruct (Hi eq_refl) as (E1 & E2 & _).
  eapply from_bind; [apply link_spec|]. cbv beta. intros ec ? ->. destruct (ec =? 0) eqn:Ec; cbn [negb].
  2: { apply from_keeps; [keeps_tac|]. intros d. apply from_ret. cbn. by rewrite (err_not_ok _ Ec). }
  apply from_keeps; [apply keeps_now|]. intros now. rewrite E1.
  apply from_step. intros y _. cbn [usage_step]. rewrite Z.eqb_refl. unfold links_to, entered. cbn [u_links u_entries u_used].
  do 3 (apply from_keeps; [keeps_tac|]; intros ?). apply from_ret. cbn. split; [done|]. lia.
Qed.
Lemma sound_link ino dir name s : inode_ok s -> (ino = n -> u_links s < 65535) ->
  sound s (ext_op_link uid gid fsid ino dir name).
Proof.
  intros Hs Hlt. destruct (Z.eqb_spec ino n) as [->|Hne]; [|apply sound_keeps; [done|]; unfold ext_op_link; keeps_tac].
  eapply from_mono; [|apply link_effect]. cbv beta. intros r s'. case_match; [|by intros ->].
  intros [-> Hl]. destruct s as [l e u]. destruct Hs as (H0 & He & Hu). specialize (Hlt eq_refl).
  unfold inode_ok, linked. cbn in *. rewrite Z.mod_small by lia. subst.
  destruct (Z.eqb_spec l 0), (Z.eqb_spec (l + 1) 0); lia.
Qed.

(** ** RENAME *)
Lemma fill_type ino i : mends (fun a => a_type a = ext_type (i_mode i)) (ext_fill_attr uid gid fsid ino i).
Proof. unfold ext_fill_attr. cbv zeta. apply mends_any. intros blocks. by apply mends_ret. Qed.
Lemma type_dir m : LINUX_S_ISDIR m = false -> ext_type m <> NF3DIR.
Proof. unfold ext_type. intros ->. repeat case_match; done. Qed.
(** a number whose attributes are a directory's *)
Lemma getattr_dir ino s : from s (ext_op_getattr uid gid fsid ino) (fun r s' =>
  s' = s /\ forall a, r.2 = Some a -> a_type a = NF3DIR -> ino <> n).
Proof.
  unfold ext_op_getattr. apply from_valid_inode. intros st i Hi.
  destruct (st =? NFS3_OK) eqn:E; cbn [negb]; [|by apply from_ret].
  apply (from_bind _ _ _ (fun a s' => s' = s /\ a_type a = ext_type (i_mode i))).
  { intros c t c' a Hx Hl. split; [by eapply keeps_fill|by eapply fill_type]. }
  intros a ? [-> Ha]. apply from_ret. split; [done|]. cbn. intros ? [= <-] Hd Hn.
  destruct (Hi ltac:(lia)) as [Hnow _]. destruct (Hnow Hn) as (_ & _ & Hdir). apply type_dir in Hdir. congruence.
Qed.
Lemma rename_enter_spec from n1 to n2 s : Mountd.from step law s (ext_rename_enter uid gid fsid from n1 to n2)
  (fun r s' => s' = s /\ match r with inr m => n_from m = from /\ n_to m = to /\ from <> n /\ to <> n | inl _ => True end).
Proof.
  unfold ext_rename_enter. eapply from_bind; [apply getattr_dir|]. intros [st1 a1] ? [-> H1].
  eapply from_bind; [apply getattr_dir|]. intros [st2 a2] ? [-> H2]. cbn [snd] in H1, H2. cbv zeta.
  repeat (case_match; try (by apply from_ret)); subst. apply from_ret. split; [done|].
  repeat match goal with H : negb _ || _ = false |- _ => apply orb_false_iff in H as [?%negb_false_iff ?%negb_false_iff] end.
  split_and!; [done|done| |]; [eapply H1|eapply H2]; [done|lia|done|lia].
Qed.
Lemma keeps_dotdot ino parent l : keeps (ext_set_dotdot ino parent l).
Proof. induction l as [|d l IH]; cbn [ext_set_dotdot]; keeps_tac; done. Qed.
Hint Resolve keeps_dotdot : keeps.
Lemma keeps_other_read {B} ino (f : Z * ext2_inode -> M B) : (forall r, keeps (f r)) -> keeps (mbind (mcall (EReadInode ino)) f).
Proof. intros H. apply keeps_seq; [by apply keeps_call|done]. Qed.
Lemma keeps_reparent from to ino : from <> n -> to <> n -> keeps (ext_rename_reparent from to ino).
Proof.
  intros Hf Ht. unfold ext_rename_reparent. apply keeps_seq; [by apply keeps_call|]. intros [l x].
  apply keeps_seq; [apply keeps_dotdot|]. intros _. apply keeps_other_read. intros [fec fdin].
  apply keeps_seq; [destruct (fec =? 0); keeps_tac|]. intros _. apply keeps_other_read. intros [tec tdin].
  destruct (tec =? 0); keeps_tac.
Qed.
Lemma keeps_ren_after m st : keeps (ren_after uid gid fsid m st).
Proof. unfold ren_after. keeps_tac. Qed.
Hint Resolve keeps_reparent keeps_ren_after : keeps.

Lemma keeps_rmdir dir name : dir <> n -> keeps (ext_op_rmdir uid gid fsid dir name).
Proof.
  intros Hd s. unfold ext_op_rmdir, mtry. apply from_keeps; [apply keeps_enter|]. intros [e|dpre]; [by apply from_ret|].
  apply from_find; [intros; by apply from_ret|]. intros cino cin Hi H0. cbv beta iota.
  destruct (LINUX_S_ISDIR (i_mode cin)) eqn:Edir; cbn [negb]; [|by apply from_ret].
  assert (Hne : cino <> n) by (intros E; destruct (Hi E) as (_ & _ & ?); congruence).
  match goal with |- from s ?m _ => enough (H : keeps m) by apply H end.
  apply keeps_seq; [by apply keeps_call|]. intros [entries ec]. do 2 (case_match; [apply keeps_ret|]).
  apply keeps_seq; [auto with keeps|]. intros ec2. case_match; [apply keeps_ret|].
  do 4 (apply keeps_seq; [auto with keeps; by apply keeps_call|]; intros ?).
  apply keeps_other_read. intros [rec din]. apply keeps_seq; [destruct (rec =? 0); keeps_tac|]. intros _. keeps_tac.
Qed.

Lemma rename_replace_spec m to_name from_ino fin s : inode_ok s -> n_to m <> n ->
  from s (ext_rename_replace uid gid fsid m to_name from_ino fin) (fun _ s' => inode_ok s').
Proof.
  intros Hs Ht. unfold ext_rename_replace. apply from_idle; [by apply idle_call|]. intros [tec to_ino].
  destruct (tec =? 0); [|case_match; by apply from_ret]. case_match; [by apply from_ret|].
  apply from_keeps; [apply keeps_valid|]. intros [st tin]. case_match; [by apply from_ret|]. cbv zeta.
  do 2 (case_match; [by apply from_ret|]).
  apply (from_bind _ _ _ (fun _ s' => inode_ok s')).
  - case_match; [apply sound_keeps; [done|by apply keeps_rmdir]|by apply sound_remove].
  - intros [st2 d] s' Hs'. case_match; [|by apply from_ret]. apply sound_keeps; [done|]. keeps_tac.
Qed.

Lemma sound_rename from n1 to n2 s : strict = true -> inode_ok s -> sound s (ext_op_rename uid gid fsid from n1 to n2).
Proof.
  intros Hstrict Hs. unfold sound, ext_op_rename, mtry. eapply from_bind; [apply rename_enter_spec|].
  intros [e|m] ? [-> Hm]; [by apply from_ret|]. destruct Hm as (_ & Em & Hf & Ht).
  apply from_idle; [by apply idle_call|]. intros [ec from_ino]. case_match; [by apply from_ret|].
  apply from_keeps; [apply keeps_valid|]. intros [st fin]. case_match; [by apply from_ret|].
  eapply from_bind; [apply rename_replace_spec; [done|congruence]|]. intros [e|u] s' Hs'; [by apply from_ret|].
  assert (Hrest : keeps (
      mwhen (LINUX_S_ISDIR (i_mode fin) && negb (from =? to)) (ext_rename_reparent from to from_ino) ~;;
      ext_touch_dir from ~;; mwhen (negb (to =? from)) (ext_touch_dir to) ~;; mset_parent from_ino to ~;;
      ren_after uid gid fsid m NFS3_OK)).
  { apply keeps_seq; [apply keeps_when; auto with keeps|]. intros _. keeps_tac. }
  destruct (Z.eqb_spec from_ino n) as [->|Hne].
  2: { apply sound_keeps; [done|]. apply keeps_seq; [auto with keeps|]. intros ec2. case_match; [apply keeps_ren_after|].
       apply keeps_seq; [auto with keeps|]. intros ec3. case_match; [apply keeps_ren_after|done]. }
  eapply from_bind; [apply link_spec|]. cbv beta. intros ec2 ? ->. destruct (ec2 =? 0); cbn [negb].
  2: { apply sound_keeps; [done|]. apply keeps_ren_after. }
  apply from_step. intros ec3 Hu. rewrite (Hu Hstrict). cbn [usage_step negb Z.eqb]. rewrite Z.eqb_refl. cbn [andb].
  apply sound_keeps; [|done]. destruct s' as [l e u']. unfold entered. cbn [u_links u_entries u_used].
  by replace (e + 1 - 1) with e by lia.
Qed.
End Inode.

(** * The theorems *)
Inductive name_op :=
| OpCreate (dir : Z) (name : string) (mode : Z) (s : option SAttr3)
| OpRemove (dir : Z) (name : string)
| OpLink (ino dir : Z) (name : string)
| OpRename (from : Z) (from_name : string) (to : Z) (to_name : string)
| OpSetattr (ino : Z) (s : SAttr3).
Definition is_rename (op : name_op) : bool := match op with OpRename _ _ _ _ => true | _ => false end.
Definition mforget {A} (m : M A) : M unit := m ~;; mret tt.
Definition run_op (uid gid fsid : Z) (op : name_op) : M unit :=
  match op with
  | OpCreate dir name mode s => mforget (ext_op_create uid gid fsid dir name mode s)
  | OpRemove dir name => mforget (ext_op_remove uid gid fsid dir name)
  | OpLink ino dir name => mforget (ext_op_link uid gid fsid ino dir name)
  | OpRename from n1 to n2 => mforget (ext_op_rename uid gid fsid from n1 to n2)
  | OpSetattr ino s => mforget (ext_op_setattr uid gid fsid ino s)
  end.
Lemma from_forget {A} strict n s (m : M A) :
  sound strict n s m -> from (usage_step n) (usage_law strict n) s (mforget m) (fun _ s' => inode_ok s').
Proof. intros H. eapply from_bind; [exact H|]. intros a s' Hs. by apply from_ret. Qed.


(** ** A library with one directory and one file, for the witnesses *)
Definition usage_lawb (strict : bool) (n : Z) (o : obs) (s : usage_of) : bool :=
  match o with
  | Obs e x =>
      match e in ev X return X -> bool with
      | EReadInode i => fun x => negb (i =? n) || negb (x.1 =? 0) ||
          ((i_links_count x.2 =? u_links s) && (i_links_count x.2 <? 65536) && negb (LINUX_S_ISDIR (i_mode x.2)))
      | ENewInode _ _ => fun x => negb (x.1 =? 0) || negb (x.2 =? n) || (u_used s =? 0)
      | EWriteInode i _ => fun x => negb (i =? n) || (x =? 0)
      | EUnlink _ _ _ => fun x => negb strict || (x =? 0)
      | _ => fun _ => true
      end x
  end.
Fixpoint abidesb (strict : bool) (n : Z) (t : list obs) (s : usage_of) : bool :=
  match t with [] => true | o :: t => usage_lawb strict n o s && abidesb strict n t (usage_step n o s) end.
Lemma abidesb_abides strict n t s : abidesb strict n t s = true -> abides (usage_step n) (usage_law strict n) t s.
Proof.
  revert s; induction t as [|o t IH]; intros s; cbn [abides abidesb]; [done|]. intros [Ho Ht]%andb_true_iff.
  split; [|by apply IH]. clear -Ho. destruct o as [X e x]. destruct e; cbn in Ho |- *; try done.
  - intros -> H1. rewrite H1, !Z.eqb_refl in Ho. cbn in Ho.
    apply andb_true_iff in Ho as [[H2 H3]%andb_true_iff H4%negb_true_iff]. split_and!; [lia|lia|done].
  - intros ->. rewrite Z.eqb_refl in Ho. cbn in Ho. lia.
  - intros H1 H2. rewrite H1, H2, !Z.eqb_refl in Ho. cbn in Ho. lia.
  - intros ->. cbn in Ho. lia.
Qed.
Definition dir_inode : ext2_inode := set_links 2 (set_mode (Z.lor LINUX_S_IFDIR 493) zero_inode).
Definition links_inode (k : Z) : ext2_inode := set_links k (set_mode (Z.lor LINUX_S_IFREG 420) zero_inode).
(** the file is inode 12, with the name "old" *)
Definition usage_env : handler usage_of := fun X e s =>
  let x := match e in ev X return X with
    | EInodesCount => 100
    | EReadInode i => (0, if i =? 12 then links_inode (u_links s) else dir_inode)
    | ELookup _ name => if String.eqb name "old" then (0, 12) else (EXT2_ET_FILE_NOT_FOUND, 0)
    | e => default_answer e
    end in (x, usage_step 12 (Obs e x) s).
Definition op_trace (op : name_op) (s : usage_of) : list obs := (mrun usage_env (run_op 0 0 0 op) ∅ s).1.2.

(** LINK of a file that has 65535 links succeeds and wraps its 16-bit link
    count: 65536 entries name the file, its count is 0, and from then on the
    server takes every handle of it for stale. *)
Theorem link_count_wraps uid gid fsid strict n dir name s c t c' fa ok d :
  inode_ok s -> u_links s = 65535 ->
  mexec (ext_op_link uid gid fsid n dir name) c t c' (NFS3_OK, fa, ok, d) ->
  abides (usage_step n) (usage_law strict n) t s ->
  observe (usage_step n) t s = Inu 0 65536 1 /\ ~ inode_ok (observe (usage_step n) t s) /\
  (forall c u c' st i, mexec (ext_read_valid_inode n) c u c' (st, i) ->
     abides (usage_step n) (usage_law strict n) u (observe (usage_step n) t s) -> st <> NFS3_OK).
Proof.
  intros (Hl & He & Hu) E H Hlaw.
  destruct (link_effect uid gid fsid strict n dir name s _ _ _ _ H Hlaw) as [-> _].
  rewrite E in *. unfold linked. rewrite E, He, Hu. change ((65535 + 1) mod 65536) with 0.
  split; [done|]. split; [intros (_ & Hbad & _); discriminate Hbad|].
  intros c2 u c3 st i Hr Hlaw2 ->.
  destruct (valid_spec strict n n _ _ _ _ _ Hr Hlaw2) as [_ Hi]. destruct (Hi eq_refl) as [Hnow Hnz].
  destruct (Hnow eq_refl) as (Hz & _). by rewrite Hz in Hnz.
Qed.

Definition link_reply_attr : option NfsAttr := Some (Attr 1 420 1 0 0 0 0 0 0 0 12 0 0 0 0 0 0).
Definition link_reply_dir : DirOut := Dout (Wcc true 0 0 0 0 0) (Some (Attr 2 493 2 0 0 0 0 0 0 0 2 0 0 0 0 0 0)) true.
Definition full : usage_of := Inu 65535 65535 1.
Definition link_trace : list obs := (mrun usage_env (ext_op_link 0 0 0 12 2 "new") ∅ full).1.2.
Lemma link_count_wraps_witness :
  mexec (ext_op_link 0 0 0 12 2 "new") ∅ link_trace ∅ (NFS3_OK, link_reply_attr, true, link_reply_dir) /\
  observe (usage_step 12) link_trace full = Inu 0 65536 1.
Proof.
  assert (H : mexec (ext_op_link 0 0 0 12 2 "new") ∅ link_trace ∅ (NFS3_OK, link_reply_attr, true, link_reply_dir)).
  { apply (run_exec usage_env _ full _ _ (Inu 0 65536 1)). vm_compute. reflexivity. }
  split; [exact H|].
  apply (link_count_wraps 0 0 0 false 12 2 "new" full _ _ _ _ _ _ ltac:(by split_and!) eq_refl H).
  apply abidesb_abides. vm_compute. reflexivity.
Defined.

(** ** A directory renamed into itself *)
Definition loop_env : handler unit := fun X e _ =>
  (match e in ev X return X with
   | EInodesCount => 100
   | EReadInode _ => (0, dir_inode)
   | ELookup _ name => if String.eqb name "a" then (0, 12) else (EXT2_ET_FILE_NOT_FOUND, 0)
   | e => default_answer e
   end, tt).
(** the directory /a (inode 12) moved to /a/b *)
Definition loop_rename : M (Z * DirOut * DirOut) := ext_op_rename 0 0 0 2 "a" 12 "b".
Definition is_entry (parent child : Z) (o : obs) : bool :=
  match o with
  | Obs e x => match e in ev X return X -> bool with
               | ELink d _ i _ => fun x => (d =? parent) && (i =? child) && (x =? 0)
               | _ => fun _ => false
               end x
  end.
Definition is_gone (parent child : Z) (o : obs) : bool :=
  match o with
  | Obs e x => match e in ev X return X -> bool with
               | EUnlink d _ i => fun x => (d =? parent) && (i =? child) && (x =? 0)
               | _ => fun _ => false
               end x
  end.
(** Nothing refuses it: the directory becomes an entry of itself and loses the
    one entry by which the root could reach it. *)
Lemma rename_into_itself :
  exists c' d1 d2, let t := (mrun loop_env loop_rename ∅ tt).1.2 in
    mexec loop_rename ∅ t c' (NFS3_OK, d1, d2) /\
    existsb (is_entry 12 12) t = true /\ existsb (is_gone 2 12) t = true.
Proof.
  set (r := mrun loop_env loop_rename ∅ tt).
  assert (E : exists c' d1 d2, r.1.1 = Some (c', (NFS3_OK, d1, d2))) by (vm_compute; eauto).
  destruct E as (c' & d1 & d2 & E). exists c', d1, d2. cbv zeta. split; [|split; vm_compute; reflexivity].
  apply (run_exec loop_env _ tt _ _ tt). fold (mrun loop_env loop_rename ∅ tt). fold r.
  destruct r as [[x y] []]. cbn in E. by rewrite E.
Qed.
