(* ===== verification/Ntfs.v ===== *)
(** The NTFS backend of the mount server (src/macos/src/mountd_nfs.c,
    ntfs_utf8_to_ucs to ntfs_op_commit): NFS operations as sequences of
    libntfs-3g calls.

    A pointer to an open inode or attribute is a number, NULL is None. What an
    inode's struct says is asked for with [NInode] where the code reads a field.
    A C function that fills output parameters returns them with its status; an
    output it leaves unwritten is None. *)
From S2P Require Import Prelude Cstr Ntfs3g Sys Xdr Mountd.

Definition ENOENT_ : Z := 2.
Definition EIO_ : Z := 5.
Definition EINVAL_ : Z := 22.
Definition ENOSPC_ : Z := 28.
(** errno_to_nfs3 (e ? e : d) *)
Definition err_or (d e : Z) : Z := errno_to_nfs3 (if e =? 0 then d else e).
Definition u64 (z : Z) : Z := z mod 2 ^ 64.
(** a negative size counts as none *)
Definition pos (n : Z) : Z := if 0 <? n then n else 0.

Definition n_is_dir (i : ntfs_inode) : bool := negb (Z.land (n_mrec_flags i) MFT_RECORD_IS_DIRECTORY =? 0).
Definition n_has (flag : Z) (i : ntfs_inode) : bool := negb (Z.land (n_flags i) flag =? 0).

(** the name in UTF-16; [inl] is a status *)
Definition ntfs_utf8_to_ucs (name : string) : M (Z + list Z) :=
  if negb (valid_leaf_name name) then mret (inl NFS3ERR_INVAL)
  else
    r <~ mcall (NMbstoucs name) ;;
    match r with
    | None | Some [] => mret (inl NFS3ERR_INVAL)
    | Some u => if 255 <? zlen u then mret (inl NFS3ERR_NAMETOOLONG) else mret (inr u)
    end.

Definition ntfs_is_symlink_inode (ni : Z) : M bool :=
  i <~ mcall (NInode ni) ;;
  if n_is_dir i then mret false
  else
    p <~ (if n_has FILE_ATTR_REPARSE_POINT i then mcall (NPossibleSymlink ni) else mret false) ;;
    if p : bool then mret true
    else if n_has FILE_ATTR_SYSTEM i then t <~ mcall (NInterixTypes ni) ;; mret (t =? NTFS_DT_LNK)
    else mret false.

(** the target of a symbolic link made by Interix *)
Definition ntfs_read_interix (ni cap : Z) : M (Z * string) :=
  r <~ mcall (NReadAll ni) ;;
  match r with
  | inl e => mret (err_or EINVAL_ e, "")
  | inr b =>
      if (zlen b <? 8) || negb (le (ztake 8 b) =? INTX_SYMBOLIC_LINK) then mret (NFS3ERR_INVAL, "")
      else
        s <~ mcall (NUcstombs (le16_units (zdrop 8 b))) ;;
        match s with
        | None => mret (NFS3ERR_IO, "")
        | Some s => if cap <=? zlen s then mret (NFS3ERR_NAMETOOLONG, "") else mret (NFS3_OK, cstr_of_bytes s)
        end
  end.
Definition ntfs_read_symlink_str (ni cap : Z) : M (Z * string) :=
  if cap =? 0 then mret (NFS3ERR_INVAL, "")
  else
    i <~ mcall (NInode ni) ;;
    p <~ (if n_has FILE_ATTR_REPARSE_POINT i then mcall (NPossibleSymlink ni) else mret false) ;;
    if p : bool then
      s <~ mcall (NMakeSymlink ni) ;;
      match s with
      | inl e => mret (err_or EIO_ e, "")
      | inr s => if cap <=? strlen s then mret (NFS3ERR_NAMETOOLONG, "") else mret (NFS3_OK, s)
      end
    else if n_has FILE_ATTR_SYSTEM i then ntfs_read_interix ni cap
    else mret (NFS3ERR_INVAL, "").

(** 0: no parent known *)
Definition ntfs_resolve_parent_ino (ni ino : Z) : M Z :=
  if ino =? FILE_root then mret FILE_root
  else
    c <~ mget_parent ino ;;
    let asked :=
      p <~ mcall (NDirParent ni) ;;
      match p with
      | None => mret 0
      | Some pni =>
          i <~ mcall (NInode pni) ;;
          let p := MREF (n_mft_no i) in
          mcall (NInodeClose pni) ~;;
          mwhen (negb (p =? 0)) (mset_parent ino p) ~;; mret p
      end in
    match c with
    | Some p => if negb (p =? 0) then mret p else asked
    | None => asked
    end.

Section Ntfs.
(** bounds on the loops that move file contents *)
Variable fuel : nat.
(** ntfs2timespec and timespec2ntfs *)
Variable to_timespec : Z -> Z * Z.
Variable of_timespec : Z * Z -> Z.
(** what the stack holds *)
Variable junk : NfsAttr.
(** g_uid, g_gid, g_fsid *)
Variables g_uid g_gid g_fsid : Z.

(** size and used of the attributes *)
Definition ntfs_sizes (ni : Z) (is_dir is_lnk : bool) : M (Z * Z) :=
  if is_dir then mret (4096, 4096)
  else if is_lnk then
    '(st, sym) <~ ntfs_read_symlink_str ni PATH_MAX ;;
    i <~ mcall (NInode ni) ;;
    mret (if st =? NFS3_OK then strlen sym else pos (n_data_size i), pos (n_allocated_size i))
  else
    na <~ mcall (NAttrOpen ni) ;;
    match na with
    | inr na => '(d, a) <~ mcall (NAttr na) ;; mcall (NAttrClose na) ~;; mret (pos d, pos a)
    | inl _ => i <~ mcall (NInode ni) ;; mret (pos (n_data_size i), pos (n_allocated_size i))
    end.
Definition u32_pos (n : Z) : Z := pos n mod 2 ^ 32.
Definition ntfs_fill_attr (ni ino : Z) : M NfsAttr :=
  i <~ mcall (NInode ni) ;;
  let is_dir := n_is_dir i in
  is_lnk <~ (if is_dir then mret false else ntfs_is_symlink_inode ni) ;;
  '(size, used) <~ ntfs_sizes ni is_dir is_lnk ;;
  t <~ mcall (NInode ni) ;;
  let ts_a := to_timespec (n_atime t) in
  let ts_m := to_timespec (n_mtime t) in
  let ts_c := to_timespec (n_ctime t) in
  mret (Attr (if is_dir then NF3DIR else if is_lnk then NF3LNK else NF3REG)
             (if is_dir then 511 else if is_lnk then 511 else 438)
             (if n_link_count i =? 0 then 1 else n_link_count i) g_uid g_gid size used 0 0 g_fsid ino
             (u32_pos ts_a.1) (u32_pos ts_a.2) (u32_pos ts_m.1) (u32_pos ts_m.2)
             (u32_pos ts_c.1) (u32_pos ts_c.2)).

Definition ntfs_op_getattr (ino : Z) : M (Z * option NfsAttr) :=
  o <~ mcall (NInodeOpen ino) ;;
  match o with
  | inl e => mret (if (e =? ENOENT_) || (e =? EIO_) then NFS3ERR_STALE else errno_to_nfs3 e, None)
  | inr ni =>
      a <~ ntfs_fill_attr ni ino ;;
      mcall (NInodeClose ni) ~;; mret (NFS3_OK, Some a)
  end.

(** the inode, and its parent's where that is known; None: -1 *)
Definition ntfs_open_with_parent (ino : Z) : M (option (Z * option Z)) :=
  let open_parent p :=
    if negb (p =? 0) && negb (p =? ino) then
      o <~ mcall (NInodeOpen p) ;; mret (match o with inr h => Some h | inl _ => None end)
    else mret None in
  c <~ (if negb (ino =? FILE_root) then mget_parent ino else mret None) ;;
  pni <~ match c with Some p => open_parent p | None => mret None end ;;
  o <~ mcall (NInodeOpen ino) ;;
  match o with
  | inl _ =>
      match pni with Some p => mcall (NInodeClose p) ~;; mret None | None => mret None end
  | inr ni =>
      match pni with
      | Some p => mret (Some (ni, Some p))
      | None =>
          if negb (ino =? FILE_root) then
            p <~ ntfs_resolve_parent_ino ni ino ;; pni <~ open_parent p ;; mret (Some (ni, pni))
          else mret (Some (ni, None))
      end
  end.
(** true: 0 *)
Definition ntfs_close_with_parent (h : Z * option Z) : M bool :=
  match h with
  | (ni, Some pni) =>
      a <~ mcall (NInodeCloseInDir ni pni) ;; b <~ mcall (NInodeClose pni) ;; mret ((a =? 0) && (b =? 0))
  | (ni, None) => a <~ mcall (NInodeClose ni) ;; mret (a =? 0)
  end.

Definition ntfs_apply_sattr_times (ni : Z) (s : SAttr3) : M unit :=
  now <~ mcall Clock ;;
  let set how sec nsec (put : Z -> M unit) :=
    if how =? SET_TO_SERVER_TIME then put (of_timespec now) ~;; mret true
    else if how =? SET_TO_CLIENT_TIME then put (of_timespec (sec, nsec)) ~;; mret true
    else mret false in
  a <~ set (s_set_atime s) (s_atime_sec s) (s_atime_nsec s) (fun t => mcall (NSetAtime ni t)) ;;
  m <~ set (s_set_mtime s) (s_mtime_sec s) (s_mtime_nsec s) (fun t => mcall (NSetMtime ni t)) ;;
  mwhen (a || m) (mcall (NSetCtime ni (of_timespec now)) ~;; mcall (NDirty ni)).
(** the contents changed *)
Definition ntfs_touch (ni : Z) : M unit :=
  now <~ mcall Clock ;;
  mcall (NSetMtime ni (of_timespec now)) ~;; mcall (NSetCtime ni (of_timespec now)) ~;; mcall (NDirty ni).

(** the truncation of SETATTR; [inl]: the inodes are closed *)
Definition ntfs_set_size (h : Z * option Z) (size : Z) : M ((Z * option NfsAttr) + unit) :=
  i <~ mcall (NInode h.1) ;;
  if n_is_dir i then ntfs_close_with_parent h ~;; mret (inl (NFS3ERR_ISDIR, None))
  else
    na <~ mcall (NAttrOpen h.1) ;;
    match na with
    | inl e => ntfs_close_with_parent h ~;; mret (inl (err_or EIO_ e, None))
    | inr na =>
        r <~ mcall (NTruncate na (s64 size)) ;;
        match r with
        | Some e =>
            mcall (NAttrClose na) ~;; ntfs_close_with_parent h ~;; mret (inl (err_or EIO_ e, None))
        | None => mcall (NPclose na) ~;; mcall (NAttrClose na) ~;; ntfs_touch h.1 ~;; mret (inr tt)
        end
    end.
Definition ntfs_op_setattr (ino : Z) (s : SAttr3) : M (Z * option NfsAttr) :=
  h <~ ntfs_open_with_parent ino ;;
  match h with
  | None => mret (NFS3ERR_STALE, None)
  | Some h =>
      _ <~? (if s_set_size s then ntfs_set_size h (s_size s) else mret (inr tt)) ;;
      ntfs_apply_sattr_times h.1 s ~;;
      a <~ ntfs_fill_attr h.1 ino ;;
      ok <~ ntfs_close_with_parent h ;;
      mret (if ok : bool then NFS3_OK else NFS3ERR_IO, Some a)
  end.

(** LOOKUP of a name that is an entry, in an open directory that is closed here *)
Definition ntfs_lookup_entry (dni dir : Z) (name : string) : M (Z * Z * option NfsAttr) :=
  let failed st := mcall (NInodeClose dni) ~;; mret (st, 0, None) in
  u <~ ntfs_utf8_to_ucs name ;;
  match u with
  | inl st => failed st
  | inr u =>
      r <~ mcall (NLookup dni u) ;;
      match r with
      | inl e => failed (err_or ENOENT_ e)
      | inr mref =>
          let cino := MREF mref in
          if (cino <? FILE_first_user) && negb (cino =? FILE_root) then failed NFS3ERR_NOENT
          else
            o <~ mcall (NInodeOpen cino) ;;
            match o with
            | inl e => failed (err_or EIO_ e)
            | inr cni =>
                mset_parent cino dir ~;;
                a <~ ntfs_fill_attr cni cino ;;
                mcall (NInodeCloseInDir cni dni) ~;; mcall (NInodeClose dni) ~;;
                mret (NFS3_OK, cino, Some a)
            end
      end
  end.
Definition ntfs_op_lookup (dir : Z) (name : string) : M (Z * Z * option NfsAttr) :=
  if String.eqb name "" then mret (NFS3ERR_ACCES, 0, None)
  else
    o <~ mcall (NInodeOpen dir) ;;
    match o with
    | inl _ => mret (NFS3ERR_STALE, 0, None)
    | inr dni =>
        i <~ mcall (NInode dni) ;;
        if negb (n_is_dir i) then mcall (NInodeClose dni) ~;; mret (NFS3ERR_NOTDIR, 0, None)
        else if String.eqb name "." then
          a <~ ntfs_fill_attr dni dir ;;
          mcall (NInodeClose dni) ~;; mret (NFS3_OK, dir, Some a)
        else if String.eqb name ".." then
          p <~ ntfs_resolve_parent_ino dni dir ;;
          let pino := if p =? 0 then FILE_root else p in
          mcall (NInodeClose dni) ~;;
          '(st, a) <~ ntfs_op_getattr pino ;; mret (st, pino, a)
        else ntfs_lookup_entry dni dir name
    end.

Definition ntfs_op_readlink (ino cap : Z) : M (Z * string * option NfsAttr * bool) :=
  o <~ mcall (NInodeOpen ino) ;;
  match o with
  | inl _ => mret (NFS3ERR_STALE, "", None, false)
  | inr ni =>
      a <~ ntfs_fill_attr ni ino ;;
      l <~ ntfs_is_symlink_inode ni ;;
      if negb l then mcall (NInodeClose ni) ~;; mret (NFS3ERR_INVAL, "", Some a, true)
      else
        '(st, s) <~ ntfs_read_symlink_str ni cap ;;
        mcall (NInodeClose ni) ~;; mret (st, s, Some a, true)
  end.

(** the loop of READ: the bytes so far; [inl e] when a read failed *)
Definition ntfs_read_loop (na offset to_read : Z) : M (Z + list byte) :=
  mloop fuel (fun got =>
    if zlen got <? to_read then
      r <~ mcall (NPread na (s64 (offset + zlen got)) (to_read - zlen got)) ;;
      match r with
      | inl e => mret (inr (inl e))
      | inr [] => mret (inr (inr got))
      | inr data => mret (inl (got ++ data))
      end
    else mret (inr (inr got))) [].
Definition ntfs_op_read (ino offset count : Z) : M (Z * list byte * bool * option NfsAttr * bool) :=
  o <~ mcall (NInodeOpen ino) ;;
  match o with
  | inl _ => mret (NFS3ERR_STALE, [], false, None, false)
  | inr ni =>
      a <~ ntfs_fill_attr ni ino ;;
      let leave st data eof := mcall (NInodeClose ni) ~;; mret (st, data, eof, Some a, true) in
      i <~ mcall (NInode ni) ;;
      if n_is_dir i then leave NFS3ERR_ISDIR [] false
      else
        l <~ ntfs_is_symlink_inode ni ;;
        if l : bool then leave NFS3ERR_INVAL [] false
        else
          na <~ mcall (NAttrOpen ni) ;;
          match na with
          | inl e => leave (err_or EIO_ e) [] false
          | inr na =>
              '(d, _) <~ mcall (NAttr na) ;;
              let fsize := pos d in
              if (fsize <=? offset) || (count =? 0) then
                mcall (NAttrClose na) ~;; leave NFS3_OK [] (fsize <=? offset)
              else
                let avail := fsize - offset in
                let to_read := if avail <? count then avail else count in
                r <~ ntfs_read_loop na offset to_read ;;
                mcall (NAttrClose na) ~;;
                match r with
                | inl e => leave (err_or EIO_ e) [] false
                | inr data => leave NFS3_OK data (fsize <=? u64 (offset + zlen data))
                end
          end
  end.

(** the loop of WRITE: [Some e] when a write failed or wrote nothing *)
Definition ntfs_write_loop (na offset : Z) (buf : list byte) : M (option Z) :=
  mloop fuel (fun total =>
    if total <? zlen buf then
      '(w, e) <~ mcall (NPwrite na (s64 (offset + total)) (zdrop total buf)) ;;
      if w <=? 0 then mret (inr (Some e)) else mret (inl (total + w))
    else mret (inr None)) 0.
Definition ntfs_op_write (ino offset : Z) (buf : list byte) (stable : Z) : M (Z * Z * Z * DirOut) :=
  h <~ ntfs_open_with_parent ino ;;
  match h with
  | None => mret (NFS3ERR_STALE, 0, FILE_SYNC, Dout zero_wcc None false)
  | Some h =>
      let ni := h.1 in
      pre_attr <~ ntfs_fill_attr ni ino ;;
      let pre := attr_to_wcc_pre true pre_attr in
      let refused st :=
        ntfs_close_with_parent h ~;; mret (st, 0, FILE_SYNC, Dout pre (Some pre_attr) true) in
      i <~ mcall (NInode ni) ;;
      if n_is_dir i then refused NFS3ERR_ISDIR
      else
        l <~ ntfs_is_symlink_inode ni ;;
        if l : bool then refused NFS3ERR_INVAL
        else
          na <~ mcall (NAttrOpen ni) ;;
          match na with
          | inl e => refused (err_or EIO_ e)
          | inr na =>
              '(d, _) <~ mcall (NAttr na) ;;
              grown <~ (if d <? s64 offset then mcall (NTruncate na (s64 offset)) else mret None) ;;
              match grown with
              | Some e =>
                  mcall (NAttrClose na) ~;; ntfs_close_with_parent h ~;;
                  mret (err_or EIO_ e, 0, FILE_SYNC, Dout pre None false)
              | None =>
                  r <~ ntfs_write_loop na offset buf ;;
                  mcall (NPclose na) ~;; mcall (NAttrClose na) ~;;
                  match r with
                  | Some e =>
                      a <~ ntfs_fill_attr ni ino ;;
                      ntfs_close_with_parent h ~;;
                      mret (err_or ENOSPC_ e, 0, FILE_SYNC, Dout pre (Some a) true)
                  | None =>
                      ntfs_touch ni ~;;
                      a <~ ntfs_fill_attr ni ino ;;
                      ok <~ ntfs_close_with_parent h ;;
                      let d := Dout pre (Some a) true in
                      if negb ok then mret (NFS3ERR_IO, 0, FILE_SYNC, d)
                      else
                        sync <~ (if negb (stable =? UNSTABLE) then mcall NHasSync else mret false) ;;
                        mwhen sync (mcall NSync ~;; mret tt) ~;;
                        mret (NFS3_OK, zlen buf, FILE_SYNC, d)
                  end
              end
          end
  end.

(** ** Operations on a directory *)

(** an open directory, and what it was like before *)
Record ntfs_dir := NtfsDir { e_ni : Z; e_ino : Z; e_pre : NfsAttr }.
(** the returns that close the directory: with its attributes from before, or
    with those of now *)
Definition ntfs_stay (e : ntfs_dir) (st : Z) : M (Z * DirOut) :=
  mcall (NInodeClose (e_ni e)) ~;; mret (st, Dout (attr_to_wcc_pre true (e_pre e)) (Some (e_pre e)) true).
Definition ntfs_leave (e : ntfs_dir) (st : Z) : M (Z * DirOut) :=
  a <~ ntfs_fill_attr (e_ni e) (e_ino e) ;;
  mcall (NInodeClose (e_ni e)) ~;; mret (st, Dout (attr_to_wcc_pre true (e_pre e)) (Some a) true).
(** and once it is closed *)
Definition ntfs_dir_after (dir : Z) (pre : NfsAttr) : M DirOut :=
  '(st, a) <~ ntfs_op_getattr dir ;; mret (Dout (attr_to_wcc_pre true pre) a (st =? NFS3_OK)).

(** How CREATE, MKDIR, SYMLINK, REMOVE and RMDIR begin: an open directory and a
    name that can be an entry of it. *)
Definition ntfs_enter_dir (dir : Z) (name : string) : M ((Z * DirOut) + (ntfs_dir * list Z)) :=
  o <~ mcall (NInodeOpen dir) ;;
  match o with
  | inl _ => mret (inl (NFS3ERR_STALE, Dout zero_wcc None false))
  | inr dni =>
      dpre <~ ntfs_fill_attr dni dir ;;
      let e := NtfsDir dni dir dpre in
      i <~ mcall (NInode dni) ;;
      if negb (n_is_dir i) then r <~ ntfs_stay e NFS3ERR_NOTDIR ;; mret (inl r)
      else
        u <~ ntfs_utf8_to_ucs name ;;
        match u with
        | inl st => r <~ ntfs_stay e st ;; mret (inl r)
        | inr u => mret (inr (e, u))
        end
  end.

Definition new_out := (Z * Z * option NfsAttr * DirOut)%type.
Definition no_new (r : Z * DirOut) : new_out := (r.1, 0, None, r.2).
Definition entering {A} (m : M ((Z * DirOut) + A)) : M (new_out + A) :=
  r <~ m ;; mret (match r with inl e => inl (no_new e) | inr a => inr a end).

(** a new inode [cni] and its directory closed, their attributes in between *)
Definition ntfs_new_done (e : ntfs_dir) (cni cino : Z) : M new_out :=
  let pre := attr_to_wcc_pre true (e_pre e) in
  a <~ ntfs_fill_attr cni cino ;;
  rc <~ mcall (NInodeCloseInDir cni (e_ni e)) ;;
  if negb (rc =? 0) then
    mcall (NInodeClose (e_ni e)) ~;; mret (NFS3ERR_IO, 0, Some a, Dout pre None false)
  else
    d <~ ntfs_fill_attr (e_ni e) (e_ino e) ;;
    rc <~ mcall (NInodeClose (e_ni e)) ;;
    mret (if negb (rc =? 0) then (NFS3ERR_IO, 0, Some a, Dout pre (Some d) true)
          else (NFS3_OK, cino, Some a, Dout pre (Some d) true)).
(** the answer [o] of the library to the creation; [init] sets the inode up *)
Definition ntfs_new (e : ntfs_dir) (o : Z + Z) (init : Z -> M unit) : M new_out :=
  match o with
  | inl err => r <~ ntfs_leave e (err_or EIO_ err) ;; mret (no_new r)
  | inr cni =>
      i <~ mcall (NInode cni) ;;
      let cino := MREF (n_mft_no i) in
      mset_parent cino (e_ino e) ~;;
      init cni ~;;
      ntfs_new_done e cni cino
  end.

(** CREATE of a name that exists *)
Definition ntfs_create_existing (e : ntfs_dir) (eino mode : Z) (s : option SAttr3) : M new_out :=
  if negb (mode =? CREATE_UNCHECKED) then r <~ ntfs_leave e NFS3ERR_EXIST ;; mret (no_new r)
  else
    mcall (NInodeClose (e_ni e)) ~;;
    mset_parent eino (e_ino e) ~;;
    '(st, a) <~ match s with Some s => ntfs_op_setattr eino s | None => ntfs_op_getattr eino end ;;
    d <~ ntfs_dir_after (e_ino e) (e_pre e) ;;
    mret (st, eino, a, d).
(** the attributes CREATE gives a new file; errors of the truncation are ignored *)
Definition ntfs_init_file (s : option SAttr3) (cni : Z) : M unit :=
  match s with
  | None => mret tt
  | Some s =>
      (if s_set_size s && (0 <? s_size s) then
         na <~ mcall (NAttrOpen cni) ;;
         match na with
         | inr na => mcall (NTruncate na (s64 (s_size s))) ~;; mcall (NPclose na) ~;; mcall (NAttrClose na)
         | inl _ => mret tt
         end
       else mret tt) ~;;
      ntfs_apply_sattr_times cni s
  end.
Definition ntfs_op_create (dir : Z) (name : string) (mode : Z) (s : option SAttr3) : M new_out :=
  '(e, u) <~? entering (ntfs_enter_dir dir name) ;;
  r <~ mcall (NLookup (e_ni e) u) ;;
  match r with
  | inr existing => ntfs_create_existing e (MREF existing) mode s
  | inl err =>
      if negb (err =? ENOENT_) then r <~ ntfs_leave e (err_or EIO_ err) ;; mret (no_new r)
      else
        o <~ mcall (NCreate (e_ni e) u S_IFREG) ;;
        ntfs_new e o (ntfs_init_file s)
  end.

(** the name does not exist *)
Definition ntfs_fresh (e : ntfs_dir) (u : list Z) : M (new_out + unit) :=
  r <~ mcall (NLookup (e_ni e) u) ;;
  match r with
  | inr _ => r <~ ntfs_stay e NFS3ERR_EXIST ;; mret (inl (no_new r))
  | inl _ => mret (inr tt)
  end.
Definition ntfs_op_mkdir (dir : Z) (name : string) (s : SAttr3) : M new_out :=
  '(e, u) <~? entering (ntfs_enter_dir dir name) ;;
  _ <~? ntfs_fresh e u ;;
  o <~ mcall (NCreate (e_ni e) u S_IFDIR) ;;
  ntfs_new e o (fun cni => ntfs_apply_sattr_times cni s).
Definition ntfs_op_symlink (dir : Z) (name : string) (s : SAttr3) (target : string) : M new_out :=
  if String.eqb target "" then mret (no_new (NFS3ERR_INVAL, Dout zero_wcc None false))
  else
    '(e, u) <~? entering (ntfs_enter_dir dir name) ;;
    _ <~? ntfs_fresh e u ;;
    t <~ mcall (NMbstoucs target) ;;
    match t with
    | None => r <~ ntfs_stay e NFS3ERR_INVAL ;; mret (no_new r)
    | Some t =>
        o <~ mcall (NCreateSymlink (e_ni e) u t) ;;
        ntfs_new e o (fun cni => ntfs_apply_sattr_times cni s)
    end.

Definition ntfs_op_unlink_common (dir : Z) (name : string) (expect_dir : bool) : M (Z * DirOut) :=
  '(e, u) <~? ntfs_enter_dir dir name ;;
  r <~ mcall (NLookup (e_ni e) u) ;;
  match r with
  | inl err => ntfs_stay e (err_or ENOENT_ err)
  | inr mref =>
      let cino := MREF mref in
      if cino <? FILE_first_user then ntfs_stay e NFS3ERR_ACCES
      else
        o <~ mcall (NInodeOpen cino) ;;
        match o with
        | inl err => ntfs_stay e (err_or EIO_ err)
        | inr cni =>
            i <~ mcall (NInode cni) ;;
            if expect_dir && negb (n_is_dir i) then
              mcall (NInodeClose cni) ~;; ntfs_stay e NFS3ERR_NOTDIR
            else if negb expect_dir && n_is_dir i then
              mcall (NInodeClose cni) ~;; ntfs_stay e NFS3ERR_ISDIR
            else
              rc <~ mcall (NDelete cni (e_ni e) u) ;;
              d <~ ntfs_dir_after dir (e_pre e) ;;
              mret (match rc with Some err => err_or EIO_ err | None => NFS3_OK end, d)
        end
  end.
Definition ntfs_op_remove (dir : Z) (name : string) : M (Z * DirOut) := ntfs_op_unlink_common dir name false.
Definition ntfs_op_rmdir (dir : Z) (name : string) : M (Z * DirOut) := ntfs_op_unlink_common dir name true.

(** ** RENAME *)
Record ntfs_renaming := NtfsRen { w_from : Z; w_to : Z; w_fpre : NfsAttr; w_tpre : NfsAttr }.
Definition ntfs_ren_out := (Z * DirOut * DirOut)%type.
Definition ntfs_ren_stay (w : ntfs_renaming) (st : Z) : ntfs_ren_out :=
  (st, Dout (attr_to_wcc_pre true (w_fpre w)) (Some (w_fpre w)) true,
       Dout (attr_to_wcc_pre true (w_tpre w)) (Some (w_tpre w)) true).
Definition ntfs_ren_after (w : ntfs_renaming) (st : Z) : M ntfs_ren_out :=
  df <~ ntfs_dir_after (w_from w) (w_fpre w) ;;
  dt <~ ntfs_dir_after (w_to w) (w_tpre w) ;;
  mret (st, df, dt).

(** the guards at the start of ntfs_op_rename, and the names in UTF-16 *)
Definition ntfs_rename_enter (from : Z) (from_name : string) (to : Z) (to_name : string)
    : M (ntfs_ren_out + (ntfs_renaming * list Z * list Z)) :=
  '(fst_, fa) <~ ntfs_op_getattr from ;;
  '(tst, ta) <~ ntfs_op_getattr to ;;
  let fok := fst_ =? NFS3_OK in
  let tok := tst =? NFS3_OK in
  let fpre := default junk fa in
  let tpre := default junk ta in
  if negb fok || negb tok then
    mret (inl (NFS3ERR_STALE, Dout (attr_to_wcc_pre fok fpre) None false, Dout (attr_to_wcc_pre tok tpre) None false))
  else
    let w := NtfsRen from to fpre tpre in
    if negb (a_type fpre =? NF3DIR) || negb (a_type tpre =? NF3DIR) then mret (inl (ntfs_ren_stay w NFS3ERR_NOTDIR))
    else
      fu <~ ntfs_utf8_to_ucs from_name ;;
      match fu with
      | inl st => mret (inl (ntfs_ren_stay w st))
      | inr fu =>
          tu <~ ntfs_utf8_to_ucs to_name ;;
          match tu with
          | inl st => mret (inl (ntfs_ren_stay w st))
          | inr tu => mret (inr (w, fu, tu))
          end
      end.

(** what has the new name gives way, if it may *)
Definition ntfs_rename_replace (w : ntfs_renaming) (to_name : string) (from_ino : Z) (from_attr : NfsAttr)
    : M (ntfs_ren_out + unit) :=
  '(tst, to_ino, ta) <~ ntfs_op_lookup (w_to w) to_name ;;
  let to_attr := default junk ta in
  if tst =? NFS3_OK then
    if to_ino =? from_ino then mret (inl (ntfs_ren_stay w NFS3_OK))
    else
      let from_dir := a_type from_attr =? NF3DIR in
      let to_dir := a_type to_attr =? NF3DIR in
      if from_dir && negb to_dir then mret (inl (ntfs_ren_stay w NFS3ERR_NOTDIR))
      else if negb from_dir && to_dir then mret (inl (ntfs_ren_stay w NFS3ERR_ISDIR))
      else
        '(st, _) <~ ntfs_op_unlink_common (w_to w) to_name to_dir ;;
        if negb (st =? NFS3_OK) then o <~ ntfs_ren_after w st ;; mret (inl o) else mret (inr tt)
  else if negb (tst =? NFS3ERR_NOENT) then mret (inl (ntfs_ren_stay w tst))
  else mret (inr tt).

(** a directory and an inode, both open or neither; [inl] is errno *)
Definition ntfs_open_pair (dir ino : Z) : M (Z + (Z * Z)) :=
  d <~ mcall (NInodeOpen dir) ;;
  match d with
  | inl e => mret (inl e)
  | inr dni =>
      i <~ mcall (NInodeOpen ino) ;;
      match i with
      | inl e => mcall (NInodeClose dni) ~;; mret (inl e)
      | inr ni => mret (inr (dni, ni))
      end
  end.
(** Step 1: the new name *)
Definition ntfs_rename_link (w : ntfs_renaming) (from_ino : Z) (tu : list Z) : M (ntfs_ren_out + unit) :=
  p <~ ntfs_open_pair (w_to w) from_ino ;;
  match p with
  | inl e => o <~ ntfs_ren_after w (err_or EIO_ e) ;; mret (inl o)
  | inr (dni, ni) =>
      rc <~ mcall (NLink ni dni tu) ;;
      mcall (NInodeCloseInDir ni dni) ~;; mcall (NInodeClose dni) ~;;
      match rc with
      | Some e => o <~ ntfs_ren_after w (err_or EIO_ e) ;; mret (inl o)
      | None => mret (inr tt)
      end
  end.
(** Step 2: the old name *)
Definition ntfs_rename_unlink (w : ntfs_renaming) (from_ino : Z) (fu : list Z) : M ntfs_ren_out :=
  p <~ ntfs_open_pair (w_from w) from_ino ;;
  match p with
  | inl e => ntfs_ren_after w (err_or EIO_ e)
  | inr (dni, ni) =>
      rc <~ mcall (NDelete ni dni fu) ;;
      mset_parent from_ino (w_to w) ~;;
      ntfs_ren_after w (match rc with Some e => err_or EIO_ e | None => NFS3_OK end)
  end.
Definition ntfs_op_rename (from : Z) (from_name : string) (to : Z) (to_name : string) : M ntfs_ren_out :=
  '(w, fu, tu) <~? ntfs_rename_enter from from_name to to_name ;;
  '(st, from_ino, fa) <~ ntfs_op_lookup from from_name ;;
  if negb (st =? NFS3_OK) then mret (ntfs_ren_stay w st)
  else
    _ <~? ntfs_rename_replace w to_name from_ino (default junk fa) ;;
    _ <~? ntfs_rename_link w from_ino tu ;;
    ntfs_rename_unlink w from_ino fu.

Definition ntfs_op_link (ino dir : Z) (name : string) : M (Z * option NfsAttr * bool * DirOut) :=
  '(st, a) <~ ntfs_op_getattr dir ;;
  if negb (st =? NFS3_OK) then mret (NFS3ERR_STALE, None, false, Dout zero_wcc None false)
  else
    let dpre := default junk a in
    let pre := attr_to_wcc_pre true dpre in
    let refused st := mret (st, None, false, Dout pre (Some dpre) true) in
    if negb (a_type dpre =? NF3DIR) then refused NFS3ERR_NOTDIR
    else
      u <~ ntfs_utf8_to_ucs name ;;
      match u with
      | inl st => refused st
      | inr u =>
          p <~ ntfs_open_pair dir ino ;;
          match p with
          | inl _ => mret (NFS3ERR_STALE, None, false, Dout pre None false)
          | inr (dni, ni) =>
              i <~ mcall (NInode ni) ;;
              if n_is_dir i then
                fa <~ ntfs_fill_attr ni ino ;;
                mcall (NInodeClose ni) ~;;
                da <~ ntfs_fill_attr dni dir ;;
                mcall (NInodeClose dni) ~;;
                mret (NFS3ERR_ISDIR, Some fa, true, Dout pre (Some da) true)
              else
                rc <~ mcall (NLink ni dni u) ;;
                fa <~ ntfs_fill_attr ni ino ;;
                mcall (NInodeCloseInDir ni dni) ~;;
                da <~ ntfs_fill_attr dni dir ;;
                mcall (NInodeClose dni) ~;;
                mret (match rc with Some e => err_or EIO_ e | None => NFS3_OK end,
                      Some fa, true, Dout pre (Some da) true)
          end
      end.

(** ** Listing *)
(** ntfs_filldir_cb over the entries. A name that is empty as a C string stops
    the listing (None). *)
Fixpoint ntfs_filldir_cb (dir : Z) (entries : list ntfs_dirent) (l : DirEntryList) : M (option DirEntryList) :=
  match entries with
  | [] => mret (Some l)
  | d :: t =>
      let cino := MREF (nd_mref d) in
      if (nd_type d =? FILE_NAME_DOS) || (cino <? FILE_first_user) then ntfs_filldir_cb dir t l
      else
        s <~ mcall (NUcstombs (nd_name d)) ;;
        match s with
        | None | Some [] => ntfs_filldir_cb dir t l
        | Some s =>
            let name := cstr_of_bytes s in
            if String.eqb name "." || String.eqb name ".." then ntfs_filldir_cb dir t l
            else
              mset_parent cino dir ~;;
              if String.eqb name "" then mret None else ntfs_filldir_cb dir t (l ++ [(cino, name)])
        end
  end.
Definition ntfs_op_readdir (dir : Z) : M (Z * DirEntryList * option NfsAttr * bool) :=
  o <~ mcall (NInodeOpen dir) ;;
  match o with
  | inl _ => mret (NFS3ERR_STALE, [], None, false)
  | inr dni =>
      a <~ ntfs_fill_attr dni dir ;;
      i <~ mcall (NInode dni) ;;
      if negb (n_is_dir i) then mcall (NInodeClose dni) ~;; mret (NFS3ERR_NOTDIR, [], Some a, true)
      else
        p <~ ntfs_resolve_parent_ino dni dir ;;
        let pino := if p =? 0 then FILE_root else p in
        '(entries, rc) <~ mcall (NReaddir dni) ;;
        l <~ ntfs_filldir_cb dir entries [(dir, "."); (pino, "..")] ;;
        mcall (NInodeClose dni) ~;;
        match l, rc with
        | None, _ => mret (NFS3ERR_SERVERFAULT, [], Some a, true)
        | Some _, Some e => mret (err_or EIO_ e, [], Some a, true)
        | Some l, None => mret (NFS3_OK, l, Some a, true)
        end
  end.

Definition ntfs_op_fsstat (ino : Z) : M (Z * FsStatInfo * option NfsAttr * bool) :=
  '(st, a) <~ ntfs_op_getattr ino ;;
  if negb (st =? NFS3_OK) then mret (NFS3ERR_STALE, Fsstat 0 0 0 0 0 0, a, false)
  else
    mcall NFreeSpace ~;;
    v <~ mcall NVolume ;;
    let cs := v_cluster_size v in
    let total_c := pos (v_nr_clusters v) in
    let free_c := Z.min (pos (v_free_clusters v)) total_c in
    let total_mft := match v_mft_size v with
      | Some n => if (0 <? v_mft_record_size v) && (0 <? n) then n / v_mft_record_size v else 4096
      | None => 4096 end in
    let free_mft := if 0 <? v_free_mft_records v then v_free_mft_records v else 1024 in
    let total_mft := if total_mft <? free_mft then u64 (free_mft + 64) else total_mft in
    mret (NFS3_OK, Fsstat (u64 (total_c * cs)) (u64 (free_c * cs)) (u64 (free_c * cs)) total_mft free_mft free_mft, a, true).

Definition ntfs_op_commit (ino : Z) : M (Z * DirOut) :=
  '(st, a) <~ ntfs_op_getattr ino ;;
  if negb (st =? NFS3_OK) then mret (NFS3ERR_STALE, Dout zero_wcc a false)
  else
    let d := Dout (attr_to_wcc_pre true (default junk a)) a true in
    sync <~ mcall NHasSync ;;
    if sync : bool then rc <~ mcall NSync ;; mret (if rc =? 0 then NFS3_OK else NFS3ERR_IO, d)
    else mret (NFS3_OK, d).

Definition ntfs_sync_all : M unit :=
  sync <~ mcall NHasSync ;; mwhen sync (mcall NSync ~;; mret tt).

(** * The backend *)
#[export] Instance ntfs_backend : Backend := {|
  fs_root_ino := FILE_root; fs_sync_all := ntfs_sync_all;
  fs_getattr := ntfs_op_getattr; fs_setattr := ntfs_op_setattr; fs_lookup := ntfs_op_lookup;
  fs_readlink := ntfs_op_readlink; fs_read := ntfs_op_read; fs_write := ntfs_op_write;
  fs_create := ntfs_op_create; fs_mkdir := ntfs_op_mkdir; fs_symlink := ntfs_op_symlink;
  fs_remove := ntfs_op_remove; fs_rmdir := ntfs_op_rmdir; fs_rename := ntfs_op_rename; fs_link := ntfs_op_link;
  fs_readdir := ntfs_op_readdir; fs_fsstat := ntfs_op_fsstat; fs_commit := ntfs_op_commit |}.
End Ntfs.
