(* ===== verification/NtfsSpec.v ===== *)
(** Theorems of the NTFS backend, whatever libntfs-3g answers: what the library
    is asked for, that every call is answered, and that open inodes and
    attributes are used and closed as the library requires. *)
From stdpp Require Import gmap.
From S2P Require Import Prelude Cstr Ntfs3g Sys Xdr XdrSpec Mountd Nfsd NfsdSpec Ntfs.

(** * What the library may be asked for *)
Definition entry_name (u : list Z) : Prop := 0 < zlen u <= 255.
(** Nothing is called but the library and the clock. Names that are looked up,
    entered or removed have 1 to 255 units, the length byte of an entry; no
    transfer is of more than 1 MiB; sizes and positions are signed
    64-bit numbers; new inodes are files or directories. *)
Definition ntfs_guarded {X : Set} (e : ev X) : Prop :=
  match e with
  | NLookup _ u | NLink _ _ u | NDelete _ _ u | NCreateSymlink _ u _ => entry_name u
  | NCreate _ u type => entry_name u /\ (type = S_IFREG \/ type = S_IFDIR)
  | NMbstoucs s => no_nul s = true /\ 0 < strlen s < 1025
  | NPread _ pos n => - 2 ^ 63 <= pos < 2 ^ 63 /\ 0 < n <= MOUNTD_MAX_IO_SIZE
  | NPwrite _ pos b => - 2 ^ 63 <= pos < 2 ^ 63 /\ zlen b <= MOUNTD_MAX_IO_SIZE
  | NTruncate _ n => - 2 ^ 63 <= n < 2 ^ 63
  | NFreeSpace | NVolume | NHasSync | NSync | NInodeOpen _ | NInodeClose _ | NInodeCloseInDir _ _ | NDirParent _
  | NInode _ | NSetAtime _ _ | NSetMtime _ _ | NSetCtime _ _ | NDirty _ | NPossibleSymlink _ | NInterixTypes _
  | NMakeSymlink _ | NReadAll _ | NUcstombs _ | NReaddir _ | NAttrOpen _ | NAttr _ | NPclose _ | NAttrClose _
  | Clock => True
  | _ => False
  end.

Lemma s64_range z : - 2 ^ 63 <= s64 z < 2 ^ 63.
Proof. unfold s64. pose proof (Z.mod_pos_bound z (2 ^ 64) eq_refl). case_match; lia. Qed.
Lemma strlen_pos s : s <> "" -> 0 < strlen s.
Proof. destruct s; [done|]. rewrite strlen_cons. pose proof (strlen_nonneg s). lia. Qed.
Lemma name_nonempty name : valid_leaf_name name = true -> name <> "".
Proof. by intros Hv ->. Qed.
Lemma utf8_ends name : mends (fun r => match r with inr u => entry_name u | inl st => (st =? NFS3_OK) = false end)
  (ntfs_utf8_to_ucs name).
Proof.
  unfold ntfs_utf8_to_ucs. destruct (valid_leaf_name name); cbn [negb]; [|by apply mends_ret].
  apply mends_any. intros [[|x u]|]; [by apply mends_ret| |by apply mends_ret].
  destruct (Z.ltb_spec 255 (zlen (x :: u))); apply mends_ret; [done|].
  unfold entry_name. rewrite zlen_cons in *. pose proof (zlen_nonneg u). lia.
Qed.

(** * Every property closed under sequencing

    [S] holds of the backend as soon as it holds of the library's calls and of
    the two loops. *)
Section Backend.
Context {S : forall A, M A -> Prop} `{!Logic S}.
Variables (fuel : nat) (tt_ : Z -> Z * Z) (ot : Z * Z -> Z) (junk : NfsAttr) (uid gid fsid : Z).
Hypothesis s_call : forall (X : Set) (e : ev X), ntfs_guarded e -> S X (mcall e).
Hypothesis s_set_parent : forall k p, S unit (mset_parent k p).
Hypothesis s_get_parent : forall k, S (option Z) (mget_parent k).
Hypothesis s_read_loop : forall na off n, n <= MOUNTD_MAX_IO_SIZE -> S _ (ntfs_read_loop fuel na off n).
Hypothesis s_write_loop : forall na off buf, zlen buf <= MOUNTD_MAX_IO_SIZE -> S _ (ntfs_write_loop fuel na off buf).

Lemma enter_dir_ends dir name :
  mends (fun r => match r with inr (_, u) => entry_name u | inl _ => True end)
    (ntfs_enter_dir tt_ uid gid fsid dir name).
Proof.
  unfold ntfs_enter_dir. apply mends_any. intros [e|dni]; [by apply mends_ret|].
  apply mends_any. intros a. apply mends_any. intros i. destruct (n_is_dir i); cbn [negb].
  - eapply mends_bind; [apply utf8_ends|]. intros [st|u] H; [apply mends_any; intros|]; by apply mends_ret.
  - apply mends_any. intros. by apply mends_ret.
Qed.
Lemma entering_ends {A} (Q : A -> Prop) m :
  mends (fun r => match r with inr a => Q a | inl _ => True end) m ->
  mends (fun r => match r with inr a => Q a | inl _ => True end) (entering m).
Proof. intros H. eapply mends_bind; [exact H|]. by intros [e|a] Ha; apply mends_ret. Qed.
Lemma ntfs_rename_enter_ends from n1 to n2 :
  mends (fun r => match r with inr (_, fu, tu) => entry_name fu /\ entry_name tu | inl _ => True end)
    (ntfs_rename_enter tt_ junk uid gid fsid from n1 to n2).
Proof.
  unfold ntfs_rename_enter. apply mends_any. intros [st1 a1]. apply mends_any. intros [st2 a2].
  case_match; [by apply mends_ret|]. case_match; [by apply mends_ret|].
  eapply mends_bind; [apply utf8_ends|]. intros [st|fu] H1; [by apply mends_ret|].
  eapply mends_bind; [apply utf8_ends|]. intros [st|tu] H2; by apply mends_ret.
Qed.

Create HintDb ntfs.
Ltac ntfs_step :=
  match goal with
  | |- S _ (mbind (ntfs_utf8_to_ucs _) _) => eapply (l_bind _ _ _ _ _); [|apply utf8_ends|intros [?|?] ?]
  | |- S _ (mbind _ _) => apply l_seq
  | |- S _ (mtry (ntfs_enter_dir _ _ _ _ _ _) _) => eapply l_try; [|apply enter_dir_ends|intros [? ?] ?]
  | |- S _ (mtry (entering _) _) =>
      eapply l_try; [unfold entering|apply (entering_ends (fun '(_, u) => entry_name u)), enter_dir_ends|intros [? ?] ?]
  | |- S _ (mtry (ntfs_rename_enter _ _ _ _ _ _ _ _ _) _) =>
      eapply l_try; [|apply ntfs_rename_enter_ends|intros [[? ?] ?] [? ?]]
  | |- S _ (mtry _ _) => apply (l_try _ _ (fun _ => True)); [|done|intros]
  | |- S _ (mret _) => apply l_ret
  | |- S _ (mset_parent _ _) => apply s_set_parent
  | |- S _ (mget_parent _) => apply s_get_parent
  | |- S _ (mwhen _ _) => apply l_when; intros
  | |- S _ (mcall _) => apply s_call; cbn [ntfs_guarded]; try exact I; try assumption; try apply s64_range
  | |- True => exact I
  | |- S _ (match ?x with _ => _ end) => destruct x eqn:?
  | |- S _ _ => solve [auto with ntfs]
  | |- forall _, _ => intro
  end.
Ltac ntfs_tac := repeat (cbv beta iota zeta; ntfs_step).

Lemma ns_utf8 name : cstr_below 1025 name -> S _ (ntfs_utf8_to_ucs name).
Proof.
  intros [Hn Hl]. unfold ntfs_utf8_to_ucs. destruct (valid_leaf_name name) eqn:E; cbn [negb]; ntfs_tac.
  split; [done|]. split; [|done]. by apply strlen_pos, name_nonempty.
Qed.
Lemma ns_is_symlink ni : S _ (ntfs_is_symlink_inode ni).
Proof. unfold ntfs_is_symlink_inode. ntfs_tac. Qed.
Lemma ns_read_interix ni cap : S _ (ntfs_read_interix ni cap).
Proof. unfold ntfs_read_interix. ntfs_tac. Qed.
Hint Resolve ns_utf8 ns_is_symlink ns_read_interix : ntfs.
Lemma ns_read_symlink ni cap : S _ (ntfs_read_symlink_str ni cap).
Proof. unfold ntfs_read_symlink_str. ntfs_tac. Qed.
Lemma ns_resolve ni ino : S _ (ntfs_resolve_parent_ino ni ino).
Proof. unfold ntfs_resolve_parent_ino. ntfs_tac. Qed.
Hint Resolve ns_read_symlink ns_resolve : ntfs.
Lemma ns_sizes ni d l : S _ (ntfs_sizes ni d l).
Proof. unfold ntfs_sizes. ntfs_tac. Qed.
Hint Resolve ns_sizes : ntfs.
Lemma ns_fill ni ino : S _ (ntfs_fill_attr tt_ uid gid fsid ni ino).
Proof. unfold ntfs_fill_attr. ntfs_tac. Qed.
Hint Resolve ns_fill : ntfs.
Lemma ns_op_getattr ino : S _ (ntfs_op_getattr tt_ uid gid fsid ino).
Proof. unfold ntfs_op_getattr. ntfs_tac. Qed.
Lemma ns_open_with_parent ino : S _ (ntfs_open_with_parent ino).
Proof. unfold ntfs_open_with_parent. ntfs_tac. Qed.
Lemma ns_close_with_parent h : S _ (ntfs_close_with_parent h).
Proof. unfold ntfs_close_with_parent. ntfs_tac. Qed.
Lemma ns_sattr_times ni s : S _ (ntfs_apply_sattr_times ot ni s).
Proof. unfold ntfs_apply_sattr_times. ntfs_tac. Qed.
Lemma ns_touch ni : S _ (ntfs_touch ot ni).
Proof. unfold ntfs_touch. ntfs_tac. Qed.
Hint Resolve ns_op_getattr ns_open_with_parent ns_close_with_parent ns_sattr_times ns_touch : ntfs.
Lemma ns_set_size h n : S _ (ntfs_set_size ot h n).
Proof. unfold ntfs_set_size. ntfs_tac. Qed.
Hint Resolve ns_set_size : ntfs.
Lemma ns_op_setattr ino s : S _ (ntfs_op_setattr tt_ ot uid gid fsid ino s).
Proof. unfold ntfs_op_setattr. ntfs_tac. Qed.
Lemma ns_lookup_entry dni dir name : cstr_below 1025 name -> S _ (ntfs_lookup_entry tt_ uid gid fsid dni dir name).
Proof. intros Hn. unfold ntfs_lookup_entry. ntfs_tac. Qed.
Hint Resolve ns_op_setattr ns_lookup_entry : ntfs.
Lemma ns_op_lookup dir name : cstr_below 1025 name -> S _ (ntfs_op_lookup tt_ uid gid fsid dir name).
Proof. intros Hn. unfold ntfs_op_lookup. ntfs_tac. Qed.
Lemma ns_op_readlink ino cap : S _ (ntfs_op_readlink tt_ uid gid fsid ino cap).
Proof. unfold ntfs_op_readlink. ntfs_tac. Qed.
Lemma ns_op_read ino off count : count <= MOUNTD_MAX_IO_SIZE -> S _ (ntfs_op_read fuel tt_ uid gid fsid ino off count).
Proof. intros Hc. unfold ntfs_op_read. ntfs_tac. apply s_read_loop. case_match; lia. Qed.
Lemma ns_op_write ino off buf stable : zlen buf <= MOUNTD_MAX_IO_SIZE ->
  S _ (ntfs_op_write fuel tt_ ot uid gid fsid ino off buf stable).
Proof. intros Hb. unfold ntfs_op_write. ntfs_tac. Qed.
Lemma ns_stay e st : S _ (ntfs_stay e st).
Proof. unfold ntfs_stay. ntfs_tac. Qed.
Lemma ns_leave e st : S _ (ntfs_leave tt_ uid gid fsid e st).
Proof. unfold ntfs_leave. ntfs_tac. Qed.
Lemma ns_ndir_after dir pre : S _ (ntfs_dir_after tt_ uid gid fsid dir pre).
Proof. unfold ntfs_dir_after. ntfs_tac. Qed.
Hint Resolve ns_op_lookup ns_stay ns_leave ns_ndir_after : ntfs.
Lemma ns_enter dir name : cstr_below 1025 name -> S _ (ntfs_enter_dir tt_ uid gid fsid dir name).
Proof. intros Hn. unfold ntfs_enter_dir. ntfs_tac. Qed.
Lemma ns_new_done e cni cino : S _ (ntfs_new_done tt_ uid gid fsid e cni cino).
Proof. unfold ntfs_new_done. ntfs_tac. Qed.
Hint Resolve ns_enter ns_new_done : ntfs.
Lemma ns_new e o init : (forall ni, S _ (init ni)) -> S _ (ntfs_new tt_ uid gid fsid e o init).
Proof. intros Hi. unfold ntfs_new. ntfs_tac. Qed.
Lemma ns_create_existing e eino mode s : S _ (ntfs_create_existing tt_ ot uid gid fsid e eino mode s).
Proof. unfold ntfs_create_existing. ntfs_tac. Qed.
Lemma ns_init_file s ni : S _ (ntfs_init_file ot s ni).
Proof. unfold ntfs_init_file. ntfs_tac. Qed.
Lemma ns_fresh e u : entry_name u -> S _ (ntfs_fresh e u).
Proof. intros Hu. unfold ntfs_fresh. ntfs_tac. Qed.
Hint Resolve ns_new ns_create_existing ns_init_file ns_fresh : ntfs.
Lemma ns_op_create dir name mode s : cstr_below 1025 name -> S _ (ntfs_op_create tt_ ot uid gid fsid dir name mode s).
Proof. intros Hn. unfold ntfs_op_create. ntfs_tac. auto. Qed.
Lemma ns_op_mkdir dir name s : cstr_below 1025 name -> S _ (ntfs_op_mkdir tt_ ot uid gid fsid dir name s).
Proof. intros Hn. unfold ntfs_op_mkdir. ntfs_tac. auto. Qed.
Lemma ns_op_symlink dir name s target : cstr_below 1025 name -> cstr_below PATH_MAX target ->
  S _ (ntfs_op_symlink tt_ ot uid gid fsid dir name s target).
Proof.
  intros Hn [Ht Hl]. unfold ntfs_op_symlink. destruct (String.eqb_spec target ""); [apply l_ret|]. ntfs_tac.
  split; [done|]. split; [by apply strlen_pos|]. unfold PATH_MAX in Hl. lia.
Qed.
Lemma ns_unlink dir name d : cstr_below 1025 name -> S _ (ntfs_op_unlink_common tt_ uid gid fsid dir name d).
Proof. intros Hn. unfold ntfs_op_unlink_common. ntfs_tac. Qed.
Hint Resolve ns_unlink : ntfs.
Lemma ns_ren_after w st : S _ (ntfs_ren_after tt_ uid gid fsid w st).
Proof. unfold ntfs_ren_after. ntfs_tac. Qed.
Lemma ns_open_pair d i : S _ (ntfs_open_pair d i).
Proof. unfold ntfs_open_pair. ntfs_tac. Qed.
Hint Resolve ns_ren_after ns_open_pair : ntfs.
Lemma ns_rename_enter from n1 to n2 : cstr_below 1025 n1 -> cstr_below 1025 n2 ->
  S _ (ntfs_rename_enter tt_ junk uid gid fsid from n1 to n2).
Proof. intros. unfold ntfs_rename_enter. ntfs_tac. Qed.
Lemma ns_rename_replace w n i a : cstr_below 1025 n -> S _ (ntfs_rename_replace tt_ junk uid gid fsid w n i a).
Proof. intros. unfold ntfs_rename_replace. ntfs_tac. Qed.
Lemma ns_rename_link w i u : entry_name u -> S _ (ntfs_rename_link tt_ uid gid fsid w i u).
Proof. intros. unfold ntfs_rename_link. ntfs_tac. Qed.
Lemma ns_rename_unlink w i u : entry_name u -> S _ (ntfs_rename_unlink tt_ uid gid fsid w i u).
Proof. intros. unfold ntfs_rename_unlink. ntfs_tac. Qed.
Hint Resolve ns_rename_enter ns_rename_replace ns_rename_link ns_rename_unlink : ntfs.
Lemma ns_op_rename from n1 to n2 : cstr_below 1025 n1 -> cstr_below 1025 n2 ->
  S _ (ntfs_op_rename tt_ junk uid gid fsid from n1 to n2).
Proof. intros. unfold ntfs_op_rename. ntfs_tac. Qed.
Lemma ns_op_link ino dir name : cstr_below 1025 name -> S _ (ntfs_op_link tt_ junk uid gid fsid ino dir name).
Proof. intros. unfold ntfs_op_link. ntfs_tac. Qed.
Lemma ns_filldir dir l acc : S _ (ntfs_filldir_cb dir l acc).
Proof. revert acc; induction l as [|d l IH]; intros; cbn [ntfs_filldir_cb]; ntfs_tac; auto. Qed.
Hint Resolve ns_filldir : ntfs.
Lemma ns_op_readdir dir : S _ (ntfs_op_readdir tt_ uid gid fsid dir).
Proof. unfold ntfs_op_readdir. ntfs_tac. Qed.
Lemma ns_op_fsstat ino : S _ (ntfs_op_fsstat tt_ uid gid fsid ino).
Proof. unfold ntfs_op_fsstat. ntfs_tac. Qed.
Lemma ns_op_commit ino : S _ (ntfs_op_commit tt_ junk uid gid fsid ino).
Proof. unfold ntfs_op_commit. ntfs_tac. Qed.
Lemma ns_sync_all : S _ ntfs_sync_all.
Proof. unfold ntfs_sync_all. ntfs_tac. Qed.
Hint Resolve ns_op_readlink ns_op_readdir ns_op_fsstat ns_op_commit ns_sync_all ns_op_create ns_op_mkdir
  ns_op_symlink ns_op_rename ns_op_link ns_op_read ns_op_write : ntfs.

(** The backend keeps its side of the interface. *)
Lemma ntfs_backend_sat : Sat S (ntfs_backend fuel tt_ ot junk uid gid fsid).
Proof. split; cbn; intros; unfold ntfs_op_remove, ntfs_op_rmdir; auto with ntfs. apply ns_op_read. lia. Qed.
End Backend.

(** * Every call is within its contract *)
Section Guarded.
Variables (fuel : nat) (tt_ : Z -> Z * Z) (ot : Z * Z -> Z) (junk : NfsAttr) (uid gid fsid : Z).
Let G : forall X : Set, ev X -> Prop := fun X e => ntfs_guarded e.

Lemma ng_read_loop na off n : n <= MOUNTD_MAX_IO_SIZE -> malways G (ntfs_read_loop fuel na off n).
Proof.
  intros Hn. unfold ntfs_read_loop. apply malways_loop. intros got. destruct (Z.ltb_spec (zlen got) n); [|apply malways_ret].
  pose proof (zlen_nonneg got). malways_tac. cbn. split; [apply s64_range|lia].
Qed.
Lemma ng_write_loop na off buf : zlen buf <= MOUNTD_MAX_IO_SIZE -> malways G (ntfs_write_loop fuel na off buf).
Proof.
  intros Hb. unfold ntfs_write_loop. malways_tac. cbn. split; [apply s64_range|].
  unfold zdrop, zlen in *. rewrite length_drop. lia.
Qed.
Lemma ntfs_backend_guarded : Sat (fun A => @malways A G) (ntfs_backend fuel tt_ ot junk uid gid fsid).
Proof.
  apply ntfs_backend_sat.
  - intros X e He. by apply malways_call.
  - intros k p. apply malways_set.
  - intros k. apply malways_get.
  - apply ng_read_loop.
  - apply ng_write_loop.
Qed.
End Guarded.

(** * Every call is answered *)
Section Returns.
Variables (fuel : nat) (tt_ : Z -> Z * Z) (ot : Z * Z -> Z) (junk : NfsAttr) (uid gid fsid : Z).
Hypothesis Hfuel : MOUNTD_MAX_IO_SIZE < Z.of_nat fuel.
Let Rt : forall A, M A -> Prop := fun A => @returns posix A.

Lemma nr_call {X : Set} (e : ev X) : Rt _ (mcall e).
Proof. by intros c t _ (x & t' & _ & []). Qed.
Lemma nr_read_loop na off n : n <= MOUNTD_MAX_IO_SIZE -> Rt _ (ntfs_read_loop fuel na off n).
Proof.
  intros Hn. unfold ntfs_read_loop.
  apply (returns_loop _ (fun got => Z.to_nat (n - zlen got)) (fun _ => True)); [| |done|rewrite zlen_nil; unfold MOUNTD_MAX_IO_SIZE in *; lia].
  - intros got. case_match; [|apply l_ret]. apply l_seq; [apply nr_call|]. intros r. repeat case_match; apply l_ret.
  - intros c t c' got got' _ Ht H. split; [done|].
    destruct (Z.ltb_spec (zlen got) n); [|by apply mexec_ret in H as (_ & _ & ?)].
    apply mexec_bind in H as (t1 & c1 & r & t2 & -> & (-> & _)%mexec_call & H).
    destruct r as [e|[|b l]]; apply mexec_ret in H as (_ & _ & H); try done. injection H as ->.
    rewrite zlen_app, zlen_cons. pose proof (zlen_nonneg l). lia.
Qed.
Lemma nr_write_loop na off buf : zlen buf <= MOUNTD_MAX_IO_SIZE -> Rt _ (ntfs_write_loop fuel na off buf).
Proof.
  intros Hb. unfold ntfs_write_loop.
  apply (returns_loop _ (fun k => Z.to_nat (zlen buf - k)) (fun _ => True)); [| |done|unfold MOUNTD_MAX_IO_SIZE in *; lia].
  - intros k. case_match; [|apply l_ret]. apply l_seq; [apply nr_call|]. intros [w e]. repeat case_match; apply l_ret.
  - intros c t c' k k' _ Ht H. split; [done|]. destruct (Z.ltb_spec k (zlen buf)); [|by apply mexec_ret in H as (_ & _ & ?)].
    apply mexec_bind in H as (t1 & c1 & [w e] & t2 & -> & (-> & _)%mexec_call & H).
    destruct (Z.leb_spec w 0); apply mexec_ret in H as (_ & _ & H); [done|]. injection H as ->. lia.
Qed.
Lemma ntfs_backend_returns : Sat Rt (ntfs_backend fuel tt_ ot junk uid gid fsid).
Proof.
  apply (@ntfs_backend_sat Rt _).
  - intros. apply nr_call.
  - by intros k p c t _ [].
  - by intros k c t _ [].
  - apply nr_read_loop.
  - apply nr_write_loop.
Qed.
End Returns.

(** * Open inodes and attributes

    What is open: inodes, and at most one attribute. [okay]: a call is given
    what is open, closes an inode only when no attribute is, and is not given
    one inode twice. [after]: what is open then. *)
Record open_set := OpenSet { os_inodes : gset Z; os_attr : option Z }.
#[export] Instance open_set_eq_dec : EqDecision open_set.
Proof. solve_decision. Defined.
Definition okay {X : Set} (e : ev X) (h : open_set) : Prop :=
  match e with
  | NInodeClose ni => ni ∈ os_inodes h /\ os_attr h = None
  | NInodeCloseInDir ni dir | NDelete ni dir _ =>
      ni ∈ os_inodes h /\ dir ∈ os_inodes h /\ ni <> dir /\ os_attr h = None
  | NLink ni dir _ => ni ∈ os_inodes h /\ dir ∈ os_inodes h /\ ni <> dir
  | NDirParent ni | NInode ni | NSetAtime ni _ | NSetMtime ni _ | NSetCtime ni _ | NDirty ni | NPossibleSymlink ni
  | NInterixTypes ni | NMakeSymlink ni | NReadAll ni | NLookup ni _ | NCreate ni _ _ | NCreateSymlink ni _ _
  | NReaddir ni => ni ∈ os_inodes h
  | NAttrOpen ni => ni ∈ os_inodes h /\ os_attr h = None
  | NAttr na | NPread na _ _ | NPwrite na _ _ | NTruncate na _ | NPclose na | NAttrClose na => os_attr h = Some na
  | _ => True
  end.
#[export] Instance okay_dec {X : Set} (e : ev X) h : Decision (okay e h).
Proof. destruct e; cbn; apply _. Defined.
(** the inode an answer opens *)
Definition opens {X : Set} (e : ev X) : X -> option Z :=
  match e in ev X return X -> option Z with
  | NInodeOpen _ | NCreate _ _ _ | NCreateSymlink _ _ _ => fun x => match x with inr h => Some h | inl _ => None end
  | NDirParent _ => fun x => x
  | _ => fun _ => None
  end.
Definition opened (o : option Z) (h : open_set) : open_set :=
  match o with Some ni => OpenSet ({[ni]} ∪ os_inodes h) (os_attr h) | None => h end.
Definition without (l : list Z) (h : open_set) : open_set := OpenSet (os_inodes h ∖ list_to_set l) (os_attr h).
Definition after {X : Set} (e : ev X) : X -> open_set -> open_set :=
  match e in ev X return X -> open_set -> open_set with
  | NInodeClose ni | NInodeCloseInDir ni _ => fun _ => without [ni]
  | NDelete ni dir _ => fun _ => without [ni; dir]
  | NAttrOpen _ => fun x h => OpenSet (os_inodes h) (match x with inr na => Some na | inl _ => os_attr h end)
  | NAttrClose _ => fun _ h => OpenSet (os_inodes h) None
  | e => fun x => opened (opens e x)
  end.
(** None: a call was not okay *)
Definition handle_step (o : obs) (s : option open_set) : option open_set :=
  match o, s with
  | Obs e x, Some h => if decide (okay e h) then Some (after e x h) else None
  | _, None => None
  end.
(** what the library opens was not open *)
Definition handle_law (o : obs) (s : option open_set) : Prop :=
  match o, s with
  | Obs e x, Some h => match opens e x with Some ni => ni ∉ os_inodes h | None => True end
  | _, None => True
  end.

(** [runs_from h m Q]: from [h] open, every call of [m] is okay, and [m] ends
    with [Q] of its result and of what is open then. *)
Definition runs_from (h : open_set) {A} (m : M A) (Q : A -> open_set -> Prop) : Prop :=
  from handle_step handle_law (Some h) m (fun a s => exists h', s = Some h' /\ Q a h').

(** what is left when an inode is closed *)
Lemma close_first (x : Z) (X : gset Z) : x ∉ X -> ({[x]} ∪ X) ∖ ({[x]} ∪ ∅) = X.
Proof. set_solver. Qed.
Lemma close_second (x y : Z) (X : gset Z) : y ∉ {[x]} ∪ X -> x ∉ X -> ({[y]} ∪ ({[x]} ∪ X)) ∖ ({[x]} ∪ ∅) = {[y]} ∪ X.
Proof. set_solver. Qed.
Lemma close_both (x y : Z) (X : gset Z) : y ∉ {[x]} ∪ X -> x ∉ X ->
  ({[y]} ∪ ({[x]} ∪ X)) ∖ ({[y]} ∪ ({[x]} ∪ ∅)) = X.
Proof. set_solver. Qed.
(** [okay_tac]: a call is okay; [call_tac]: what it leaves open *)
Ltac okay_tac :=
  cbn [okay os_inodes os_attr]; repeat lazymatch goal with
  | |- True => exact I
  | |- _ = _ => reflexivity
  | |- _ /\ _ => split
  | |- _ ∈ _ => first [assumption|set_solver]
  | |- _ <> _ => set_solver
  end.
Ltac fresh_tac H :=
  cbn [opens os_inodes os_attr] in H;
  lazymatch type of H with
  | forall ni, Some ?h = Some ni -> _ => specialize (H _ eq_refl)
  | _ => clear H
  end.
Ltac closed_tac :=
  lazymatch goal with
  | |- context [({[?x]} ∪ ?X) ∖ ({[?x]} ∪ ∅)] => rewrite (close_first x X) by (first [assumption|set_solver])
  | |- context [({[?y]} ∪ ({[?x]} ∪ ?X)) ∖ ({[?x]} ∪ ∅)] => rewrite (close_second x y X) by (first [assumption|set_solver])
  | |- context [({[?y]} ∪ ({[?x]} ∪ ?X)) ∖ ({[?y]} ∪ ({[?x]} ∪ ∅))] =>
      rewrite (close_both x y X) by (first [assumption|set_solver])
  | _ => idtac
  end.
Ltac call_tac x H :=
  intros x H;
  lazymatch type of x with
  | (Z + Z)%type => destruct x as [?|?]
  | option Z => destruct x as [?|]
  | _ => idtac
  end; fresh_tac H; cbn [after opens opened os_inodes os_attr];
  unfold without; cbn [os_inodes os_attr list_to_set]; closed_tac.

Section Handles.
Variables (fuel : nat) (tt_ : Z -> Z * Z) (ot : Z * Z -> Z) (junk : NfsAttr) (uid gid fsid : Z).

Lemma h_ret {A} h (a : A) (Q : A -> open_set -> Prop) : Q a h -> runs_from h (mret a) Q.
Proof. intros H. apply from_ret. eauto. Qed.
Lemma h_bind {A B} h (m : M A) (f : A -> M B) P Q :
  runs_from h m P -> (forall a h', P a h' -> runs_from h' (f a) Q) -> runs_from h (mbind m f) Q.
Proof. intros Hm Hf. eapply from_bind; [apply Hm|]. intros a s (h' & -> & H). by apply Hf. Qed.
Lemma h_assoc {A B C} h (m : M A) (f : A -> M B) (g : B -> M C) Q :
  runs_from h (mbind m (fun a => mbind (f a) g)) Q -> runs_from h (mbind (mbind m f) g) Q.
Proof.
  intros H c t c' a (t1 & c1 & b & t2 & -> & (t3 & c3 & x & t4 & -> & H1 & H2)%mexec_bind & H3)%mexec_bind Hl.
  rewrite <- app_assoc in *. eapply H; [|done]. apply mexec_bind. exists t3, c3, x, (t4 ++ t2). split; [done|].
  split; [done|]. apply mexec_bind. eauto 10.
Qed.
Lemma h_ret_bind {A B} h (a : A) (f : A -> M B) Q : runs_from h (f a) Q -> runs_from h (mbind (mret a) f) Q.
Proof. intros H. apply (h_bind _ _ _ (fun b h' => b = a /\ h' = h)); [by apply h_ret|]. by intros b h' [-> ->]. Qed.
Lemma h_call {X : Set} {B} h (e : ev X) (f : X -> M B) Q :
  okay e h ->
  (forall x, (forall ni, opens e x = Some ni -> ni ∉ os_inodes h) -> runs_from (after e x h) (f x) Q) ->
  runs_from h (mbind (mcall e) f) Q.
Proof.
  intros Ho Hf. apply from_step. intros x Hl. cbn [handle_step]. rewrite decide_True by done. apply Hf.
  intros ni Hn. cbn in Hl. by rewrite Hn in Hl.
Qed.
Lemma h_end {A} h (m : M A) Q : runs_from h (mbind m mret) Q -> runs_from h m Q.
Proof.
  intros H c t c' a Hx Hl. eapply H; [|exact Hl]. apply mexec_bind. exists t, c', a, []. rewrite app_nil_r. done.
Qed.
Lemma h_set {B} h k p (f : unit -> M B) Q : runs_from h (f tt) Q -> runs_from h (mbind (mset_parent k p) f) Q.
Proof. apply from_set. Qed.
Lemma h_get {B} h k (f : option Z -> M B) Q : (forall p, runs_from h (f p) Q) -> runs_from h (mbind (mget_parent k) f) Q.
Proof. apply from_get. Qed.
Lemma h_loop {T A} h n (body : T -> M (T + A)) x (Q : A -> open_set -> Prop) :
  (forall x, runs_from h (body x) (fun r h' => match r with inl _ => h' = h | inr a => Q a h' end)) ->
  runs_from h (mloop n body x) Q.
Proof.
  intros Hb. apply (from_loop (fun _ s => s = Some h)); [|done]. intros x' ? ->.
  eapply from_mono; [|apply Hb]. intros [y|a] s (h' & -> & H); [by subst|eauto].
Qed.
(** [m] leaves open what was open, and nothing else *)
Definition tidy (h : open_set) {A} (m : M A) : Prop := runs_from h m (fun _ h' => h' = h).
Lemma h_tidy {A B} h (m : M A) (f : A -> M B) Q : tidy h m -> (forall a, runs_from h (f a) Q) -> runs_from h (mbind m f) Q.
Proof. intros Hm Hf. eapply h_bind; [apply Hm|]. by intros a ? ->. Qed.
#[local] Abbreviation inodes I := (OpenSet I None).

(** [m] closes [ni] and leaves open what else was open *)
Definition closes (ni : Z) (I : gset Z) {A} (m : M A) : Prop := runs_from (inodes ({[ni]} ∪ I)) m (fun _ h' => h' = inodes I).
Lemma h_closes {A B} ni I (m : M A) (f : A -> M B) Q :
  closes ni I m -> (forall a, runs_from (inodes I) (f a) Q) -> runs_from (inodes ({[ni]} ∪ I)) (mbind m f) Q.
Proof. intros Hm Hf. eapply h_bind; [apply Hm|]. by intros a ? ->. Qed.

(** [h_tac]: follows a program call by call; what is left are ends with a
    condition of their own *)
Create HintDb handles.
Ltac change_tidy := lazymatch goal with |- runs_from ?h ?m (fun _ h' => h' = ?h) => change (tidy h m) end.
Ltac change_closes :=
  lazymatch goal with |- runs_from (OpenSet ({[?ni]} ∪ ?I) None) ?m (fun _ h' => h' = OpenSet ?I None) => change (closes ni I m) end.
Ltac h_step :=
  lazymatch goal with
  | |- tidy _ _ => unfold tidy
  | |- closes _ _ _ => unfold closes
  | |- runs_from _ (mret _) _ => apply h_ret
  | |- runs_from _ (mtry _ _) _ => unfold mtry
  | |- runs_from _ (mbind (mret _) _) _ => apply h_ret_bind
  | |- runs_from _ (mbind (mbind _ _) _) _ => apply h_assoc
  | |- runs_from _ (mbind (mtry _ _) _) _ => unfold mtry at 1
  | |- runs_from _ (mbind (mwhen _ _) _) _ => unfold mwhen at 1
  | |- runs_from _ (mwhen _ _) _ => unfold mwhen at 1
  | |- runs_from _ (mbind (mset_parent _ _) _) _ => apply h_set
  | |- runs_from _ (mbind (mget_parent _) _) _ => apply h_get; intros
  | |- runs_from _ (mbind (mcall _) _) _ =>
      let x := fresh "x" in let H := fresh "Hfresh" in apply h_call; [okay_tac|call_tac x H]
  | |- runs_from _ (mcall _) _ => apply h_end
  | |- runs_from _ (mbind (match ?x with _ => _ end) _) _ => destruct x eqn:?
  | |- runs_from _ (match ?x with _ => _ end) _ => destruct x eqn:?
  | |- runs_from _ (mbind _ _) _ =>
      first [apply h_tidy; [solve [auto with handles]|intros]|apply h_closes; [solve [auto with handles]|intros]]
  | |- runs_from _ _ (fun _ h' => h' = _) => first [change_tidy|change_closes]; solve [auto with handles]
  | |- OpenSet _ _ = OpenSet _ _ => first [reflexivity|f_equal; set_solver]
  end.
Ltac h_tac := repeat (cbv beta iota zeta; h_step).

Section Given.
Context (I : gset Z) (ni : Z) (Hni : ni ∈ I).
Lemma h_is_symlink : tidy (inodes I) (ntfs_is_symlink_inode ni).
Proof. unfold ntfs_is_symlink_inode. h_tac. Qed.
Lemma h_read_symlink cap : tidy (inodes I) (ntfs_read_symlink_str ni cap).
Proof. unfold ntfs_read_symlink_str, ntfs_read_interix. h_tac. Qed.
Lemma h_resolve ino : tidy (inodes I) (ntfs_resolve_parent_ino ni ino).
Proof. unfold ntfs_resolve_parent_ino. h_tac. Qed.
Lemma h_fill ino : tidy (inodes I) (ntfs_fill_attr tt_ uid gid fsid ni ino).
Proof.
  unfold ntfs_fill_attr, ntfs_sizes. pose proof h_is_symlink. pose proof h_read_symlink. h_tac.
Qed.
End Given.
Hint Resolve h_is_symlink h_read_symlink h_resolve h_fill : handles.
(** a look at a helper's side conditions *)
Hint Extern 1 (_ ∈ _) => set_solver : handles.

Lemma h_utf8 h name : tidy h (ntfs_utf8_to_ucs name).
Proof. destruct h. unfold ntfs_utf8_to_ucs. h_tac. Qed.
Lemma h_sattr_times I oa ni s : ni ∈ I -> tidy (OpenSet I oa) (ntfs_apply_sattr_times ot ni s).
Proof. intros Hni. unfold ntfs_apply_sattr_times. h_tac. Qed.
Lemma h_touch I oa ni : ni ∈ I -> tidy (OpenSet I oa) (ntfs_touch ot ni).
Proof. intros Hni. unfold ntfs_touch. h_tac. Qed.
Hint Resolve h_utf8 h_sattr_times h_touch : handles.
Lemma h_op_getattr I ino : tidy (inodes I) (ntfs_op_getattr tt_ uid gid fsid ino).
Proof. unfold ntfs_op_getattr. h_tac. Qed.
Hint Resolve h_op_getattr : handles.
Lemma h_lookup_entry I dni dir name : dni ∉ I -> closes dni I (ntfs_lookup_entry tt_ uid gid fsid dni dir name).
Proof. intros Hd. unfold ntfs_lookup_entry. h_tac. Qed.
Hint Resolve h_lookup_entry : handles.
Lemma h_op_lookup I dir name : tidy (inodes I) (ntfs_op_lookup tt_ uid gid fsid dir name).
Proof. unfold ntfs_op_lookup. h_tac. Qed.
Hint Resolve h_op_lookup : handles.

(** an inode and its parent's, both open *)
Definition held (h : Z * option Z) (I : gset Z) : gset Z :=
  match h with (ni, Some p) => {[ni]} ∪ ({[p]} ∪ I) | (ni, None) => {[ni]} ∪ I end.
Definition new_to (h : Z * option Z) (I : gset Z) : Prop :=
  match h with (ni, Some p) => (p ∉ I) /\ ni ∉ ({[p]} ∪ I : gset Z) | (ni, None) => ni ∉ I end.
Lemma h_open_with_parent I ino :
  runs_from (inodes I) (ntfs_open_with_parent ino)
    (fun r h' => match r with Some h => h' = inodes (held h I) /\ new_to h I | None => h' = inodes I end).
Proof.
  unfold ntfs_open_with_parent. h_tac; cbn [held new_to]; try (split; [first [reflexivity|f_equal; set_solver]|set_solver]).
Qed.
(** [h_parent_tac]: an operation that begins with opening an inode and its parent's *)
Ltac h_parent_tac :=
  eapply h_bind; [apply h_open_with_parent|];
  let Hni := fresh "Hni" in let Hp := fresh "Hp" in
  intros [[? [?|]]|] ?; cbn [held new_to]; [intros (-> & Hp & Hni)|intros (-> & Hni)|intros ->];
  unfold ntfs_close_with_parent; cbn [fst].
Lemma h_op_setattr I ino s : tidy (inodes I) (ntfs_op_setattr tt_ ot uid gid fsid ino s).
Proof. unfold tidy, ntfs_op_setattr, ntfs_set_size. h_parent_tac; h_tac. Qed.
Lemma h_op_readlink I ino cap : tidy (inodes I) (ntfs_op_readlink tt_ uid gid fsid ino cap).
Proof. unfold ntfs_op_readlink. h_tac. Qed.
Lemma h_read_loop I na off n : tidy (OpenSet I (Some na)) (ntfs_read_loop fuel na off n).
Proof. apply h_loop. intros got. h_tac. Qed.
Lemma h_write_loop I na off buf : tidy (OpenSet I (Some na)) (ntfs_write_loop fuel na off buf).
Proof. apply h_loop. intros got. h_tac. Qed.
Hint Resolve h_op_setattr h_read_loop h_write_loop : handles.
Lemma h_op_read I ino off count : tidy (inodes I) (ntfs_op_read fuel tt_ uid gid fsid ino off count).
Proof. unfold ntfs_op_read. h_tac. Qed.
Lemma h_op_write I ino off buf stable : tidy (inodes I) (ntfs_op_write fuel tt_ ot uid gid fsid ino off buf stable).
Proof. unfold tidy, ntfs_op_write. h_parent_tac; h_tac. Qed.

Section Entered.
Context (I : gset Z) (e : ntfs_dir) (He : e_ni e ∉ I).
Lemma h_stay st : closes (e_ni e) I (ntfs_stay e st).
Proof. unfold ntfs_stay. h_tac. Qed.
Lemma h_leave st : closes (e_ni e) I (ntfs_leave tt_ uid gid fsid e st).
Proof. unfold ntfs_leave. h_tac. Qed.
Lemma h_create_existing eino mode s : closes (e_ni e) I (ntfs_create_existing tt_ ot uid gid fsid e eino mode s).
Proof. pose proof h_leave. unfold ntfs_create_existing, ntfs_dir_after. h_tac. Qed.
Lemma h_new_done cni cino : cni ∉ ({[e_ni e]} ∪ I) ->
  runs_from (inodes ({[cni]} ∪ ({[e_ni e]} ∪ I))) (ntfs_new_done tt_ uid gid fsid e cni cino) (fun _ h' => h' = inodes I).
Proof. intros Hc. unfold ntfs_new_done. h_tac. Qed.
(** the answer of the library to the creation of an inode, put into place *)
Lemma h_new (o : Z + Z) init : (forall ni J, ni ∈ J -> tidy (inodes J) (init ni)) ->
  (forall ni, o = inr ni -> ni ∉ ({[e_ni e]} ∪ I)) ->
  runs_from (opened (match o with inr ni => Some ni | inl _ => None end) (inodes ({[e_ni e]} ∪ I)))
    (ntfs_new tt_ uid gid fsid e o init) (fun _ h' => h' = inodes I).
Proof.
  intros Hi Hc. unfold ntfs_new. destruct o as [err|cni]; cbn [opened os_inodes os_attr].
  - pose proof h_leave. h_tac.
  - specialize (Hc _ eq_refl). assert (tidy (inodes ({[cni]} ∪ ({[e_ni e]} ∪ I))) (init cni)) by (apply Hi; set_solver).
    h_tac. by apply h_new_done.
Qed.
End Entered.
Hint Resolve h_stay h_leave h_create_existing : handles.
Lemma h_dir_after I dir pre : tidy (inodes I) (ntfs_dir_after tt_ uid gid fsid dir pre).
Proof. unfold ntfs_dir_after. h_tac. Qed.
Lemma h_init_file I s ni : ni ∈ I -> tidy (inodes I) (ntfs_init_file ot s ni).
Proof. intros Hn. unfold ntfs_init_file. h_tac. Qed.
Hint Resolve h_dir_after h_init_file : handles.

(** how the operations on names begin *)
Definition entered_post (I : gset Z) {A} (r : A + (ntfs_dir * list Z)) (h' : open_set) : Prop :=
  match r with
  | inr (e, _) => (e_ni e ∉ I) /\ h' = inodes ({[e_ni e]} ∪ I)
  | inl _ => h' = inodes I
  end.
Lemma h_enter I dir name : runs_from (inodes I) (ntfs_enter_dir tt_ uid gid fsid dir name) (entered_post I).
Proof.
  unfold ntfs_enter_dir. h_tac; cbn [entered_post]; try done.
  all: eapply h_bind; [by apply (h_stay I (NtfsDir _ _ _))|]; intros ? ? ->; by apply h_ret.
Qed.
Lemma h_entered {E} I dir name (wrap : Z * DirOut -> E) (f : ntfs_dir * list Z -> M E) :
  (forall e u, e_ni e ∉ I -> closes (e_ni e) I (f (e, u))) ->
  tidy (inodes I) (mtry (mbind (ntfs_enter_dir tt_ uid gid fsid dir name)
    (fun r => mret (match r with inl e => inl (wrap e) | inr a => inr a end))) f).
Proof.
  intros Hf. unfold tidy, mtry. apply h_assoc. eapply h_bind; [apply h_enter|]. intros [x|[e u]] h' H; apply h_ret_bind.
  - cbn in H. by apply h_ret.
  - destruct H as [He ->]. by apply Hf.
Qed.
Lemma h_unlink I dir name d : tidy (inodes I) (ntfs_op_unlink_common tt_ uid gid fsid dir name d).
Proof.
  unfold tidy, ntfs_op_unlink_common, mtry. eapply h_bind; [apply h_enter|].
  intros [x|[e u]] h' H; cbn in H; [by apply h_ret|]. destruct H as [He ->]. h_tac.
Qed.
Lemma h_op_create I dir name mode s : tidy (inodes I) (ntfs_op_create tt_ ot uid gid fsid dir name mode s).
Proof.
  unfold ntfs_op_create, entering. apply h_entered. intros e u He. unfold closes.
  apply h_call; [okay_tac|]. intros [err|ex] _; cbn [after opens opened]; [|h_tac]. case_match; [h_tac|].
  apply h_call; [okay_tac|]. intros o Ho. apply h_new; [done|intros; by apply h_init_file|].
  intros ni ->. by apply Ho.
Qed.
Lemma h_fresh I e u : e_ni e ∉ I ->
  runs_from (inodes ({[e_ni e]} ∪ I)) (ntfs_fresh e u)
    (fun r h' => h' = match r with inl _ => inodes I | inr _ => inodes ({[e_ni e]} ∪ I) end).
Proof. intros He. unfold ntfs_fresh. h_tac. Qed.
Lemma h_op_mkdir I dir name s : tidy (inodes I) (ntfs_op_mkdir tt_ ot uid gid fsid dir name s).
Proof.
  unfold ntfs_op_mkdir, entering. apply h_entered. intros e u He. unfold closes, mtry.
  eapply h_bind; [by apply h_fresh|]. intros [x|[]] ? ->; [by apply h_ret|].
  apply h_call; [okay_tac|]. intros o Ho. apply h_new; [done|intros; by apply h_sattr_times|].
  intros ni ->. by apply Ho.
Qed.
Lemma h_op_symlink I dir name s target : tidy (inodes I) (ntfs_op_symlink tt_ ot uid gid fsid dir name s target).
Proof.
  unfold ntfs_op_symlink. destruct (String.eqb target ""); [by apply h_ret|].
  unfold entering. apply h_entered. intros e u He. unfold closes, mtry.
  eapply h_bind; [by apply h_fresh|]. intros [x|[]] ? ->; [by apply h_ret|].
  apply h_call; [okay_tac|]. intros [t|] _; cbn [after opens opened]; [|h_tac].
  apply h_call; [okay_tac|]. intros o Ho. apply h_new; [done|intros; by apply h_sattr_times|].
  intros ni ->. by apply Ho.
Qed.
Hint Resolve h_unlink : handles.

(** RENAME and LINK *)
Lemma h_ren_after I w st : tidy (inodes I) (ntfs_ren_after tt_ uid gid fsid w st).
Proof. unfold ntfs_ren_after. h_tac. Qed.
Hint Resolve h_ren_after : handles.
Lemma h_rename_enter I from n1 to n2 : tidy (inodes I) (ntfs_rename_enter tt_ junk uid gid fsid from n1 to n2).
Proof. unfold ntfs_rename_enter. h_tac. Qed.
Lemma h_rename_replace I w n i a : tidy (inodes I) (ntfs_rename_replace tt_ junk uid gid fsid w n i a).
Proof. unfold ntfs_rename_replace. h_tac. Qed.
Lemma h_rename_link I w i u : tidy (inodes I) (ntfs_rename_link tt_ uid gid fsid w i u).
Proof. unfold ntfs_rename_link, ntfs_open_pair. h_tac. Qed.
Lemma h_rename_unlink I w i u : tidy (inodes I) (ntfs_rename_unlink tt_ uid gid fsid w i u).
Proof. unfold ntfs_rename_unlink, ntfs_open_pair. h_tac. Qed.
Hint Resolve h_rename_enter h_rename_replace h_rename_link h_rename_unlink : handles.
Lemma h_op_rename I from n1 to n2 : tidy (inodes I) (ntfs_op_rename tt_ junk uid gid fsid from n1 to n2).
Proof. unfold ntfs_op_rename. h_tac. Qed.
Lemma h_op_link I ino dir name : tidy (inodes I) (ntfs_op_link tt_ junk uid gid fsid ino dir name).
Proof. unfold ntfs_op_link, ntfs_open_pair. h_tac. Qed.

Lemma h_filldir I dir l acc : tidy (inodes I) (ntfs_filldir_cb dir l acc).
Proof. revert acc; induction l as [|d l IH]; intros acc; cbn [ntfs_filldir_cb]; h_tac; apply IH. Qed.
Hint Resolve h_filldir : handles.
Lemma h_op_readdir I dir : tidy (inodes I) (ntfs_op_readdir tt_ uid gid fsid dir).
Proof. unfold ntfs_op_readdir. h_tac. Qed.
Lemma h_op_fsstat I ino : tidy (inodes I) (ntfs_op_fsstat tt_ uid gid fsid ino).
Proof. unfold ntfs_op_fsstat. h_tac. Qed.
Lemma h_op_commit I ino : tidy (inodes I) (ntfs_op_commit tt_ junk uid gid fsid ino).
Proof. unfold ntfs_op_commit. h_tac. Qed.
Lemma h_sync_all I : tidy (inodes I) ntfs_sync_all.
Proof. unfold ntfs_sync_all. h_tac. Qed.
Hint Resolve h_op_readlink h_op_read h_op_write h_op_create h_op_mkdir h_op_symlink h_op_rename h_op_link
  h_op_readdir h_op_fsstat h_op_commit h_sync_all : handles.

#[export] Instance tidy_logic : Logic (fun A m => forall I, @tidy (inodes I) A m).
Proof.
  split; [intros A a I; by apply h_ret|]. intros A B m f Q Hm HQ Hf I c t c' b Hx Hl.
  apply mexec_bind in Hx as (t1 & c1 & a & t2 & -> & H1 & H2). apply abides_app in Hl as [Hl1 Hl2].
  rewrite observe_app. destruct (Hm I _ _ _ _ H1 Hl1) as (h1 & E1 & ->). rewrite E1 in *.
  apply (Hf a (HQ _ _ _ _ H1) I _ _ _ _ H2 Hl2).
Qed.
Lemma ntfs_backend_tidy : Sat (fun A m => forall I, @tidy (inodes I) A m) (ntfs_backend fuel tt_ ot junk uid gid fsid).
Proof. split; cbn; intros; unfold ntfs_op_remove, ntfs_op_rmdir; auto with handles. Qed.
End Handles.


(** ** A volume, for witnesses and counterexamples

    The root 5 has the directory "a" (40), the files "f" (41) and "g" (42), and the
    system file "$Bitmap" (6). The handle of an inode is its number and, in
    thousands, how many were opened before it; the answer to ntfs_link is given. *)
Definition units (s : string) : list Z := map (fun b => u8 b) (bytes_of_string s).
Definition entries : list (list Z * Z) :=
  [(units "a", 40); (units "f", 41); (units "g", 42); (units "$Bitmap", 6)].
Definition vol_env (link : option Z) : handler Z := fun X e w =>
  match e in ev X return X * Z with
  | NInodeOpen m => (inr (m + 1000 * w), w + 1)
  | NInode h => (NtfsInode (h mod 1000) (if bool_decide (h mod 1000 ∈ [5; 40]) then 3 else 1) 1 0 0 0 0 0 0, w)
  | NMbstoucs s => (Some (units s), w)
  | NLookup h u =>
      (match list_find (fun p => p.1 = u) entries with
       | Some (_, (_, m)) => if h mod 1000 =? 5 then inr m else inl ENOENT_
       | None => inl ENOENT_
       end, w)
  | NAttrOpen h => (inr h, w)
  | NAttr _ => (4096, 4096, w)
  | NLink _ _ _ => (link, w)
  | e => (default_answer e, w)
  end.
Definition vol_run {A} (m : M A) := mrun (vol_env None) m ∅ 1.
Definition zero_time (t : Z) : Z * Z := (0, 0).
(** REMOVE of "f" from the root *)
Definition remove_call : list byte :=
  be32 8 ++ be32 RPC_CALL ++ be32 2 ++ be32 NFS_PROGRAM ++ be32 NFS_V3 ++ be32 12 ++ be32 0 ++ be32 0 ++ be32 0 ++ be32 0
  ++ enc_opaque (be64 5) ++ enc_opaque (bytes_of_string "f").
Definition served_remove : M (option XdrBuf) :=
  @dispatch_rpc_call (ntfs_backend 10 zero_time fst no_attr 0 0 0) no_attr [] remove_call empty_buf.
Definition remove_trace : list obs := (vol_run served_remove).1.2.
Definition remove_reply : option XdrBuf := match (vol_run served_remove).1.1 with Some (_, r) => r | None => None end.
Lemma remove_runs :
  mexec (@dispatch_rpc_call (ntfs_backend 10 zero_time fst no_attr 0 0 0) no_attr [] remove_call empty_buf) ∅
    remove_trace ∅ remove_reply.
Proof. apply (run_exec (vol_env None) _ 1 _ _ 4). vm_compute. reflexivity. Qed.
#[export] Instance handle_law_dec o s : Decision (handle_law o s).
Proof. destruct o as [X e x], s as [h|]; cbn; [destruct (opens e x)|]; apply _. Defined.

(** * Where the backend and its own rules, or NFS, part

    [did P m]: with the volume above, [m] makes a call that satisfies [P]; [said]:
    what it returns. *)
Definition said {A} (link : option Z) (m : M A) : option A := snd <$> (mrun (vol_env link) m ∅ 1).1.1.
Definition did {A} (link : option Z) (P : obs -> bool) (m : M A) : bool := existsb P (mrun (vol_env link) m ∅ 1).1.2.
Definition of_file (m h : Z) : bool := h mod 1000 =? m.
Definition deletes (m dir : Z) (o : obs) : bool :=
  match o with Obs (NDelete ni dni _) _ => of_file m ni && of_file dir dni | _ => false end.
Definition size_zero : SAttr3 := Sattr false 0 false 0 false 0 true 0 0 0 0 0 0 0.

(** LOOKUP hides the system files and REMOVE refuses them, but CREATE of an
    existing name takes any entry: creating "$Bitmap" with a size of 0, as
    opening it for writing does, truncates the volume's allocation bitmap. *)
Theorem create_truncates_system_file :
  (fun r => r.1.1) <$> said None (ntfs_op_lookup zero_time 0 0 0 5 "$Bitmap") = Some NFS3ERR_NOENT /\
  (fun r => r.1) <$> said None (ntfs_op_remove zero_time 0 0 0 5 "$Bitmap") = Some NFS3ERR_ACCES /\
  (fun r => r.1.1.1) <$> said None (ntfs_op_create zero_time fst 0 0 0 5 "$Bitmap" CREATE_UNCHECKED (Some size_zero)) = Some NFS3_OK /\
  did None (fun o => match o with Obs (NTruncate na n) _ => of_file 6 na && (n =? 0) | _ => false end)
    (ntfs_op_create zero_time fst 0 0 0 5 "$Bitmap" CREATE_UNCHECKED (Some size_zero)) = true.
Proof. vm_compute. auto. Qed.
(** A file handle is an inode number that is not checked against the system
    files either. *)
Theorem system_file_writable :
  (fun r => r.1.1.1) <$> said None (ntfs_op_write 10 zero_time fst 0 0 0 6 0 (bytes_of_string "rufux") FILE_SYNC) = Some NFS3_OK /\
  did None (fun o => match o with Obs (NPwrite na _ _) _ => of_file 6 na | _ => false end)
    (ntfs_op_write 10 zero_time fst 0 0 0 6 0 (bytes_of_string "rufux") FILE_SYNC) = true.
Proof. vm_compute. auto. Qed.
(** A directory is renamed into itself: it becomes an entry of its own and is
    taken out of its parent, so that nothing leads to it. *)
Theorem ntfs_rename_into_itself :
  (fun r => r.1.1) <$> said None (ntfs_op_rename zero_time no_attr 0 0 0 5 "a" 40 "b") = Some NFS3_OK /\
  did None (fun o => match o with Obs (NLink ni dni _) _ => of_file 40 ni && of_file 40 dni | _ => false end)
    (ntfs_op_rename zero_time no_attr 0 0 0 5 "a" 40 "b") = true /\
  did None (deletes 40 5) (ntfs_op_rename zero_time no_attr 0 0 0 5 "a" 40 "b") = true.
Proof. vm_compute. auto. Qed.
(** RENAME over a file that exists removes it first: when the new link then
    fails (here: no space), an error is returned and the target is gone. *)
Theorem failed_rename_loses_target :
  (fun r => r.1.1) <$> said (Some 28) (ntfs_op_rename zero_time no_attr 0 0 0 5 "f" 5 "g") = Some NFS3ERR_NOSPC /\
  did (Some 28) (deletes 42 5) (ntfs_op_rename zero_time no_attr 0 0 0 5 "f" 5 "g") = true.
Proof. vm_compute. auto. Qed.

(** * Listing

    A library whose directory has the entries [l], and that converts names by
    [utf8]. *)
Section Listing.
Variables (l : list ntfs_dirent) (utf8 : list Z -> option (list byte)).
Definition dir_law (o : obs) (_ : unit) : Prop :=
  match o with
  | Obs e x =>
      match e in ev X return X -> Prop with
      | NReaddir _ => fun x => x = (l, None)
      | NUcstombs u => fun x => x = utf8 u
      | _ => fun _ => True
      end x
  end.
Definition no_step (_ : obs) (_ : unit) : unit := tt.
(** what a client should see of an entry: not an alias for DOS, not a system
    file, and nothing whose name cannot be converted *)
Definition shown (d : ntfs_dirent) : option (Z * string) :=
  if bool_decide (nd_type d <> FILE_NAME_DOS /\ FILE_first_user <= MREF (nd_mref d)) then
    match utf8 (nd_name d) with
    | Some (b :: s) =>
        let name := cstr_of_bytes (b :: s) in
        if String.eqb name "." || String.eqb name ".." then None else Some (MREF (nd_mref d), name)
    | _ => None
    end
  else None.
Lemma filldir_shown dir k acc :
  from no_step dir_law tt (ntfs_filldir_cb dir k acc) (fun r _ => forall out, r = Some out -> out = acc ++ omap shown k).
Proof.
  revert acc; induction k as [|d k IH]; intros acc; cbn [ntfs_filldir_cb].
  { apply from_ret. intros out [= <-]. by rewrite app_nil_r. }
  cbv zeta. cbn [omap list_omap]. unfold shown at 1.
  destruct ((nd_type d =? FILE_NAME_DOS) || (MREF (nd_mref d) <? FILE_first_user)) eqn:E.
  { rewrite bool_decide_false by lia. apply IH. }
  rewrite bool_decide_true by lia. apply from_step. intros x Hx. cbn in Hx. subst x. destruct (no_step _ _).
  destruct (utf8 (nd_name d)) as [[|b s]|]; [apply IH| |apply IH]. cbv zeta.
  destruct (String.eqb _ "." || String.eqb _ "..") eqn:En; [apply IH|]. apply from_set.
  destruct (String.eqb _ ""); [by apply from_ret|]. eapply from_mono; [|apply IH].
  intros r [] H out Hr. rewrite (H _ Hr). by rewrite <- app_assoc.
Qed.
Lemma unit_idle {A} (m : M A) : idle no_step m.
Proof. by intros c t c' a _ []; destruct (observe _ _ _). Qed.
Lemma listing_shown to_ts uid gid fsid dir : from no_step dir_law tt (ntfs_op_readdir to_ts uid gid fsid dir)
  (fun r _ => r.1.1.1 = NFS3_OK -> exists p, r.1.1.2 = (dir, ".") :: (p, "..") :: omap shown l).
Proof.
  unfold ntfs_op_readdir. apply from_idle; [apply unit_idle|]. intros [e|dni]; [by apply from_ret|].
  do 2 (apply from_idle; [apply unit_idle|]; intros ?). destruct (negb _).
  { apply from_idle; [apply unit_idle|]. intros. by apply from_ret. }
  apply from_idle; [apply unit_idle|]. intros p. cbv zeta. apply from_step. intros [k rc] Hx. cbn in Hx.
  injection Hx as -> ->. destruct (no_step _ _). eapply from_bind; [apply filldir_shown|]. intros out [] Hout.
  apply from_idle; [apply unit_idle|]. intros _. destruct out as [out|]; apply from_ret; [|done].
  intros _. exists (if p =? 0 then FILE_root else p). by rewrite (Hout _ eq_refl).
Qed.
End Listing.

(** A successful listing of the NTFS backend has the directory itself, its
    parent, and then exactly the entries a client should see, in the library's
    order: no DOS alias, no system file, no name that cannot be converted, and
    every other one. *)
Theorem ntfs_op_readdir_correct to_ts uid gid fsid dir l utf8 c t c' out a ok :
  mexec (ntfs_op_readdir to_ts uid gid fsid dir) c t c' (NFS3_OK, out, a, ok) ->
  abides no_step (dir_law l utf8) t tt ->
  exists p, out = (dir, ".") :: (p, "..") :: omap (shown utf8) l.
Proof.
  intros Hx Hl. by destruct (listing_shown l utf8 to_ts uid gid fsid dir _ _ _ _ Hx Hl eq_refl) as [p E]; exists p.
Qed.
Definition the_dirents : list ntfs_dirent :=
  [NtfsDirent (units "FILE~1") FILE_NAME_DOS 41; NtfsDirent (units "file one") 1 (41 + 2 ^ 48);
   NtfsDirent (units "$Bitmap") 3 6; NtfsDirent (units ".") 3 5; NtfsDirent [55296] 1 43; NtfsDirent (units "b") 3 42].
Definition ascii_only (u : list Z) : option (list byte) :=
  if forallb (fun c => c <? 128) u then Some (map b8 u) else None.
Definition dir_env : handler Z := fun X e w =>
  match e in ev X return X * Z with
  | NReaddir _ => ((the_dirents, None), w)
  | NUcstombs u => (ascii_only u, w)
  | e => vol_env None _ e w
  end.
Definition dir_run := mrun dir_env (ntfs_op_readdir zero_time 0 0 0 5) ∅ 1.
Definition the_listing : DirEntryList := [(5, "."); (5, ".."); (41, "file one"); (42, "b")].
Definition dir_cache : ParentCache := match dir_run.1.1 with Some (c, _) => c | None => ∅ end.
Definition dir_attr : option NfsAttr := match dir_run.1.1 with Some (_, (_, _, a, _)) => a | None => None end.
Lemma dir_runs : mexec (ntfs_op_readdir zero_time 0 0 0 5) ∅ dir_run.1.2 dir_cache (NFS3_OK, the_listing, dir_attr, true).
Proof. apply (run_exec dir_env _ 1 _ _ 2). vm_compute. reflexivity. Qed.
#[export] Instance dir_law_dec l utf8 o s : Decision (dir_law l utf8 o s).
Proof. destruct o as [X e x], e; cbn; apply _. Defined.
Lemma ntfs_op_readdir_correct_witness :
  abides no_step (dir_law the_dirents ascii_only) dir_run.1.2 tt /\
  exists p, the_listing = (5, ".") :: (p, "..") :: omap (shown ascii_only) the_dirents.
Proof.
  assert (Hl : abides no_step (dir_law the_dirents ascii_only) dir_run.1.2 tt)
    by (apply (bool_decide_eq_true_1 _); vm_compute; reflexivity).
  split; [exact Hl|].
  exact (ntfs_op_readdir_correct zero_time 0 0 0 5 the_dirents ascii_only ∅ _ _ _ _ _ dir_runs Hl).
Defined.
