(* ===== verification/NtfsFileSpec.v ===== *)
(** READ and WRITE of the NTFS backend against the contents of the file they
    are of. *)
From stdpp Require Import gmap.
From S2P Require Import Prelude Cstr Ntfs3g Contents Sys Xdr XdrSpec Mountd Nfsd NfsdSpec Ntfs NtfsSpec.

(** * A file as libntfs-3g documents it

    [k_inodes]: the inodes that are open on it. [k_attr]: the attribute that is
    open on its data. *)
Record nfile := NFile { k_inodes : gset Z; k_attr : option Z; k_data : list byte }.
Definition ours (na : Z) (s : nfile) : bool := bool_decide (k_attr s = Some na).
Definition resized (n : Z) (d : list byte) : list byte := ztake n (grown n d).
(** the file [ino] after one call and its answer *)
Definition nfile_step (ino : Z) (o : obs) (s : nfile) : nfile :=
  match o with
  | Obs e x =>
      match e in ev X return X -> nfile with
      | NInodeOpen m => fun x =>
          match x with
          | inr h => if m =? ino then NFile ({[h]} ∪ k_inodes s) (k_attr s) (k_data s) else s
          | inl _ => s
          end
      | NInodeClose ni | NInodeCloseInDir ni _ => fun _ => NFile (k_inodes s ∖ {[ni]}) (k_attr s) (k_data s)
      | NAttrOpen ni => fun x =>
          match x with
          | inr na => NFile (k_inodes s) (if decide (ni ∈ k_inodes s) then Some na else k_attr s) (k_data s)
          | inl _ => s
          end
      | NAttrClose na => fun _ => if ours na s then NFile (k_inodes s) None (k_data s) else s
      | NTruncate na n => fun x =>
          match x with
          | None => if ours na s then NFile (k_inodes s) (k_attr s) (resized n (k_data s)) else s
          | Some _ => s
          end
      | NPwrite na pos b => fun x =>
          if ours na s then NFile (k_inodes s) (k_attr s) (splice pos (ztake x.1 b) (k_data s)) else s
      | _ => fun _ => s
      end x
  end.
Definition nfile_run (ino : Z) : list obs -> nfile -> nfile := observe (nfile_step ino).

(** The answers libntfs-3g may give: what it opens was not open; an open
    attribute says how long the file is; a read returns bytes of the file from
    the position on, none only at the end or when it failed; a write takes at
    most what it was given. *)
Definition nlawful_step (ino : Z) (o : obs) (s : nfile) : Prop :=
  match o with
  | Obs e x =>
      match e in ev X return X -> Prop with
      | NInodeOpen _ => fun x => match x with inr h => h ∉ k_inodes s | inl _ => True end
      | NDirParent _ => fun x => match x with Some h => h ∉ k_inodes s | None => True end
      | NAttr na => fun x => k_attr s = Some na -> x.1 = zlen (k_data s)
      | NPread na pos n => fun x =>
          match x with
          | inr l => k_attr s = Some na ->
              l = slice pos (zlen l) (k_data s) /\ zlen l <= n /\ (l = [] -> n <= 0 \/ zlen (k_data s) <= pos)
          | inl _ => True
          end
      | NPwrite _ _ b => fun x => x.1 <= zlen b
      | _ => fun _ => True
      end x
  end.
Definition nlawful (ino : Z) : list obs -> nfile -> Prop := abides (nfile_step ino) (nlawful_step ino).

Section Transfer.
Variables (fuel : nat) (tt_ : Z -> Z * Z) (ot : Z * Z -> Z) (uid gid fsid ino : Z).
#[local] Abbreviation from := (from (nfile_step ino) (nlawful_step ino)).
#[local] Abbreviation idle := (idle (nfile_step ino)).
(** the file with one inode open on it, or none *)
#[local] Abbreviation open_file ni oa d := (NFile {[ni]} oa d).
#[local] Abbreviation shut d := (NFile ∅ None d).

(** ** Calls that do nothing to it *)
Definition nplain {X : Set} (e : ev X) : Prop :=
  match e with
  | NInodeOpen _ | NInodeClose _ | NInodeCloseInDir _ _ | NAttrOpen _ | NAttrClose _ | NTruncate _ _ | NPwrite _ _ _
  | NDirParent _ => False
  | _ => True
  end.
Lemma idle_nplain {X : Set} (e : ev X) : nplain e -> idle (mcall e).
Proof. intros He. apply idle_call. intros x s. by destruct e. Qed.
Ltac idle_tac := repeat (cbv beta iota zeta;
  lazymatch goal with
  | |- idle (mbind _ _) => apply idle_seq; [|intros]
  | |- idle (mcall _) => by apply idle_nplain
  | |- idle (mret _) => apply idle_ret
  | |- idle (mwhen _ _) => apply idle_when
  | |- idle (match ?x with _ => _ end) => destruct x
  end).
Lemma idle_symlink ni : idle (ntfs_is_symlink_inode ni).
Proof. unfold ntfs_is_symlink_inode. idle_tac. Qed.
Lemma idle_read_symlink ni cap : idle (ntfs_read_symlink_str ni cap).
Proof. unfold ntfs_read_symlink_str, ntfs_read_interix. idle_tac. Qed.
Lemma idle_touch ni : idle (ntfs_touch ot ni).
Proof. unfold ntfs_touch. idle_tac. Qed.

(** [f_tac]: an operation call by call, up to the calls that matter *)
Ltac f_step :=
  lazymatch goal with
  | |- from _ (mret _) _ => apply from_ret
  | |- from _ (mbind (mret _) _) _ => apply from_idle; [apply idle_ret|intros]
  | |- from _ (mbind (mwhen _ _) _) _ => apply from_idle; [idle_tac|intros]
  | |- from _ (mbind (mcall _) _) _ => apply from_idle; [by apply idle_nplain|intros]
  | |- from _ (mbind (ntfs_is_symlink_inode _) _) _ => apply from_idle; [apply idle_symlink|intros]
  | |- from _ (mbind (ntfs_touch _ _) _) _ => apply from_idle; [apply idle_touch|intros]
  end.
Ltac f_tac := repeat (cbv beta iota zeta; f_step).

Lemma from_fill I d ni i (B : Type) (f : NfsAttr -> M B) Q :
  (forall a, from (NFile I None d) (f a) Q) -> from (NFile I None d) (mbind (ntfs_fill_attr tt_ uid gid fsid ni i) f) Q.
Proof.
  intros Hf. apply (from_bind _ _ _ (fun _ s => s = NFile I None d)); [|intros a ? ->; apply Hf].
  unfold ntfs_fill_attr. apply from_idle; [by apply idle_nplain|]. intros x.
  apply from_idle; [destruct (n_is_dir x); [apply idle_ret|apply idle_symlink]|]. intros l.
  apply (from_bind _ _ _ (fun _ s => s = NFile I None d)); [|intros [? ?] ? ->; f_tac; done].
  unfold ntfs_sizes. destruct (n_is_dir x); [by apply from_ret|]. destruct l.
  { apply from_idle; [apply idle_read_symlink|]. intros [? ?]. f_tac. done. }
  apply from_step. intros [e|na] _; cbn [nfile_step k_inodes k_attr k_data]; [f_tac; done|].
  apply from_idle; [by apply idle_nplain|]. intros [? ?]. cbv beta iota.
  apply from_step. intros [] _. cbn [nfile_step]. unfold ours. cbn [k_inodes k_attr k_data].
  apply from_ret. repeat case_match; try done. all: repeat case_bool_decide; simplify_eq; done.
Qed.

(** ** The inode and its parent's *)
Lemma from_open_parent s p (B : Type) (f : option Z -> M B) Q :
  (forall o, from s (f o) Q) ->
  from s (mbind (if negb (p =? 0) && negb (p =? ino) then
      o <~ mcall (NInodeOpen p) ;; mret (match o with inr h => Some h | inl _ => None end) else mret None) f) Q.
Proof.
  intros Hf. apply (from_bind _ _ _ (fun _ s' => s' = s)); [|by intros o ? ->].
  destruct (Z.eqb_spec p ino); cbn [negb]; rewrite ?andb_false_r, ?andb_true_r; [by apply from_ret|].
  destruct (negb _); [|by apply from_ret]. apply from_step. intros [e|h] _; cbn [nfile_step]; apply from_ret; [done|].
  destruct (Z.eqb_spec p ino); done.
Qed.
Lemma from_resolve d ni i (B : Type) (f : Z -> M B) Q :
  (forall p, from (open_file ni None d) (f p) Q) ->
  from (open_file ni None d) (mbind (ntfs_resolve_parent_ino ni i) f) Q.
Proof.
  intros Hf. apply (from_bind _ _ _ (fun _ s' => s' = open_file ni None d)); [|by intros o ? ->].
  assert (Ha : from (open_file ni None d)
    (p <~ mcall (NDirParent ni) ;;
     match p with
     | None => mret 0
     | Some pni => i0 <~ mcall (NInode pni) ;; let p := MREF (n_mft_no i0) in
         mcall (NInodeClose pni) ~;; mwhen (negb (p =? 0)) (mset_parent i p) ~;; mret p
     end) (fun _ s' => s' = open_file ni None d)).
  { apply from_step. intros [h|] Hl; cbn [nfile_step]; [|by apply from_ret]. cbn in Hl.
    apply from_idle; [by apply idle_nplain|]. intros x. cbv zeta. apply from_step. intros r _.
    cbn [nfile_step k_inodes k_attr k_data]. apply from_idle; [apply idle_when, idle_set|]. intros _. apply from_ret.
    f_equal. set_solver. }
  unfold ntfs_resolve_parent_ino. destruct (i =? FILE_root); [by apply from_ret|].
  apply from_get. intros [p|]; cbv zeta; [|exact Ha]. destruct (negb _); [by apply from_ret|exact Ha].
Qed.
Lemma from_open_with_parent d (B : Type) (f : option (Z * option Z) -> M B) Q :
  from (shut d) (f None) Q -> (forall h, from (open_file h.1 None d) (f (Some h)) Q) ->
  from (shut d) (mbind (ntfs_open_with_parent ino) f) Q.
Proof.
  intros Hn Hs. apply (from_bind _ _ _ (fun r s' => match r with
    | Some h => s' = open_file h.1 None d | None => s' = shut d end)); [|intros [h|] ? ->; auto].
  clear Hn Hs. unfold ntfs_open_with_parent. cbv zeta.
  apply (from_bind _ _ _ (fun _ s' => s' = shut d)).
  { destruct (negb _); [|by apply from_ret]. intros c t c' a (-> & _ & _)%mexec_get _. done. }
  intros c ? ->. apply (from_bind _ _ _ (fun _ s' => s' = shut d)).
  { destruct c as [p|]; [|by apply from_ret].
    assert (Hp := from_open_parent (shut d) p _ mret (fun _ s' => s' = shut d)).
    intros c t c' a Hx Hl. apply (Hp (fun o => from_ret _ _ _ eq_refl) c t c' a); [|done].
    apply mexec_bind. exists t, c', a, []. rewrite app_nil_r. done. }
  intros pni ? ->. apply from_step. intros [e|ni] _; cbn [nfile_step k_inodes k_attr k_data].
  - destruct pni as [p|]; [|by apply from_ret]. apply from_step. intros r _. cbn [nfile_step k_inodes k_attr k_data].
    apply from_ret. f_equal. set_solver.
  - rewrite Z.eqb_refl, (right_id_L ∅ (∪)). destruct pni as [p|]; [by apply from_ret|].
    destruct (negb (ino =? FILE_root)); [|by apply from_ret].
    apply from_resolve. intros p. apply from_open_parent. intros o. by apply from_ret.
Qed.
Lemma from_close_with_parent h d (B : Type) (f : bool -> M B) Q :
  (forall ok, from (shut d) (f ok) Q) -> from (open_file h.1 None d) (mbind (ntfs_close_with_parent h) f) Q.
Proof.
  intros Hf. apply (from_bind _ _ _ (fun _ s' => s' = shut d)); [|by intros ok ? ->].
  destruct h as [ni [p|]]; cbn [fst ntfs_close_with_parent].
  - apply from_step. intros r _. cbn [nfile_step k_inodes k_attr k_data]. apply from_step. intros r' _.
    cbn [nfile_step k_inodes k_attr k_data]. apply from_ret. f_equal. set_solver.
  - apply from_step. intros r _. cbn [nfile_step k_inodes k_attr k_data]. apply from_ret. f_equal. set_solver.
Qed.

Lemma s64_id z : 0 <= z < 2 ^ 63 -> s64 z = z.
Proof. intros H. unfold s64. rewrite Z.mod_small by lia. case_match; lia. Qed.
Lemma err_or_not_ok d e : d <> 0 -> (err_or d e =? NFS3_OK) = false.
Proof. intros Hd. unfold err_or, errno_to_nfs3, NFS3_OK. repeat case_match; try done; lia. Qed.
Lemma resized_grown n d : zlen d <= n -> resized n d = grown n d.
Proof. intros H. unfold resized. apply ztake_all. rewrite zlen_grown. lia. Qed.

(** ** WRITE *)
Section Write.
Variables (off : Z) (buf data : list byte).
Hypothesis off_ok : 0 <= off.
Hypothesis end_ok : off + zlen buf < 2 ^ 63.

Lemma from_nwrite_loop I na g : from (NFile I (Some na) g) (ntfs_write_loop fuel na off buf) (fun r s' =>
  exists k, 0 <= k <= zlen buf /\ s' = NFile I (Some na) (splice off (ztake k buf) g) /\ (r = None -> k = zlen buf)).
Proof.
  unfold ntfs_write_loop. pose proof (zlen_nonneg buf).
  apply (from_loop (fun k s' => 0 <= k <= zlen buf /\ s' = NFile I (Some na) (splice off (ztake k buf) g))).
  2: { split; [lia|]. by rewrite ztake_neg, splice_nil by lia. }
  intros k s [Hk ->]. destruct (Z.ltb_spec k (zlen buf)).
  - apply from_step. intros [w e] Hl. cbn in Hl. rewrite zlen_zdrop in Hl by lia.
    cbn [nfile_step]. unfold ours. cbn [k_inodes k_attr k_data fst]. rewrite bool_decide_true by done. rewrite s64_id by lia.
    destruct (Z.leb_spec w 0); apply from_ret.
    + exists k. split; [done|]. split; [|done]. f_equal. by rewrite (ztake_neg w), splice_nil by lia.
    + split; [lia|]. f_equal. apply write_turn; [done..|]. rewrite zlen_zdrop by lia. lia.
  - apply from_ret. exists k. split; [done|]. split; [done|]. intros _. lia.
Qed.

Definition nwrite_done (r : Z * Z * Z * DirOut) (s' : nfile) : Prop :=
  exists k g, 0 <= k <= zlen buf /\ (g = data \/ g = grown off data) /\ s' = shut (splice off (ztake k buf) g) /\
    (r.1.1.1 = NFS3_OK -> k = zlen buf /\ g = grown off data /\ r.1.1.2 = zlen buf) /\
    (r.1.1.1 <> NFS3_OK -> r.1.1.2 = 0).
Lemma nwrite_refused st how d : (st =? NFS3_OK) = false -> nwrite_done (st, 0, how, d) (shut data).
Proof.
  intros E. exists 0, data. pose proof (zlen_nonneg buf). rewrite ztake_neg, splice_nil by lia.
  split; [lia|]. split; [by left|]. split; [done|]. cbn. split; [|done]. intros ->. discriminate E.
Qed.
Lemma nwrite_failed st how d k g : 0 <= k <= zlen buf -> g = data \/ g = grown off data ->
  (st =? NFS3_OK) = false -> nwrite_done (st, 0, how, d) (shut (splice off (ztake k buf) g)).
Proof. intros Hk Hg E. exists k, g. do 3 (split; [done|]). cbn. split; [|done]. intros ->. discriminate E. Qed.

(** the write itself, to the file as it was or with the gap filled *)
Lemma from_write_tail ni na g stable pre h (Hh : h.1 = ni) : g = data \/ g = grown off data ->
  (zlen g < off -> False) ->
  from (open_file ni (Some na) g)
    (r <~ ntfs_write_loop fuel na off buf ;;
     mcall (NPclose na) ~;; mcall (NAttrClose na) ~;;
     match r with
     | Some e =>
         a <~ ntfs_fill_attr tt_ uid gid fsid ni ino ;;
         ntfs_close_with_parent h ~;;
         mret (err_or ENOSPC_ e, 0, FILE_SYNC, Dout pre (Some a) true)
     | None =>
         ntfs_touch ot ni ~;;
         a <~ ntfs_fill_attr tt_ uid gid fsid ni ino ;;
         ok <~ ntfs_close_with_parent h ;;
         let d := Dout pre (Some a) true in
         if negb ok then mret (NFS3ERR_IO, 0, FILE_SYNC, d)
         else
           sync <~ (if negb (stable =? UNSTABLE) then mcall NHasSync else mret false) ;;
           mwhen sync (mcall NSync ~;; mret tt) ~;;
           mret (NFS3_OK, zlen buf, FILE_SYNC, d)
     end) nwrite_done.
Proof.
  intros Hg Hge. eapply from_bind; [apply from_nwrite_loop|]. intros r ? (k & Hk & -> & Hall).
  apply from_idle; [by apply idle_nplain|]. intros _. apply from_step. intros [] _.
  cbn [nfile_step]. unfold ours. cbn [k_inodes k_attr k_data]. rewrite bool_decide_true by done. subst ni. destruct r as [e|].
  - apply from_fill. intros a. apply from_close_with_parent. intros ok. apply from_ret.
    apply nwrite_failed; [done|done|]. by apply err_or_not_ok.
  - apply from_idle; [apply idle_touch|]. intros _. apply from_fill. intros a. apply from_close_with_parent. intros ok. cbv zeta.
    destruct ok; cbn [negb]; [|apply from_ret; by apply nwrite_failed].
    apply from_idle; [idle_tac|]. intros sync. apply from_idle; [idle_tac|]. intros _. apply from_ret.
    exists k, g. do 3 (split; [done|]). cbn. split; [|by intros []]. intros _. split; [by apply Hall|]. split; [|done].
    destruct Hg as [->| ->]; [|done]. symmetry. apply grown_id. lia.
Qed.
Lemma from_nwrite stable : from (shut data) (ntfs_op_write fuel tt_ ot uid gid fsid ino off buf stable) nwrite_done.
Proof.
  unfold ntfs_op_write. apply from_open_with_parent; [apply from_ret; by apply nwrite_refused|]. intros h. cbv zeta.
  apply from_fill. intros pre. apply from_idle; [by apply idle_nplain|]. intros i.
  destruct (n_is_dir i); [apply from_close_with_parent; intros; apply from_ret; by apply nwrite_refused|].
  apply from_idle; [apply idle_symlink|]. intros l.
  destruct l; [apply from_close_with_parent; intros; apply from_ret; by apply nwrite_refused|].
  apply from_step. intros [e|na] _; cbn [nfile_step k_inodes k_attr k_data].
  { apply from_close_with_parent. intros. apply from_ret. apply nwrite_refused. by apply err_or_not_ok. }
  rewrite decide_True by set_solver. apply from_step. intros [d al] Hl. cbn in Hl. specialize (Hl eq_refl). subst d.
  cbn [nfile_step]. cbv beta iota. pose proof (zlen_nonneg buf). rewrite s64_id by lia.
  destruct (Z.ltb_spec (zlen data) off).
  - apply from_step. intros [e|] _; cbn [nfile_step].
    + apply from_step. intros [] _. cbn [nfile_step]. unfold ours. cbn [k_inodes k_attr k_data].
      rewrite bool_decide_true by done. apply from_close_with_parent. intros ok. apply from_ret.
      apply nwrite_refused. by apply err_or_not_ok.
    + unfold ours. cbn [k_inodes k_attr k_data]. rewrite bool_decide_true by done.
      rewrite resized_grown by lia. apply from_write_tail; [done|by right|]. rewrite zlen_grown. lia.
  - apply (from_bind _ _ _ (fun r s' => r = None /\ s' = open_file h.1 (Some na) data)); [by apply from_ret|].
    intros ? ? [-> ->]. apply from_write_tail; [done|by left|lia].
Qed.
End Write.

(** ** READ *)
Section Read.
Variables (off count : Z) (d : list byte).
Hypothesis off_ok : 0 <= off.
Hypothesis count_ok : 0 <= count.
Hypothesis size_ok : zlen d < 2 ^ 63.

Lemma from_nread_loop I na to_read : 0 <= to_read <= zlen d - off ->
  from (NFile I (Some na) d) (ntfs_read_loop fuel na off to_read) (fun r s' =>
    s' = NFile I (Some na) d /\ match r with inl _ => True | inr got => got = slice off to_read d end).
Proof.
  intros Ht. unfold ntfs_read_loop.
  apply (from_loop (fun got s' => s' = NFile I (Some na) d /\ got = slice off (zlen got) d /\ zlen got <= to_read)).
  2: { rewrite zlen_nil. split; [done|]. split; [done|lia]. }
  intros got s (-> & Hg & Hle). pose proof (zlen_nonneg got). destruct (Z.ltb_spec (zlen got) to_read) as [Hlt|Hge].
  - apply from_step. intros [e|l] Hl; cbn [nfile_step]; [by apply from_ret|]. cbn in Hl. rewrite s64_id in Hl by lia.
    destruct (Hl eq_refl) as (Hs & Hn & He). destruct l as [|b l].
    + apply from_ret. split; [done|]. destruct (He eq_refl); [lia|]. rewrite Hg at 1. unfold slice.
      rewrite !ztake_all; [done|rewrite zlen_zdrop; lia..].
    + apply from_ret. set (l' := b :: l) in *. pose proof (zlen_nonneg l'). split; [done|]. rewrite zlen_app. split; [|lia].
      rewrite <- slice_app by lia. by rewrite <- Hg, <- Hs.
  - apply from_ret. split; [done|]. by replace to_read with (zlen got) by lia.
Qed.

Definition nread_done (r : Z * list byte * bool * option NfsAttr * bool) (s' : nfile) : Prop :=
  s' = shut d /\ (r.1.1.1.1 = NFS3_OK -> r.1.1.1.2 = slice off count d /\ r.1.1.2 = (zlen d <=? off + zlen r.1.1.1.2)).
Lemma nread_failed st l eof a ok : (st =? NFS3_OK) = false -> nread_done (st, l, eof, a, ok) (shut d).
Proof. intros E. split; [done|]. cbn. intros ->. discriminate E. Qed.
(** the inode closed, with the answer that goes out *)
Lemma from_leave ni st l eof a : nread_done (st, l, eof, Some a, true) (shut d) ->
  from (open_file ni None d) (mcall (NInodeClose ni) ~;; mret (st, l, eof, Some a, true)) nread_done.
Proof.
  intros H. apply from_step. intros r _. cbn [nfile_step k_inodes k_attr k_data]. apply from_ret.
  by replace ({[ni]} ∖ {[ni]} : gset Z) with (∅ : gset Z) by set_solver.
Qed.
Lemma from_nread : from (shut d) (ntfs_op_read fuel tt_ uid gid fsid ino off count) nread_done.
Proof.
  unfold ntfs_op_read. apply from_step. intros [e|ni] _; cbn [nfile_step]; [apply from_ret; by apply nread_failed|].
  rewrite Z.eqb_refl. cbn [k_inodes k_attr k_data]. rewrite (right_id_L ∅ (∪)). apply from_fill. intros a. cbv zeta.
  apply from_idle; [by apply idle_nplain|]. intros i. destruct (n_is_dir i); [apply from_leave; by apply nread_failed|].
  apply from_idle; [apply idle_symlink|]. intros l. destruct l; [apply from_leave; by apply nread_failed|].
  apply from_step. intros [e|na] _; cbn [nfile_step k_inodes k_attr k_data].
  { apply from_leave, nread_failed. by apply err_or_not_ok. }
  rewrite decide_True by set_solver. apply from_step. intros [sz al] Hl. cbn in Hl. specialize (Hl eq_refl). subst sz.
  cbn [nfile_step]. cbv beta iota.
  assert (Hp : pos (zlen d) = zlen d) by (unfold pos; pose proof (zlen_nonneg d); case_match; lia). rewrite Hp.
  assert (Hclose : forall (m : M (Z * list byte * bool * option NfsAttr * bool)),
    from (open_file ni None d) m nread_done -> from (open_file ni (Some na) d) (mcall (NAttrClose na) ~;; m) nread_done).
  { intros m Hm. apply from_step. intros [] _. cbn [nfile_step]. unfold ours. cbn [k_inodes k_attr k_data].
    by rewrite bool_decide_true by done. }
  destruct ((zlen d <=? off) || (count =? 0)) eqn:E0.
  { apply Hclose, from_leave. split; [done|]. intros _. cbn. rewrite Z.add_0_r. split; [|done]. unfold slice.
    apply orb_true_iff in E0 as [E0|E0]; [rewrite zdrop_all by lia; unfold ztake; by rewrite take_nil|by rewrite ztake_neg by lia]. }
  apply orb_false_iff in E0 as [E1 E2].
  eapply from_bind; [apply from_nread_loop; case_match; lia|]. intros r ? [-> Hr]. apply Hclose.
  destruct r as [e|got]; apply from_leave; [by apply nread_failed, err_or_not_ok|]. split; [done|]. intros _. cbn.
  assert (got = slice off count d) as ->.
  { rewrite Hr. destruct (Z.ltb_spec (zlen d - off) count); [|done].
    unfold slice. rewrite !ztake_all; [done|rewrite zlen_zdrop; lia..]. }
  split; [done|]. unfold u64. rewrite Z.mod_small; [done|].
  pose proof (zlen_nonneg (slice off count d)). unfold slice. rewrite zlen_ztake, zlen_zdrop by lia. lia.
Qed.
End Read.
End Transfer.

(** * The theorems *)

(** C32: WRITE of the NTFS backend does to the file what pwrite does, but for one
    thing: a gap is filled before the data is written. Whatever happens, the
    file then holds what it held, or that with the gap up to the offset filled
    with zeros, with the first [k] bytes of the buffer at the offset. A success
    means that all of the buffer is there and that the client is told so; a
    failure is reported with a count of 0. *)
Theorem ntfs_op_write_correct fuel to_ts of_ts uid gid fsid ino off buf stable data c t c' st n how d :
  0 <= off -> off + zlen buf < 2 ^ 63 ->
  mexec (ntfs_op_write fuel to_ts of_ts uid gid fsid ino off buf stable) c t c' (st, n, how, d) ->
  nlawful ino t (NFile ∅ None data) ->
  exists k g, 0 <= k <= zlen buf /\ (g = data \/ g = grown off data) /\
    k_data (nfile_run ino t (NFile ∅ None data)) = splice off (ztake k buf) g /\
    (st = NFS3_OK -> n = zlen buf /\
       k_data (nfile_run ino t (NFile ∅ None data)) = splice off buf (grown off data)) /\
    (st <> NFS3_OK -> n = 0).
Proof.
  intros Ho He H Hl.
  destruct (from_nwrite fuel to_ts of_ts uid gid fsid ino off buf data Ho He stable _ _ _ _ H Hl) as (k & g & Hk & Hg & Es & H1 & H2).
  unfold nfile_run. rewrite Es. exists k, g. cbn [fst snd k_data] in *. do 3 (split; [done|]). split; [|done].
  intros Hst. destruct (H1 Hst) as (-> & -> & Hn). split; [done|]. by rewrite ztake_all by lia.
Qed.

(** READ of the NTFS backend returns the file: a success carries exactly the
    bytes from the offset on that there are, up to the count asked for, and says
    whether the end was reached; the file is left as it was. *)
Theorem ntfs_op_read_correct fuel to_ts uid gid fsid ino off count data c t c' st bytes eof a ok :
  0 <= off -> 0 <= count -> zlen data < 2 ^ 63 ->
  mexec (ntfs_op_read fuel to_ts uid gid fsid ino off count) c t c' (st, bytes, eof, a, ok) ->
  nlawful ino t (NFile ∅ None data) ->
  k_data (nfile_run ino t (NFile ∅ None data)) = data /\
  (st = NFS3_OK -> bytes = slice off count data /\ eof = (zlen data <=? off + zlen bytes)).
Proof.
  intros Ho Hc Hs H Hl. destruct (from_nread fuel to_ts uid gid fsid ino off count data Ho Hc Hs _ _ _ _ H Hl) as [E H1].
  unfold nfile_run. rewrite E. split; [done|exact H1].
Qed.

(** What a successful WRITE of the NTFS backend stored a READ of the same
    range returns, byte for byte, when both succeed, whatever the pieces in
    which the library moved them. *)
Theorem ntfs_write_then_read fuel to_ts of_ts uid gid fsid ino off buf stable data c t c1 n how d u c2 bytes eof a ok :
  0 <= off -> off + zlen buf < 2 ^ 63 -> zlen data < 2 ^ 63 ->
  mexec (ntfs_op_write fuel to_ts of_ts uid gid fsid ino off buf stable) c t c1 (NFS3_OK, n, how, d) ->
  mexec (ntfs_op_read fuel to_ts uid gid fsid ino off (zlen buf)) c1 u c2 (NFS3_OK, bytes, eof, a, ok) ->
  nlawful ino (t ++ u) (NFile ∅ None data) -> bytes = buf.
Proof.
  intros Ho He Hs Hw Hr [Hl1 Hl2]%abides_app.
  destruct (from_nwrite fuel to_ts of_ts uid gid fsid ino off buf data Ho He stable _ _ _ _ Hw Hl1) as (k & g & Hk & _ & Es & H1 & _).
  destruct (H1 eq_refl) as (-> & -> & _). rewrite Es in Hl2. rewrite ztake_all in Hl2 by lia.
  assert (Hz : zlen (splice off buf (grown off data)) < 2 ^ 63) by (rewrite zlen_splice, zlen_grown by done; pose proof (zlen_nonneg buf); destruct buf; lia).
  destruct (from_nread fuel to_ts uid gid fsid ino off (zlen buf) _ Ho (zlen_nonneg buf) Hz _ _ _ _ Hr Hl2) as [_ Hb].
  destruct (Hb eq_refl) as [Hbytes _]. cbn in Hbytes. subst. by apply slice_splice.
Qed.

(** ** A library that has one file and moves at most three bytes at a time, for
    the witnesses *)
Definition the_ino : Z := 40.
Definition nfile_env : handler nfile := fun X e s =>
  let x := match e in ev X return X with
    | NInodeOpen m => inr (m + 100)
    | NDirParent _ => Some 99
    | NInode h => NtfsInode (if h =? 99 then 5 else h - 100) (if (h =? 99) || (h =? 105) then 2 else 1) 1 0 0 0 0 0 0
    | NAttrOpen _ => inr 7
    | NAttr _ => (zlen (k_data s), zlen (k_data s))
    | NPread _ pos n => inr (slice pos (Z.min n 3) (k_data s))
    | NPwrite _ _ b => (Z.min 3 (zlen b), 0)
    | e => default_answer e
    end in (x, nfile_step the_ino (Obs e x) s).
Definition secs (t : Z) : Z * Z := (t, 0).
Definition the_nfile : nfile := NFile ∅ None (bytes_of_string "rufux").
Definition nrun {A} (m : M A) (c : ParentCache) (s : nfile) := mrun nfile_env m c s.
Definition ntrace {A} (m : M A) (c : ParentCache) (s : nfile) : list obs := (nrun m c s).1.2.
Definition ncache {A} (m : M A) (c : ParentCache) (s : nfile) : ParentCache :=
  match (nrun m c s).1.1 with Some (c, _) => c | None => ∅ end.
Definition the_nwrite : M (Z * Z * Z * DirOut) :=
  ntfs_op_write 10 secs fst 0 0 0 the_ino 7 (bytes_of_string "mount") FILE_SYNC.
Definition the_nread : M (Z * list byte * bool * option NfsAttr * bool) := ntfs_op_read 10 secs 0 0 0 the_ino 7 5.
Definition nwritten : nfile := (nrun the_nwrite ∅ the_nfile).2.
Definition nattr (n : Z) : NfsAttr := Attr 1 438 1 0 0 n n 0 0 0 the_ino 0 0 0 0 0 0.
Lemma the_nwrite_runs : mexec (ntfs_op_write 10 secs fst 0 0 0 the_ino 7 (bytes_of_string "mount") FILE_SYNC) ∅
  (ntrace the_nwrite ∅ the_nfile) (ncache the_nwrite ∅ the_nfile)
  (NFS3_OK, 5, FILE_SYNC, Dout (Wcc true 5 0 0 0 0) (Some (nattr 12)) true).
Proof. apply (run_exec nfile_env _ the_nfile _ _ nwritten). vm_compute. reflexivity. Qed.
Lemma the_nread_runs : mexec (ntfs_op_read 10 secs 0 0 0 the_ino 7 (zlen (bytes_of_string "mount"))) (ncache the_nwrite ∅ the_nfile)
  (ntrace the_nread (ncache the_nwrite ∅ the_nfile) nwritten) (ncache the_nwrite ∅ the_nfile)
  (NFS3_OK, bytes_of_string "mount", true, Some (nattr 12), true).
Proof. apply (run_exec nfile_env _ nwritten _ _ nwritten). vm_compute. reflexivity. Qed.

(** [nlawful], computed *)
Definition nlawful_stepb (ino : Z) (o : obs) (s : nfile) : bool :=
  match o with
  | Obs e x =>
      match e in ev X return X -> bool with
      | NInodeOpen _ => fun x => match x with inr h => bool_decide (h ∉ k_inodes s) | inl _ => true end
      | NDirParent _ => fun x => match x with Some h => bool_decide (h ∉ k_inodes s) | None => true end
      | NAttr na => fun x => negb (ours na s) || (x.1 =? zlen (k_data s))
      | NPread na pos n => fun x =>
          match x with
          | inr l => negb (ours na s) || (bool_decide (l = slice pos (zlen l) (k_data s)) && (zlen l <=? n)
                       && (negb (bool_decide (l = [])) || (n <=? 0) || (zlen (k_data s) <=? pos)))
          | inl _ => true
          end
      | NPwrite _ _ b => fun x => x.1 <=? zlen b
      | _ => fun _ => true
      end x
  end.
Fixpoint nlawfulb (ino : Z) (t : list obs) (s : nfile) : bool :=
  match t with [] => true | o :: t => nlawful_stepb ino o s && nlawfulb ino t (nfile_step ino o s) end.
Lemma nlawfulb_nlawful ino t s : nlawfulb ino t s = true -> nlawful ino t s.
Proof.
  revert s; induction t as [|o t IH]; intros s; cbn [nlawfulb]; [done|]. intros [Ho Ht]%andb_true_iff.
  split; [|by apply IH]. clear -Ho. destruct o as [X e x]. destruct e; cbn in Ho |- *; try done.
  - destruct x; [done|]. by apply bool_decide_eq_true in Ho.
  - destruct x; [|done]. by apply bool_decide_eq_true in Ho.
  - intros Ha. unfold ours in Ho. rewrite Ha, bool_decide_true in Ho by done. cbn in Ho. lia.
  - destruct x as [|l]; [done|]. intros Ha. unfold ours in Ho. rewrite Ha, bool_decide_true in Ho by done. cbn in Ho.
    apply andb_true_iff in Ho as [[H1%bool_decide_eq_true H2]%andb_true_iff H3]. split; [done|]. split; [lia|].
    intros E. rewrite E in H3. cbn in H3. lia.
  - lia.
Qed.

Lemma ntfs_op_write_correct_witness :
  nlawful the_ino (ntrace the_nwrite ∅ the_nfile) (NFile ∅ None (bytes_of_string "rufux")) /\
  k_data (nfile_run the_ino (ntrace the_nwrite ∅ the_nfile) (NFile ∅ None (bytes_of_string "rufux")))
  = bytes_of_string "rufux" ++ replicate 2 Byte.x00 ++ bytes_of_string "mount".
Proof.
  assert (Hl : nlawful the_ino (ntrace the_nwrite ∅ the_nfile) (NFile ∅ None (bytes_of_string "rufux")))
    by (apply nlawfulb_nlawful; vm_compute; reflexivity).
  split; [exact Hl|].
  destruct (ntfs_op_write_correct 10 secs fst 0 0 0 the_ino 7 (bytes_of_string "mount") FILE_SYNC (bytes_of_string "rufux")
    _ _ _ _ _ _ _ ltac:(lia) ltac:(vm_compute; reflexivity) the_nwrite_runs Hl) as (k & g & _ & _ & _ & Hok & _).
  destruct (Hok eq_refl) as [_ ->]. vm_compute. reflexivity.
Defined.
Lemma ntfs_op_read_correct_witness :
  nlawful the_ino (ntrace the_nread (ncache the_nwrite ∅ the_nfile) nwritten) (NFile ∅ None (k_data nwritten)) /\
  bytes_of_string "mount" = slice 7 (zlen (bytes_of_string "mount")) (k_data nwritten).
Proof.
  assert (Hl : nlawful the_ino (ntrace the_nread (ncache the_nwrite ∅ the_nfile) nwritten) (NFile ∅ None (k_data nwritten)))
    by (apply nlawfulb_nlawful; vm_compute; reflexivity).
  split; [exact Hl|].
  destruct (ntfs_op_read_correct 10 secs 0 0 0 the_ino 7 (zlen (bytes_of_string "mount")) (k_data nwritten)
    _ _ _ _ _ _ _ _ ltac:(lia) (zlen_nonneg _) ltac:(vm_compute; reflexivity) the_nread_runs Hl) as [_ Hok].
  apply (Hok eq_refl).
Defined.
Lemma ntfs_write_then_read_witness :
  nlawful the_ino (ntrace the_nwrite ∅ the_nfile ++ ntrace the_nread (ncache the_nwrite ∅ the_nfile) nwritten)
    (NFile ∅ None (bytes_of_string "rufux")) /\
  bytes_of_string "mount" = bytes_of_string "mount".
Proof.
  assert (Hl : nlawful the_ino (ntrace the_nwrite ∅ the_nfile ++ ntrace the_nread (ncache the_nwrite ∅ the_nfile) nwritten)
    (NFile ∅ None (bytes_of_string "rufux"))) by (apply nlawfulb_nlawful; vm_compute; reflexivity).
  split; [exact Hl|].
  exact (ntfs_write_then_read 10 secs fst 0 0 0 the_ino 7 (bytes_of_string "mount") FILE_SYNC (bytes_of_string "rufux")
    _ _ _ _ _ _ _ _ _ _ _ _ ltac:(lia) ltac:(vm_compute; reflexivity) ltac:(vm_compute; reflexivity)
    the_nwrite_runs the_nread_runs Hl).
Defined.

(** * Where WRITE differs from pwrite

    A write of no bytes past the end of the file makes the file longer. *)
Theorem empty_write_grows_file :
  k_data (nrun (ntfs_op_write 10 secs fst 0 0 0 the_ino 8 [] FILE_SYNC) ∅ the_nfile).2
  = bytes_of_string "rufux" ++ replicate 3 Byte.x00.
Proof. vm_compute. reflexivity. Qed.
