(* ===== verification/Rpc.v ===== *)
(** The mount server's sockets and its [main] (src/macos/src/mountd_nfs.c,
    client_reset_slots to main): record marking over TCP, one RPC message at a
    time per connection, a poll loop over at most 32 connections.

    [c_hdr] is the part of a record mark received so far, [c_msg] the message
    so far ([msg_len] bytes). *)
From S2P Require Import Prelude Cstr Ext2fs Sys Xdr Mountd Nfsd Ext2 Ntfs.

Record RpcClient := Client {
  c_fd : Z; c_hdr : list byte; c_frag_rem : Z; c_frag_last : bool; c_have_hdr : bool;
  c_msg : list byte; c_msg_cap : Z }.
Definition MAX_RPC_CLIENTS : Z := 32.

Definition client_reset_slots : RpcClient := Client (-1) [] 0 false false [] 0.
Definition client_close (c : RpcClient) : M RpcClient :=
  mwhen (0 <=? c_fd c) (mcall (Close (c_fd c))) ~;; mret client_reset_slots.
Definition client_with_fd (fd : Z) (c : RpcClient) : RpcClient :=
  Client fd (c_hdr c) (c_frag_rem c) (c_frag_last c) (c_have_hdr c) (c_msg c) (c_msg_cap c).

Section Rpc.
Variable fuel : nat.

(** true = all of it was sent *)
Definition send_all_loopback (fd : Z) (buf : list byte) : M bool :=
  mloop fuel (fun off =>
    if off <? zlen buf then
      w <~ mcall (Send fd (zdrop off buf)) ;;
      match w with
      | inr w => if 0 <? w then mret (inl (off + w)) else mret (inr false)
      | inl EINTR => mret (inl off)
      | inl EAGAIN => pr <~ mcall (PollOut fd 5000) ;; if pr : bool then mret (inl off) else mret (inr false)
      | inl _ => mret (inr false)
      end
    else mret (inr true)) 0.

Definition record_mark (last : bool) (len : Z) : list byte := be32 (Z.lor (if last then 2 ^ 31 else 0) len).
Definition send_rpc_record (fd : Z) (payload : list byte) : M bool :=
  if 0x7FFFFFFF <? zlen payload then mret false
  else
    ok <~ send_all_loopback fd (record_mark true (zlen payload)) ;;
    if negb ok then mret false
    else if 0 <? zlen payload then send_all_loopback fd payload else mret true.

(** recv until [want] bytes are there. None = they are; [Some rc]: the caller
    returns [rc], with what came so far. *)
Definition recv_upto (fd want : Z) (got : list byte) : M (option Z * list byte) :=
  mloop fuel (fun got =>
    if zlen got <? want then
      r <~ mcall (Recv fd (want - zlen got)) ;;
      match r with
      | inr [] => mret (inr (Some (-1), got))
      | inr l => mret (inl (got ++ l))
      | inl EINTR => mret (inl got)
      | inl EAGAIN => mret (inr (Some 0, got))
      | inl _ => mret (inr (Some (-1), got))
      end
    else mret (inr (None, got))) got.

(** the doubling of msg_cap *)
Definition msg_grow (cap need : Z) : Z :=
  if cap <? need then grow (if cap =? 0 then 4096 else cap * 2) need else cap.

(** the record mark: [inl rc] is a return *)
Definition client_header (c : RpcClient) : M ((Z * RpcClient) + RpcClient) :=
  if c_have_hdr c then mret (inr c)
  else
    '(rc, hdr) <~ recv_upto (c_fd c) 4 (c_hdr c) ;;
    match rc with
    | Some rc => mret (inl (rc, Client (c_fd c) hdr (c_frag_rem c) (c_frag_last c) false (c_msg c) (c_msg_cap c)))
    | None =>
        let rm := be hdr in
        let last := negb (Z.land rm (2 ^ 31) =? 0) in
        let rem := Z.land rm 0x7FFFFFFF in
        let c' cap := Client (c_fd c) [] rem last true (c_msg c) cap in
        if (MOUNTD_MAX_RPC_MSG <? rem) || (MOUNTD_MAX_RPC_MSG <? zlen (c_msg c) + rem) then
          mret (inl (-1, c' (c_msg_cap c)))
        else mret (inr (c' (msg_grow (c_msg_cap c) (zlen (c_msg c) + rem))))
    end.
(** the rest of the fragment *)
Definition client_fragment (c : RpcClient) : M ((Z * RpcClient) + RpcClient) :=
  '(rc, got) <~ recv_upto (c_fd c) (c_frag_rem c) [] ;;
  let c' have := Client (c_fd c) (c_hdr c) (c_frag_rem c - zlen got) (c_frag_last c) have
                   (c_msg c ++ got) (c_msg_cap c) in
  match rc with
  | Some rc => mret (inl (rc, c' true))
  | None => mret (inr (c' false))
  end.

(** dispatch_rpc_call, with the file system it serves *)
Variable dispatch : list byte -> XdrBuf -> M (option XdrBuf).

(** a whole message: the call and its reply; [inl rc] is a return *)
Definition client_message (c : RpcClient) : M ((Z * RpcClient) + RpcClient) :=
  if c_frag_last c then
    r <~ dispatch (c_msg c) empty_buf ;;
    let c' := Client (c_fd c) (c_hdr c) (c_frag_rem c) (c_frag_last c) (c_have_hdr c) [] (c_msg_cap c) in
    match r with
    | None => mret (inl (-1, c'))
    | Some reply =>
        ok <~ send_rpc_record (c_fd c) (b_data reply) ;;
        if ok : bool then mret (inr c') else mret (inl (-1, c'))
    end
  else mret (inr c).

(** 0 = wait for more, -1 = close the connection *)
Definition client_on_readable (c : RpcClient) : M (Z * RpcClient) :=
  mloop fuel (fun c =>
    h <~ client_header c ;;
    match h with
    | inl ret => mret (inr ret)
    | inr c =>
        f <~ client_fragment c ;;
        match f with
        | inl ret => mret (inr ret)
        | inr c => r <~ client_message c ;; mret (match r with inl ret => inr ret | inr c => inl c end)
        end
    end) c.

(** * The poll loop *)

(** the first free slot takes the connection *)
Fixpoint place_client (fd : Z) (cl : list RpcClient) : option (list RpcClient) :=
  match cl with
  | [] => None
  | c :: t => if c_fd c <? 0 then Some (client_with_fd fd c :: t) else cons c <$> place_client fd t
  end.
Definition accept_loop (lfd : Z) (clients : list RpcClient) : M (list RpcClient) :=
  mloop fuel (fun cl =>
    a <~ mcall (Accept lfd) ;;
    match a with
    | inl EINTR => mret (inl cl)
    | inl _ => mret (inr cl)
    | inr (cfd, local) =>
        ok <~ (if local : bool then r <~ mcall (Nonblock cfd) ;; mret (bool_decide (r = None)) else mret false) ;;
        if negb ok then mcall (Close cfd) ~;; mret (inl cl)
        else
          mcall (Setsockopt cfd "TCP_NODELAY" 1) ~;;
          mcall (Setsockopt cfd "SO_SNDBUF" 1048576) ~;;
          mcall (Setsockopt cfd "SO_RCVBUF" 1048576) ~;;
          match place_client cfd cl with
          | Some cl => mret (inl cl)
          | None => mcall (Close cfd) ~;; mret (inl cl)
          end
    end) clients.

Definition POLLIN : Z := 1.
(** POLLERR | POLLHUP | POLLNVAL *)
Definition POLLGONE : Z := 56.
Definition serve_client (c : RpcClient) (revents : Z) : M RpcClient :=
  if c_fd c <? 0 then mret c
  else if negb (Z.land revents POLLGONE =? 0) then client_close c
  else if negb (Z.land revents POLLIN =? 0) then
    '(rc, c) <~ client_on_readable c ;;
    if negb (rc =? 0) then client_close c else mret c
  else mret c.
(** the clients of the poll set ([fds], in order) with the answers for them *)
Fixpoint serve_ready (cl : list RpcClient) (polled : list bool) (revents : list Z) : M (list RpcClient) :=
  match cl, polled with
  | c :: t, true :: p =>
      c' <~ serve_client c (hd 0 revents) ;;
      t' <~ serve_ready t p (tl revents) ;; mret (c' :: t')
  | c :: t, _ :: p => t' <~ serve_ready t p revents ;; mret (c :: t')
  | _, _ => mret cl
  end.
Definition serve (lfd : Z) (clients : list RpcClient) : M (list RpcClient) :=
  mloop fuel (fun cl =>
    stop <~ mcall Stopped ;;
    if stop : bool then mret (inr cl)
    else
      let polled := map (fun c => 0 <=? c_fd c) cl in
      p <~ mcall (Poll (lfd :: map c_fd (List.filter (fun c => 0 <=? c_fd c) cl)) 1000) ;;
      match p with
      | inl EINTR => mret (inl cl)
      | inl _ => mret (inr cl)
      | inr [] => mret (inl cl)
      | inr (lev :: revents) =>
          cl <~ (if negb (Z.land lev POLLIN =? 0) then accept_loop lfd cl else mret cl) ;;
          cl <~ serve_ready cl polled revents ;;
          mret (inl cl)
      end) clients.
End Rpc.

(** * main *)
Record mountd_options := Mopts {
  o_device : option string; o_fstype : option string; o_pidfile : option string; o_ready_fd : Z }.
(** None: a usage error *)
Fixpoint mountd_args (argv : list string) (o : mountd_options) : option mountd_options :=
  match argv with
  | [] => Some o
  | a :: v :: t =>
      if String.eqb a "--device" then mountd_args t (Mopts (Some v) (o_fstype o) (o_pidfile o) (o_ready_fd o))
      else if String.eqb a "--fstype" then mountd_args t (Mopts (o_device o) (Some v) (o_pidfile o) (o_ready_fd o))
      else if String.eqb a "--ready-fd" then mountd_args t (Mopts (o_device o) (o_fstype o) (o_pidfile o) (atoi v))
      else if String.eqb a "--pidfile" then mountd_args t (Mopts (o_device o) (o_fstype o) (Some v) (o_ready_fd o))
      else None
  | [_] => None
  end.
Inductive fs_kind := FS_KIND_NTFS | FS_KIND_EXT.
Definition fs_kind_of (fstype : string) : option fs_kind :=
  if String.eqb fstype "ntfs" then Some FS_KIND_NTFS
  else if String.eqb fstype "ext" || starts_with "ext" fstype then Some FS_KIND_EXT
  else None.
Definition given (s : option string) : bool := match s with Some s => negb (String.eqb s "") | None => false end.

Section Main.
Variable fuel : nat.
Variable junk : NfsAttr.
(** ntfs2timespec and timespec2ntfs *)
Variable to_timespec : Z -> Z * Z.
Variable of_timespec : Z * Z -> Z.

(** the fs_* functions, with g_fskind, g_uid, g_gid and g_fsid *)
Definition mounted (kind : fs_kind) (uid gid fsid : Z) : Backend :=
  match kind with
  | FS_KIND_NTFS => ntfs_backend fuel to_timespec of_timespec junk uid gid fsid
  | FS_KIND_EXT => ext_backend fuel uid gid fsid
  end.

Definition say (s : string) : M unit := mcall (Stderr ("rufux-mountd: " +:+ s +:+ LF)).

(** the volume, opened and still locked; false: an error was reported *)
Definition mountd_open (kind : fs_kind) (device : string) (fd : Z) : M bool :=
  match kind with
  | FS_KIND_NTFS =>
      m <~ mcall (NMount device true) ;;
      m <~ match m with inr u => mret (inr u) | inl _ => mcall (NMount device false) end ;;
      match m with
      | inl e => say ("ntfs_mount('" +:+ device +:+ "') failed: " +:+ strerror e) ~;; mret false
      | inr _ =>
          l <~ mcall (LockDev fd) ;;
          match l with
          | Some e =>
              say ("lost exclusive lock on '" +:+ device +:+ "': " +:+ strerror e) ~;;
              mcall NUmount ~;; mret false
          | None => mcall NFreeSpace ~;; mset_parent 5 5 ~;; mret true
          end
      end
  | FS_KIND_EXT =>
      ec <~ mcall (EOpen device) ;;
      if negb (ec =? 0) then say ("ext2fs_open('" +:+ device +:+ "') failed (" +:+ dec ec +:+ ")") ~;; mret false
      else
        l <~ mcall (LockDev fd) ;;
        match l with
        | Some e =>
            say ("lost exclusive lock on '" +:+ device +:+ "': " +:+ strerror e) ~;;
            mcall ECloseFree ~;; mret false
        | None =>
            ec <~ mcall EReadBitmaps ;;
            if negb (ec =? 0) then
              say ("ext2fs_read_bitmaps('" +:+ device +:+ "') failed (" +:+ dec ec +:+ ")") ~;;
              mcall ECloseFree ~;; mret false
            else mset_parent EXT2_ROOT_INO EXT2_ROOT_INO ~;; mret true
        end
  end.

(** the listening socket and its port; None: an error was reported *)
Definition mountd_listen : M (option (Z * Z)) :=
  s <~ mcall Socket ;;
  match s with
  | inl e => say ("socket failed: " +:+ strerror e) ~;; mret None
  | inr lfd =>
      nb <~ mcall (Nonblock lfd) ;;
      match nb with
      | Some e => say ("socket failed: " +:+ strerror e) ~;; mcall (Close lfd) ~;; mret None
      | None =>
        mcall (Setsockopt lfd "SO_REUSEADDR" 1) ~;;
        b <~ mcall (BindLoopback lfd) ;;
        b <~ match b with Some e => mret (Some e) | None => mcall (Listen lfd 16) end ;;
        match b with
        | Some e =>
            say ("bind/listen 127.0.0.1:0 failed: " +:+ strerror e) ~;; mcall (Close lfd) ~;; mret None
        | None =>
            p <~ mcall (Getsockname lfd) ;;
            match p with
            | inl e => say ("getsockname failed: " +:+ strerror e) ~;; mcall (Close lfd) ~;; mret None
            | inr port => mret (Some (lfd, port))
            end
        end
      end
  end.

(** the pid file; false: an error was reported *)
Definition mountd_pidfile (path : option string) : M bool :=
  match path with
  | Some p =>
      if String.eqb p "" then mret true
      else
        f <~ mcall (Fopen p "w") ;;
        match f with
        | inl e => say ("fopen pidfile '" +:+ p +:+ "' failed: " +:+ strerror e) ~;; mret false
        | inr h =>
            pid <~ mcall Getpid ;;
            mcall (Fputs h (dec pid +:+ LF)) ~;; mcall (Fclose h) ~;; mret true
        end
  | None => mret true
  end.
Definition mountd_ready (fd port : Z) : M unit :=
  mwhen (0 <=? fd) (mcall (Write fd (bytes_of_string (dec port +:+ LF))) ~;; mcall (Close fd) ~;; mcall Devnull).

(** cleanup_fail: the volume closed, what fails ignored *)
Definition cleanup_fail (kind : fs_kind) (fd : Z) : M Z :=
  (match kind with
   | FS_KIND_NTFS => mcall NUmount ~;; mret tt
   | FS_KIND_EXT => mcall ECloseFree ~;; mret tt
   end) ~;;
  mcall (Close fd) ~;; mret 1.
(** the end of a session; 1 when the volume did not close cleanly *)
Definition mountd_close (kind : fs_kind) : M Z :=
  match kind with
  | FS_KIND_NTFS => ok <~ mcall NUmount ;; mret (if ok : bool then 0 else 1)
  | FS_KIND_EXT =>
      a <~ mcall EWriteBitmaps ;; b <~ mcall EFlush ;; c <~ mcall ECloseFree ;;
      mret (if (a =? 0) && (b =? 0) && (c =? 0) then 0 else 1)
  end.

Fixpoint close_all (cl : list RpcClient) : M unit :=
  match cl with [] => mret tt | c :: t => client_close c ~;; close_all t end.

Definition mountd_session (kind : fs_kind) (pidfile : option string) (ready_fd dev_fd : Z) (writeverf : list byte)
    (fs : Backend) : M Z :=
  l <~ mountd_listen ;;
  match l with
  | None => cleanup_fail kind dev_fd
  | Some (lfd, port) =>
      ok <~ mountd_pidfile pidfile ;;
      if negb ok then mcall (Close lfd) ~;; cleanup_fail kind dev_fd
      else
        mountd_ready ready_fd port ~;;
        cl <~ serve fuel (@dispatch_rpc_call fs junk writeverf) lfd (replicate (Z.to_nat MAX_RPC_CLIENTS) client_reset_slots) ;;
        close_all cl ~;;
        mcall (Close lfd) ~;;
        rc <~ mountd_close kind ;;
        mcall (Close dev_fd) ~;;
        match pidfile with
        | Some p => mwhen (negb (String.eqb p "")) (mcall (Unlink p) ~;; mret tt)
        | None => mret tt
        end ~;;
        mret rc
  end.

Definition usage : string :=
  "usage: rufux-mountd --device <path> --fstype ntfs|ext " +:+ "[--ready-fd <fd>] [--pidfile <path>]" +:+ LF.
Definition mountd_main (argv : list string) : M Z :=
  match mountd_args argv (Mopts None None None (-1)) with
  | None => mcall (Stderr usage) ~;; mret 2
  | Some o =>
      if negb (given (o_device o)) || negb (given (o_fstype o)) then
        say "--device and --fstype are required" ~;; mret 2
      else
        let device := default "" (o_device o) in
        let fstype := default "" (o_fstype o) in
        match fs_kind_of fstype with
        | None => say ("unsupported --fstype '" +:+ fstype +:+ "'") ~;; mret 2
        | Some kind =>
            uid <~ mcall Geteuid ;; gid <~ mcall Getegid ;;
            t <~ mcall Time ;; pid <~ mcall Getpid ;;
            let boot_token := Z.lxor (Z.shiftl t 32 mod 2 ^ 64) pid in
            pid2 <~ mcall Getpid ;;
            let g_fsid := Z.lxor 0x52554655584E4653 pid2 in
            d <~ mcall (Open device O_RDWR) ;;
            match d with
            | inl e => say ("open('" +:+ device +:+ "') failed: " +:+ strerror e) ~;; mret 1
            | inr fd =>
                l <~ mcall (LockDev fd) ;;
                match l with
                | Some e =>
                    say ("device '" +:+ device +:+ "' is already locked by another writer: " +:+ strerror e) ~;;
                    mcall (Close fd) ~;; mret 1
                | None =>
                    ok <~ mountd_open kind device fd ;;
                    if negb ok then mcall (Close fd) ~;; mret 1
                    else
                      mountd_session kind (o_pidfile o) (o_ready_fd o) fd (be64 boot_token) (mounted kind uid gid g_fsid)
                end
            end
        end
  end.
End Main.
