(* ===== verification/RpcSpec.v ===== *)
(** The connections of the mount server against record marking (RFC 5531,
    section 11): what a stream of bytes says, and that what is dispatched is
    what it says, however the stream is cut into receives. *)
From S2P Require Import Prelude Cstr Ext2fs Sys Xdr XdrSpec Mountd Nfsd NfsdSpec Ext2 Ext2Spec Ext2FileSpec Ntfs NtfsSpec Rpc.

(** * Record marking

    A message is a sequence of fragments, each behind a word whose low 31 bits
    are its length and whose high bit says that it is the last. *)
Definition rm_last (rm : Z) : bool := negb (Z.land rm (2 ^ 31) =? 0).
Definition rm_len (rm : Z) : Z := Z.land rm 0x7FFFFFFF.
(** [s] does not hold a whole fragment *)
Definition partial (s : list byte) : bool := (zlen s <? 4) || (zlen s <? 4 + rm_len (be (ztake 4 s))).
(** The messages of the stream [s] after the fragments [acc] of the first, the
    fragments of a message that is not whole and the bytes of a fragment that
    is not. *)
Fixpoint unframe_fuel (fuel : nat) (acc s : list byte) : list (list byte) * list byte * list byte :=
  match fuel with
  | O => ([], acc, s)
  | S f =>
      if partial s then ([], acc, s)
      else
        let rm := be (ztake 4 s) in
        let acc' := acc ++ slice 4 (rm_len rm) s in
        let rest := zdrop (4 + rm_len rm) s in
        if rm_last rm then let '(ms, a, r) := unframe_fuel f [] rest in (acc' :: ms, a, r)
        else unframe_fuel f acc' rest
  end.
Definition unframe (acc s : list byte) : list (list byte) * list byte * list byte := unframe_fuel (S (length s)) acc s.

Lemma rm_len_nonneg rm : 0 <= rm_len rm.
Proof. apply Z.land_nonneg. by right. Qed.
Lemma unframe_fuel_enough f g acc s : (length s < f)%nat -> (length s < g)%nat -> unframe_fuel f acc s = unframe_fuel g acc s.
Proof.
  revert g acc s; induction f as [|f IH]; intros g acc s Hf Hg; [lia|]. destruct g as [|g]; [lia|]. cbn [unframe_fuel].
  destruct (partial s) eqn:E; [done|]. unfold partial in E. apply orb_false_iff in E as [E1 E2].
  pose proof (rm_len_nonneg (be (ztake 4 s))).
  assert (Hr : forall acc, unframe_fuel f acc (zdrop (4 + rm_len (be (ztake 4 s))) s)
                         = unframe_fuel g acc (zdrop (4 + rm_len (be (ztake 4 s))) s)).
  { intros acc'. apply IH; unfold zdrop, zlen in *; rewrite length_drop; lia. }
  case_match; by rewrite Hr.
Qed.
Lemma unframe_partial acc s : partial s = true -> unframe acc s = ([], acc, s).
Proof. unfold unframe. cbn [unframe_fuel]. by intros ->. Qed.
(** a whole fragment in front *)
Lemma unframe_fragment acc hd body rest : zlen hd = 4 -> zlen body = rm_len (be hd) ->
  unframe acc (hd ++ body ++ rest) =
  if rm_last (be hd) then let '(ms, a, r) := unframe [] rest in ((acc ++ body) :: ms, a, r)
  else unframe (acc ++ body) rest.
Proof.
  intros Hh Hb. unfold unframe at 1. cbn [unframe_fuel].
  assert (E4 : ztake 4 (hd ++ body ++ rest) = hd) by (rewrite ztake_app, ztake_all, ztake_neg, app_nil_r by lia; done).
  unfold partial. rewrite E4, !zlen_app. pose proof (zlen_nonneg rest). pose proof (zlen_nonneg body).
  replace ((zlen hd + (zlen body + zlen rest) <? 4) || (zlen hd + (zlen body + zlen rest) <? 4 + rm_len (be hd))) with false by lia.
  assert (Ed : zdrop 4 (hd ++ body ++ rest) = body ++ rest).
  { rewrite zdrop_app, zdrop_all, Hh by lia. by rewrite app_nil_l. }
  assert (Es : slice 4 (rm_len (be hd)) (hd ++ body ++ rest) = body).
  { unfold slice. rewrite Ed, ztake_app, ztake_all, ztake_neg, app_nil_r by lia. done. }
  assert (Er : zdrop (4 + rm_len (be hd)) (hd ++ body ++ rest) = rest).
  { rewrite <- zdrop_zdrop, Ed, zdrop_app, zdrop_all, <- Hb, Z.sub_diag by lia. done. }
  rewrite Es, Er. unfold unframe.
  rewrite !(unframe_fuel_enough (length (hd ++ body ++ rest)) (S (length rest))); [done| |lia| |lia]; rewrite !length_app; unfold zlen in Hh; lia.
Qed.

(** * A connection *)

(** what the client record says of the stream so far: fragments of an
    unfinished message, and the bytes of an unfinished fragment *)
Definition repr (c : RpcClient) (acc s : list byte) : Prop :=
  if c_have_hdr c then
    exists hd got, s = hd ++ got /\ zlen hd = 4 /\ c_msg c = acc ++ got /\ c_hdr c = [] /\
      c_frag_rem c + zlen got = rm_len (be hd) /\ 0 <= c_frag_rem c /\ c_frag_last c = rm_last (be hd)
  else s = c_hdr c /\ zlen s < 4 /\ c_msg c = acc.

Section Connection.
Variables (fuel : nat) (dispatch : list byte -> XdrBuf -> M (option XdrBuf)) (fd : Z).

(** what happened on a connection: bytes were received, messages were
    dispatched one by one, each answered before the next *)
Inductive served : ParentCache -> list obs -> list byte -> list (list byte) -> ParentCache -> Prop :=
| served_nil c : served c [] [] [] c
| served_recv c n l t bs ms c' : served c t bs ms c' -> served c (Obs (Recv fd n) (inr l) :: t) (l ++ bs) ms c'
| served_none c n e t bs ms c' : served c t bs ms c' -> served c (Obs (Recv fd n) (inl e) :: t) bs ms c'
| served_call c m reply t1 c1 t2 c2 t bs ms c' :
    mexec (dispatch m empty_buf) c t1 c1 (Some reply) ->
    mexec (send_rpc_record fuel fd (b_data reply)) c1 t2 c2 true ->
    served c2 t bs ms c' -> served c (t1 ++ t2 ++ t) bs (m :: ms) c'.
Lemma served_app c t bs ms c1 u bs2 ms2 c2 :
  served c t bs ms c1 -> served c1 u bs2 ms2 c2 -> served c (t ++ u) (bs ++ bs2) (ms ++ ms2) c2.
Proof.
  intros H. revert u bs2 ms2. induction H as [|c n l t bs ms c' _ IH|c n e t bs ms c' _ IH|c m reply t1 d1 t2 d2 t bs ms c' H1 H2 _ IH];
    intros u bs2 ms2 Hu; cbn [app].
  - done.
  - rewrite <- app_assoc. constructor. auto.
  - constructor. auto.
  - rewrite <- !app_assoc. econstructor; eauto.
Qed.
Lemma served_more c t bs c1 u bs2 ms c2 :
  served c t bs [] c1 -> served c1 u bs2 ms c2 -> served c (t ++ u) (bs ++ bs2) ms c2.
Proof. apply (served_app _ _ _ []). Qed.

Lemma recv_spec want got c t c' rc got' : zlen got <= want -> Forall posix t ->
  mexec (recv_upto fuel fd want got) c t c' (rc, got') ->
  exists bs, got' = got ++ bs /\ served c t bs [] c' /\
    match rc with None => zlen got' = want | Some rc => zlen got' < want /\ (rc = 0 \/ rc = -1) end.
Proof.
  unfold recv_upto. generalize fuel at 1 as f. intros f. revert got c t.
  induction f as [|f IH]; intros got c t Hle Hp H; [done|]. cbn [mloop] in H.
  apply mexec_bind in H as (t1 & c1 & r & t2 & -> & H1 & H2). apply Forall_app in Hp as [Hp1 Hp2].
  destruct (Z.ltb_spec (zlen got) want) as [Hlt|Hge].
  2: { apply mexec_ret in H1 as (-> & -> & ->). apply mexec_ret in H2 as (-> & -> & [= -> ->]).
       exists []. rewrite app_nil_r. split; [done|]. split; [constructor|lia]. }
  apply mexec_bind in H1 as (t3 & c3 & x & t4 & -> & (-> & ->)%mexec_call & H1).
  apply list.Forall_cons in Hp1 as [Hx _]. cbn in Hx.
  destruct x as [e|l].
  - destruct e; apply mexec_ret in H1 as (-> & -> & ->); cbn [app].
    { destruct (IH _ _ _ Hle Hp2 H2) as (bs & -> & Hs & Hr). exists bs. split; [done|]. split; [by constructor|done]. }
    all: apply mexec_ret in H2 as (-> & -> & [= -> ->]); exists []; rewrite app_nil_r; (split; [done|]);
      (split; [constructor; constructor|]); auto.
  - destruct l as [|b l]; apply mexec_ret in H1 as (-> & -> & ->); cbn [app].
    { apply mexec_ret in H2 as (-> & -> & [= -> ->]). exists []. rewrite app_nil_r. split; [done|].
      split; [apply (served_recv _ _ [] _ []); constructor|auto]. }
    destruct (IH (got ++ b :: l) c t2) as (bs & -> & Hs & Hr); [rewrite zlen_app; lia|done|done|].
    exists ((b :: l) ++ bs). rewrite <- app_assoc. split; [done|]. split; [|rewrite <- app_assoc in Hr; done].
    by apply (served_recv _ _ (b :: l)).
Qed.


Lemma header_spec c acc s pc t pc' r : c_fd c = fd -> repr c acc s -> Forall posix t ->
  mexec (client_header fuel c) pc t pc' r ->
  exists bs, served pc t bs [] pc' /\
    match r with
    | inr c' => c_fd c' = fd /\ repr c' acc (s ++ bs) /\ c_have_hdr c' = true
    | inl (rc, c') => rc = 0 -> repr c' acc (s ++ bs) /\ partial (s ++ bs) = true
    end.
Proof.
  intros Hfd Hr Hp. unfold client_header. unfold repr in Hr. destruct (c_have_hdr c) eqn:Eh.
  - intros (-> & -> & ->)%mexec_ret. exists []. rewrite app_nil_r. split; [constructor|]. split; [done|].
    split; [|done]. unfold repr. by rewrite Eh.
  - destruct Hr as (Es & Hlen & Hm). rewrite Hfd. intros H.
    apply mexec_bind in H as (t1 & c1 & [rc hdr] & t2 & -> & H1 & H2). apply Forall_app in Hp as [Hp1 Hp2].
    apply recv_spec in H1 as (bs & Ehdr & Hs & Hrc); [|subst; lia|done].
    exists bs. destruct rc as [rc|].
    + apply mexec_ret in H2 as (-> & -> & ->). rewrite app_nil_r. split; [done|]. intros _. subst. destruct Hrc as [Hrc _].
      split; [split_and!; try done|]. unfold partial. apply orb_true_iff. left. lia.
    + cbv zeta in H2. fold (rm_last (be hdr)) (rm_len (be hdr)) in H2.
      destruct (_ || _); apply mexec_ret in H2 as (-> & -> & ->); rewrite app_nil_r; (split; [done|]); [done|].
      split; [done|]. split; [|done]. unfold repr. cbn. exists hdr, []. subst. rewrite !app_nil_r, zlen_nil.
      pose proof (rm_len_nonneg (be (c_hdr c ++ bs))). split_and!; try done; lia.
Qed.

Lemma fragment_spec c acc s pc t pc' r : c_fd c = fd -> repr c acc s -> c_have_hdr c = true -> Forall posix t ->
  mexec (client_fragment fuel c) pc t pc' r ->
  exists bs, served pc t bs [] pc' /\
    match r with
    | inr c' => c_fd c' = fd /\ c_hdr c' = [] /\ c_have_hdr c' = false /\ exists hd body, s ++ bs = hd ++ body /\ zlen hd = 4 /\
        zlen body = rm_len (be hd) /\ c_msg c' = acc ++ body /\ c_frag_last c' = rm_last (be hd)
    | inl (rc, c') => repr c' acc (s ++ bs) /\ partial (s ++ bs) = true
    end.
Proof.
  intros Hfd Hr Eh Hp H. unfold repr in Hr. rewrite Eh in Hr.
  destruct Hr as (hd & got & -> & Hhd & Hm & Ehdr & Hrem & Hpos & Hlast). unfold client_fragment in H. rewrite Hfd in H.
  apply mexec_bind in H as (t1 & c1 & [rc new] & t2 & -> & H1 & H2). apply Forall_app in Hp as [Hp1 Hp2].
  apply recv_spec in H1 as (bs & Enew & Hs & Hrc); [|by rewrite zlen_nil|done]. cbn in Enew, Hrc. subst new.
  exists bs. cbv zeta in H2. destruct rc as [rc|]; apply mexec_ret in H2 as (-> & -> & ->); rewrite app_nil_r; (split; [done|]).
  - cbn [app] in Hrc. destruct Hrc as [Hrc _]. rewrite <- app_assoc. split.
    + unfold repr. cbn. exists hd, (got ++ bs). split_and!; rewrite ?zlen_app, ?Hm, <- ?app_assoc; try done; lia.
    + unfold partial. rewrite ztake_app, ztake_all, Hhd, ztake_neg, app_nil_r by lia. rewrite !zlen_app. lia.
  - cbn. split; [done|]. split; [done|]. split; [done|]. exists hd, (got ++ bs).
    split_and!; rewrite ?zlen_app, ?Hm, <- ?app_assoc; try done; lia.
Qed.

Lemma message_spec c hd body acc pc t pc' r : c_fd c = fd -> c_hdr c = [] -> c_have_hdr c = false ->
  zlen hd = 4 -> zlen body = rm_len (be hd) -> c_msg c = acc ++ body -> c_frag_last c = rm_last (be hd) ->
  mexec (client_message fuel dispatch c) pc t pc' r ->
  match r with
  | inr c' => c_fd c' = fd /\ exists ms acc', served pc t [] ms pc' /\ repr c' acc' [] /\
      forall fut, unframe acc (hd ++ body ++ fut) = let '(ms', a, r) := unframe acc' fut in (ms ++ ms', a, r)
  | inl (rc, c') => rc = -1
  end.
Proof.
  intros Hfd Ehdr Eh Hhd Hb Hm Hl. unfold client_message. rewrite Hl. destruct (rm_last (be hd)) eqn:El; intros H.
  - apply mexec_bind in H as (t1 & c1 & [reply|] & t2 & -> & H1 & H2); [|by apply mexec_ret in H2 as (_ & _ & ->)].
    apply mexec_bind in H2 as (t3 & c3 & [|] & t4 & -> & H2 & H3); apply mexec_ret in H3 as (-> & -> & ->); [|done].
    split; [done|]. exists [acc ++ body], []. split.
    + rewrite Hm in H1. rewrite Hfd in H2. eapply served_call; [exact H1|exact H2|constructor].
    + split; [unfold repr; cbn; rewrite Eh; by rewrite Ehdr|]. intros fut. rewrite unframe_fragment, El by done.
      by destruct unframe as [[??]?].
  - apply mexec_ret in H as (-> & -> & ->). split; [done|]. exists [], (acc ++ body). split; [constructor|].
    split; [unfold repr; rewrite Eh; by rewrite Ehdr|]. intros fut. rewrite unframe_fragment, El by done.
    by destruct unframe as [[??]?].
Qed.

Lemma readable_spec acc s c pc t pc' c' : c_fd c = fd -> repr c acc s -> Forall posix t ->
  mexec (client_on_readable fuel dispatch c) pc t pc' (0, c') ->
  exists bs ms acc' s', served pc t bs ms pc' /\ repr c' acc' s' /\ unframe acc (s ++ bs) = (ms, acc', s').
Proof.
  unfold client_on_readable. generalize fuel at 1 as f. intros f. revert acc s c pc t.
  induction f as [|f IH]; intros acc s c pc t Hfd Hr Hp H; [done|]. cbn [mloop] in H.
  apply mexec_bind in H as (t0 & c0 & r & t5 & -> & H & Hrest). apply Forall_app in Hp as [Hp Hp5].
  apply mexec_bind in H as (t1 & c1 & h & t2 & -> & Hh & H). apply Forall_app in Hp as [Hp1 Hp2].
  apply (header_spec _ acc s) in Hh as (bs1 & Hs1 & Hh); [|done..].
  destruct h as [[rc ch]|ch].
  { apply mexec_ret in H as (-> & -> & ->). apply mexec_ret in Hrest as (-> & -> & [= <- <-]).
    destruct Hh as [Hrepr Hpart]; [done|]. rewrite !app_nil_r.
    exists bs1, [], acc, (s ++ bs1). split; [done|]. split; [done|]. by apply unframe_partial. }
  destruct Hh as (Hfd1 & Hr1 & Eh1).
  apply mexec_bind in H as (t3 & c3 & g & t4 & -> & Hg & H). apply Forall_app in Hp2 as [Hp3 Hp4].
  apply (fragment_spec _ acc (s ++ bs1)) in Hg as (bs2 & Hs2 & Hg); [|done..]. rewrite <- app_assoc in Hg.
  destruct g as [[rc cf]|cf].
  { apply mexec_ret in H as (-> & -> & ->). apply mexec_ret in Hrest as (-> & -> & [= <- <-]).
    destruct Hg as [Hrepr Hpart]. rewrite !app_nil_r.
    exists (bs1 ++ bs2), [], acc, (s ++ bs1 ++ bs2). split; [by eapply served_more|].
    split; [done|]. by apply unframe_partial. }
  destruct Hg as (Hfd2 & Ehdr & Eh2 & hd & body & Es & Hhd & Hb & Hm & Hl).
  apply mexec_bind in H as (t6 & c6 & m & t7 & -> & Hmsg & H). apply mexec_ret in H as (-> & -> & ->).
  eapply message_spec in Hmsg; [|done..]. destruct m as [[rc cm]|cm].
  { apply mexec_ret in Hrest as (-> & -> & [= ? ?]). by subst. }
  destruct Hmsg as (Hfd3 & ms & acc' & Hs3 & Hr3 & Hun).
  apply (IH acc' []) in Hrest as (bs & ms' & acc2 & s2 & Hs & Hr2 & Hun2); [|done..].
  exists (bs1 ++ bs2 ++ bs), (ms ++ ms'), acc2, s2. split; [|split; [done|]].
  - rewrite app_nil_r, <- !app_assoc. pose proof (served_app _ _ _ _ _ _ _ _ _ Hs3 Hs) as Ha. cbn [app] in Ha.
    eauto using served_more.
  - rewrite (app_assoc bs1), (app_assoc s), Es, <- app_assoc, Hun. cbn [app] in Hun2. by rewrite Hun2.
Qed.
End Connection.

(** * The message buffer *)

(** What was received fits the buffer and the limit, and so will the rest of
    the fragment. *)
Definition msg_ok (c : RpcClient) : Prop := zlen (c_msg c) <= c_msg_cap c /\ zlen (c_msg c) <= MOUNTD_MAX_RPC_MSG.
Definition client_ok (c : RpcClient) : Prop :=
  msg_ok c /\ (c_have_hdr c = true -> 0 <= c_frag_rem c /\
    zlen (c_msg c) + c_frag_rem c <= c_msg_cap c /\ zlen (c_msg c) + c_frag_rem c <= MOUNTD_MAX_RPC_MSG).
Lemma msg_grow_enough cap need : 0 <= cap -> cap <= msg_grow cap need /\ need <= msg_grow cap need.
Proof.
  intros Hc. unfold msg_grow. destruct (Z.ltb_spec cap need) as [H|]; [|lia].
  assert (Hg : need <= grow (if cap =? 0 then 4096 else cap * 2) need) by (apply grow_enough; case_match; lia). lia.
Qed.

Section Buffer.
Variables (fuel : nat) (dispatch : list byte -> XdrBuf -> M (option XdrBuf)).
Definition ret_ok (r : (Z * RpcClient) + RpcClient) (Q : RpcClient -> Prop) : Prop :=
  match r with inl (rc, c) => msg_ok c /\ (rc = 0 -> client_ok c) | inr c => Q c end.

Lemma header_ok c pc t pc' r : client_ok c -> Forall posix t -> mexec (client_header fuel c) pc t pc' r ->
  ret_ok r (fun c => client_ok c /\ c_have_hdr c = true).
Proof.
  intros Hc Hp. unfold client_header. destruct (c_have_hdr c) eqn:Eh; [by intros (-> & -> & ->)%mexec_ret|].
  destruct Hc as [[Hm1 Hm2] _]. intros H. apply mexec_bind in H as (t1 & c1 & [[rc|] hdr] & t2 & -> & H1 & H2).
  { apply mexec_ret in H2 as (-> & -> & ->). by split. }
  cbv zeta in H2. pose proof (rm_len_nonneg (be hdr)) as Hn. unfold rm_len in Hn. pose proof (zlen_nonneg (c_msg c)).
  destruct (_ || _) eqn:E; apply mexec_ret in H2 as (-> & -> & ->).
  - split; [done|]. intros [=].
  - apply orb_false_iff in E as [E1 E2].
    destruct (msg_grow_enough (c_msg_cap c) (zlen (c_msg c) + Z.land (be hdr) 0x7FFFFFFF)) as [Hg1 Hg2]; [lia|].
    split; [|done]. split; [split; cbn; lia|]. cbn. lia.
Qed.
Lemma fragment_ok c pc t pc' r : client_ok c -> c_have_hdr c = true -> Forall posix t ->
  mexec (client_fragment fuel c) pc t pc' r -> ret_ok r client_ok.
Proof.
  intros [[Hm1 Hm2] Hc] Eh Hp H. destruct (Hc Eh) as (Hr & Hcap & Hmax). unfold client_fragment in H.
  apply mexec_bind in H as (t1 & c1 & [rc got] & t2 & -> & H1 & H2). apply Forall_app in Hp as [Hp1 _].
  apply (recv_spec fuel dispatch) in H1 as (bs & Eg & _ & Hrc); [|done|done]. cbn in Eg. subst got. cbv zeta in H2.
  pose proof (zlen_nonneg bs).
  assert (Hle : zlen bs <= c_frag_rem c) by (cbn [app] in Hrc; destruct rc; lia).
  destruct rc as [rc|]; apply mexec_ret in H2 as (-> & -> & ->); unfold ret_ok, client_ok, msg_ok; cbn; rewrite zlen_app;
    split_and!; try lia; try (intros _); split_and!; lia.
Qed.
Lemma message_ok c pc t pc' r : client_ok c -> c_have_hdr c = false -> mexec (client_message fuel dispatch c) pc t pc' r ->
  ret_ok r client_ok.
Proof.
  intros [[Hm1 Hm2] Hc] Eh. pose proof (zlen_nonneg (c_msg c)).
  set (c0 := Client (c_fd c) (c_hdr c) (c_frag_rem c) (c_frag_last c) (c_have_hdr c) [] (c_msg_cap c)).
  assert (H0 : client_ok c0) by (split; [split; cbn; change (zlen (@nil byte)) with 0; unfold MOUNTD_MAX_RPC_MSG; lia|cbn; by rewrite Eh]).
  unfold client_message. destruct (c_frag_last c).
  - intros H'. apply mexec_bind in H' as (t1 & c1 & [reply|] & t2 & -> & _ & H2).
    + apply mexec_bind in H2 as (t3 & c3 & [|] & t4 & -> & _ & H3); apply mexec_ret in H3 as (-> & -> & ->); [done|].
      split; [apply H0|done].
    + apply mexec_ret in H2 as (-> & -> & ->). split; [apply H0|done].
  - intros (-> & -> & ->)%mexec_ret. split; [done|]. by rewrite Eh.
Qed.
Lemma readable_ok c pc t pc' rc c' : client_ok c -> Forall posix t ->
  mexec (client_on_readable fuel dispatch c) pc t pc' (rc, c') -> msg_ok c' /\ (rc = 0 -> client_ok c').
Proof.
  unfold client_on_readable. generalize fuel at 1 as f. intros f. revert c pc t.
  induction f as [|f IH]; intros c pc t Hc Hp H; [done|]. cbn [mloop] in H.
  apply mexec_bind in H as (t0 & c0 & r & t5 & -> & H & Hrest). apply Forall_app in Hp as [Hp Hp5].
  apply mexec_bind in H as (t1 & c1 & h & t2 & -> & Hh & H). apply Forall_app in Hp as [Hp1 Hp2].
  apply header_ok in Hh; [|done..]. destruct h as [[rc1 ch]|ch].
  { apply mexec_ret in H as (-> & -> & ->). by apply mexec_ret in Hrest as (-> & -> & [= -> ->]). }
  destruct Hh as [Hc1 Eh]. apply mexec_bind in H as (t3 & c3 & g & t4 & -> & Hg & H). apply Forall_app in Hp2 as [Hp3 Hp4].
  assert (Hno : match g with inr cf => c_have_hdr cf = false | _ => True end).
  { unfold client_fragment in Hg. apply mexec_bind in Hg as (? & ? & [[]] & ? & -> & _ & (_ & _ & ->)%mexec_ret); done. }
  apply fragment_ok in Hg; [|done..]. destruct g as [[rc1 cf]|cf].
  { apply mexec_ret in H as (-> & -> & ->). by apply mexec_ret in Hrest as (-> & -> & [= -> ->]). }
  apply mexec_bind in H as (t6 & c6 & m & t7 & -> & Hmsg & H). apply mexec_ret in H as (-> & -> & ->).
  apply message_ok in Hmsg; [|done..]. destruct m as [[rc1 cm]|cm].
  { by apply mexec_ret in Hrest as (-> & -> & [= -> ->]). }
  by apply (IH cm) in Hrest.
Qed.
End Buffer.

(** * The poll loop *)

(** a connection keeps its descriptor *)
Lemma mends_loop {T A} (Inv : T -> Prop) (Q : A -> Prop) n (body : T -> M (T + A)) x :
  (forall x, Inv x -> mends (fun r => match r with inl y => Inv y | inr a => Q a end) (body x)) -> Inv x ->
  mends Q (mloop n body x).
Proof.
  intros Hb. revert x; induction n as [|n IH]; intros x Hx; [by intros c t c' a Hf|]. cbn [mloop].
  eapply mends_bind; [by apply Hb|]. intros [y|a] H; [by apply IH|by apply mends_ret].
Qed.
Definition same_fd (fd : Z) (r : (Z * RpcClient) + RpcClient) : Prop :=
  match r with inl (_, c) => c_fd c = fd | inr c => c_fd c = fd end.
Lemma readable_fd fuel dispatch c : mends (fun r => c_fd r.2 = c_fd c) (client_on_readable fuel dispatch c).
Proof.
  unfold client_on_readable. apply (mends_loop (fun c' => c_fd c' = c_fd c)); [|done]. intros x Hx.
  apply (mends_bind (same_fd (c_fd c))).
  { unfold client_header. mends_tac; done. }
  intros [[rc1 c1]|c1] H1; [by apply mends_ret|]. apply (mends_bind (same_fd (c_fd c))).
  { unfold client_fragment. mends_tac; done. }
  intros [[rc2 c2]|c2] H2; [by apply mends_ret|]. apply (mends_bind (same_fd (c_fd c))).
  { unfold client_message. mends_tac; done. }
  intros [[rc3 c3]|c3] H3; by apply mends_ret.
Qed.

(** The connections that are open: those accepted less those closed. *)
Definition conn_step (o : obs) (k : Z) : Z :=
  match o with
  | Obs e x =>
      match e in ev X return X -> Z with
      | Accept _ => fun x => match x with inr _ => k + 1 | inl _ => k end
      | Close _ => fun _ => k - 1
      | _ => fun _ => k
      end x
  end.
(** a transfer moves no more than it was asked to; a descriptor is not negative *)
Definition conn_law (o : obs) (k : Z) : Prop :=
  posix o /\ match o with
    | Obs e x => match e in ev X return X -> Prop with
                 | Accept _ => fun x => match x with inr (fd, _) => 0 <= fd | inl _ => True end
                 | _ => fun _ => True
                 end x
    end.
Definition in_use (c : RpcClient) : Z := if c_fd c <? 0 then 0 else 1.
Fixpoint users (cl : list RpcClient) : Z := match cl with [] => 0 | c :: t => in_use c + users t end.
(** a slot: within its buffer, and empty when it is free *)
Definition slot_ok (c : RpcClient) : Prop := client_ok c /\ (c_fd c < 0 -> c = client_reset_slots).

Lemma reset_ok : slot_ok client_reset_slots.
Proof. split; [split; [split; vm_compute; congruence|by intros [=]]|done]. Qed.
Lemma abides_posix t k : abides conn_step conn_law t k -> Forall posix t.
Proof. revert k; induction t as [|o t IH]; intros k; cbn; [constructor|]. intros [[Hp _] Ht]. constructor; eauto. Qed.
Lemma place_spec fd cl cl' : 0 <= fd -> Forall slot_ok cl -> place_client fd cl = Some cl' ->
  Forall slot_ok cl' /\ length cl' = length cl /\ users cl' = users cl + 1.
Proof.
  intros Hfd. revert cl'; induction cl as [|c cl IH]; intros cl' Hcl; cbn [place_client]; [done|].
  apply list.Forall_cons in Hcl as [Hc Hcl]. destruct (Z.ltb_spec (c_fd c) 0) as [Hneg|Hpos].
  - intros [= <-]. destruct Hc as [Hok Hc]. rewrite (Hc Hneg). cbn [users]. split.
    + constructor; [|done]. split; [exact (proj1 reset_ok)|]. cbn. lia.
    + split; [done|]. unfold in_use. cbn. destruct (Z.ltb_spec fd 0); lia.
  - destruct (place_client fd cl) as [cl2|]; [|done]. cbn. intros [= <-].
    destruct (IH _ Hcl eq_refl) as (H1 & H2 & H3). cbn [users length]. split_and!; [by constructor|lia|lia].
Qed.

Section Serve.
Variables (fuel : nat) (dispatch : list byte -> XdrBuf -> M (option XdrBuf)) (lfd : Z).
(** handling a message opens and closes no connection *)
Hypothesis dispatch_idle : forall msg out, idle conn_step (dispatch msg out).
#[local] Abbreviation from := (from conn_step conn_law).
#[local] Abbreviation idle := (idle conn_step).
Definition slots (n : nat) (cl : list RpcClient) (k : Z) : Prop :=
  Forall slot_ok cl /\ length cl = n /\ k = users cl.

Lemma idle_loop {T A} n (body : T -> M (T + A)) x : (forall x, idle (body x)) -> idle (mloop n body x).
Proof. intros H. apply (@l_loop (fun A => @Mountd.idle _ conn_step A) _ _); done. Qed.
Ltac idle_step :=
  match goal with
  | |- idle (mbind _ _) => apply idle_seq; [|intros]
  | |- idle (mcall _) => by apply idle_call
  | |- idle (mret _) => apply idle_ret
  | |- idle (dispatch _ _) => apply dispatch_idle
  | |- idle (mloop _ _ _) => apply idle_loop; intros
  | |- idle (match ?x with _ => _ end) => destruct x
  end.
Ltac idle_tac := repeat (cbv beta iota zeta; idle_step).
Lemma idle_readable c : idle (client_on_readable fuel dispatch c).
Proof.
  unfold client_on_readable, client_header, client_fragment, client_message, recv_upto, send_rpc_record, send_all_loopback.
  idle_tac.
Qed.

Lemma serve_client_spec c k rev : slot_ok c ->
  from k (serve_client fuel dispatch c rev) (fun c' k' => slot_ok c' /\ k' - in_use c' = k - in_use c).
Proof.
  intros Hc. unfold serve_client. destruct (Z.ltb_spec (c_fd c) 0) as [Hneg|Hpos]; [by apply from_ret|].
  assert (Hclose : forall d, c_fd d = c_fd c ->
    from k (client_close d) (fun c' k' => slot_ok c' /\ k' - in_use c' = k - in_use c)).
  { intros d Hd. unfold client_close. rewrite Hd. destruct (Z.leb_spec 0 (c_fd c)); [|lia]. cbn [mwhen].
    apply from_step. intros [] _. apply from_ret. split; [apply reset_ok|]. unfold in_use. cbn.
    destruct (Z.ltb_spec (c_fd c) 0); lia. }
  case_match; [by apply Hclose|]. case_match; [|by apply from_ret].
  eapply from_bind with (P := fun r k' => k' = k /\ c_fd r.2 = c_fd c /\ (r.1 = 0 -> client_ok r.2)).
  - intros pc t pc' [rc c'] Hx Hl. pose proof (abides_posix _ _ Hl) as Hp. split; [by eapply idle_readable|].
    split; [by apply (readable_fd _ _ _ _ _ _ _ Hx)|]. cbn. by apply (readable_ok _ _ _ _ _ _ _ _ (proj1 Hc) Hp Hx).
  - intros [rc c'] ? (-> & Hfd & Hok). cbn in Hfd, Hok. destruct (Z.eqb_spec rc 0) as [->|]; cbn [negb]; [|by apply Hclose].
    apply from_ret. split; [split; [auto|rewrite Hfd; lia]|]. unfold in_use. by rewrite Hfd.
Qed.
Lemma serve_ready_spec cl polled revs k : Forall slot_ok cl ->
  from k (serve_ready fuel dispatch cl polled revs) (fun cl' k' =>
    Forall slot_ok cl' /\ length cl' = length cl /\ k' - users cl' = k - users cl).
Proof.
  intros Hcl. revert polled revs k; induction Hcl as [|c cl Hc Hcl IH]; intros polled revs k; cbn [serve_ready].
  { by apply from_ret. }
  destruct polled as [|b polled]; [apply from_ret; split; [by constructor|done]|].
  assert (Hskip : from k (t' <~ serve_ready fuel dispatch cl polled revs ;; mret (c :: t')) (fun cl' k' =>
    Forall slot_ok cl' /\ length cl' = length (c :: cl) /\ k' - users cl' = k - users (c :: cl))).
  { eapply from_bind; [apply IH|]. intros cl' k' (H1 & H2 & H3). apply from_ret. cbn [users length].
    split_and!; [by constructor|lia|lia]. }
  destruct b; [|exact Hskip]. eapply from_bind; [by apply serve_client_spec|]. intros c' k1 [Hc' Hk].
  eapply from_bind; [apply IH|]. intros cl' k2 (H1 & H2 & H3). apply from_ret. cbn [users length].
  split_and!; [by constructor|lia|lia].
Qed.
Lemma accept_spec cl k n : slots n cl k -> from k (accept_loop fuel lfd cl) (slots n).
Proof.
  intros Hs. unfold accept_loop. apply (from_loop (slots n)); [|exact Hs]. clear cl k Hs.
  intros cl k (Hcl & Hlen & Hk). apply from_step. intros [e|[cfd local]] [_ Hfd]; cbn [conn_step].
  { destruct e; apply from_ret; by split_and!. }
  apply from_idle; [idle_tac|]. intros ok. destruct ok; cbn [negb].
  2: { apply from_step. intros [] _. cbn [conn_step]. apply from_ret. split_and!; [done|done|lia]. }
  do 3 (apply from_idle; [by apply idle_call|]; intros _).
  destruct (place_client cfd cl) as [cl'|] eqn:Ep.
  - apply from_ret. destruct (place_spec _ _ _ Hfd Hcl Ep) as (H1 & H2 & H3). split_and!; [done|lia|lia].
  - apply from_step. intros [] _. cbn [conn_step]. apply from_ret. split_and!; [done|done|lia].
Qed.
Lemma serve_spec cl k n : slots n cl k -> from k (serve fuel dispatch lfd cl) (slots n).
Proof.
  intros Hs. unfold serve. apply (from_loop (slots n)); [|exact Hs]. clear cl k Hs. intros cl k Hs.
  apply from_idle; [by apply idle_call|]. intros stop. destruct stop; [by apply from_ret|]. cbv zeta.
  apply from_idle; [by apply idle_call|]. intros [e|revs]; [destruct e; by apply from_ret|].
  destruct revs as [|lev revs]; [by apply from_ret|].
  eapply from_bind with (P := slots n); [case_match; [by apply accept_spec|by apply from_ret]|].
  intros cl1 k1 (H1 & H2 & H3). eapply from_bind; [by apply serve_ready_spec|].
  intros cl2 k2 (H4 & H5 & H6). apply from_ret. split_and!; [done|lia|lia].
Qed.
End Serve.

(** * The theorems *)

(** C23: A connection refines record marking (RFC 5531): while it stays open,
    the messages that are dispatched, each answered before the next is looked
    at, are exactly those of the stream of bytes received so far, in order,
    whatever pieces recv returns it in; and the state kept is the unfinished
    message and fragment of that stream. *)
Theorem record_marking_refined fuel dispatch c acc s pc t pc' c' :
  repr c acc s -> Forall posix t ->
  mexec (client_on_readable fuel dispatch c) pc t pc' (0, c') ->
  exists bs ms acc' s', served fuel dispatch (c_fd c) pc t bs ms pc' /\
    unframe acc (s ++ bs) = (ms, acc', s') /\ repr c' acc' s'.
Proof.
  intros Hr Hp H. destruct (readable_spec fuel dispatch (c_fd c) acc s c pc t pc' c' eq_refl Hr Hp H)
    as (bs & ms & acc' & s' & ? & ? & ?). eauto 10.
Qed.

(** C33: No client can make the server write outside its message buffer or
    gather a message of more than 2 MiB: from a connection whose message and
    announced fragment fit, whatever is received, the message still fits, and
    so does the rest of the fragment as long as the connection is kept. *)
Theorem message_buffer_bounded fuel dispatch c pc t pc' rc c' :
  client_ok c -> Forall posix t ->
  mexec (client_on_readable fuel dispatch c) pc t pc' (rc, c') ->
  zlen (c_msg c') <= c_msg_cap c' /\ zlen (c_msg c') <= MOUNTD_MAX_RPC_MSG /\ (rc = 0 -> client_ok c').
Proof. intros Hc Hp H. destruct (readable_ok fuel dispatch c pc t pc' rc c' Hc Hp H) as [[? ?] ?]. auto. Qed.

(** ** The server over either file system *)
Section Mounted.
Variables (fuel : nat) (junk : NfsAttr) (to_ts : Z -> Z * Z) (of_ts : Z * Z -> Z) (kind : fs_kind) (uid gid fsid : Z).
#[local] Abbreviation fs := (mounted fuel junk to_ts of_ts kind uid gid fsid).
(** what the library of the file system may be asked for *)
Definition call_ok (k : fs_kind) (X : Set) (e : ev X) : Prop :=
  match k with FS_KIND_NTFS => ntfs_guarded e | FS_KIND_EXT => guarded e end.
Lemma mounted_guarded : Sat (fun A => @malways A (call_ok kind)) fs.
Proof. destruct kind; [apply ntfs_backend_guarded|apply ext_backend_guarded]. Qed.
Lemma mounted_returns : MOUNTD_MAX_IO_SIZE < Z.of_nat fuel -> Sat (fun A => @returns posix A) fs.
Proof. intros Hf. destruct kind; [by apply ntfs_backend_returns|by apply ext_backend_returns]. Qed.

Lemma conn_idle (X : Set) (e : ev X) x k : call_ok kind X e -> conn_step (Obs e x) k = k.
Proof. intros H. destruct kind, e; try reflexivity; destruct H. Qed.
Lemma dispatch_idle writeverf msg out : idle conn_step (@dispatch_rpc_call fs junk writeverf msg out).
Proof.
  intros c t c' r Hx k. pose proof (@s_dispatch (fun A => @malways A (call_ok kind)) _ _ mounted_guarded junk writeverf msg out) as Hg.
  pose proof (always_exec _ _ _ _ (Hg c) Hx) as Ht. clear -Ht.
  revert k; induction Ht as [|[X e x] t He Ht IH]; intros k; [done|]. cbn [observe]. by rewrite IH, conn_idle.
Qed.
End Mounted.

Lemma free_slots : slots 32 (replicate (Z.to_nat MAX_RPC_CLIENTS) client_reset_slots) 0.
Proof. split_and!; [|reflexivity|reflexivity]. apply Forall_replicate, reset_ok. Qed.


Definition sec_time (t : Z) : Z * Z := (t, 0).


(** A NULL call in two fragments, received in three pieces, for the witnesses. *)
Definition null_call : list byte :=
  be32 7 ++ be32 RPC_CALL ++ be32 2 ++ be32 NFS_PROGRAM ++ be32 NFS_V3 ++ be32 0 ++ be32 0 ++ be32 0 ++ be32 0 ++ be32 0.
Definition null_stream : list byte := be32 16 ++ ztake 16 null_call ++ record_mark true 24 ++ zdrop 16 null_call ++ be32 5.
Definition pieces : list (list byte) := [slice 0 3 null_stream; slice 3 30 null_stream; zdrop 33 null_stream].
(** recv gives what is there of the next piece *)
Definition recv_env : handler (list (list byte)) := fun X e w =>
  match e in ev X return X * list (list byte) with
  | Recv _ n =>
      match w with
      | p :: w => if zlen p <=? n then (inr p, w) else (inr (ztake n p), zdrop n p :: w)
      | [] => (inl EAGAIN, [])
      end
  | Send _ b => (inr (zlen b), w)
  | e => (default_answer e, w)
  end.
Definition idle_client : RpcClient := Client 9 [] 0 false false [] 0.
Definition null_dispatch : list byte -> XdrBuf -> M (option XdrBuf) := @dispatch_rpc_call (one_dir []) no_attr [].
Definition null_run := mrun recv_env (client_on_readable 20 null_dispatch idle_client) ∅ pieces.
Definition null_trace : list obs := null_run.1.2.
Definition waiting_client : RpcClient := Client 9 [] 5 false true [] 4096.
Lemma null_runs : mexec (client_on_readable 20 null_dispatch idle_client) ∅ null_trace ∅ (0, waiting_client).
Proof. apply (run_exec recv_env _ pieces _ _ []). vm_compute. reflexivity. Qed.
Lemma null_posix : Forall posix null_trace.
Proof.
  assert (H : forallb posixb null_trace = true) by (vm_compute; reflexivity).
  rewrite forallb_forall in H. apply List.Forall_forall. intros o Ho. by apply posixb_posix, H.
Qed.
Lemma record_marking_refined_witness :
  unframe [] null_stream = ([null_call], [], be32 5) /\
  exists bs ms acc' s', served 20 null_dispatch 9 ∅ null_trace bs ms ∅ /\
    unframe [] ([] ++ bs) = (ms, acc', s') /\ repr waiting_client acc' s'.
Proof.
  split; [vm_compute; reflexivity|].
  apply (record_marking_refined 20 null_dispatch idle_client [] [] ∅ null_trace ∅ waiting_client).
  - split_and!; done.
  - exact null_posix.
  - exact null_runs.
Defined.
Lemma message_buffer_bounded_witness :
  client_ok idle_client /\ zlen (c_msg waiting_client) <= c_msg_cap waiting_client.
Proof.
  assert (H : client_ok idle_client) by (split; [split; vm_compute; congruence|by intros [=]]).
  split; [exact H|].
  exact (proj1 (message_buffer_bounded 20 null_dispatch idle_client ∅ null_trace ∅ 0 waiting_client H null_posix null_runs)).
Defined.

(** one connection is accepted, one is refused, then the server is stopped *)
Definition accept_env : handler Z := fun X e w =>
  match e in ev X return X * Z with
  | Stopped => (2 <=? w, w)
  | Poll _ _ => (inr [POLLIN], w)
  | Accept _ => if w =? 0 then (inr (7, true), 1) else if w =? 1 then (inr (8, false), 2) else (inl EAGAIN, w)
  | e => (default_answer e, w)
  end.
Definition conn_lawb (o : obs) : bool :=
  posixb o && match o with
    | Obs e x => match e in ev X return X -> bool with
                 | Accept _ => fun x => match x with inr (fd, _) => 0 <=? fd | inl _ => true end
                 | _ => fun _ => true
                 end x
    end.
Lemma conn_lawb_law t k : forallb conn_lawb t = true -> abides conn_step conn_law t k.
Proof.
  revert k; induction t as [|o t IH]; intros k; cbn [forallb abides]; [done|]. intros [[Hp Ho]%andb_true_iff Ht]%andb_true_iff.
  split; [|by apply IH]. split; [by apply posixb_posix|]. destruct o as [X e x]. destruct e; try done.
  destruct x as [|[? ?]]; [done|lia].
Qed.
Definition free_server : M (list RpcClient) :=
  serve 9 (@dispatch_rpc_call (mounted 9 no_attr sec_time fst FS_KIND_EXT 0 0 0) no_attr []) 3 (replicate (Z.to_nat MAX_RPC_CLIENTS) client_reset_slots).
Definition accept_trace : list obs := (mrun accept_env free_server ∅ 0).1.2.
Definition one_slot : list RpcClient := client_with_fd 7 client_reset_slots :: replicate 31 client_reset_slots.
Lemma accept_runs : mexec free_server ∅ accept_trace ∅ one_slot.
Proof. apply (run_exec accept_env _ 0 _ _ 2). vm_compute. reflexivity. Qed.
