(* ===== verification/Macexec.v ===== *)
(** The macOS port's environment and helper programs: the directory of the
    executable and the search path set up from it
    (src/macos/src/platform_macos.c, is_dir to rufux_macos_init_bundle_env),
    looking tools up and running them (src/macos/src/exec.c).

    The static variables of these functions are reads and writes the environment
    answers ([StaticFlag], [StaticStr]). The four rotating buffers
    rufux_resolve_tool answers in are values: every caller in the modelled code
    copies or uses the answer before four more lookups. *)
From S2P Require Import Prelude Cstr Sys Exec.

Definition PATH_MAX : nat := 1024.
(** paths built from two others *)
Definition WIDE : nat := 2 * PATH_MAX.
(** the buffer of PATH *)
Definition PATH_CAP : nat := 8 * 1024.

(** * The directory of the executable *)
Definition is_dir (p : string) : io bool :=
  if String.eqb p "" then Ret false else st <- call (Stat p) ;; Ret (is_kind KDir st).
Definition is_file (p : string) : io bool :=
  if String.eqb p "" then Ret false else st <- call (Stat p) ;; Ret (is_kind KReg st).
Definition realpath (p : string) : io (option string) :=
  r <- call (Realpath p) ;; Ret (match r with inr s => Some s | inl _ => None end).

Definition rufux_macos_exe_dir : io string :=
  done <- call (StaticFlag "done") ;;
  if done then call (StaticStr "dir")
  else
    call (SetStaticFlag "done") ;;;
    buf <- call ExePath ;;
    match buf with
    | None => call (StaticStr "dir")
    | Some buf =>
        r <- realpath buf ;;
        let use := snprintf PATH_MAX (default buf r) in
        let dir := match strrchr "/" use with
          | Some slash => let d := before use slash in if String.eqb d "" then "/" else d
          | None => "" end in
        call (SetStaticStr "dir" dir) ;;; Ret dir
    end.

(** * PATH *)
Definition path_contains_entry (path entry : string) : bool :=
  negb (String.eqb entry "") && existsb (String.eqb entry) (tok_char ":" path).
(** both return the new contents of [buf] *)
Definition path_prepend (buf dir : string) : io string :=
  d <- is_dir dir ;;
  if negb d || path_contains_entry buf dir then Ret buf
  else Ret (snprintf PATH_CAP (if String.eqb buf "" then dir else dir +:+ ":" +:+ buf)).
Definition path_append (buf dir : string) : io string :=
  d <- is_dir dir ;;
  if negb d || path_contains_entry buf dir then Ret buf
  else if String.eqb buf "" then Ret (snprintf PATH_CAP dir)
  else if strlen buf + 1 + strlen dir <? Z.of_nat PATH_CAP then Ret (buf +:+ ":" +:+ dir)
  else Ret buf.

(** the Contents directory of the bundle the executable is in *)
Definition contents_dir (ed : string) : io (option string) :=
  first_io (fun rel =>
    r <- realpath (snprintf WIDE (ed +:+ "/" +:+ rel)) ;;
    match r with
    | None => Ret None
    | Some resolved =>
        plist <- is_file (snprintf WIDE (resolved +:+ "/Info.plist")) ;;
        if plist : bool then
          res_bin <- is_dir (snprintf WIDE (resolved +:+ "/Resources/bin")) ;;
          Ret (if res_bin : bool then Some (snprintf PATH_MAX resolved) else None)
        else Ret None
    end) [".."; "../.."].
(** a variable that is unset or empty is set to a directory that exists *)
Definition default_env (var dir : string) : io unit :=
  cur <- call (Getenv var) ;;
  match cur with
  | Some (String _ _) => Ret tt
  | _ => d <- is_dir dir ;; when d (call (Setenv var dir))
  end.
Definition bundle_env (contents new_path : string) : io string :=
  new_path <- path_prepend new_path (snprintf WIDE (contents +:+ "/Resources/bin")) ;;
  default_env "RUFUX_RES" (snprintf WIDE (contents +:+ "/Resources/share/rufux")) ;;;
  default_env "RUFUX_GRUB_DIR" (snprintf WIDE (contents +:+ "/Resources/lib/grub/i386-pc")) ;;;
  Ret new_path.
(** outside a bundle: the vendored ntfs-3g, and Homebrew *)
Definition vendor_path (ed new_path : string) : io string :=
  if String.eqb ed "" then Ret new_path
  else
    v <- first_io (fun level => realpath (snprintf WIDE (ed +:+ "/" +:+ level +:+ "/vendor/ntfs-3g")))
           [".."; "../.."; "../../.."] ;;
    match v with
    | None => Ret new_path
    | Some v =>
        p <- path_append new_path (snprintf WIDE (v +:+ "/bin")) ;;
        path_append p (snprintf WIDE (v +:+ "/sbin"))
    end.
Definition development_env (ed new_path : string) : io string :=
  p <- vendor_path ed new_path ;;
  p <- path_append p "/opt/homebrew/opt/e2fsprogs/sbin" ;;
  p <- path_append p "/opt/homebrew/opt/e2fsprogs/bin" ;;
  p <- path_append p "/opt/homebrew/bin" ;;
  path_append p "/opt/homebrew/sbin".

(** the bundle, and PATH with the executable's own directories before the rest *)
Definition adjacent_env (ed new_path : string) : io (option string * string) :=
  if String.eqb ed "" then Ret (None, new_path)
  else
    c <- contents_dir ed ;;
    p <- path_prepend new_path ed ;;
    r <- realpath (snprintf WIDE (ed +:+ "/../Resources/bin")) ;;
    match r with
    | None => Ret (c, p)
    | Some r => p <- path_prepend p r ;; Ret (c, p)
    end.
Definition rufux_macos_init_bundle_env : io unit :=
  ed <- rufux_macos_exe_dir ;;
  cur <- call (Getenv "PATH") ;;
  let new_path := snprintf PATH_CAP
    (match cur with Some (String c t) => String c t | _ => "/usr/bin:/bin:/usr/sbin:/sbin" end) in
  a <- adjacent_env ed new_path ;;
  p <- match a.1 with Some contents => bundle_env contents a.2 | None => development_env ed a.2 end ;;
  call (Setenv "PATH" p).

(** * Tools *)
Definition is_exec_file (p : string) : io bool :=
  f <- is_file p ;; if f : bool then call (Access p X_OK) else Ret false.
Definition mkfs_ext (name : string) : bool :=
  String.eqb name "mkfs.ext2" || String.eqb name "mkfs.ext3" || String.eqb name "mkfs.ext4".
Definition tool_candidates (name : string) : list string :=
  if String.eqb name "7z" then ["7zz"; "7z"]
  else if String.eqb name "mkfs.ntfs" then ["mkntfs"; "mkfs.ntfs"]
  else if mkfs_ext name then [name; "mke2fs"]
  else if String.eqb name "grub-mkimage" then ["i686-elf-grub-mkimage"; "grub-mkimage"]
  else [name].
Definition rufux_resolve_tool (name : string) : io (option string) :=
  if String.eqb name "" then Ret None
  else
    inited <- call (StaticFlag "env_inited") ;;
    when (negb inited) (call (SetStaticFlag "env_inited") ;;; rufux_macos_init_bundle_env) ;;;
    if has_slash name then
      e <- is_exec_file name ;; Ret (if e : bool then Some (snprintf PATH_MAX name) else None)
    else
      dirs <- path_dirs ;;
      first_io (fun d =>
        first_io (fun cand =>
          let dst := snprintf PATH_MAX (d +:+ "/" +:+ cand) in
          e <- is_exec_file dst ;; Ret (if e : bool then Some dst else None)) (tool_candidates name)) dirs.
Definition rufux_have (name : string) : io bool :=
  r <- rufux_resolve_tool name ;; Ret (bool_decide (is_Some r)).

(** whether the options leave out the file system's type *)
Fixpoint untyped (args : list string) : bool :=
  match args with
  | [] => true
  | a :: t =>
      if String.eqb a "--" then true
      else if String.eqb a "-t" || starts_with "-text" a || String.eqb a "-V" then false
      else untyped t
  end.
Definition build_exec_argv (full : string) (argv : list string) : list string :=
  match argv with
  | [] => []
  | a0 :: args =>
      let b0 := basename a0 in
      let alias := mkfs_ext b0 && String.eqb (basename full) "mke2fs" in
      (if alias then a0 else full) :: (if alias && untyped args then ["-t"; sdrop 5 b0] else []) ++ args
  end.
(** the value of errno when it comes back *)
Definition rufux_execvp (file : string) (argv : list string) : io errno :=
  match argv with
  | [] => Ret ENOENT
  | _ :: _ =>
      full <- rufux_resolve_tool file ;;
      match full with
      | None => Ret ENOENT
      | Some full => call (Execv full (build_exec_argv full argv))
      end
  end.
Definition rufux_run (argv : list string) (dry_run : bool) : io bool :=
  match argv with
  | [] => Ret false
  | a0 :: _ =>
      call (Stderr (shown argv)) ;;;
      if dry_run then Ret true
      else
        full <- rufux_resolve_tool a0 ;;
        match full with
        | None => Ret false
        | Some full => st <- call (SpawnAt full (build_exec_argv full argv)) ;; Ret (exited_ok st)
        end
  end.
Section Capture.
(** bounds on the reads of a pipe *)
Variable fuel : nat.
Definition rufux_capture (av : list string) (cap : Z) : io (bool * string) :=
  match av with
  | [] => Ret (false, "")
  | a0 :: _ =>
      if cap =? 0 then Ret (false, "")
      else
        full <- rufux_resolve_tool a0 ;;
        match full with
        | None => Ret (false, "")
        | Some full =>
            p <- call (PipeSpawnAt full (build_exec_argv full av)) ;;
            match p with
            | None => Ret (false, "")
            | Some h =>
                out <- loop fuel (fun out =>
                  chunk <- call (PipeRead h 512) ;;
                  match chunk with
                  | [] => Ret (inr out)
                  | _ => Ret (inl (capture_add cap out chunk))
                  end) [] ;;
                st <- call (Waitpid h) ;;
                Ret (exited_ok st, cstr_of_bytes out)
            end
        end
  end.
End Capture.
