(* ===== verification/Macdisk.v ===== *)
(** Disks on macOS (src/macos/src/platform_macos.c from
    is_valid_bsd_disk_ident on): BSD names, the walk over the device registry,
    the boot disk guard, device nodes, sizes, and images attached as disks.

    The device registry is the environment: an entry is a number, the parents
    of an entry are one answer. A name buffer has 64 bytes, a path PATH_MAX. *)
From S2P Require Import Prelude Cstr Sys Exec Macexec.

(** * BSD names *)
Definition digit_at (s : string) : bool := match s with String c _ => is_digit c | "" => false end.
Definition BSD_CAP : nat := 64.

(** disk<digits>(s<digits>)*: the loop is at a group of digits *)
Fixpoint bsd_groups (fuel : nat) (s : string) : bool :=
  match fuel with
  | O => false
  | S f =>
      digit_at s &&
      match (span is_digit s).2 with
      | "" => true
      | String c t => Ascii.eqb c "s" && bsd_groups f t
      end
  end.
Definition is_valid_bsd_disk_ident (s : string) : bool :=
  starts_with "disk" s && bsd_groups (String.length s) (sdrop 4 s).

Definition extract_bsd_from_str (p : string) : option string :=
  let p := if starts_with "/private/dev/" p then sdrop 8 p else p in
  let cand :=
    if starts_with "/dev/rdisk" p then Some (sdrop 6 p)
    else if starts_with "/dev/disk" p then Some (sdrop 5 p)
    else if has_slash p then None
    else if starts_with "rdisk" p then Some (sdrop 1 p)
    else if starts_with "disk" p then Some p
    else None in
  match cand with
  | Some cand => if is_valid_bsd_disk_ident cand then Some (snprintf BSD_CAP cand) else None
  | None => None
  end.
Definition resolve_to_bsd_name (path : string) : io (option string) :=
  if String.eqb path "" then Ret None
  else
    r <- realpath path ;;
    match r with
    | None => Ret (extract_bsd_from_str path)
    | Some resolved =>
        let by_name := match extract_bsd_from_str resolved with
                       | Some b => Some b | None => extract_bsd_from_str path end in
        st <- call (Stat resolved) ;;
        match st with
        | Some s =>
            if is_kind KReg st then Ret None
            else if (is_kind KBlk st || is_kind KChr st) && negb (bool_decide (is_Some (extract_bsd_from_str resolved)))
            then
              d <- call (Devname (st_rdev s) (is_kind KChr st)) ;;
              match d with
              | Some dname =>
                  match extract_bsd_from_str (snprintf BSD_CAP dname) with
                  | Some b => Ret (Some b)
                  | None => Ret by_name
                  end
              | None => Ret by_name
              end
            else Ret by_name
        | None => Ret by_name
        end
    end.

(** the whole disk of a name; "" when it is none *)
Definition whole_bsd_prefix (bsd : string) : string :=
  if starts_with "disk" bsd && digit_at (sdrop 4 bsd)
  then snprintf BSD_CAP ("disk" +:+ (span is_digit (sdrop 4 bsd)).1) else "".

(** ** Sets of names, of at most [max_set] *)
Definition bsd_set_add_one (max_set : Z) (set : list string) (name : string) : list string :=
  if String.eqb name "" || (max_set <=? zlen set) then set
  else if existsb (fun x => String.eqb x name) set then set
  else set ++ [snprintf BSD_CAP name].
Definition bsd_set_add (max_set : Z) (set : list string) (name : string) : list string :=
  if String.eqb name "" then set
  else
    let set := bsd_set_add_one max_set set name in
    let whole := whole_bsd_prefix name in
    if String.eqb whole "" then set else bsd_set_add_one max_set set whole.

(** * The walk over the registry *)
(** where it stands: the names so far, the entries still to visit, all entries
    queued, and the ids seen *)
Record lineage := Lineage { l_set : list string; l_todo : list Z; l_queue : list Z; l_seen : list Z }.
Definition QUEUE_MAX : Z := 64.

Definition enqueue (l : lineage) (parent : Z) : io (lineage + Empty_set) :=
  pid <- call (IOEntryId parent) ;;
  let dup := negb (pid =? 0) && existsb (Z.eqb pid) (l_seen l) in
  if negb dup && (zlen (l_queue l) <? QUEUE_MAX) then
    let seen := if negb (pid =? 0) && (zlen (l_seen l) <? QUEUE_MAX) then l_seen l ++ [pid] else l_seen l in
    Ret (inl (Lineage (l_set l) (l_todo l ++ [parent]) (l_queue l ++ [parent]) seen))
  else call (IORelease parent) ;;; Ret (inl l).
Definition visit (max_set : Z) (l : lineage) (cur : Z) : io lineage :=
  name <- call (IOBsdName cur) ;;
  let set := match name with
             | Some s => if is_valid_bsd_disk_ident s then bsd_set_add max_set (l_set l) s else l_set l
             | None => l_set l end in
  let l := Lineage set (l_todo l) (l_queue l) (l_seen l) in
  parents <- call (IOParents cur) ;;
  match parents with
  | None => Ret l
  | Some ps => r <- fold_io enqueue ps l ;; match r with inl l => Ret l | inr e => match e with end end
  end.
(** as many turns as the queue has places, and the one that leaves *)
Definition walk (max_set : Z) (l : lineage) : io lineage :=
  loop (S (Z.to_nat QUEUE_MAX)) (fun l =>
    match l_todo l with
    | [] => Ret (inr l)
    | cur :: rest => l <- visit max_set (Lineage (l_set l) rest (l_queue l) (l_seen l)) cur ;; Ret (inl l)
    end) l.
Fixpoint release_all (hs : list Z) : io unit :=
  match hs with [] => Ret tt | h :: t => call (IORelease h) ;;; release_all t end.
(** the entry to start from *)
Definition find_service (bsd : string) : io (option Z) :=
  s <- call (IOService bsd) ;;
  match s with
  | Some h => Ret (Some h)
  | None =>
      let whole := whole_bsd_prefix bsd in
      if negb (String.eqb whole "") && negb (String.eqb whole bsd) then call (IOService whole) else Ret None
  end.
Definition collect_iokit_lineage_bsds (max_set : Z) (bsd : string) : io (list string) :=
  let set := bsd_set_add max_set [] bsd in
  start <- find_service bsd ;;
  match start with
  | None => Ret set
  | Some start =>
      sid <- call (IOEntryId start) ;;
      l <- walk max_set (Lineage set [start] [start] (if negb (sid =? 0) then [sid] else [])) ;;
      release_all (l_queue l) ;;;
      Ret (l_set l)
  end.

(** * The boot disk guard *)
Definition is_disk0 (bsd : string) : bool :=
  starts_with "disk0" bsd && match sdrop 5 bsd with "" => true | String c _ => Ascii.eqb c "s" end.
Definition LINEAGE_MAX : Z := 32.
Definition rufux_macos_is_boot_disk (path : string) : io bool :=
  cand <- resolve_to_bsd_name path ;;
  match cand with
  | None => Ret false
  | Some cand_bsd =>
      if is_disk0 cand_bsd then Ret true
      else
        root <- call (Statfs "/") ;;
        match root with
        | None => Ret true
        | Some from =>
            r <- resolve_to_bsd_name from ;;
            match r with
            | None => Ret true
            | Some root_bsd =>
                root_set <- collect_iokit_lineage_bsds LINEAGE_MAX root_bsd ;;
                if zlen root_set <=? 0 then Ret true
                else
                  cand_set <- collect_iokit_lineage_bsds LINEAGE_MAX cand_bsd ;;
                  Ret (existsb (fun c => existsb (fun r => String.eqb c r) root_set) cand_set)
            end
        end
  end.

(** * Device nodes *)
Definition rufux_macos_raw_node (dev : string) (cap : nat) : string :=
  snprintf cap (snprintf PATH_MAX
    (if starts_with "/dev/disk" dev && digit_at (sdrop 9 dev) then "/dev/rdisk" +:+ sdrop 9 dev else dev)).
Definition rufux_macos_block_node (dev : string) (cap : nat) : string :=
  snprintf cap (snprintf PATH_MAX
    (if starts_with "/dev/rdisk" dev && digit_at (sdrop 10 dev) then "/dev/disk" +:+ sdrop 10 dev else dev)).
Definition rufux_macos_part_slice (disk : string) (slice : Z) (cap : nat) : string :=
  snprintf cap (snprintf PATH_MAX (if 0 <? slice then disk +:+ "s" +:+ dec slice else disk)).

(** * Sizes *)
Definition is_device (st : option stat) : bool := is_kind KBlk st || is_kind KChr st.
(** the node, or the block node of a raw one that will not open *)
Definition open_device (path : string) : io (option Z) :=
  fd <- call (Open path O_RDONLY_NB) ;;
  match fd with
  | inr fd => Ret (Some fd)
  | inl _ =>
      let bnode := rufux_macos_block_node path PATH_MAX in
      if String.eqb bnode path then Ret None
      else fd <- call (Open bnode O_RDONLY_NB) ;; Ret (match fd with inr fd => Some fd | inl _ => None end)
  end.
(** a number the registry keeps of a disk *)
Definition registry_number (path key : string) : io (option Z) :=
  b <- resolve_to_bsd_name path ;;
  match b with
  | None => Ret None
  | Some bsd =>
      svc <- call (IOService bsd) ;;
      match svc with
      | None => Ret None
      | Some svc => v <- call (IONumber svc key) ;; call (IORelease svc) ;;; Ret v
      end
  end.
Definition ioctl_bytes (fd : Z) : io (option Z) :=
  bc <- call (BlockCount fd) ;;
  match bc with
  | None => Ret None
  | Some bc =>
      bs <- call (BlockSize fd) ;;
      match bs with
      | None => Ret None
      | Some bs => Ret (if (0 <? bc) && (0 <? bs) then Some ((bc * bs) mod 2 ^ 64) else None)
      end
  end.
Definition rufux_macos_dev_bytes (path : string) : io Z :=
  if String.eqb path "" then Ret 0
  else
    st <- call (Stat path) ;;
    match st with
    | None => Ret 0
    | Some s =>
        if is_kind KReg st then Ret (st_size s)
        else if negb (is_device st) then Ret 0
        else
          fd <- open_device path ;;
          b <- match fd with
               | Some fd => b <- ioctl_bytes fd ;; call (Close fd) ;;; Ret b
               | None => Ret None
               end ;;
          match b with
          | Some b => Ret b
          | None =>
              v <- registry_number path "kIOMediaSizeKey" ;;
              Ret (match v with Some v => if 0 <? v then v else 0 | None => 0 end)
          end
    end.
Definition rufux_macos_sector_size (path : string) : io Z :=
  if String.eqb path "" then Ret 512
  else
    st <- call (Stat path) ;;
    if negb (is_device st) then Ret 512
    else
      fd <- open_device path ;;
      b <- match fd with
           | Some fd =>
               bs <- call (BlockSize fd) ;; call (Close fd) ;;;
               Ret (match bs with Some bs => if 512 <=? bs then Some bs else None | None => None end)
           | None => Ret None
           end ;;
      match b with
      | Some bs => Ret bs
      | None =>
          v <- registry_number path "kIOMediaPreferredBlockSizeKey" ;;
          Ret (match v with
               | Some v => if (512 <=? v) && (512 <=? v mod 2 ^ 32) then v mod 2 ^ 32 else 512
               | None => 512 end)
      end.

(** * Images attached as disks *)
(** the character before the suffix [p] of [out]; a space at the start *)
Definition char_before (out p : string) : ascii :=
  default " "%char (String.get (String.length out - String.length p - 1) out).
(** the first /dev/disk<digits> that stands by itself *)
Fixpoint find_disk_node (fuel : nat) (out p : string) : option string :=
  match fuel with
  | O => None
  | S f =>
      match strstr "/dev/disk" p with
      | None => None
      | Some p =>
          let q := sdrop 9 p in
          let alone := String.eqb p out || isspace (char_before out p) in
          let '(ds, rest) := span is_digit q in
          let ends := match rest with "" => true | String c _ => isspace c end in
          if alone && digit_at q && ends then Some ("/dev/disk" +:+ ds) else find_disk_node f out q
      end
  end.
Section Attach.
(** bounds on what the helper prints *)
Variable fuel : nat.
Definition rufux_macos_attach_raw_image (img_path : string) (readonly : bool) (cap : Z) : io (option string) :=
  if String.eqb img_path "" then Ret None
  else
    st <- call (Stat img_path) ;;
    if negb (is_kind KReg st) then Ret None
    else
      r <- rufux_capture fuel
        ["/usr/bin/hdiutil"; "attach"; "-imagekey"; "diskimage-class=CRawDiskImage"; "-nomount";
         if readonly then "-readonly" else "-readwrite"; img_path] 4096 ;;
      if negb r.1 then Ret None
      else Ret (match find_disk_node (S (String.length r.2)) r.2 r.2 with
                | Some node => if cap <? strlen node + 1 then None else Some node
                | None => None
                end).
Definition rufux_macos_detach_disk (disk_node : string) : io bool :=
  if String.eqb disk_node "" then Ret false
  else
    boot <- rufux_macos_is_boot_disk disk_node ;;
    if boot : bool then Ret false
    else
      r <- rufux_capture fuel ["/usr/bin/hdiutil"; "detach"; "-force"; rufux_macos_block_node disk_node PATH_MAX] 2048 ;;
      Ret r.1.
End Attach.
