(* ===== verification/MacdiskSpec.v ===== *)
(** The boot disk guard of macOS: what a disk's name is, what the walk over the
    device registry collects, and when the guard refuses.

    [registry] is the device registry at rest, [answers R] what it answers; the
    names the guard is after are given by relations ([ancestor],
    [lineage_name]) that do not mention the walk. *)
From stdpp Require Import relations.
From S2P Require Import Prelude Cstr Sys Exec Macexec Macdisk.

(** * Names *)
(** a name's groups of digits: disk, digits, then s and digits, as often as one likes *)
Inductive groups : string -> Prop :=
| groups_one d : d <> "" -> sall is_digit d = true -> groups d
| groups_more d g : d <> "" -> sall is_digit d = true -> groups g -> groups (d +:+ "s" +:+ g).
Lemma span_digits d r : sall is_digit d = true -> digit_at r = false -> span is_digit (d +:+ r) = (d, r).
Proof.
  intros Hd Hr. induction d as [|c d IH]; cbn.
  - destruct r as [|c r]; [done|]. cbn in Hr |- *. by rewrite Hr.
  - cbn in Hd. apply andb_true_iff in Hd as [-> Hd]. by rewrite IH.
Qed.
Lemma digit_at_app d r : d <> "" -> sall is_digit d = true -> digit_at (d +:+ r) = true.
Proof. destruct d as [|c d]; [done|]. cbn. by intros _ [-> _]%andb_true_iff. Qed.
Lemma bsd_groups_spec f s : (String.length s <= f)%nat -> bsd_groups (S f) s = true <-> groups s.
Proof.
  revert s; induction f as [|f IH]; intros s Hf.
  { destruct s; [|cbn in Hf; lia]. split; [done|]. intros H; inversion H as [d Hd _|d g Hd _ _]; by destruct d. }
  split.
  - cbn [bsd_groups]. intros [Hd Hr]%andb_true_iff. pose proof (span_app is_digit s) as Hs. pose proof (span_sall is_digit s) as Ha.
    destruct (span is_digit s) as [d r] eqn:E. cbn in *. assert (Hn : d <> "").
    { destruct s as [|c s]; [done|]. cbn in Hd, E. rewrite Hd in E. destruct (span is_digit s). by simplify_eq. }
    destruct r as [|c r]; [rewrite sapp_nil_r in Hs; subst s; by apply groups_one|].
    apply andb_true_iff in Hr as [->%Ascii.eqb_eq Hr]. subst s. apply (groups_more d r Hn Ha), IH.
    { rewrite slength_app in Hf. destruct d; [done|]. cbn in Hf. lia. }
    exact Hr.
  - intros H. destruct H as [d Hn Ha|d g Hn Ha Hg]; cbn [bsd_groups].
    + rewrite <- (sapp_nil_r d), digit_at_app by done. by rewrite span_digits.
    + rewrite digit_at_app, span_digits by done. cbn. apply IH; [|done].
      rewrite !slength_app in Hf. destruct d; [done|]. cbn in Hf. lia.
Qed.
(** is_valid_bsd_disk_ident accepts exactly disk<digits>(s<digits>)* *)
Lemma is_valid_bsd_disk_ident_spec s : is_valid_bsd_disk_ident s = true <-> exists g, s = "disk" +:+ g /\ groups g.
Proof.
  unfold is_valid_bsd_disk_ident. rewrite andb_true_iff, starts_with_spec. split.
  - intros [[g ->] H]. exists g. split; [done|]. cbn [sdrop String.append] in H. cbn in H |- *.
    by apply (bsd_groups_spec (3 + String.length g)); [lia|].
  - intros (g & -> & Hg). split; [by exists g|]. cbn [String.append String.length sdrop].
    by apply (bsd_groups_spec (3 + String.length g)); [lia|].
Qed.

(** * The registry *)
Record registry := Registry {
  r_service : string -> option Z; r_id : Z -> Z; r_name : Z -> option string; r_parents : Z -> list Z }.
Definition answers (R : registry) (o : obs) : Prop :=
  match o with
  | Obs e x =>
      match e in ev X return X -> Prop with
      | IOService b => fun x => x = r_service R b
      | IOEntryId h => fun x => x = r_id R h
      | IOBsdName h => fun x => x = r_name R h
      | IOParents h => fun x => x = Some (r_parents R h)
      | _ => fun _ => True
      end x
  end.
(** What IOKit documents: an entry's id is its own, and not 0. A name fits the
    buffer it was asked for in. *)
Record registry_ok (R : registry) : Prop := {
  id_nonzero : forall h, r_id R h <> 0;
  id_inj : forall h k, r_id R h = r_id R k -> h = k;
  name_short : forall h s, r_name R h = Some s -> strlen s < Z.of_nat BSD_CAP }.

Definition ancestor (R : registry) : Z -> Z -> Prop := rtc (fun h p => p ∈ r_parents R h).
(** a name of a disk: its own, and the whole disk's *)
Definition named (s x : string) : Prop := x <> "" /\ (x = s \/ x = whole_bsd_prefix s).
Definition entry_named (R : registry) (a : Z) (x : string) : Prop :=
  exists s, r_name R a = Some s /\ is_valid_bsd_disk_ident s = true /\ named s x.
Definition service_of (R : registry) (bsd : string) : option Z :=
  match r_service R bsd with
  | Some h => Some h
  | None =>
      let w := whole_bsd_prefix bsd in
      if negb (String.eqb w "") && negb (String.eqb w bsd) then r_service R w else None
  end.
(** what is called by a name in the lineage of a disk: the disk, and every
    entry of the registry above it *)
Definition lineage_name (R : registry) (bsd x : string) : Prop :=
  named bsd x \/ exists h a, service_of R bsd = Some h /\ ancestor R h a /\ entry_named R a x.

(** ** Sets of names *)
Lemma strlen_whole s : strlen (whole_bsd_prefix s) < Z.of_nat BSD_CAP.
Proof. unfold whole_bsd_prefix. destruct (_ && _); [apply snprintf_bound; unfold BSD_CAP; lia|done]. Qed.
Lemma add_one_spec max set name names :
  strlen name < Z.of_nat BSD_CAP -> NoDup set -> (forall x, x ∈ set \/ x = name /\ x <> "" -> x ∈ names) -> zlen names <= max ->
  NoDup (bsd_set_add_one max set name) /\
  (forall x, x ∈ bsd_set_add_one max set name <-> x ∈ set \/ x = name /\ x <> "").
Proof.
  intros Hl Hd Hn Hm. unfold bsd_set_add_one. destruct (String.eqb_spec name "") as [->|Hne].
  { cbn. split; [done|]. intros x. split; [by left|]. by intros [?|[-> ?]]. }
  destruct (existsb (fun x => String.eqb x name) set) eqn:E.
  - apply existsb_exists in E as (y & Hy%list_elem_of_In & ->%String.eqb_eq).
    cbn. destruct (_ <=? _); (split; [done|]; intros x; split; [by left|by intros [?|[-> ?]]]).
  - assert (Hni : name ∉ set).
    { intros Hi%list_elem_of_In. assert (H : existsb (fun x => String.eqb x name) set = true); [|congruence].
      apply existsb_exists. exists name. split; [done|apply String.eqb_refl]. }
    assert (Hd' : NoDup (set ++ [name])) by (apply list.NoDup_app; split_and!; [done|set_solver|apply NoDup_singleton]).
    assert (Hle : zlen (set ++ [name]) <= zlen names).
    { unfold zlen. apply inj_le. apply submseteq_length, NoDup_submseteq; [done|]. intros x Hx. apply Hn. set_solver. }
    rewrite zlen_app in Hle. change (zlen [name]) with 1 in Hle.
    rewrite (proj2 (Z.leb_gt _ _)), snprintf_fits by lia. cbn. split; [done|]. intros x. set_solver.
Qed.
Lemma set_add_spec max set s names :
  strlen s < Z.of_nat BSD_CAP -> NoDup set -> (forall x, x ∈ set \/ named s x -> x ∈ names) -> zlen names <= max ->
  NoDup (bsd_set_add max set s) /\ (forall x, x ∈ bsd_set_add max set s <-> x ∈ set \/ named s x).
Proof.
  intros Hl Hd Hn Hm. unfold bsd_set_add, named in *. destruct (String.eqb_spec s "") as [->|Hne].
  { split; [done|]. intros x. change (whole_bsd_prefix "") with "". intuition congruence. }
  destruct (add_one_spec max set s names) as [H1 H2]; [done..|intros; apply Hn; tauto|done|].
  destruct (String.eqb_spec (whole_bsd_prefix s) "") as [E|E].
  { split; [done|]. intros x. rewrite H2, E. intuition congruence. }
  destruct (add_one_spec max (bsd_set_add_one max set s) (whole_bsd_prefix s) names) as [H3 H4];
    [apply strlen_whole|done|intros x; rewrite H2; intros; apply Hn; tauto|done|].
  split; [done|]. intros x. rewrite H4, H2. tauto.
Qed.

(** * The walk *)
Section Walk.
Variable R : registry.
Hypothesis HR : registry_ok R.
(** where the walk starts, what is above it, and the names it can meet *)
Variables (max : Z) (start : Z) (anc : list Z) (base : string -> Prop) (names : list string).
Hypothesis anc_all : forall a, ancestor R start a -> a ∈ anc.
Hypothesis anc_few : zlen anc <= QUEUE_MAX.
Hypothesis names_all : forall x, base x \/ (exists a, ancestor R start a /\ entry_named R a x) -> x ∈ names.
Hypothesis names_few : zlen names <= max.

(** [vis]: the entries taken from the queue so far *)
Record queue_ok (vis : list Z) (l : lineage) : Prop := {
  q_split : l_queue l = vis ++ l_todo l;
  q_once : NoDup (l_queue l);
  q_seen : l_seen l = r_id R <$> l_queue l;
  q_above : forall a, a ∈ l_queue l -> ancestor R start a }.
Definition set_ok (vis : list Z) (l : lineage) : Prop :=
  NoDup (l_set l) /\ forall x, x ∈ l_set l <-> base x \/ exists a, a ∈ vis /\ entry_named R a x.
Definition grew (l l' : lineage) : Prop := l_set l' = l_set l /\ (forall a, a ∈ l_queue l -> a ∈ l_queue l').
Lemma grew_trans l l1 l2 : grew l l1 -> grew l1 l2 -> grew l l2.
Proof. intros [E1 H1] [E2 H2]. split; [congruence|auto]. Qed.

Lemma queue_bound l : NoDup l -> (forall a, a ∈ l -> ancestor R start a) -> zlen l <= QUEUE_MAX.
Proof.
  intros Hd Ha. etransitivity; [|exact anc_few]. apply inj_le, submseteq_length, NoDup_submseteq; [done|]. auto.
Qed.
Lemma seen_spec l p : existsb (Z.eqb (r_id R p)) (r_id R <$> l) = true <-> p ∈ l.
Proof.
  rewrite existsb_exists. split.
  - intros (y & Hy%list_elem_of_In & E%Z.eqb_eq). apply list_elem_of_fmap in Hy as (q & -> & Hq).
    by apply (id_inj _ HR) in E as ->.
  - intros H. exists (r_id R p). split; [|apply Z.eqb_refl]. apply list_elem_of_In, list_elem_of_fmap. eauto.
Qed.
Lemma enqueue_ok vis l p : queue_ok vis l -> ancestor R start p ->
  ends (answers R) (enqueue l p) (fun r => exists l', r = inl l' /\ queue_ok vis l' /\ grew l l' /\ p ∈ l_queue l').
Proof.
  intros Hq Hp. apply ends_step. cbn. intros pid ->. rewrite (proj2 (Z.eqb_neq _ _) (id_nonzero _ HR p)).
  rewrite (q_seen _ _ Hq). cbn [negb andb]. destruct (existsb _ _) eqn:E; cbn [negb andb].
  - apply ends_step. intros _ _. apply ends_ret. exists l. apply seen_spec in E. by split_and!.
  - assert (Hn : p ∉ l_queue l) by (intros H; apply seen_spec in H; congruence).
    assert (Hd : NoDup (l_queue l ++ [p])).
    { apply list.NoDup_app. split_and!; [apply (q_once _ _ Hq)|intros y Hy ->%list_elem_of_singleton; done|apply NoDup_singleton]. }
    assert (Ha : forall a, a ∈ l_queue l ++ [p] -> ancestor R start a).
    { intros a [H| ->%list_elem_of_singleton]%elem_of_app; [by apply (q_above _ _ Hq)|done]. }
    pose proof (queue_bound _ Hd Ha) as Hb. rewrite zlen_app in Hb. change (zlen [p]) with 1 in Hb.
    assert (Hm : zlen (r_id R <$> l_queue l) = zlen (l_queue l)) by (unfold zlen; by rewrite length_fmap).
    rewrite Hm. assert ((zlen (l_queue l) <? QUEUE_MAX) = true) as -> by lia. apply ends_ret. eexists. split; [done|].
    split_and!; [split; cbn|split; cbn|cbn].
    + by rewrite (q_split _ _ Hq), <- app_assoc.
    + done.
    + by rewrite fmap_app.
    + done.
    + done.
    + set_solver.
    + set_solver.
Qed.
Lemma enqueue_all_ok vis ps l : queue_ok vis l -> (forall p, p ∈ ps -> ancestor R start p) ->
  ends (answers R) (fold_io enqueue ps l)
    (fun r => exists l', r = inl l' /\ queue_ok vis l' /\ grew l l' /\ forall p, p ∈ ps -> p ∈ l_queue l').
Proof.
  revert l; induction ps as [|p ps IH]; intros l Hq Hp.
  - apply ends_ret. exists l. split_and!; [done..|set_solver].
  - cbn [fold_io]. eapply ends_bind; [apply enqueue_ok; [done|set_solver]|].
    intros r (l1 & -> & Hq1 & Hg1 & Hp1). eapply ends_mono; [|apply IH; [done|set_solver]].
    intros r (l2 & -> & Hq2 & Hg2 & Hp2). exists l2. split_and!; [done..|by eapply grew_trans|].
    intros q [->|Hq']%elem_of_cons; [by apply Hg2|by apply Hp2].
Qed.

Definition walk_inv (l : lineage) : Prop :=
  exists vis, queue_ok vis l /\ set_ok vis l /\ start ∈ l_queue l /\
    forall v p, v ∈ vis -> p ∈ r_parents R v -> p ∈ l_queue l.
Lemma set_grows vis l cur : (forall a, a ∈ vis ++ [cur] -> ancestor R start a) -> set_ok vis l ->
  let set := match r_name R cur with
             | Some s => if is_valid_bsd_disk_ident s then bsd_set_add max (l_set l) s else l_set l
             | None => l_set l end in
  NoDup set /\ forall x, x ∈ set <-> base x \/ exists a, a ∈ vis ++ [cur] /\ entry_named R a x.
Proof.
  intros Hc [Hd Hs]. cbn. assert (Hone : forall x, (exists a, a ∈ vis ++ [cur] /\ entry_named R a x) <->
    (exists a, a ∈ vis /\ entry_named R a x) \/ entry_named R cur x).
  { intros x. split; [intros (a & [H| ->%list_elem_of_singleton]%elem_of_app & He); [left; eauto|by right]|].
    intros [(a & H & He)|He]; [exists a|exists cur]; set_solver. }
  assert (Hcur : forall x, entry_named R cur x -> x ∈ names).
  { intros x He. apply names_all. right. exists cur. split; [apply Hc; set_solver|done]. }
  destruct (r_name R cur) as [s|] eqn:En; [destruct (is_valid_bsd_disk_ident s) eqn:Ev|].
  - destruct (set_add_spec max (l_set l) s names) as [H1 H2].
    + by eapply (name_short _ HR).
    + done.
    + intros x [H%Hs|H]; [|apply Hcur; by exists s]. apply names_all.
      destruct H as [H|(a & H & He)]; [by left|right; exists a]. split; [apply Hc; set_solver|done].
    + done.
    + split; [done|]. intros x. rewrite H2, Hs, Hone. unfold entry_named at 3. rewrite En.
      split; [intros [?|?]; [tauto|right; right; by exists s]|]. intros [?|[?|(s' & [= <-] & _ & ?)]]; tauto.
  - split; [done|]. intros x. rewrite Hs, Hone. unfold entry_named at 3. rewrite En.
    split; [tauto|]. intros [?|[?|(s' & [= <-] & ? & _)]]; [tauto..|congruence].
  - split; [done|]. intros x. rewrite Hs, Hone. unfold entry_named at 3. rewrite En.
    split; [tauto|]. intros [?|[?|(s' & [=] & _)]]; tauto.
Qed.
Lemma visit_ok l cur rest : l_todo l = cur :: rest -> walk_inv l ->
  ends (answers R) (visit max (Lineage (l_set l) rest (l_queue l) (l_seen l)) cur) walk_inv.
Proof.
  intros Ht (vis & Hq & Hs & Hst & Hc). set (vis' := vis ++ [cur]).
  assert (Hq' : forall set, queue_ok vis' (Lineage set rest (l_queue l) (l_seen l))).
  { intros set. destruct Hq as [E ? ? ?]. split; cbn; try done. rewrite E, Ht. unfold vis'. by rewrite <- app_assoc. }
  assert (Ha : forall a, a ∈ vis' -> ancestor R start a).
  { intros a H. pose proof (q_split _ _ (Hq' [])) as E. cbn in E. apply (q_above _ _ Hq). rewrite E. set_solver. }
  unfold visit. apply ends_step. cbn. intros nm ->. apply ends_step. cbn. intros ps ->.
  destruct (set_grows vis l cur Ha Hs) as [Hd Hset]. set (set := match r_name R cur with Some _ => _ | None => _ end) in *.
  assert (Hcur : ancestor R start cur) by (apply Ha; unfold vis'; set_solver).
  eapply ends_bind.
  { apply (enqueue_all_ok vis'); [apply Hq'|]. intros p Hp. eapply rtc_r; [exact Hcur|exact Hp]. }
  intros r (l' & -> & Hq2 & [Es Hg] & Hp). apply ends_ret. exists vis'. cbn in Es, Hg. split; [done|].
  split; [unfold set_ok; by rewrite Es|]. split; [by apply Hg|].
  intros v p [Hv| ->%list_elem_of_singleton]%elem_of_app Hvp; [apply Hg; by eapply Hc|by apply Hp].
Qed.
Lemma walk_ok l : walk_inv l ->
  ends (answers R) (walk max l) (fun l' => forall x, x ∈ l_set l' <->
    base x \/ exists a, ancestor R start a /\ entry_named R a x).
Proof.
  intros Hl. apply (ends_loop _ walk_inv); [|done]. clear l Hl. intros l Hl.
  destruct (l_todo l) as [|cur rest] eqn:Ht.
  - apply ends_ret. destruct Hl as (vis & Hq & [_ Hs] & Hst & Hc). intros x. rewrite Hs.
    assert (E : l_queue l = vis) by (rewrite (q_split _ _ Hq), Ht; apply app_nil_r). rewrite E in *.
    assert (Hall : forall a, ancestor R start a -> a ∈ vis).
    { intros a Ha. refine (rtc_ind_r (fun c => c ∈ vis) start _ _ a Ha); [done|]. intros b c _ Hbc Hb. by eapply Hc. }
    split; intros [?|(a & Ha & He)]; try tauto; right; exists a; (split; [|done]); [|by apply Hall].
    apply (q_above _ _ Hq). by rewrite E.
  - eapply ends_bind; [by apply visit_ok|]. intros l' Hl'. by apply ends_ret.
Qed.
End Walk.

(** the walk visits an entry for every place of the queue at most *)
Definition unvisited (l : lineage) : nat := Z.to_nat (QUEUE_MAX - zlen (l_queue l)) + length (l_todo l).
Lemma enqueue_measure l p t l' : exec (enqueue l p) t (inl l') -> (unvisited l' <= unvisited l)%nat.
Proof.
  intros (pid & t1 & -> & H). cbn [bind] in H. cbv beta zeta in H. destruct (negb _ && (_ <? _)) eqn:E.
  - destruct H as [_ [= ->]]. unfold unvisited. cbn. rewrite zlen_app, length_app. change (zlen [p]) with 1. cbn. lia.
  - destruct H as (? & t2 & -> & [_ [= ->]]). done.
Qed.
Lemma visit_measure max l cur t l' : exec (visit max l cur) t l' -> (unvisited l' <= unvisited l)%nat.
Proof.
  intros (nm & t1 & -> & H). cbn [bind] in H. cbv beta zeta in H. destruct H as (ps & t2 & -> & H). cbn [bind] in H.
  set (l0 := Lineage _ _ _ _) in H. change (unvisited l) with (unvisited l0).
  clearbody l0. destruct ps as [ps|]; [|by destruct H as [_ ->]].
  apply exec_bind in H as (t3 & r & t4 & -> & H & Hr). destruct r as [l1|[]]. destruct Hr as [_ ->].
  revert l0 t3 H; induction ps as [|p ps IH]; intros l0 t3; [by intros [_ [= ->]]|].
  cbn [fold_io]. intros (t5 & r & t6 & -> & H1 & H2)%exec_bind. destruct r as [l2|[]].
  apply enqueue_measure in H1. apply IH in H2. lia.
Qed.
Lemma enqueue_finishes L l p : finishes L (enqueue l p).
Proof. unfold enqueue. finishes_tac. Qed.
Lemma visit_finishes L max l cur : finishes L (visit max l cur).
Proof. unfold visit. pose proof (enqueue_finishes L). finishes_tac. Qed.
Lemma release_finishes L hs : finishes L (release_all hs).
Proof. induction hs as [|h hs IH]; cbn [release_all]; finishes_tac. Qed.
Lemma walk_finishes L max set start seen : finishes L (walk max (Lineage set [start] [start] seen)).
Proof.
  apply (finishes_loop _ unvisited).
  - intros l. pose proof (visit_finishes L). finishes_tac.
  - intros t l l' _ H. destruct (l_todo l) as [|cur rest] eqn:Et; [by destruct H|].
    apply exec_bind in H as (t1 & l1 & t2 & -> & H & [_ [= ->]]). apply visit_measure in H.
    unfold unvisited in *. cbn in H. rewrite Et. cbn. lia.
  - unfold unvisited. cbn [l_queue l_todo length]. change (zlen [start]) with 1. unfold QUEUE_MAX. lia.
Qed.
Lemma find_service_finishes L bsd : finishes L (find_service bsd).
Proof. unfold find_service. finishes_tac. Qed.
Lemma collect_finishes L max bsd : finishes L (collect_iokit_lineage_bsds max bsd).
Proof.
  unfold collect_iokit_lineage_bsds. pose proof (find_service_finishes L).
  pose proof (walk_finishes L). pose proof (release_finishes L). finishes_tac.
Qed.
Lemma resolve_finishes L path : finishes L (resolve_to_bsd_name path).
Proof. unfold resolve_to_bsd_name, realpath. finishes_tac. Qed.
(** the guard answers, whatever the system does *)
Lemma boot_disk_finishes L path : finishes L (rufux_macos_is_boot_disk path).
Proof.
  unfold rufux_macos_is_boot_disk. pose proof (resolve_finishes L). pose proof (collect_finishes L). finishes_tac.
Qed.

(** * The guard *)
(** a lineage that fits the walk's queue and its set of names *)
Definition small_lineage (R : registry) (max : Z) (bsd : string) : Prop :=
  exists anc names,
    (forall h a, service_of R bsd = Some h -> ancestor R h a -> a ∈ anc) /\ zlen anc <= QUEUE_MAX /\
    (forall x, lineage_name R bsd x -> x ∈ names) /\ zlen names <= max.
Lemma find_service_ok R bsd : ends (answers R) (find_service bsd) (fun s => s = service_of R bsd).
Proof.
  unfold find_service, service_of. apply ends_step. cbn. intros s ->. destruct (r_service R bsd); [by apply ends_ret|].
  destruct (_ && _); [|by apply ends_ret]. intros t a (x & t' & -> & [-> ->]) Ht. by apply Forall_inv in Ht.
Qed.
(** the walk collects exactly the names of the lineage *)
Lemma collect_correct R max bsd :
  registry_ok R -> strlen bsd < Z.of_nat BSD_CAP -> small_lineage R max bsd ->
  ends (answers R) (collect_iokit_lineage_bsds max bsd) (fun set => forall x, x ∈ set <-> lineage_name R bsd x).
Proof.
  intros HR Hl (anc & names & Hanc & Hfew & Hn & Hm). unfold collect_iokit_lineage_bsds.
  destruct (set_add_spec max [] bsd names) as [Hd Hs]; [done|constructor|..|done|].
  { intros x [H|H]; [by apply not_elem_of_nil in H|]. apply Hn. by left. }
  assert (Hs' : forall x, x ∈ bsd_set_add max [] bsd <-> named bsd x).
  { intros x. rewrite Hs. split; [intros [H|H]; [by apply not_elem_of_nil in H|done]|by right]. }
  eapply ends_bind; [apply find_service_ok|]. intros s ->. destruct (service_of R bsd) as [h|] eqn:Eh.
  2: { apply ends_ret. intros x. rewrite Hs'. unfold lineage_name. split; [by left|].
       intros [?|(h & a & ? & _)]; [done|congruence]. }
  apply ends_step. intros sid Hi. cbn in Hi. subst sid. rewrite (proj2 (Z.eqb_neq _ _) (id_nonzero _ HR h)). cbn [negb].
  eapply ends_bind.
  - apply (walk_ok R HR max h anc (named bsd) names); [intros a; by apply Hanc|done|..|done|].
    + intros x [H|(a & Ha & He)]; apply Hn; [by left|right; by exists h, a].
    + exists []. split; [|split; [split; [exact Hd|]|]].
      * split; cbn; [done|apply NoDup_singleton|done|]. intros a ->%list_elem_of_singleton. apply rtc_refl.
      * cbn. intros x. rewrite Hs'. split; [by left|]. intros [?|(a & Ha & _)]; [done|by apply not_elem_of_nil in Ha].
      * split; [cbn; set_solver|]. intros v p Hv. by apply not_elem_of_nil in Hv.
  - intros l H. cbv beta in H. apply ends_any. intros _. apply ends_ret. intros x. rewrite H. unfold lineage_name.
    split; [intros [?|(a & Ha & He)]; [by left|right; by exists h, a]|].
    intros [?|(h' & a & Hh & Ha & He)]; [by left|]. right. exists a. split; [congruence|done].
Qed.

(** When a path is refused: it is a disk, and it is disk0 or a slice of it, or
    where / is mounted from cannot be told, or the lineages of the two share a
    name. *)
Definition refused (E : oracle) (R : registry) (path : string) : Prop :=
  exists c, eval E (resolve_to_bsd_name path) = Some (Some c) /\
    (is_disk0 c = true \/ E _ (Statfs "/") = None \/
     exists from, E _ (Statfs "/") = Some from /\
       (eval E (resolve_to_bsd_name from) = Some None \/
        exists r x, eval E (resolve_to_bsd_name from) = Some (Some r) /\ lineage_name R r x /\ lineage_name R c x)).
Lemma extract_short p b : extract_bsd_from_str p = Some b -> strlen b < Z.of_nat BSD_CAP /\ b <> "".
Proof.
  unfold extract_bsd_from_str. set (cand := if starts_with "/dev/rdisk" _ then _ else _). clearbody cand.
  destruct cand as [cand|]; [|done]. destruct (is_valid_bsd_disk_ident cand) eqn:E; [|done]. intros [= <-].
  split; [apply snprintf_bound; unfold BSD_CAP; lia|]. apply andb_true_iff in E as [[t ->]%starts_with_spec _]. done.
Qed.
Lemma resolve_short E path b : eval E (resolve_to_bsd_name path) = Some (Some b) ->
  strlen b < Z.of_nat BSD_CAP /\ b <> "".
Proof.
  unfold resolve_to_bsd_name. destruct (String.eqb path ""); [done|]. unfold realpath. cbn.
  repeat (match goal with |- context [match ?x with _ => _ end] => destruct x eqn:?; cbn end);
    intros H; simplify_eq; eapply extract_short; eauto.
Qed.
Lemma shares_spec (a b : list string) :
  existsb (fun c => existsb (fun r => String.eqb c r) b) a = true <-> exists x, x ∈ b /\ x ∈ a.
Proof.
  rewrite existsb_exists. split.
  - intros (x & Hx & (y & Hy & ->%String.eqb_eq)%existsb_exists). exists y. by rewrite !list_elem_of_In.
  - intros (x & Hb & Ha). exists x. rewrite existsb_exists, <- list_elem_of_In. split; [done|].
    exists x. rewrite <- list_elem_of_In. split; [done|apply String.eqb_refl].
Qed.

(** the guard decides whether a path is refused *)
Lemma boot_disk_guard E R path :
  registry_ok R -> (forall X (e : ev X), answers R (Obs e (E X e))) ->
  (forall bsd, small_lineage R LINEAGE_MAX bsd) ->
  exists b, eval E (rufux_macos_is_boot_disk path) = Some b /\ (b = true <-> refused E R path).
Proof.
  intros HR HE Hsmall.
  assert (Hres : forall p, exists o, eval E (resolve_to_bsd_name p) = Some o).
  { intros p. destruct (eval_ends E (answers R) (resolve_to_bsd_name p) (fun _ => True)) as (o & Ho & _);
      [done|apply resolve_finishes|done|eauto]. }
  assert (Hcol : forall p c, eval E (resolve_to_bsd_name p) = Some (Some c) -> exists set,
    eval E (collect_iokit_lineage_bsds LINEAGE_MAX c) = Some set /\ forall x, x ∈ set <-> lineage_name R c x).
  { intros p c [Hl _]%resolve_short. apply eval_ends with (L := answers R);
      [done|apply collect_finishes|by apply collect_correct]. }
  unfold rufux_macos_is_boot_disk. rewrite eval_bind. unfold refused. destruct (Hres path) as [[c|] Hc]; rewrite Hc.
  2: { exists false. split; [done|]. split; [done|]. by intros (? & ? & _). }
  destruct (is_disk0 c) eqn:E0.
  { exists true. split; [done|]. split; [|done]. intros _. exists c. auto. }
  rewrite eval_bind. change (eval E (call (Statfs "/"))) with (Some (E _ (Statfs "/"))).
  destruct (E _ (Statfs "/")) as [from|] eqn:Ef.
  2: { exists true. split; [done|]. split; [|done]. intros _. exists c. auto. }
  rewrite eval_bind. destruct (Hres from) as [[r|] Hr]; rewrite Hr.
  2: { exists true. split; [done|]. split; [|done]. intros _. exists c. split; [done|]. eauto 10. }
  destruct (Hcol _ _ Hr) as (rs & Hrs & Hrx). destruct (Hcol _ _ Hc) as (cs & Hcs & Hcx).
  rewrite eval_bind, Hrs. destruct (Z.leb_spec (zlen rs) 0) as [Hz|Hz].
  { exfalso. assert (H : r ∈ rs); [|destruct rs; [by apply not_elem_of_nil in H|rewrite zlen_cons in Hz; pose proof (zlen_nonneg rs); lia]].
    apply Hrx. left. split; [|by left]. by eapply resolve_short. }
  rewrite eval_bind, Hcs. eexists. split; [reflexivity|]. rewrite shares_spec. split.
  - intros (x & H1%Hrx & H2%Hcx). exists c. split; [done|]. right; right. exists from. split; [done|]. right. by exists r, x.
  - intros (c' & Hc' & [H|[H|(f' & Hf & [H|(r' & x & Hr' & H1 & H2)])]]); simplify_eq; try congruence.
    exists x. by rewrite Hrx, Hcx.
Qed.

(** C15: The boot disk guard of macOS. In an environment whose device registry is
    at rest and whose lineages fit the walk (64 entries, 32 names), the guard
    always answers, and it answers yes exactly for the disks it is meant to
    protect: disk0 and its slices, any disk when the source of / cannot be told
    (fail closed), and otherwise any disk whose lineage in the registry - the
    disk itself, the whole disk, and every entry above it, through APFS
    containers and their physical stores - shares a name with the lineage of the
    disk / is mounted from. The breadth-first walk is thereby shown equivalent to
    reachability in the registry. *)
Theorem boot_disk_guard_correct E R path :
  registry_ok R -> (forall X (e : ev X), answers R (Obs e (E X e))) ->
  (forall bsd, small_lineage R LINEAGE_MAX bsd) ->
  exists b, eval E (rufux_macos_is_boot_disk path) = Some b /\ (b = true <-> refused E R path).
Proof. apply boot_disk_guard. Qed.

(** A Mac started from a snapshot of an APFS volume (entry 1), whose container
    (2) lies on the slice (3) of a disk (4); another disk (6). *)
Definition some_mac : registry := {|
  r_service b := if String.eqb b "disk3s1s1" then Some 1 else if String.eqb b "disk2s2" then Some 3
                 else if String.eqb b "disk2" then Some 4 else if String.eqb b "disk5" then Some 6 else None;
  r_id h := if 0 <=? h then h + 1 else h;
  r_name h := match h with 1 => Some "disk3s1s1" | 3 => Some "disk2s2" | 4 => Some "disk2" | 6 => Some "disk5" | _ => None end;
  r_parents h := match h with 1 => [2] | 2 => [3] | 3 => [4] | 4 | 6 => [5] | _ => [] end |}.
Definition some_mac_env : oracle := fun X e =>
  match e in ev X return X with
  | Realpath p => inr p | Stat _ => Some (Stat_ KBlk 0 0 0) | Statfs _ => Some "/dev/disk3s1s1"
  | IOService b => r_service some_mac b | IOEntryId h => r_id some_mac h
  | IOBsdName h => r_name some_mac h | IOParents h => Some (r_parents some_mac h)
  | e => default_answer e
  end.
Lemma some_mac_ok : registry_ok some_mac.
Proof.
  split; cbn.
  - intros h. destruct (Z.leb_spec 0 h); lia.
  - intros h k. destruct (Z.leb_spec 0 h), (Z.leb_spec 0 k); lia.
  - intros h s H. repeat case_match; simplify_eq; vm_compute; reflexivity.
Qed.
Lemma some_mac_small bsd : small_lineage some_mac LINEAGE_MAX bsd.
Proof.
  exists [1; 2; 3; 4; 5; 6], [bsd; whole_bsd_prefix bsd; "disk3s1s1"; "disk3"; "disk2s2"; "disk2"; "disk5"].
  split_and!; [|done| |vm_compute; congruence].
  - intros h a Hs Ha. assert (Hh : h ∈ [1; 2; 3; 4; 5; 6]).
    { unfold service_of in Hs. cbn in Hs. repeat case_match; simplify_eq; set_solver. }
    refine (rtc_ind_r (fun c => c ∈ [1; 2; 3; 4; 5; 6]) h Hh _ a Ha). intros y z _ Hz _. cbn in Hz.
    repeat case_match; set_solver.
  - intros x [[_ [->| ->]]|(h & a & _ & _ & (s & Hs & _ & [_ [->| ->]]))]; [set_solver..| |].
    all: cbn in Hs; repeat case_match; simplify_eq; vm_compute; set_solver.
Qed.
Lemma some_mac_answers X (e : ev X) : answers some_mac (Obs e (some_mac_env X e)).
Proof. destruct e; done. Qed.
Lemma boot_disk_guard_correct_witness :
  eval some_mac_env (rufux_macos_is_boot_disk "/dev/rdisk2") = Some true /\
  eval some_mac_env (rufux_macos_is_boot_disk "/dev/disk5") = Some false /\
  exists b, eval some_mac_env (rufux_macos_is_boot_disk "/dev/rdisk2") = Some b /\
    (b = true <-> refused some_mac_env some_mac "/dev/rdisk2").
Proof.
  split; [vm_compute; reflexivity|]. split; [vm_compute; reflexivity|].
  apply (boot_disk_guard_correct some_mac_env some_mac "/dev/rdisk2");
    [exact some_mac_ok|exact some_mac_answers|exact some_mac_small].
Defined.
