(* ===== verification/Macmount.v ===== *)
(** Mounting on macOS (src/macos/src/mount.c): the mount table, the state files
    that remember what was mounted, starting the mount server, mounting and
    unmounting, and rufux_macos_unmount_disk of platform_macos.c, which calls
    them.

    A C string buffer is cut by [snprintf]; a buffer of paths has PATH_MAX bytes.
    What a function prints is not looked at unless it ends up in a message. *)
From S2P Require Import Prelude Cstr Sys Exec Macexec Macdisk.

(** * Paths and names *)
Definition fnv1a64 (s : string) : Z :=
  fold_left (fun h c => (Z.lxor h (u8 c) * 1099511628211) mod 2 ^ 64) (bytes_of_string s) 14695981039346656037.
Definition rufux_part1 (disk : string) (cap : nat) : string :=
  if String.eqb disk "" then "" else rufux_macos_part_slice (rufux_macos_block_node disk PATH_MAX) 1 cap.
Definition parse_bsd_ident (path : string) : io (option string) :=
  if String.eqb path "" then Ret None
  else
    r <- realpath path ;;
    let p := default path r in
    let p := if starts_with "/private/dev/" p then sdrop 8 p else p in
    let cand :=
      if starts_with "/dev/rdisk" p then Some (sdrop 6 p)
      else if starts_with "/dev/disk" p then Some (sdrop 5 p)
      else if starts_with "disk" p then Some p
      else None in
    Ret (match cand with
         | Some c => if starts_with "disk" c && digit_at (sdrop 4 c) then Some (snprintf BSD_CAP c) else None
         | None => None
         end).
Definition is_whole_disk_bsd_ident (bsd : string) : bool :=
  starts_with "disk" bsd && digit_at (sdrop 4 bsd) && sall is_digit (sdrop 4 bsd).
Definition bsd_belongs_to_whole_ident (bsd whole : string) : bool :=
  is_whole_disk_bsd_ident whole && starts_with whole bsd &&
  match sdrop (String.length whole) bsd with
  | "" => true
  | String c t => Ascii.eqb c "s" && digit_at t
  end.

(** without the characters of [P] at its end *)
Fixpoint rstrip (P : ascii -> bool) (s : string) : string :=
  match s with
  | "" => ""
  | String c t => match rstrip P t with "" => if P c then "" else String c "" | t' => String c t' end
  end.
Definition is_slash (c : ascii) : bool := Ascii.eqb c "/".
(** the first character stays *)
Definition strip_trailing_slashes (s : string) : string :=
  match s with "" => "" | String c t => String c (rstrip is_slash t) end.

(** * Labels *)
Definition LABEL_CAP : nat := 128.
Definition clean_label (c : ascii) : ascii :=
  if one_of "/\:" c || (code c <? 32) then "_" else c.
Definition clean_base (c : ascii) : ascii := if is_slash c || (code c <? 32) then "_" else c.
Definition pad_char (c : ascii) : bool := one_of " ." c.
(** up to a ".img" at the end *)
Fixpoint without_img (s : string) : string :=
  if String.eqb s ".img" then "" else match s with "" => "" | String c t => String c (without_img t) end.
Definition sanitize_label (raw fallback_path : string) : string :=
  let start := (span pad_char (rstrip pad_char (stake (LABEL_CAP - 1) (smap clean_label raw)))).2 in
  if negb (String.eqb start "") then start
  else
    let base := match strrchr "/" fallback_path with Some s => sdrop 1 s | None => fallback_path end in
    let tmp := stake (LABEL_CAP - 1) (smap clean_base (without_img base)) in
    if String.eqb tmp "" then "rufux-vol" else tmp.

Section Mount.
(** bounds on what helpers print, and on the state files looked at *)
Variable fuel : nat.
(** the helper ran and succeeded *)
Definition quiet (av : list string) : io bool := r <- rufux_capture fuel av 512 ;; Ret r.1.

(** * The mount table *)
(** where a device is mounted, read-only or not, and the type *)
Definition find_active_mount_for_dev (dev : string) : io (option (string * bool * string)) :=
  target <- parse_bsd_ident dev ;;
  mnts <- call Getmntinfo ;;
  first_io (fun m =>
    hit <- match target with
           | Some target =>
               b <- parse_bsd_ident (f_mntfromname m) ;;
               Ret (match b with Some b => String.eqb b target | None => false end)
           | None => Ret (String.eqb (f_mntfromname m) dev)
           end ;;
    Ret (if hit : bool then Some (snprintf PATH_MAX (f_mntonname m), f_rdonly m, snprintf 64 (f_fstypename m)) else None)) mnts.
Definition unmount_existing_os_mount (bnode : string) : io unit :=
  m <- find_active_mount_for_dev bnode ;;
  match m with
  | None => Ret tt
  | Some _ =>
      quiet ["/usr/sbin/diskutil"; "unmount"; "force"; bnode] ;;;
      m <- find_active_mount_for_dev bnode ;;
      match m with
      | Some (mnt, _, _) => quiet ["/sbin/umount"; "-f"; mnt] ;;; Ret tt
      | None => Ret tt
      end ;;;
      call (Usleep 100000)
  end.
(** one of the names of a mount point, where it is given *)
Definition same_mount (on : string) (names : list string) : bool :=
  existsb (fun n => negb (String.eqb n "") && String.eqb on n) names.
Definition is_mountpoint_active (mnt canon_mnt : string) : io bool :=
  if String.eqb mnt "" && String.eqb canon_mnt "" then Ret false
  else
    let raw_m := strip_trailing_slashes (snprintf PATH_MAX mnt) in
    res_m <- (if String.eqb mnt "" then Ret ""
              else r <- realpath raw_m ;; Ret (strip_trailing_slashes (default "" r))) ;;
    let names := [raw_m; strip_trailing_slashes (snprintf PATH_MAX canon_mnt); res_m] in
    mnts <- call Getmntinfo ;;
    r <- first_io (fun m =>
      let on := strip_trailing_slashes (snprintf PATH_MAX (f_mntonname m)) in
      if same_mount on names then Ret (Some tt)
      else
        r <- realpath on ;;
        Ret (match r with
             | Some on_res => if same_mount (strip_trailing_slashes on_res) names then Some tt else None
             | None => None
             end)) mnts ;;
    Ret (bool_decide (is_Some r)).

(** * The directory of the state files, the server's program *)
(** the path, and whether the directory is there *)
Definition resolve_state_dir : io (string * bool) :=
  env <- call (Getenv "RUFUX_MOUNT_STATE_DIR") ;;
  out <- match env with
         | Some (String c t) => Ret (snprintf PATH_MAX (String c t))
         | _ => uid <- call Geteuid ;; Ret ("/tmp/rufux-mount-state-" +:+ dec uid)
         end ;;
  e <- call (Mkdir out) ;;
  Ret (out, match e with None | Some EEXIST => true | Some _ => false end).
Definition resolve_mountd_bin : io (option string) :=
  rufux_macos_init_bundle_env ;;;
  exedir <- rufux_macos_exe_dir ;;
  let beside p :=
    if (String.eqb exedir "" : bool) || (Z.of_nat PATH_MAX <=? strlen (exedir +:+ p)) then Ret None
    else a <- call (Access (exedir +:+ p) X_OK) ;; Ret (if a : bool then Some (exedir +:+ p) else None) in
  a <- beside "/rufux-mountd" ;;
  match a with
  | Some p => Ret (Some p)
  | None =>
      b <- beside "/../Resources/bin/rufux-mountd" ;;
      match b with
      | Some p => Ret (Some p)
      | None =>
          t <- rufux_resolve_tool "rufux-mountd" ;;
          match t with
          | Some (String c p) =>
              ok <- call (Access (String c p) X_OK) ;; Ret (if ok : bool then Some (snprintf PATH_MAX (String c p)) else None)
          | _ => Ret None
          end
      end
  end.

(** ** What is on the device *)
Definition probe_open (bnode : string) (is_dev : bool) : io (option Z) :=
  fd <- call (Open bnode O_RDONLY) ;;
  match fd with
  | inr fd => Ret (Some fd)
  | inl e =>
      if is_dev && bool_decide (e = EBUSY) then
        unmount_existing_os_mount bnode ;;;
        fd <- call (Open bnode O_RDONLY) ;; Ret (match fd with inr fd => Some fd | inl _ => None end)
      else Ret None
  end.
Definition ntfs_label (bnode hint : string) : io string :=
  if negb (String.eqb hint "") then Ret (snprintf LABEL_CAP hint)
  else
    v <- call (NMountRo bnode) ;;
    match v with
    | inl _ => Ret ""
    | inr _ => n <- call NVolName ;; call NUmount ;;; Ret (snprintf LABEL_CAP n)
    end.
(** the type and the label *)
Definition detect_fs_magic_and_label (bnode : string) (is_dev : bool) (hint : string) : io (option (string * string)) :=
  fd <- probe_open bnode is_dev ;;
  match fd with
  | None => Ret None
  | Some fd =>
      r <- call (Pread fd 4096 0) ;;
      call (Close fd) ;;;
      match r with
      | inl _ => Ret None
      | inr buf =>
          if zlen buf <? 512 then Ret None
          else if bytes_eqb (slice 3 8 buf) (bytes_of_string "NTFS    ") then
            raw <- ntfs_label bnode hint ;; Ret (Some ("ntfs", sanitize_label raw bnode))
          else if (1160 <=? zlen buf) && bytes_eqb (slice 1080 2 buf) [Byte.x53; Byte.xef] then
            Ret (Some ("ext", sanitize_label (cstr_of_bytes (slice 1144 16 buf)) bnode))
          else Ret (Some ("native", sanitize_label hint bnode))
      end
  end.

(** ** A directory to mount on *)
Definition mount_root : io (string * string) :=
  env <- call (Getenv "RUFUX_MOUNT_ROOT") ;;
  match env with
  | Some (String c t) =>
      let root := snprintf PATH_MAX (String c t) in call (Mkdir root) ;;; Ret (root, "")
  | _ =>
      ok <- call (Access "/Volumes" W_X_OK) ;;
      Ret (if ok : bool then ("/Volumes", "") else ("/tmp", "rufux-mnt-"))
  end.
Definition make_unique_mount_dir (label : string) : io (option string) :=
  rp <- mount_root ;;
  let '(root, prefix) := rp in
  r <- fold_io (fun _ suffix =>
    let dir := root +:+ "/" +:+ prefix +:+ label +:+ (if suffix =? 0 then "" else "-" +:+ dec suffix) in
    if Z.of_nat PATH_MAX <=? strlen dir then Ret (inr None)
    else
      e <- call (Mkdir dir) ;;
      Ret (match e with None => inr (Some dir) | Some EEXIST => inl tt | Some _ => inr None end))
    (map Z.of_nat (seq 0 1000)) tt ;;
  Ret (match r with inl _ => None | inr d => d end).
End Mount.
