(* ===== verification/Macstate.v ===== *)
(** What the macOS port remembers of its mounts (src/macos/src/mount.c,
    write_mount_state to rmdir_with_retry): a state file per mount, finding the
    state of a device, and ending the server of a mount.

    A state file is text, a line per field. The descriptor and the buffer of
    stdio are one stream; a state file is read whole. *)
From S2P Require Import Prelude Cstr Sys Exec Macexec Macdisk Macmount.

(** the fields in the order of the file; [pid] and [created_dir] are ints *)
Record MountState := MountSt {
  state_file : string; ms_kind : string; ms_pid : Z; ms_dev : string; ms_canon_dev : string; ms_mnt : string;
  ms_canon_mnt : string; ms_attached_disk : string; ms_pidfile : string; ms_created_dir : Z }.
Definition no_state (path : string) : MountState := MountSt (snprintf PATH_MAX path) "" 0 "" "" "" "" "" "" 0.
#[export] Instance MountState_eq_dec : EqDecision MountState.
Proof. solve_decision. Defined.

(** * Writing *)
(** "%016llx" *)
Fixpoint hex_digits (n : nat) (z : Z) : string :=
  match n with O => "" | S m => hex_digits m (z / 16) +:+ String (hexdigit (z mod 16)) "" end.
Definition mount_id (canon_dev mnt : string) : Z := Z.lxor (fnv1a64 canon_dev) ((2 * fnv1a64 mnt) mod 2 ^ 64).
Definition line (k v : string) : string := k +:+ "=" +:+ v +:+ LF.
Definition state_lines (st : MountState) : list string :=
  [line "kind" (ms_kind st); line "pid" (dec (ms_pid st)); line "dev" (ms_dev st); line "canon_dev" (ms_canon_dev st);
   line "mnt" (ms_mnt st); line "canon_mnt" (ms_canon_mnt st); line "attached_disk" (ms_attached_disk st);
   line "pidfile" (ms_pidfile st); line "created_dir" (dec (ms_created_dir st))].
Fixpoint put_lines (h : Z) (l : list string) : io unit :=
  match l with [] => Ret tt | s :: t => call (Fputs h s) ;;; put_lines h t end.
Definition state_path (state_dir : string) (st : MountState) : string :=
  let dev := if String.eqb (ms_canon_dev st) "" then ms_dev st else ms_canon_dev st in
  snprintf PATH_MAX (state_dir +:+ "/" +:+ hex_digits 16 (mount_id dev (ms_mnt st)) +:+ ".state").
Definition write_mount_state (state_dir : string) (st : MountState) : io bool :=
  f <- call (Fopen (state_path state_dir st) "w") ;;
  match f with
  | inl _ => Ret false
  | inr h => put_lines h (state_lines st) ;;; call (Fclose h) ;;; Ret true
  end.

(** * Reading *)
Definition LINE_CAP : nat := PATH_MAX + 64.
(** a line in its buffer: what it sets *)
Definition set_field (k v : string) (st : MountState) : MountState :=
  let '(MountSt f kind pid dev cdev mnt cmnt disk pf made) := st in
  let p := snprintf PATH_MAX v in
  if String.eqb k "kind" then MountSt f (snprintf 32 v) pid dev cdev mnt cmnt disk pf made
  else if String.eqb k "pid" then MountSt f kind (to_int (strtoll10 v)) dev cdev mnt cmnt disk pf made
  else if String.eqb k "dev" then MountSt f kind pid p cdev mnt cmnt disk pf made
  else if String.eqb k "canon_dev" then MountSt f kind pid dev p mnt cmnt disk pf made
  else if String.eqb k "mnt" then MountSt f kind pid dev cdev p cmnt disk pf made
  else if String.eqb k "canon_mnt" then MountSt f kind pid dev cdev mnt p disk pf made
  else if String.eqb k "attached_disk" then MountSt f kind pid dev cdev mnt cmnt (snprintf 128 v) pf made
  else if String.eqb k "pidfile" then MountSt f kind pid dev cdev mnt cmnt disk p made
  else if String.eqb k "created_dir" then MountSt f kind pid dev cdev mnt cmnt disk pf (atoi v)
  else st.
Definition read_line (st : MountState) (l : string) : MountState :=
  let l := rstrip is_eol l in
  match strchr "=" l with
  | None => st
  | Some v => set_field (before l v) (sdrop 1 v) st
  end.
Definition parse_state (path text : string) : MountState :=
  fold_left read_line (fgets_all LINE_CAP text) (no_state path).
Definition read_mount_state_file (path : string) : io (option MountState) :=
  f <- call (ReadText path) ;;
  Ret (match f with
       | None => None
       | Some text =>
           let st := parse_state path text in
           if String.eqb (ms_kind st) "" then None else Some st
       end).

(** * Finding *)
Definition names_of (st : MountState) : list string :=
  [ms_dev st; ms_canon_dev st; ms_mnt st; ms_canon_mnt st; ms_attached_disk st].
Definition belongs (path whole : string) : io bool :=
  b <- parse_bsd_ident path ;;
  Ret (match b with Some b => bsd_belongs_to_whole_ident b whole | None => false end).
(** the first of the paths that belongs to the disk *)
Definition any_belongs (paths : list string) (whole : string) : io bool :=
  r <- first_io (fun p => b <- belongs p whole ;; Ret (if b : bool then Some tt else None)) paths ;;
  Ret (bool_decide (is_Some r)).
Definition state_matches_target (st : MountState) (raw_t blk_t canon_t : string) : io bool :=
  if existsb (fun c => negb (String.eqb c "") && existsb (fun n => negb (String.eqb n "") && String.eqb n c) (names_of st))
       [raw_t; blk_t; canon_t]
  then Ret true
  else
    tbsd <- parse_bsd_ident blk_t ;;
    match tbsd with
    | Some tbsd =>
        if is_whole_disk_bsd_ident tbsd then any_belongs [ms_canon_dev st; ms_dev st; ms_attached_disk st] tbsd
        else Ret false
    | None => Ret false
    end.
(** a file name that ends in ".state" and has more *)
Definition is_state_name (n : string) : bool :=
  (7 <=? strlen n) && String.eqb (sdrop (String.length n - 6) n) ".state".
Definition read_state (state_dir name : string) : io (option MountState) :=
  if is_state_name name then read_mount_state_file (snprintf PATH_MAX (state_dir +:+ "/" +:+ name)) else Ret None.
Definition find_matching_state (state_dir target : string) : io (option MountState) :=
  let raw_t := strip_trailing_slashes (snprintf PATH_MAX target) in
  let blk_t := strip_trailing_slashes (rufux_macos_block_node raw_t PATH_MAX) in
  a <- realpath blk_t ;;
  canon <- match a with Some p => Ret p | None => b <- realpath raw_t ;; Ret (default "" b) end ;;
  let canon_t := strip_trailing_slashes canon in
  d <- call (Opendir state_dir) ;;
  match d with
  | None => Ret None
  | Some names =>
      first_io (fun n =>
        st <- read_state state_dir n ;;
        match st with
        | None => Ret None
        | Some st => m <- state_matches_target st raw_t blk_t canon_t ;; Ret (if m : bool then Some st else None)
        end) names
  end.

(** * The server's process *)
Definition SIGTERM : Z := 15.
Definition SIGKILL : Z := 9.
Definition pid_is_alive (pid : Z) : io bool :=
  if pid <=? 1 then Ret false
  else e <- call (Kill pid 0) ;; Ret (match e with None => true | Some e => bool_decide (e = EPERM) end).
Definition terminate_and_wait_pid (pid timeout_ms : Z) : io unit :=
  if pid <=? 1 then Ret tt
  else
    e <- call (Kill pid SIGTERM) ;;
    if bool_decide (e = Some ESRCH) then Ret tt
    else
      gone <- loop (S (S (Z.to_nat (timeout_ms / 20)))) (fun elapsed =>
        if elapsed <? timeout_ms then
          w <- call (WaitNohang pid) ;;
          match w with
          | Some _ => Ret (inr true)
          | None =>
              e <- call (Kill pid 0) ;;
              if bool_decide (e = Some ESRCH) then Ret (inr true)
              else call (Usleep 20000) ;;; Ret (inl (elapsed + 20))
          end
        else Ret (inr false)) 0 ;;
      if gone : bool then Ret tt
      else call (Kill pid SIGKILL) ;;; call (WaitNohang pid) ;;; call (Usleep 20000).
Definition rmdir_with_retry (dir : string) : io unit :=
  if String.eqb dir "" || String.eqb dir "/" || String.eqb dir "/Volumes" then Ret tt
  else
    fold_io (fun _ _ =>
      e <- call (Rmdir dir) ;;
      match e with
      | None | Some ENOENT => Ret (inr tt)
      | Some _ => call (Usleep 20000) ;;; Ret (inl tt)
      end) (seq 0 25) tt ;;;
    Ret tt.
