(* ===== verification/MacstateSpec.v ===== *)
(** The state files of the macOS mounts: what was written is read back. *)
From S2P Require Import Prelude Cstr Sys Exec Macexec Macdisk Macmount Macstate.

(** * Numbers and lines *)
Lemma dec_aux_cons f n c t : exists d u, dec_aux f n (String c t) = String d u.
Proof.
  revert n c t; induction f as [|f IH]; intros n c t; cbn [dec_aux]; [eauto|]. case_match; [eauto|apply IH].
Qed.
Lemma dec_nonneg_cons n : 0 <= n -> exists c t, dec n = String c t /\ is_digit c = true.
Proof.
  intros Hn. pose proof (dec_digits n Hn) as Hd. unfold dec in *. rewrite (proj2 (Z.ltb_ge n 0)) in * by lia.
  assert (exists c t, dec_aux (S (Z.to_nat (Z.log2 n))) n "" = String c t) as (c & t & E).
  { cbn [dec_aux]. case_match; [eauto|apply dec_aux_cons]. }
  exists c, t. split; [done|]. rewrite E in Hd. cbn in Hd. by apply andb_true_iff in Hd as [? _].
Qed.
Lemma digit_not_special c : is_digit c = true ->
  isspace c = false /\ Ascii.eqb c "-" = false /\ Ascii.eqb c "+" = false /\ is_eol c = false /\ Ascii.eqb "=" c = false.
Proof.
  unfold is_digit, isspace, is_eol. rewrite !ascii_eqb_code. change (code "-") with 45. change (code "+") with 43.
  change (code "=") with 61. intros H. repeat split; lia.
Qed.
Lemma strip_sign_digit c t : is_digit c = true -> strip_sign (String c t) = (false, String c t).
Proof.
  intros H. destruct (digit_not_special c H) as (Hs & Hm & Hp & _). unfold strip_sign. cbn [span]. rewrite Hs. cbn [snd].
  by rewrite Hm, Hp.
Qed.
Lemma strtoll10_dec z : - 2 ^ 63 <= z < 2 ^ 63 -> strtoll10 (dec z) = z.
Proof.
  intros Hz. unfold strtoll10. destruct (Z.ltb_spec z 0) as [Hn|Hn].
  - assert (E : dec z = String "-" (dec (- z))) by (unfold dec; rewrite (proj2 (Z.ltb_lt z 0)), (proj2 (Z.ltb_ge (- z) 0)) by lia; done).
    rewrite E. change (strip_sign (String "-" (dec (- z)))) with (true, dec (- z)).
    cbv beta iota. rewrite dec_roundtrip by lia. lia.
  - destruct (dec_nonneg_cons z Hn) as (c & t & E & Hc). rewrite E, strip_sign_digit, <- E, dec_roundtrip by done. lia.
Qed.
Lemma to_int_id z : - 2 ^ 31 <= z < 2 ^ 31 -> to_int z = z.
Proof. intros H. unfold to_int. rewrite Z.mod_small by lia. lia. Qed.
(** a string without a line feed *)
Definition no_lf (s : string) : bool := sall (fun c => negb (code c =? 10)) s.
Lemma fgets_aux_line cap lft l rest cur : no_lf l = true -> (String.length l < lft)%nat ->
  fgets_aux cap lft (l +:+ LF +:+ rest) cur = (cur +:+ l +:+ LF) :: fgets_aux cap (cap - 1) rest "".
Proof.
  revert lft cur; induction l as [|c l IH]; intros lft cur Hl Hn.
  - reflexivity.
  - cbn in Hl. apply andb_true_iff in Hl as [Hc Hl]. apply negb_true_iff in Hc.
    cbn [String.append fgets_aux]. rewrite ascii_eqb_code. change (code (chr 10)) with 10. rewrite Hc.
    cbn [String.length] in Hn. rewrite (proj2 (Nat.eqb_neq lft 1)) by lia. cbn [orb].
    rewrite IH by (done || lia). f_equal. by rewrite !sapp_assoc.
Qed.
Lemma fgets_line cap l rest : no_lf l = true -> (String.length l < cap - 1)%nat ->
  fgets_all cap (l +:+ LF +:+ rest) = (l +:+ LF) :: fgets_all cap rest.
Proof. intros. by apply fgets_aux_line. Qed.
Lemma rstrip_end P s c : P c = true -> rstrip P (s +:+ String c "") = rstrip P s.
Proof. intros H. induction s as [|d s IH]; cbn; [by rewrite H|]. by rewrite IH. Qed.
(** nothing of [P] at the end *)
Definition ends_clean (P : ascii -> bool) (s : string) : bool := String.eqb (rstrip P s) s.
Lemma rstrip_app P a b : b <> "" -> ends_clean P b = true -> rstrip P (a +:+ b) = a +:+ b.
Proof.
  intros Hb Hc%String.eqb_eq. induction a as [|c a IH]; cbn; [done|]. rewrite IH.
  destruct (a +:+ b) eqn:E; [|done]. destruct a; [done|]. done.
Qed.

(** * A line read back *)
Definition no_equals (k : string) : bool := sall (fun c => negb (Ascii.eqb "=" c)) k.
(** a value that fits a buffer and a line *)
Record value_ok (cap : nat) (v : string) : Prop := {
  v_lf : no_lf v = true; v_end : ends_clean is_eol v = true; v_fits : strlen v < Z.of_nat cap }.
Lemma strchr_app c k v : sall (fun x => negb (Ascii.eqb c x)) k = true -> strchr c (k +:+ String c v) = Some (String c v).
Proof.
  induction k as [|d k IH]; cbn; [by rewrite Ascii.eqb_refl|]. intros [Hd Hk]%andb_true_iff.
  apply negb_true_iff in Hd. rewrite Hd. by apply IH.
Qed.
Lemma line_stripped k v cap : value_ok cap v -> rstrip is_eol (line k v) = k +:+ String "=" v.
Proof.
  intros [_ He _]. change (rstrip is_eol (k +:+ (String "=" v +:+ String (chr 10) "")) = k +:+ String "=" v).
  rewrite <- sapp_assoc.
  rewrite rstrip_end by done. apply rstrip_app; [done|]. unfold ends_clean in *. rewrite String.eqb_eq in *. cbn [rstrip].
  rewrite He. by destruct v.
Qed.
Lemma read_line_field st k v cap : no_equals k = true -> value_ok cap v -> read_line st (line k v) = set_field k v st.
Proof.
  intros Hk Hv. unfold read_line. rewrite (line_stripped _ _ _ Hv), strchr_app by exact Hk.
  unfold before. rewrite slength_app, Nat.add_sub, stake_app by done. done.
Qed.
(** lines put one after the other are read one by one *)
Definition pair_ok (p : string * string) : Prop :=
  no_equals p.1 = true /\ no_lf p.1 = true /\ (String.length p.1 <= 13)%nat /\ value_ok PATH_MAX p.2.
Definition text_of (ps : list (string * string)) : string := fold_right (fun p s => line p.1 p.2 +:+ s) "" ps.
Lemma read_lines ps st : Forall pair_ok ps ->
  fold_left read_line (fgets_all LINE_CAP (text_of ps)) st = fold_left (fun st p => set_field p.1 p.2 st) ps st.
Proof.
  intros H. revert st; induction H as [|[k v] ps (Hk & Hlf & Hlen & Hv) _ IH]; intros st; [done|].
  cbn [text_of fold_right fst snd]. fold (text_of ps). cbn [fst snd] in *.
  replace (line k v +:+ text_of ps) with ((k +:+ "=" +:+ v) +:+ LF +:+ text_of ps).
  2: { unfold line. by rewrite !sapp_assoc. }
  rewrite fgets_line.
  - cbn [fold_left fst snd]. replace ((k +:+ "=" +:+ v) +:+ LF) with (line k v) by (unfold line; by rewrite !sapp_assoc).
    rewrite (read_line_field _ _ _ _ Hk Hv). apply IH.
  - unfold no_lf in *. rewrite !sall_app, Hlf. cbn. exact (v_lf _ _ Hv).
  - rewrite !slength_app. pose proof (v_fits _ _ Hv) as Hf. unfold strlen in Hf. unfold LINE_CAP, PATH_MAX in *. cbn [String.length]. lia.
Qed.

(** * A state written and read back *)
(** what a state can hold: lines without line feeds that fit their buffers, and ints *)
Record state_ok (st : MountState) : Prop := {
  ok_kind : value_ok 32 (ms_kind st); ok_kind_some : ms_kind st <> "";
  ok_dev : value_ok PATH_MAX (ms_dev st); ok_canon_dev : value_ok PATH_MAX (ms_canon_dev st);
  ok_mnt : value_ok PATH_MAX (ms_mnt st); ok_canon_mnt : value_ok PATH_MAX (ms_canon_mnt st);
  ok_disk : value_ok 128 (ms_attached_disk st); ok_pidfile : value_ok PATH_MAX (ms_pidfile st);
  ok_pid : - 2 ^ 31 <= ms_pid st < 2 ^ 31; ok_made : - 2 ^ 31 <= ms_created_dir st < 2 ^ 31 }.
Definition fields (st : MountState) : list (string * string) :=
  [("kind", ms_kind st); ("pid", dec (ms_pid st)); ("dev", ms_dev st); ("canon_dev", ms_canon_dev st); ("mnt", ms_mnt st);
   ("canon_mnt", ms_canon_mnt st); ("attached_disk", ms_attached_disk st); ("pidfile", ms_pidfile st);
   ("created_dir", dec (ms_created_dir st))].
Definition located (path : string) (st : MountState) : MountState :=
  let '(MountSt _ kind pid dev cdev mnt cmnt disk pf made) := st in
  MountSt (snprintf PATH_MAX path) kind pid dev cdev mnt cmnt disk pf made.
Lemma rstrip_none P s : sall (fun c => negb (P c)) s = true -> rstrip P s = s.
Proof.
  induction s as [|c s IH]; cbn; [done|]. intros [Hc Hs]%andb_true_iff. apply negb_true_iff in Hc.
  rewrite (IH Hs), Hc. by destruct s.
Qed.
Definition no_eol (s : string) : bool := sall (fun c => negb (is_eol c)) s.
Lemma value_ok_small cap v : no_eol v = true -> strlen v < Z.of_nat cap -> value_ok cap v.
Proof.
  intros Hv Hn. split; [|apply String.eqb_eq; by apply rstrip_none|done]. revert Hv. unfold no_lf, no_eol. apply sall_impl.
  intros c. unfold is_eol. by rewrite negb_orb, andb_true_iff => -[].
Qed.
Lemma value_ok_weaken cap cap' v : (cap <= cap')%nat -> value_ok cap v -> value_ok cap' v.
Proof. intros Hc [? ? ?]. split; try done. lia. Qed.
Lemma dec_neg z : z < 0 -> dec z = String "-" (dec (- z)).
Proof. intros H. unfold dec. by rewrite (proj2 (Z.ltb_lt z 0)), (proj2 (Z.ltb_ge (- z) 0)) by lia. Qed.
Lemma no_eol_dec n : 0 <= n -> no_eol (dec n) = true.
Proof.
  intros H. apply dec_digits in H. revert H. unfold no_eol. apply sall_impl. intros c Hc.
  by destruct (digit_not_special c Hc) as (_ & _ & _ & -> & _).
Qed.
Lemma value_ok_dec z : - 2 ^ 31 <= z < 2 ^ 31 -> value_ok PATH_MAX (dec z).
Proof.
  intros Hz. destruct (Z.ltb_spec z 0) as [Hn|Hn].
  - rewrite dec_neg by done. apply value_ok_small; [exact (no_eol_dec (- z) ltac:(lia))|].
    pose proof (strlen_dec 9 (- z) ltac:(lia)). unfold strlen in *. cbn [String.length]. unfold PATH_MAX. lia.
  - apply value_ok_small; [by apply no_eol_dec|]. pose proof (strlen_dec 9 z ltac:(lia)). unfold PATH_MAX. lia.
Qed.
Lemma fields_ok st : state_ok st -> Forall pair_ok (fields st).
Proof.
  intros []. unfold fields. repeat (apply Forall_cons_2; [|try exact (Forall_nil_2 _)]);
    (split; [reflexivity|split; [reflexivity|split; [cbn; lia|cbn [snd]]]]);
    first [done|by apply value_ok_dec|by eapply value_ok_weaken; [|done]; unfold PATH_MAX; lia].
Qed.
Lemma fields_set path st : state_ok st ->
  fold_left (fun s p => set_field p.1 p.2 s) (fields st) (no_state path) = located path st.
Proof.
  destruct st as [f kind pid dev cdev mnt cmnt disk pf made].
  intros [[_ _ ?] _ [_ _ ?] [_ _ ?] [_ _ ?] [_ _ ?] [_ _ ?] [_ _ ?] ? ?]. cbn [ms_kind ms_dev ms_canon_dev ms_mnt ms_canon_mnt
    ms_attached_disk ms_pidfile ms_pid ms_created_dir] in *. unfold fields, no_state, located.
  cbn [fold_left fst snd ms_kind ms_dev ms_canon_dev ms_mnt ms_canon_mnt ms_attached_disk ms_pidfile ms_pid ms_created_dir].
  generalize (snprintf PATH_MAX path) as f'. intros f'. cbn [set_field String.eqb Ascii.eqb Bool.eqb]. unfold atoi.
  by rewrite !strtoll10_dec, !to_int_id, !snprintf_fits by lia.
Qed.
Lemma state_read_back path st : state_ok st -> parse_state path (text_of (fields st)) = located path st.
Proof. intros H. unfold parse_state. rewrite read_lines by by apply fields_ok. by apply fields_set. Qed.

(** ** What a trace put on a stream *)
Definition put_on (h : Z) (o : obs) : string :=
  match o with Obs e _ => match e with Fputs h' s => if h' =? h then s else "" | _ => "" end end.
Definition puts (h : Z) (t : list obs) : string := fold_right (fun o s => put_on h o +:+ s) "" t.
Lemma puts_app h t u : puts h (t ++ u) = puts h t +:+ puts h u.
Proof. induction t as [|o t IH]; cbn; [done|]. unfold puts in *. by rewrite IH, sapp_assoc. Qed.
Lemma put_lines_puts h l t : exec (put_lines h l) t tt -> puts h t = fold_right String.append "" l.
Proof.
  revert t; induction l as [|s l IH]; intros t H; cbn in H; [by destruct H as [-> _]|].
  destruct H as (? & t' & -> & H). cbn. rewrite Z.eqb_refl. f_equal. by apply IH.
Qed.
Lemma write_state_puts dir st t : exec (write_mount_state dir st) t true ->
  exists h t', t = Obs (Fopen (state_path dir st) "w") (inr h) :: t' /\ puts h t' = text_of (fields st).
Proof.
  intros (f & t1 & -> & H). destruct f as [e|h]; [by destruct H|].
  cbn [bind] in H. apply exec_bind in H as (t2 & [] & t3 & -> & H2 & H3). destruct H3 as (b & t4 & -> & -> & _).
  exists h, (t2 ++ [Obs (Fclose h) b]). split; [done|]. rewrite puts_app, (put_lines_puts _ _ _ H2). cbn [puts fold_right put_on].
  cbn [state_lines fields text_of fold_right fst snd]. by rewrite !sapp_assoc.
Qed.

(** C19: what the macOS port writes down about a mount it finds again: for a mount state whose texts have no line feed (and no
    line end at their end), fit their buffers, and whose numbers are ints, when [write_mount_state] succeeds, the text it put
    on the state file of that mount, read by [read_mount_state_file], gives the same kind, process, device, mount point, image
    disk, pid file and directory flag, with the path it was read from. *)
Theorem mount_state_roundtrip dir st t path :
  state_ok st -> exec (write_mount_state dir st) t true ->
  exists h t', t = Obs (Fopen (state_path dir st) "w") (inr h) :: t' /\
    exec (read_mount_state_file path) [Obs (ReadText path) (Some (puts h t'))] (Some (located path st)).
Proof.
  intros Hst (h & t' & -> & Hp)%write_state_puts. exists h, t'. split; [done|]. rewrite Hp.
  eexists _, _. split; [done|]. split; [done|]. rewrite state_read_back by done.
  destruct Hst as [_ Hk _ _ _ _ _ _ _ _]. destruct st as [? k]. cbn in *. by destruct k.
Qed.
Definition some_state : MountState :=
  MountSt "" "nfs" 412 "/dev/disk4s1" "/dev/disk4s1" "/Volumes/BOOT" "/Volumes/BOOT" "" "/tmp/m/412.pid" 1.
Definition some_state_trace : list obs :=
  Obs (Fopen (state_path "/tmp/m" some_state) "w") (inr 3)
    :: map (fun s => Obs (Fputs 3 s) tt) (state_lines some_state) ++ [Obs (Fclose 3) true].
Lemma mount_state_roundtrip_witness :
  exists h t', some_state_trace = Obs (Fopen (state_path "/tmp/m" some_state) "w") (inr h) :: t' /\
    exec (read_mount_state_file "/tmp/m/f.state") [Obs (ReadText "/tmp/m/f.state") (Some (puts h t'))]
      (Some (located "/tmp/m/f.state" some_state)).
Proof.
  apply (mount_state_roundtrip "/tmp/m" some_state some_state_trace "/tmp/m/f.state").
  - split; (reflexivity || lia || done || (cbn; lia) || (split; reflexivity)).
  - unfold some_state_trace. cbn [map state_lines app]. exec_tac.
Defined.

(** The values are not escaped: a line feed in the path of an image makes a field of what follows it. Here the state written
    for a mount served by process 412 is read back as one of process 77. *)
Definition forged_state : MountState :=
  MountSt "" "nfs" 412 ("/x" +:+ LF +:+ "pid=77") "/x" "/Volumes/BOOT" "/Volumes/BOOT" "" "/tmp/m/412.pid" 1.
Theorem line_feed_forges_pid :
  ms_pid forged_state = 412 /\ ms_pid (parse_state "/tmp/m/f.state" (text_of (fields forged_state))) = 77.
Proof. split; vm_compute; reflexivity. Qed.
