(* ===== verification/Macvolume.v ===== *)
(** Mounting, unmounting and what is mounted of a disk
    (src/macos/src/mount.c, launch_mountd_and_mount_nfs to
    rufux_unmount_all_for_disk), and rufux_macos_unmount_disk of
    platform_macos.c.

    The child that becomes the mount server is one call ([ForkExec]); the
    descriptor it reports its port on is in its arguments. *)
From S2P Require Import Prelude Cstr Sys Exec Macexec Macdisk Macmount Macstate.

Section Volume.
(** bounds on what helpers print, on the report of the server, and on the stale
    state files met *)
Variable fuel : nat.

(** * Starting the server *)
Definition has_newline (s : string) : bool := bool_decide (is_Some (strchr (chr 10) s)).
(** what the server reports: up to 63 bytes, ten seconds at a time *)
Definition read_port (fd : Z) : io (list byte) :=
  loop fuel (fun got =>
    if zlen got + 1 <? 64 then
      pr <- call (Poll [fd] 10000) ;;
      match pr with
      | inl _ | inr [] => Ret (inr got)
      | inr _ =>
          r <- call (Read fd (63 - zlen got)) ;;
          match r with
          | inl EINTR => Ret (inl got)
          | inl _ | inr [] => Ret (inr got)
          | inr l =>
              let got := got ++ l in
              Ret (if has_newline (cstr_of_bytes got) then inr got else inl got)
          end
      end
    else Ret (inr got)) [].
Definition nfs_options (port : Z) (nolockd : bool) : string :=
  snprintf 256 ("locallocks,vers=3,tcp,port=" +:+ dec port +:+ ",mountport=" +:+ dec port +:+
                (if nolockd then ",nolockd" else "") +:+ ",rsize=65536,wsize=65536").
(** 127.0.0.1:/ on a directory, and what mount_nfs said *)
Definition mount_nfs (port : Z) (mnt_dir : string) : io (bool * string) :=
  let go nolockd := rufux_capture fuel ["/sbin/mount_nfs"; "-o"; nfs_options port nolockd; "127.0.0.1:/"; mnt_dir] 512 in
  r <- go true ;; if r.1 then Ret r else go false.
(** the server, started and reporting; the ends it was given are closed *)
Definition spawn_mountd (mountd_bin canon_dev fstype pidfile : string) : io (cres (Z * Z * Z)) :=
  rp <- call Pipe ;;
  match rp with
  | inl e => fail ("pipe failed: " +:+ strerror e)
  | inr (ready0, ready1) =>
      ep <- call Pipe ;;
      match ep with
      | inl e => call (Close ready0) ;;; call (Close ready1) ;;; fail ("pipe failed: " +:+ strerror e)
      | inr (err0, err1) =>
          pid <- call (ForkExec [mountd_bin; "--device"; canon_dev; "--fstype"; fstype;
                                 "--ready-fd"; dec ready1; "--pidfile"; pidfile]) ;;
          match pid with
          | inl e =>
              call (Close ready0) ;;; call (Close ready1) ;;; call (Close err0) ;;; call (Close err1) ;;;
              fail ("fork rufux-mountd failed: " +:+ strerror e)
          | inr pid => call (Close ready1) ;;; call (Close err1) ;;; ok (pid, ready0, err0)
          end
      end
  end.
(** the process of the server *)
Definition launch_mountd_and_mount_nfs (mountd_bin canon_dev fstype mnt_dir pidfile : string) : io (cres Z) :=
  s <-? spawn_mountd mountd_bin canon_dev fstype pidfile ;;
  let '(pid, ready0, err0) := s in
  buf <- read_port ready0 ;;
  call (Close ready0) ;;;
  let port := strtoul10 (cstr_of_bytes buf) mod 2 ^ 32 in
  if (port =? 0) || (65535 <? port) then
    er <- call (Read err0 511) ;;
    call (Close err0) ;;;
    terminate_and_wait_pid pid 2000 ;;;
    let e := match er with inr l => cstr_of_bytes l | inl _ => "" end in
    fail ("rufux-mountd failed to start on '" +:+ canon_dev +:+ "': " +:+
          (if String.eqb e "" then "no ready port reported" else e))
  else
    call (Close err0) ;;;
    m <- mount_nfs port mnt_dir ;;
    if m.1 then ok pid
    else
      terminate_and_wait_pid pid 3000 ;;;
      call (Unlink pidfile) ;;;
      fail ("mount_nfs failed on '" +:+ mnt_dir +:+ "': " +:+ m.2).

(** * rufux_mount *)
(** a whole disk that has a first slice stands for it *)
Definition first_slice (bnode : string) : io string :=
  b <- parse_bsd_ident bnode ;;
  match b with
  | Some b =>
      if is_whole_disk_bsd_ident b then
        let part1 := rufux_part1 bnode PATH_MAX in
        if String.eqb part1 "" then Ret bnode
        else st <- call (Stat part1) ;; Ret (if is_device st then part1 else bnode)
      else Ret bnode
  | None => Ret bnode
  end.
(** the node that is mounted, and whether it is a device *)
Definition mount_target (dev bnode : string) : io (cres (string * bool)) :=
  st <- call (Stat bnode) ;;
  match st with
  | None => e <- call Errno ;; fail ("target '" +:+ dev +:+ "' does not exist: " +:+ strerror e)
  | Some _ =>
      if is_device st then b <- first_slice bnode ;; ok (b, true)
      else if is_kind KReg st then ok (bnode, false)
      else fail ("target '" +:+ dev +:+ "' is not a block device or disk image")
  end.

(** what to do with a state that was found: [inr] is what rufux_mount returns *)
Inductive stale := Again | Leave.
Definition forget (st : MountState) : io (stale + cres string) :=
  when (negb (ms_created_dir st =? 0)) (rmdir_with_retry (ms_mnt st)) ;;;
  e <- call (Unlink (state_file st)) ;;
  Ret (inl (match e with None => Again | Some _ => Leave end)).
Definition stale_nfs (st : MountState) (mounted : bool) : io (stale + cres string) :=
  alive <- pid_is_alive (ms_pid st) ;;
  if mounted && alive then Ret (inr (Ok (ms_mnt st)))
  else
    when mounted (quiet fuel ["/sbin/umount"; "-f"; ms_mnt st] ;;; Ret tt) ;;;
    still <- is_mountpoint_active (ms_mnt st) (ms_canon_mnt st) ;;
    if still : bool then
      Ret (inr (Fail ("stale NFS mount '" +:+ ms_mnt st +:+ "' could not be unmounted before remount")))
    else
      undead <- (if 1 <? ms_pid st then terminate_and_wait_pid (ms_pid st) 5000 ;;; pid_is_alive (ms_pid st)
                 else Ret false) ;;
      if undead : bool then
        Ret (inr (Fail ("unable to terminate orphaned rufux-mountd pid " +:+ dec (ms_pid st))))
      else
        when (negb (String.eqb (ms_pidfile st) "")) (call (Unlink (ms_pidfile st)) ;;; Ret tt) ;;;
        forget st.
Definition stale_other (st : MountState) (mounted : bool) : io (stale + cres string) :=
  if mounted then Ret (inr (Ok (ms_mnt st)))
  else
    when (String.eqb (ms_kind st) "hdiutil" && negb (String.eqb (ms_attached_disk st) ""))
      (quiet fuel ["/usr/bin/hdiutil"; "detach"; "-force"; ms_attached_disk st] ;;; Ret tt) ;;;
    forget st.
Definition check_existing (state_dir canon_dev dev : string) : io (option (cres string)) :=
  loop fuel (fun _ =>
    a <- find_matching_state state_dir canon_dev ;;
    b <- match a with Some st => Ret (Some st) | None => find_matching_state state_dir dev end ;;
    match b with
    | None => Ret (inr None)
    | Some st =>
        mounted <- is_mountpoint_active (ms_mnt st) (ms_canon_mnt st) ;;
        r <- (if String.eqb (ms_kind st) "nfs" then stale_nfs st mounted else stale_other st mounted) ;;
        Ret (match r with
             | inl Again => inl tt
             | inl Leave => inr None
             | inr res => inr (Some res)
             end)
    end) tt.

(** a mount of the system's own that will do, or the hint for the label it leaves *)
Definition os_mount (bnode : string) : io (string + string) :=
  m <- find_active_mount_for_dev bnode ;;
  match m with
  | None => Ret (inr "")
  | Some (mnt, rdonly, vfs) =>
      let hint := match strrchr "/" mnt with Some (String _ b) => snprintf LABEL_CAP b | _ => "" end in
      if negb rdonly && negb (String.eqb vfs "ntfs") && negb (starts_with "ext" vfs) then Ret (inl mnt)
      else unmount_existing_os_mount fuel bnode ;;; Ret (inr hint)
  end.

(** the state of a mount just made, written down *)
Definition remember (state_dir kind : string) (pid : Z) (dev canon_dev mnt attached pidfile : string) (made : Z) : io unit :=
  r <- realpath mnt ;;
  write_mount_state state_dir
    (MountSt "" kind pid (snprintf PATH_MAX dev) canon_dev mnt (default mnt r) attached pidfile made) ;;;
  Ret tt.
Definition mount_nfs_kind (dev bnode canon_dev state_dir fstype label : string) (is_dev : bool) : io (cres string) :=
  bin <- resolve_mountd_bin ;;
  match bin with
  | None => fail "rufux-mountd helper binary not found"
  | Some bin =>
      when is_dev (unmount_existing_os_mount fuel bnode) ;;;
      d <- make_unique_mount_dir label ;;
      match d with
      | None => fail ("failed to create mountpoint directory for '" +:+ label +:+ "'")
      | Some mnt_dir =>
          let pidfile := snprintf PATH_MAX (state_dir +:+ "/" +:+ hex_digits 16 (mount_id canon_dev mnt_dir) +:+ ".pid") in
          let launch := launch_mountd_and_mount_nfs bin canon_dev fstype mnt_dir pidfile in
          l <- launch ;;
          l <- match l with
               | Fail e => if is_dev then unmount_existing_os_mount fuel bnode ;;; launch else fail e
               | Ok pid => ok pid
               end ;;
          match l with
          | Fail e => rmdir_with_retry mnt_dir ;;; fail e
          | Ok pid => remember state_dir "nfs" pid dev canon_dev mnt_dir "" pidfile 1 ;;; ok mnt_dir
          end
      end
  end.
(** diskutil mount on a directory of ours: where it was mounted *)
Definition diskutil_mount_at (bnode label : string) : io (option string) :=
  env <- call (Getenv "RUFUX_MOUNT_ROOT") ;;
  match env with
  | Some (String _ _) =>
      d <- make_unique_mount_dir label ;;
      match d with
      | None => Ret None
      | Some mnt_dir =>
          r <- quiet fuel ["/usr/sbin/diskutil"; "mount"; "-mountPoint"; mnt_dir; bnode] ;;
          m <- (if r : bool then find_active_mount_for_dev bnode else Ret None) ;;
          match m with
          | Some (mnt, _, _) => Ret (Some mnt)
          | None => rmdir_with_retry mnt_dir ;;; Ret None
          end
      end
  | _ => Ret None
  end.
Definition mount_native_device (dev bnode canon_dev state_dir label : string) : io (cres string) :=
  m <- find_active_mount_for_dev bnode ;;
  match m with
  | Some (mnt, false, _) => ok mnt
  | _ =>
      when match m with Some (mnt, _, _) => negb (String.eqb mnt "") | None => false end
        (unmount_existing_os_mount fuel bnode) ;;;
      at_dir <- diskutil_mount_at bnode label ;;
      match at_dir with
      | Some mnt => remember state_dir "diskutil" 0 dev canon_dev mnt "" "" 1 ;;; ok mnt
      | None =>
          r <- rufux_capture fuel ["/usr/sbin/diskutil"; "mount"; bnode] 512 ;;
          m <- (if r.1 then find_active_mount_for_dev bnode else Ret None) ;;
          match m with
          | Some (mnt, _, _) => remember state_dir "diskutil" 0 dev canon_dev mnt "" "" 0 ;;; ok mnt
          | None => fail ("diskutil mount '" +:+ bnode +:+ "' failed: " +:+ r.2)
          end
      end
  end.
Definition mount_native_image (dev canon_dev state_dir label : string) : io (cres string) :=
  d <- make_unique_mount_dir label ;;
  match d with
  | None => fail ("failed to create mount directory for '" +:+ dev +:+ "'")
  | Some mnt_dir =>
      r <- rufux_capture fuel ["/usr/bin/hdiutil"; "attach"; "-imagekey"; "diskimage-class=CRawDiskImage";
                               "-readwrite"; "-mountpoint"; mnt_dir; canon_dev] 1024 ;;
      if negb r.1 then
        rmdir_with_retry mnt_dir ;;; fail ("hdiutil attach '" +:+ canon_dev +:+ "' failed: " +:+ r.2)
      else
        let attached := match strstr "/dev/disk" r.2 with
          | Some p => snprintf 128 (span (fun c => negb (isspace c)) p).1 | None => "" end in
        remember state_dir "hdiutil" 0 dev canon_dev mnt_dir attached "" 1 ;;; ok mnt_dir
  end.
(** the mount point *)
Definition rufux_mount (dev : string) (dry_run : bool) : io (cres string) :=
  let refusing := fail ("refusing to mount boot/system disk '" +:+ dev +:+ "'") in
  if String.eqb dev "" then fail "empty device/image path"
  else
    boot <- rufux_macos_is_boot_disk dev ;;
    if boot : bool then refusing
    else
      let bnode := rufux_macos_block_node dev PATH_MAX in
      boot <- rufux_macos_is_boot_disk bnode ;;
      if boot : bool then refusing
      else if dry_run then ok "/Volumes/rufux-dryrun"
      else
        t <-? mount_target dev bnode ;;
        let '(bnode, is_dev) := t in
        r <- realpath bnode ;;
        let canon_dev := default bnode r in
        sd <- resolve_state_dir ;;
        let '(state_dir, there) := sd in
        if negb there then fail ("failed to create mount state directory '" +:+ state_dir +:+ "'")
        else
          e <- check_existing state_dir canon_dev dev ;;
          match e with
          | Some res => Ret res
          | None =>
              o <- (if is_dev : bool then os_mount bnode else Ret (inr "")) ;;
              match o with
              | inl mnt => ok mnt
              | inr hint =>
                  p <- detect_fs_magic_and_label fuel canon_dev is_dev hint ;;
                  match p with
                  | None => fail ("failed to probe filesystem magic on '" +:+ canon_dev +:+ "'")
                  | Some (fstype, label) =>
                      if String.eqb fstype "ntfs" || String.eqb fstype "ext" then
                        mount_nfs_kind dev bnode canon_dev state_dir fstype label is_dev
                      else if is_dev then mount_native_device dev bnode canon_dev state_dir label
                      else mount_native_image dev canon_dev state_dir label
                  end
              end
          end.

(** * rufux_unmount *)
(** a helper that fails while the mount point stays in use: true, and what it said *)
Definition attempt (av : list string) (st : MountState) : io (bool * string) :=
  r <- rufux_capture fuel av 512 ;;
  stuck <- (if r.1 then Ret false else is_mountpoint_active (ms_mnt st) (ms_canon_mnt st)) ;;
  Ret (stuck, r.2).
Definition detach_nfs (st : MountState) : io (cres unit) :=
  let mnt := ms_mnt st in
  act <- is_mountpoint_active mnt (ms_canon_mnt st) ;;
  if negb act then ok tt
  else
    a <- attempt ["/sbin/umount"; mnt] st ;;
    if negb a.1 then ok tt
    else
      call (Usleep 100000) ;;;
      b <- attempt ["/usr/sbin/diskutil"; "unmount"; mnt] st ;;
      if negb b.1 then ok tt
      else
        c <- attempt ["/sbin/umount"; "-f"; mnt] st ;;
        if negb c.1 then ok tt
        else fail ("unmount '" +:+ mnt +:+ "' failed: " +:+ (if String.eqb c.2 "" then "mountpoint remains active" else c.2)).
(** the directory that was made for the mount, and the state file *)
Definition clean_up (st : MountState) : io (cres unit) :=
  when (negb (ms_created_dir st =? 0)) (rmdir_with_retry (ms_mnt st)) ;;;
  call (Unlink (state_file st)) ;;; ok tt.
Definition unmount_nfs (st : MountState) : io (cres unit) :=
  detach_nfs st ?;;
  act <- is_mountpoint_active (ms_mnt st) (ms_canon_mnt st) ;;
  if act : bool then fail ("unmount '" +:+ ms_mnt st +:+ "' failed: mountpoint remains active")
  else
    terminate_and_wait_pid (ms_pid st) 5000 ;;;
    alive <- pid_is_alive (ms_pid st) ;;
    if alive : bool then
      fail ("unmounted '" +:+ ms_mnt st +:+ "' from VFS, but unable to terminate rufux-mountd pid " +:+ dec (ms_pid st))
    else
      when (negb (String.eqb (ms_pidfile st) "")) (call (Unlink (ms_pidfile st)) ;;; Ret tt) ;;;
      clean_up st.
(** one helper, then a stronger one *)
Definition detach_by (what target : string) (av1 av2 : list string) (st : MountState) : io (cres unit) :=
  r <- rufux_capture fuel av1 512 ;;
  r <- (if r.1 then Ret r else rufux_capture fuel av2 512) ;;
  if r.1 then clean_up st else fail (what +:+ " '" +:+ target +:+ "' failed: " +:+ r.2).
Definition unmount_tracked (st : MountState) : io (cres unit) :=
  if String.eqb (ms_kind st) "nfs" then unmount_nfs st
  else if String.eqb (ms_kind st) "hdiutil" then
    let target := if String.eqb (ms_attached_disk st) "" then ms_mnt st else ms_attached_disk st in
    detach_by "hdiutil detach" target ["/usr/bin/hdiutil"; "detach"; target]
      ["/usr/bin/hdiutil"; "detach"; "-force"; target] st
  else
    let target := if String.eqb (ms_mnt st) "" then ms_canon_dev st else ms_mnt st in
    detach_by "diskutil unmount" target ["/usr/sbin/diskutil"; "unmount"; target]
      ["/usr/sbin/diskutil"; "unmount"; "force"; target] st.
Definition unmount_untracked (dev : string) : io (cres unit) :=
  let bnode := rufux_macos_block_node dev PATH_MAX in
  b <- parse_bsd_ident bnode ;;
  whole <- (if match b with Some b => is_whole_disk_bsd_ident b | None => false end
            then quiet fuel ["/usr/sbin/diskutil"; "unmountDisk"; bnode] else Ret false) ;;
  if whole : bool then ok tt
  else
    r <- rufux_capture fuel ["/usr/sbin/diskutil"; "unmount"; bnode] 512 ;;
    if r.1 then ok tt
    else
      r <- rufux_capture fuel ["/sbin/umount"; dev] 512 ;;
      if r.1 then ok tt else fail ("unmount '" +:+ dev +:+ "' failed: " +:+ r.2).
Definition rufux_unmount (dev : string) (dry_run : bool) : io (cres unit) :=
  if String.eqb dev "" then fail "empty device or mountpoint path"
  else
    boot <- (if String.eqb dev "/" then Ret true else rufux_macos_is_boot_disk dev) ;;
    if boot : bool then fail ("refusing to unmount boot/system disk '" +:+ dev +:+ "'")
    else if dry_run then ok tt
    else
      sd <- resolve_state_dir ;;
      st <- find_matching_state sd.1 dev ;;
      match st with
      | Some st => unmount_tracked st
      | None => unmount_untracked dev
      end.

(** * Whole disks *)
(** a state whose mount is there, and whose server runs *)
Definition state_active (st : MountState) (wbsd : string) : io bool :=
  hit <- any_belongs [ms_canon_dev st; ms_dev st; ms_attached_disk st] wbsd ;;
  if negb hit then Ret false
  else
    act <- is_mountpoint_active (ms_mnt st) (ms_canon_mnt st) ;;
    if negb act then Ret false
    else if String.eqb (ms_kind st) "nfs" then pid_is_alive (ms_pid st) else Ret true.
Definition rufux_mount_is_whole_disk_active (whole_sysname : string) : io bool :=
  b <- parse_bsd_ident whole_sysname ;;
  match b with
  | Some wbsd =>
      if negb (is_whole_disk_bsd_ident wbsd) then Ret false
      else
        sd <- resolve_state_dir ;;
        if negb sd.2 then Ret false
        else
          d <- call (Opendir sd.1) ;;
          r <- first_io (fun n =>
            st <- read_state sd.1 n ;;
            match st with
            | None => Ret None
            | Some st => a <- state_active st wbsd ;; Ret (if a : bool then Some tt else None)
            end) (default [] d) ;;
          Ret (bool_decide (is_Some r))
  | None => Ret false
  end.
(** the name up to the s of its first slice *)
Definition whole_target (disk : string) : io string :=
  let bnode := rufux_macos_block_node disk PATH_MAX in
  b <- parse_bsd_ident bnode ;;
  Ret (match b with
       | Some dbsd => snprintf PATH_MAX ("/dev/" +:+ stake 4 dbsd +:+ (span (fun c => negb (Ascii.eqb c "s")) (sdrop 4 dbsd)).1)
       | None => snprintf PATH_MAX bnode
       end).
Definition rufux_unmount_all_for_disk (disk : string) : io (cres unit) :=
  if String.eqb disk "" then ok tt
  else
    sd <- resolve_state_dir ;;
    if negb sd.2 then ok tt
    else
      t <- whole_target disk ;;
      r <- fold_io (fun _ _ =>
        st <- find_matching_state sd.1 t ;;
        match st with
        | None => Ret (inr (Ok tt))
        | Some st =>
            let u := if negb (String.eqb (ms_canon_dev st) "") then ms_canon_dev st
                     else if negb (String.eqb (ms_mnt st) "") then ms_mnt st else ms_dev st in
            rc <- rufux_unmount u false ;;
            Ret (match rc with Ok _ => inl tt | Fail e => inr (Fail e) end)
        end) (seq 0 32) tt ;;
      Ret (match r with inl _ => Ok tt | inr r => r end).
Definition rufux_macos_unmount_disk (disk : string) : io (cres unit) :=
  if String.eqb disk "" then fail "empty disk path"
  else
    boot <- rufux_macos_is_boot_disk disk ;;
    if boot : bool then fail ("refusing to unmount boot/system disk '" +:+ disk +:+ "'")
    else
      st <- call (Stat disk) ;;
      match st with
      | None => fail ("target '" +:+ disk +:+ "' does not exist")
      | Some _ =>
          if negb (is_device st) then fail ("refusing to unmount non-device '" +:+ disk +:+ "'")
          else
            let bnode := rufux_macos_block_node disk PATH_MAX in
            u <- rufux_unmount_all_for_disk bnode ;;
            match u with
            | Fail e => fail (if String.eqb e "" then "failed to unmount active rufux mount" else e)
            | Ok _ =>
                r <- rufux_capture fuel ["/usr/sbin/diskutil"; "unmountDisk"; "force"; bnode] 2048 ;;
                if r.1 then ok tt
                else
                  let out := chomp r.2 in
                  fail ("diskutil unmountDisk failed on '" +:+ bnode +:+ "': " +:+ (if String.eqb out "" then "unknown error" else out))
            end
      end.
End Volume.
