(* ===== verification/Macdevice.v ===== *)
(** Disks as the user sees them on macOS (src/macos/src/device.c): what the
    device registry says of a whole disk, whether it is mounted, the list of
    disks, and the guard of every operation that writes.

    A registry property that is a string is the answer of a call; a property in a
    dictionary too. A key is the name of its constant where the code uses one. The record and the printing are the Linux program's, whose
    text the port keeps (Device.v). *)
From stdpp Require Import sorting.
From S2P Require Import Prelude Cstr Double Sys Exec Device Macexec Macdisk Macmount Macstate Macvolume.

(** * Names *)
Definition is_valid_bsd_ident : string -> bool := is_valid_bsd_disk_ident.
Definition parse_bsd_from_path (path : string) : io (option string) :=
  if String.eqb path "" then Ret None
  else r <- realpath path ;; Ret (extract_bsd_from_str (default path r)).
Definition whole_disk_bsd : string -> string := whole_bsd_prefix.
Definition bsd_belongs_to_whole (bsd whole_sys : string) : bool :=
  starts_with whole_sys bsd &&
  match sdrop (String.length whole_sys) bsd with "" => true | String c _ => Ascii.eqb c "s" end.

(** * Properties *)
Definition sanitize_str (s : string) : string :=
  (span isspace (rstrip isspace (blank_unprintable s))).2.
(** a string from the registry, when something is left of it *)
Definition cf_to_cstr (s : option string) (cap : nat) : option string :=
  match s with
  | Some s => let t := sanitize_str s in if String.eqb t "" then None else Some (snprintf cap t)
  | None => None
  end.
Definition cf_prop_str (entry : Z) (key : string) (cap : nat) : io (option string) :=
  s <- call (IOString entry key) ;; Ret (cf_to_cstr s cap).
Definition cf_prop_u64 (entry : Z) (key : string) : io Z :=
  n <- call (IONumber entry key) ;; Ret (match n with Some v => if 0 <? v then v else 0 | None => 0 end).
(** [out], or what the property gives when [out] is empty *)
Definition or_prop (entry : Z) (key : string) (cap : nat) (out : string) : io string :=
  if String.eqb out "" then s <- cf_prop_str entry key cap ;; Ret (default "" s) else Ret out.
Definition cf_dict_get_str (entry : Z) (dict key : string) (cap : nat) (out : string) : io string :=
  if String.eqb out "" then s <- call (IODictString entry dict key) ;; Ret (default "" (cf_to_cstr s cap)) else Ret out.

(** * Walks up the registry

    The entries still to visit, all that were queued, the ids seen; at most
    [max] of each. *)
Record queue := Queue { q_todo : list Z; q_all : list Z; q_seen : list Z }.
Definition queue_start (start : Z) : io queue :=
  sid <- call (IOEntryId start) ;;
  Ret (Queue [start] [start] (if sid =? 0 then [] else [sid])).
Definition queue_parent (max : Z) (q : queue) (parent : Z) : io (queue + Empty_set) :=
  pid <- call (IOEntryId parent) ;;
  if negb (negb (pid =? 0) && existsb (Z.eqb pid) (q_seen q)) && (zlen (q_all q) <? max) then
    let seen := if negb (pid =? 0) && (zlen (q_seen q) <? max) then q_seen q ++ [pid] else q_seen q in
    Ret (inl (Queue (q_todo q ++ [parent]) (q_all q ++ [parent]) seen))
  else call (IORelease parent) ;;; Ret (inl q).
Definition queue_parents (max : Z) (q : queue) (cur : Z) : io queue :=
  parents <- call (IOParents cur) ;;
  match parents with
  | None => Ret q
  | Some ps => r <- fold_io (queue_parent max) ps q ;; match r with inl q => Ret q | inr e => match e with end end
  end.
(** [visit] at every entry, until it answers or nothing is left *)
Definition walk_up {S A} (max start : Z) (visit : S -> Z -> io (S + A)) (s : S) : io (S + A) :=
  q <- queue_start start ;;
  r <- loop (Datatypes.S (Z.to_nat max)) (fun '(q, s) =>
    match q_todo q with
    | [] => Ret (inr (q, inl s))
    | cur :: rest =>
        v <- visit s cur ;;
        match v with
        | inr a => Ret (inr (Queue rest (q_all q) (q_seen q), inr a))
        | inl s => q <- queue_parents max (Queue rest (q_all q) (q_seen q)) cur ;; Ret (inl (q, s))
        end
    end) (q, s) ;;
  release_all (q_all r.1) ;;; Ret r.2.

(** * What is mounted *)
Definition ANCESTORS_MAX : Z := 32.
Definition iokit_ancestors_touch_whole (bsd whole_sys : string) : io bool :=
  start <- call (IOService bsd) ;;
  match start with
  | None => Ret false
  | Some start =>
      r <- walk_up ANCESTORS_MAX start (fun (_ : unit) cur =>
        c <- cf_prop_str cur "kIOBSDNameKey" BSD_CAP ;;
        Ret (match c with
             | Some cbsd => if bsd_belongs_to_whole cbsd whole_sys then inr tt else inl tt
             | None => inl tt
             end)) tt ;;
      Ret (match r with inr _ => true | inl _ => false end)
  end.
Definition dev_is_mounted (whole_sysname : string) : io bool :=
  a <- rufux_mount_is_whole_disk_active whole_sysname ;;
  if a : bool then Ret true
  else
    mnts <- call Getmntinfo ;;
    r <- first_io (fun m =>
      b <- parse_bsd_from_path (f_mntfromname m) ;;
      match b with
      | None => Ret None
      | Some mbsd =>
          if bsd_belongs_to_whole mbsd whole_sysname then Ret (Some tt)
          else t <- iokit_ancestors_touch_whole mbsd whole_sysname ;; Ret (if t : bool then Some tt else None)
      end) mnts ;;
    Ret (bool_decide (is_Some r)).

(** * A whole disk *)
Record traits := Traits {
  is_apfs : bool; is_disk_image : bool; usb : bool; is_sd : bool; saw_nvme : bool; saw_virtio : bool;
  interconnect : string; location : string; t_vendor : string; t_model : string; t_serial : string }.
(** what the class of an entry tells *)
Definition class_traits (cls : option string) (t : traits) : traits :=
  match cls with
  | None => t
  | Some cls =>
      let '(Traits apfs img usb sd nvme virtio ic loc ven mod_ ser) := t in
      Traits (apfs || contains "APFS" cls || contains "CoreStorage" cls) (img || contains "DiskImage" cls || contains "HDIX" cls)
        (usb || contains "USB" cls) (sd || contains "SDXC" cls || contains "SDCard" cls) (nvme || contains "NVMe" cls)
        (virtio || contains "VirtIO" cls) ic loc ven mod_ ser
  end.
Definition usb_traits (entry : Z) (t : traits) : io traits :=
  a <- call (IOConforms entry "IOUSBHostDevice") ;;
  b <- (if a : bool then Ret true else call (IOConforms entry "IOUSBDevice")) ;;
  let '(Traits apfs img usb sd nvme virtio ic loc ven mod_ ser) := t in
  Ret (Traits apfs img (usb || b) sd nvme virtio ic loc ven mod_ ser).
Definition DEVICE_CHARS : string := "kIOPropertyDeviceCharacteristicsKey".
Definition PROTOCOL_CHARS : string := "kIOPropertyProtocolCharacteristicsKey".
Definition text_traits (cur : Z) (t : traits) : io traits :=
  let '(Traits apfs img usb sd nvme virtio ic loc ven mod_ ser) := t in
  ven <- cf_dict_get_str cur DEVICE_CHARS "kIOPropertyVendorNameKey" 128 ven ;;
  mod_ <- cf_dict_get_str cur DEVICE_CHARS "kIOPropertyProductNameKey" 128 mod_ ;;
  ser <- cf_dict_get_str cur DEVICE_CHARS "kIOPropertyProductSerialNumberKey" 128 ser ;;
  ser <- cf_dict_get_str cur DEVICE_CHARS "Serial Number" 128 ser ;;
  ic <- cf_dict_get_str cur PROTOCOL_CHARS "kIOPropertyPhysicalInterconnectTypeKey" 64 ic ;;
  loc <- cf_dict_get_str cur PROTOCOL_CHARS "kIOPropertyPhysicalInterconnectLocationKey" 64 loc ;;
  ic <- or_prop cur "kIOPropertyPhysicalInterconnectTypeKey" 64 ic ;;
  loc <- or_prop cur "kIOPropertyPhysicalInterconnectLocationKey" 64 loc ;;
  ven <- or_prop cur "USB Vendor Name" 128 ven ;;
  ven <- or_prop cur "kUSBVendorString" 128 ven ;;
  mod_ <- or_prop cur "USB Product Name" 128 mod_ ;;
  mod_ <- or_prop cur "kUSBProductString" 128 mod_ ;;
  ser <- or_prop cur "USB Serial Number" 128 ser ;;
  ser <- or_prop cur "kUSBSerialNumberString" 128 ser ;;
  Ret (Traits apfs img usb sd nvme virtio ic loc ven mod_ ser).
Definition visit_media (t : traits) (cur : Z) : io (traits + Empty_set) :=
  cls <- call (IOClass cur) ;;
  t <- usb_traits cur (class_traits cls t) ;;
  t <- text_traits cur t ;;
  Ret (inl t).
Definition MEDIA_MAX : Z := 48.
Definition media_traits (media : Z) (apfs : bool) : io traits :=
  call (IORetain media) ;;;
  r <- walk_up MEDIA_MAX media visit_media (Traits apfs false false false false false "" "" "" "" "") ;;
  match r with inl t => Ret t | inr e => match e with end end.
(** what the location and the interconnect add *)
Definition located_image (t : traits) : bool := is_disk_image t || strcaseeq (location t) "File".
Definition on_usb (t : traits) : bool := usb t || strcaseeq (interconnect t) "USB".
Definition on_sd (t : traits) : bool := is_sd t || strcaseeq (interconnect t) "Secure Digital".
Definition on_virtual (t : traits) : bool := strcaseeq (interconnect t) "Virtual Interface".
Definition transport_of (t : traits) : string :=
  let ic := strcaseeq (interconnect t) in
  if on_usb t then "usb" else if on_sd t then "mmc"
  else if ic "SATA" || ic "ATA" then "sata"
  else if saw_nvme t || ic "PCI-Express" || ic "NVM Express" || ic "Apple Fabric" then "nvme"
  else if saw_virtio t || on_virtual t then "virt" else "unknown".
(** the name of the media, without " Media" *)
Definition media_name (media : Z) : io string :=
  n <- call (IOName media) ;;
  Ret (match n with
       | Some (String c s) =>
           let m := sanitize_str (snprintf 128 (String c s)) in
           if (6 <? strlen m) && String.eqb (sdrop (String.length m - 6) m) " Media"
           then stake (String.length m - 6) m else m
       | _ => ""
       end).
(** the record, and whether the disk is one of software *)
Definition inspect_whole_iomedia (media : Z) : io (option (RufuxDevice * bool)) :=
  b <- cf_prop_str media "kIOBSDNameKey" BSD_CAP ;;
  match b with
  | None => Ret None
  | Some sys =>
      if negb (is_valid_bsd_ident sys) then Ret None
      else
        let node := snprintf 128 ("/dev/" +:+ sys) in
        rem <- call (IOBool media "kIOMediaRemovableKey") ;;
        ej <- call (IOBool media "kIOMediaEjectableKey") ;;
        size <- cf_prop_u64 media "kIOMediaSizeKey" ;;
        a <- call (IOConforms media "AppleAPFSMedia") ;;
        a <- (if a : bool then Ret true else call (IOConforms media "CoreStorageLogical")) ;;
        t <- media_traits media a ;;
        model <- (if String.eqb (t_model t) "" then media_name media else Ret (t_model t)) ;;
        let external := strcaseeq (location t) "External" in
        size <- (if size =? 0 then rufux_macos_dev_bytes node else Ret size) ;;
        mounted <- dev_is_mounted sys ;;
        Ret (Some ({| sysname := sys; devnode := node; vendor := t_vendor t; model := model; serial := t_serial t;
                      transport := transport_of t; size_bytes := size;
                      removable := rem || ej || (external && (on_usb t || on_sd t));
                      is_usb := on_usb t; mounted := mounted |},
                   is_apfs t || ((located_image t || (on_virtual t && negb (saw_virtio t))) && negb (on_usb t))))
  end.

(** * The list *)
(** by the number of the disk, then by name, in the order of strcmp *)
Fixpoint name_le (a b : string) : bool :=
  match a, b with
  | "", _ => true
  | _, "" => false
  | String x s, String y t => if code x =? code y then name_le s t else code x <? code y
  end.
Definition cmp_dev_unit (a b : RufuxDevice) : bool :=
  let ua := strtoul10 (sdrop 4 (sysname a)) in let ub := strtoul10 (sdrop 4 (sysname b)) in
  if ua =? ub then name_le (sysname a) (sysname b) else ua <? ub.
Definition unit_le (a b : RufuxDevice) : Prop := cmp_dev_unit a b = true.
#[export] Instance unit_le_dec a b : Decision (unit_le a b).
Proof. unfold unit_le. apply _. Defined.
(** what is listed of an entry *)
Definition candidate (media : Z) (include_fixed : bool) : io (option RufuxDevice) :=
  i <- inspect_whole_iomedia media ;;
  match i with
  | None => Ret None
  | Some (cand, skip) =>
      if skip || negb (0 <? size_bytes cand) then Ret None
      else
        boot <- rufux_macos_is_boot_disk (devnode cand) ;;
        Ret (if negb boot && (removable cand || include_fixed) then Some cand else None)
  end.
(** [None]: -1 *)
Definition rufux_list_devices (max : Z) (include_fixed : bool) : io (option (list RufuxDevice)) :=
  if max <=? 0 then Ret (Some [])
  else
    l <- call IOWholeMedia ;;
    match l with
    | None => Ret None
    | Some media =>
        r <- fold_io (fun out m =>
          c <- (if zlen out <? max then candidate m include_fixed else Ret None) ;;
          call (IORelease m) ;;;
          Ret (@inl _ Empty_set (match c with Some d => out ++ [d] | None => out end))) media [] ;;
        Ret (match r with inl out => Some (merge_sort unit_le out) | inr e => match e with end end)
    end.

(** * The guard *)
Definition rufux_check_target (path : string) (allow_fixed allow_file : bool) : io (cres unit) :=
  let refusing := fail ("refusing boot/system disk '" +:+ path +:+ "'") in
  let unmapped := fail ("cannot map '" +:+ path +:+ "' to a disk") in
  if String.eqb path "" then fail "empty target path"
  else
    boot <- rufux_macos_is_boot_disk path ;;
    if boot : bool then refusing
    else
      st <- call (Stat path) ;;
      match st with
      | None => fail ("target '" +:+ path +:+ "' does not exist")
      | Some _ =>
          if is_kind KReg st then
            if allow_file then ok tt
            else fail ("target '" +:+ path +:+ "' is a regular file (need --allow-file for tests)")
          else if negb (is_device st) then fail ("target '" +:+ path +:+ "' is not a block device or file")
          else
            b <- parse_bsd_from_path path ;;
            match b with
            | None => unmapped
            | Some bsd =>
                let whole := whole_disk_bsd bsd in
                if String.eqb whole "" then unmapped
                else
                  boot <- rufux_macos_is_boot_disk whole ;;
                  if boot : bool then refusing
                  else
                    m <- call (IOService whole) ;;
                    match m with
                    | None => unmapped
                    | Some media =>
                        i <- inspect_whole_iomedia media ;;
                        call (IORelease media) ;;;
                        match i with
                        | None => fail ("cannot inspect disk '" +:+ whole +:+ "'")
                        | Some (info, _) =>
                            if negb (removable info) && negb allow_fixed
                            then fail ("refusing fixed disk '" +:+ path +:+ "' without --allow-fixed")
                            else
                              sz <- rufux_macos_dev_bytes path ;;
                              if (if sz =? 0 then size_bytes info else sz) =? 0 then
                                fail ("'" +:+ path +:+ "' reports a capacity of 0 bytes: an empty card-reader slot, or a drive the "
                                      +:+ "kernel cannot read. Replug it or choose another entry.")
                              else ok tt
                        end
                    end
            end
      end.
