(* ===== verification/Macboot.v ===== *)
(** Boot code of the master boot record on macOS (src/macos/src/boot.c): where
    the 440 bytes come from, and writing them without the partition table.

    The built-in code is the data of src/src/ms-sys/inc. *)
From S2P Require Import Prelude Cstr Contents Sys Exec Host Dosboot Macexec Macdisk Macmount Macstate Macvolume Macdevice.

(** * Built-in code *)
Definition mbr_syslinux_0x0 : list byte := of_hex "33c0fa8ed88ed0bc007c89e606578ec0fbfcbf0006b90001f3a5ea1f0600005252b441bbaa5531c930f6f9cd13721381fb55
   aa750dd1e9730966c7068d06b442eb155ab408cd1383e13f510fb6c640f7e152506631c06699e86600e835014d697373696e
   67206f7065726174696e672073797374656d2e0d0a66606631d2bb007c6652665006536a016a1089e666f736f47bc0e40688
   e188c592f636f87b88c608e141b801028a16fa7bcd138d64106661c3e8c4ffbebe7dbfbe07b92000f3a5c3666089e5bbbe07
   b9040031c05351f6078074034089de83c310e2f348745b7939595b8a47043c0f7406247f3c057522668b4708668b56146601
   d06621d275036689c2e8acff7203e8b6ff668b461ce8a0ff83c310e2cc6661c3e876004d756c7469706c6520616374697665
   20706172746974696f6e732e0d0a668b44086603461c66894408e830ff722766813e007c5846534275096683c004e81cff72
   13813efe7d55aa0f85f2febcfa7b5a5f07faffe4e81e004f7065726174696e672073797374656d206c6f6164206572726f72
   2e0d0a5eacb40e8a3e6204b307cd103c0a75f1cd18f4ebfd00000000000000000000000000000000".
Definition mbr_gpt_syslinux_0x0 : list byte := of_hex "33c0fa8ed88ed0bc007c89e606578ec0fbfcbf0006b90001f3a5ea1f0600005289e583ec1c6a1ec746fa000252b441bbaa55
   31c930f6f9cd135ab408721781fb55aa7511d1e9730d66c7065907b442eb13b44889e6cd1383e13f510fb6c640f7e1525066
   31c0669940e8dc008b4e568b465a5051f7e1f776fa9141668b464e668b565253e8c400e2fb31f65f5958668b15660b550466
   0b5508660b550c740cf6453004740621f6751989fe01c7e2df21f6752ee8e1004d697373696e67204f530d0ae8d2004d756c
   7469706c652061637469766520706172746974696f6e730d0a91bfbe07576631c0b08066abb0ed66ab668b4420668b5424e8
   4000668b4428668b542c662b4420661b5424e87000e82a00660fb7c166abf3a45e668b4434668b5438e82200813efe7d55aa
   758589ec5a5f0766b821475054faffe46621d274046683c8ff66abc3bb007c66606652665006536a016a1089e666f776dcc0
   e40688e188c592f676e088c608e141b801028a5600cd138d64106661720c027efb6683c0016683d200c3e80c004469736b20
   6572726f720d0a5eacb40e8a3e6204b307cd103c0a75f1cd18f4ebfd000000000000000000000000".

(** * Where the code comes from *)
Definition is_valid_mbr_bin (p : string) : io bool :=
  if String.eqb p "" then Ret false
  else
    st <- call (Stat p) ;;
    match st with
    | Some s => if is_kind KReg st && (440 <=? st_size s) then call (Access p R_OK) else Ret false
    | None => Ret false
    end.
Definition RELS : list string :=
  ["../Resources/share/rufux/syslinux"; "../../Resources/share/rufux/syslinux"; "../share/rufux/syslinux";
   "../Resources/share/syslinux"; "../share/syslinux"].
Definition SYSDIRS : list string :=
  ["/opt/homebrew/share/syslinux"; "/usr/local/share/syslinux"; "/usr/share/syslinux/bios"; "/usr/share/syslinux";
   "/usr/lib/syslinux/bios"; "/usr/lib/syslinux/mbr"; "/usr/lib/syslinux"].
Definition find_external_mbr_file (kind : string) : io (option string) :=
  let base := if String.eqb kind "gpt" then "gptmbr.bin" else "mbr.bin" in
  let there cand :=
    let cand := snprintf (2 * PATH_MAX) cand in
    v <- is_valid_mbr_bin cand ;; Ret (if v : bool then Some (snprintf PATH_MAX cand) else None) in
  res <- call (Getenv "RUFUX_RES") ;;
  r <- match res with
       | Some (String c s) => there (String c s +:+ "/syslinux/" +:+ base)
       | _ => Ret None
       end ;;
  match r with
  | Some p => Ret (Some p)
  | None =>
      ed <- rufux_macos_exe_dir ;;
      r <- (if String.eqb ed "" then Ret None else first_io (fun rel => there (ed +:+ "/" +:+ rel +:+ "/" +:+ base)) RELS) ;;
      match r with
      | Some p => Ret (Some p)
      | None => first_io (fun dir => there (dir +:+ "/" +:+ base)) SYSDIRS
      end
  end.
(** the code that is compiled in, filled up with zeros *)
Definition builtin440 (kind : string) : list byte :=
  let a := ztake 440 (if String.eqb kind "gpt" then mbr_gpt_syslinux_0x0 else mbr_syslinux_0x0) in
  a ++ replicate (440 - length a) Byte.x00.

Section Boot.
Variable fuel : nat.
(** 440 bytes, and where they are from; [kind] may be absent *)
Definition rufux_boot_load_mbr440 (kind : string) : io (list byte * string) :=
  let builtin := (builtin440 kind, if String.eqb kind "gpt" then "builtin:gptmbr.bin" else "builtin:mbr.bin") in
  p <- find_external_mbr_file kind ;;
  match p with
  | None => Ret builtin
  | Some ext_path =>
      fd <- call (Open ext_path O_RDONLY) ;;
      match fd with
      | inl _ => Ret builtin
      | inr fd =>
          got <- rufux_read_full fuel fd 440 ;;
          call (Close fd) ;;;
          match got with
          | inr l => if zlen l =? 440 then Ret (l, ext_path) else Ret builtin
          | inl _ => Ret builtin
          end
      end
  end.

(** * Reading and writing sectors *)
(** all of it, or [None] *)
Definition pread_exact (fd len off : Z) : io (option (list byte)) :=
  loop fuel (fun got =>
    if zlen got <? len then
      r <- call (Pread fd (len - zlen got) (off + zlen got)) ;;
      match r with
      | inl EINTR => Ret (inl got)
      | inl _ | inr [] => Ret (inr None)
      | inr l => Ret (inl (got ++ l))
      end
    else Ret (inr (Some got))) [].
(** the boot code written to an open target *)
Definition put_code (fd : Z) (bnode : string) (is_dev : bool) (code : list byte) : io (cres unit) :=
  let failed what := e <- call Errno ;; fail (what +:+ bnode +:+ "': " +:+ strerror e) in
  if is_dev then
    s <- rufux_macos_sector_size bnode ;;
    let sec_sz := if (s <? 512) || (4096 <? s) then 512 else s in
    sec <- pread_exact fd sec_sz 0 ;;
    match sec with
    | None => failed "cannot read MBR sector from '"
    | Some sec =>
        w <- rufux_pwrite_all fuel fd (splice 0 code sec) 0 ;;
        match w with Ok _ => ok tt | Fail _ => failed "MBR write failed on '" end
    end
  else
    w <- rufux_pwrite_all fuel fd code 0 ;;
    match w with Ok _ => ok tt | Fail _ => failed "MBR write failed on '" end.
(** opened for writing; a busy disk is unmounted first *)
Definition open_for_code (bnode : string) (is_dev : bool) : io (cres Z) :=
  let cannot e := fail ("cannot open '" +:+ bnode +:+ "': " +:+ strerror e) in
  fd <- call (Open bnode O_RDWR) ;;
  match fd with
  | inr fd => ok fd
  | inl e =>
      if bool_decide (e = EBUSY) && is_dev then
        rufux_macos_unmount_disk fuel bnode ?;;
        fd <- call (Open bnode O_RDWR) ;;
        match fd with inr fd => ok fd | inl e => cannot e end
      else cannot e
  end.
Definition rufux_install_mbr (dst : string) (o : RufuxBootOpts) : io (cres unit) :=
  let kind := bt_kind o in
  if String.eqb dst "" then fail "invalid MBR install arguments"
  else if negb (String.eqb kind "") && negb (String.eqb kind "bios") && negb (String.eqb kind "gpt") then
    fail ("unknown MBR kind '" +:+ kind +:+ "' (expected bios|gpt)")
  else if negb (bt_dry_run o) && negb (bt_yes o) then fail "refusing real MBR write without --yes"
  else
    rufux_check_target dst (bt_allow_fixed o) (bt_allow_file o) ?;;
    c <- rufux_boot_load_mbr440 kind ;;
    let '(code, src_desc) := c in
    if bt_dry_run o then
      call (Stderr ("+ dd MBR " +:+ src_desc +:+ " -> " +:+ dst +:+ " (first 440 bytes, table preserved)" +:+ LF)) ;;; ok tt
    else
      let bnode := rufux_macos_block_node dst PATH_MAX in
      st <- call (Stat bnode) ;;
      match st with
      | None => e <- call Errno ;; fail ("cannot stat '" +:+ bnode +:+ "': " +:+ strerror e)
      | Some _ =>
          fd <-? open_for_code bnode (is_device st) ;;
          rc <- put_code fd bnode (is_device st) code ;;
          rc <- match rc with
                | Ok _ =>
                    s <- call (Fsync fd) ;;
                    match s with Some e => fail ("fsync failed on '" +:+ bnode +:+ "': " +:+ strerror e) | None => ok tt end
                | Fail m => fail m
                end ;;
          call (Close fd) ;;;
          Ret rc
      end.
End Boot.
Definition rufux_install_syslinux (part_dev : string) (dry : bool) : io (cres unit) :=
  h <- rufux_have "syslinux" ;;
  if negb h then fail "syslinux missing"
  else
    r <- rufux_run ["syslinux"; "--install"; part_dev] dry ;;
    if r || dry then ok tt else fail ("syslinux --install failed on '" +:+ part_dev +:+ "'").
