(* ===== verification/Macpartition.v ===== *)
(** Partitioning on macOS (src/macos/src/partition.c): the layouts, the MBR and
    GPT tables byte by byte, writing them, and finding a slice in them again.

    A buffer is a list of bytes, a store into it is [splice]. Options are the
    Linux program's record (Partition.v). Memory is there when asked for. *)
From S2P Require Import Prelude Cstr Contents Sys Exec Device Host Partition Macexec Macdisk Macmount Macstate Macvolume Macdevice Macboot.

Definition GUID_MS_BASIC_DATA : list byte :=
  map b8 [0xA2; 0xA0; 0xD0; 0xEB; 0xE5; 0xB9; 0x33; 0x44; 0x87; 0xC0; 0x68; 0xB6; 0xB7; 0x26; 0x99; 0xC7].
Definition GUID_LINUX_FS : list byte :=
  map b8 [0xAF; 0x3D; 0xC6; 0x0F; 0x83; 0x84; 0x72; 0x47; 0x8E; 0x79; 0x3D; 0x69; 0xD8; 0x47; 0x7D; 0xE4].
Definition GUID_ESP : list byte :=
  map b8 [0x28; 0x73; 0x2A; 0xC1; 0x1F; 0xF8; 0xD2; 0x11; 0xBA; 0x4B; 0x00; 0xA0; 0xC9; 0x3E; 0xC9; 0x3B].
Definition GUID_BIOS_BOOT : list byte :=
  map b8 [0x48; 0x61; 0x68; 0x21; 0x49; 0x64; 0x6F; 0x6E; 0x74; 0x4E; 0x65; 0x65; 0x64; 0x45; 0x46; 0x49].

(** an offset, in the kernel's signed type *)
Definition to_off (z : Z) : Z := (z + 2 ^ 63) mod 2 ^ 64 - 2 ^ 63.

(** * Bytes *)
Definition zeros (n : Z) : list byte := replicate (Z.to_nat n) Byte.x00.
Definition put_le32 (off v : Z) (p : list byte) : list byte := splice off (to_le 4 v) p.
Definition put_le64 (off v : Z) (p : list byte) : list byte := splice off (to_le 8 v) p.
Definition put8 (off v : Z) (p : list byte) : list byte := splice off [b8 v] p.
Definition get8 (p : list byte) (off : Z) : Z := le (slice off 1 p).
Definition get_le32 (p : list byte) (off : Z) : Z := le (slice off 4 p).
Definition get_le64 (p : list byte) (off : Z) : Z := le (slice off 8 p).
Definition crc_bit (crc : Z) : Z := Z.lxor (Z.shiftr crc 1) (if Z.testbit crc 0 then 0xEDB88320 else 0).
Definition crc_byte (crc : Z) (b : byte) : Z := Nat.iter 8 crc_bit (Z.lxor crc (u8 b)).
Definition crc32_ieee (data : list byte) : Z := Z.lxor (fold_left crc_byte data 0xFFFFFFFF) 0xFFFFFFFF.
Definition gen_random_guid_v4 : io (list byte) :=
  guid <- call (RandBytes 16) ;;
  let guid := put8 7 (Z.lor (Z.land (get8 guid 7) 0x0F) 0x40) guid in
  Ret (put8 8 (Z.lor (Z.land (get8 guid 8) 0x3F) 0x80) guid).
(** 72 bytes *)
Definition encode_utf16le_name (name : string) : list byte :=
  let l := flat_map (fun b => [b; Byte.x00]) (bytes_of_string (stake 35 name)) in l ++ zeros (72 - zlen l).
Definition encode_chs (lba : Z) : list byte :=
  if 1024 * 255 * 63 - 1 <? lba then map b8 [0xFE; 0xFF; 0xFF]
  else
    let sec := lba mod 63 + 1 in
    let tmp := lba / 63 in
    let head := tmp mod 255 in
    let cyl := tmp / 255 in
    map b8 [head; Z.lor (Z.land sec 0x3F) (Z.land (Z.shiftr cyl 2) 0xC0); Z.land cyl 0xFF].

(** * Layouts *)
Record PartSpec := Part {
  first_lba : Z; last_lba : Z; mbr_status : Z; mbr_type : Z; gpt_type : list byte; gpt_attrs : Z; gpt_name : string }.
(** the type byte of the data partition *)
Definition mbr_type_of (fs : option string) : Z :=
  match fs with
  | None => 0x0C
  | Some fs =>
      let fseq := String.eqb fs in
      if fseq "fat16" then 0x0E
      else if fseq "ntfs" || fseq "exfat" || fseq "udf" then 0x07
      else if fseq "ext4" || fseq "ext3" || fseq "ext2" then 0x83 else 0x0C
  end.
(** the size of a target, as the code has it in its locals *)
Record geometry := Geometry { sec_sz : Z; total_lbas : Z; g_mib : Z }.
Section Layout.
Variables (g : geometry) (is_gpt bios_part : bool) (mt : Z).
Definition spm : Z := 1048576 / sec_sz g.
Definition entry_sectors : Z := 16384 / sec_sz g.
Definition disk_last : Z := total_lbas g - 1.
Definition first_usable_lba : Z := 2 + entry_sectors.
Definition last_usable_lba : Z := disk_last - entry_sectors - 1.
Definition bios_at (first : Z) : PartSpec := Part first (first + spm - 1) 0 0 GUID_BIOS_BOOT 0 "BIOS boot".
(** the end of a partition that takes the rest of the disk: an MBR entry counts
    at most 0xFFFFFFFF sectors *)
Definition end_lba (first : Z) : Z :=
  let e := if is_gpt then last_usable_lba else disk_last in
  if negb is_gpt && (0xFFFFFFFF <? e - first + 1) then first + 0xFFFFFFFF - 1 else e.
Definition layout_uefintfs : list PartSpec :=
  let main_mib := g_mib g - 3 - (if bios_part then 1 else 0) in
  let last0 := spm + main_mib * spm - 1 in
  let first1 := last0 + 1 in
  let last1 := first1 + spm - 1 in
  [Part spm last0 0x80 mt GUID_MS_BASIC_DATA 0 "Windows";
   Part first1 last1 0x00 0xEF GUID_MS_BASIC_DATA 0x8000000000000000 "UEFI:NTFS"] ++
  (if bios_part then [bios_at (last1 + 1)] else []).
Definition layout_single : list PartSpec :=
  let gtype := if mt =? 0x83 then GUID_LINUX_FS else GUID_MS_BASIC_DATA in
  if negb bios_part then [Part spm (end_lba spm) 0x80 mt gtype 0 ""]
  else
    let last0 := spm + (g_mib g - 3) * spm - 1 in
    [Part spm last0 0 0 gtype 0 ""; bios_at (last0 + 1)].
Definition layout_esp : list PartSpec :=
  let last0 := spm + 512 * spm - 1 in
  let p2_first := last0 + 1 in
  Part spm last0 0x00 0xEF GUID_ESP 0 "" ::
  (if negb bios_part then [Part p2_first (end_lba p2_first) 0x80 mt GUID_MS_BASIC_DATA 0 ""]
   else
     let last1 := p2_first + (g_mib g - 515) * spm - 1 in
     [Part p2_first last1 0 0 GUID_MS_BASIC_DATA 0 ""; bios_at (last1 + 1)]).
Definition make_layout (layout : string) : list PartSpec :=
  if String.eqb layout "main+uefintfs" then layout_uefintfs
  else if String.eqb layout "single" then layout_single else layout_esp.
(** what is wrong with partition [i] *)
Definition check_part (dst : string) (i : Z) (p : PartSpec) : option string :=
  if last_lba p <? first_lba p then Some ("computed invalid partition " +:+ dec i +:+ " range on '" +:+ dst +:+ "'")
  else if is_gpt then
    if (first_lba p <? first_usable_lba) || (last_usable_lba <? last_lba p)
    then Some ("partition " +:+ dec i +:+ " exceeds usable GPT bounds on '" +:+ dst +:+ "'") else None
  else
    let cnt := last_lba p - first_lba p + 1 in
    if (0xFFFFFFFF <? first_lba p) || (0xFFFFFFFF <? cnt)
    then Some ("target '" +:+ dst +:+ "' exceeds 2 TiB MBR LBA limit; use --scheme gpt") else None.
Fixpoint check_parts (dst : string) (i : Z) (l : list PartSpec) : option string :=
  match l with
  | [] => None
  | p :: l => match check_part dst i p with Some m => Some m | None => check_parts dst (i + 1) l end
  end.
End Layout.

(** * Tables *)
(** a primary entry of an MBR *)
Definition mbr_entry (status type first last cnt : Z) : list byte :=
  b8 status :: encode_chs first ++ b8 type :: encode_chs last ++ to_le 4 first ++ to_le 4 cnt.
(** the entries of the partitions from [off] on *)
Fixpoint put_entries (off : Z) (l : list PartSpec) (sec0 : list byte) : list byte :=
  match l with
  | [] => sec0
  | p :: l =>
      put_entries (off + 16) l
        (splice off (mbr_entry (mbr_status p) (mbr_type p) (first_lba p) (last_lba p) (last_lba p - first_lba p + 1)) sec0)
  end.
(** the first sector, in a buffer of 4096 bytes *)
Definition make_sec0 (g : geometry) (is_gpt : bool) (parts : list PartSpec) (code : list byte) (rnd : Z) : list byte :=
  let sec0 := splice 0 code (zeros 4096) in
  let sec0 := put_le32 440 (if rnd =? 0 then 0x52554658 else rnd) sec0 in
  let prot_cnt := Z.min (total_lbas g - 1) 0xFFFFFFFF in
  let sec0 :=
    if is_gpt then splice 446 (mbr_entry 0 0xEE 1 prot_cnt prot_cnt) sec0 else put_entries 446 parts sec0 in
  put8 511 0xAA (put8 510 0x55 sec0).
(** an entry of the GPT, 128 bytes *)
Definition gpt_entry (p : PartSpec) (guid : list byte) : list byte :=
  gpt_type p ++ guid ++ to_le 8 (first_lba p) ++ to_le 8 (last_lba p) ++ to_le 8 (gpt_attrs p) ++ encode_utf16le_name (gpt_name p).
(** the table: 128 entries, a random identity for each that is used *)
Fixpoint fill_entries (off : Z) (l : list PartSpec) (entries : list byte) : io (list byte) :=
  match l with
  | [] => Ret entries
  | p :: l => guid <- gen_random_guid_v4 ;; fill_entries (off + 128) l (splice off (gpt_entry p guid) entries)
  end.
Definition make_entries (parts : list PartSpec) : io (list byte) := fill_entries 0 parts (zeros (128 * 128)).
Definition EFI_PART : list byte := bytes_of_string "EFI PART".
(** a header: at [my], the other one at [other], its table at [ents]; the field
    of its own checksum is filled last *)
Definition make_header (g : geometry) (my other ents crc : Z) (disk_guid : list byte) : list byte :=
  let h := splice 0 EFI_PART (zeros 4096) in
  let h := put_le32 20 0 (put_le32 16 0 (put_le32 12 92 (put_le32 8 0x00010000 h))) in
  let h := put_le64 32 other (put_le64 24 my h) in
  let h := put_le64 48 (last_usable_lba g) (put_le64 40 (first_usable_lba g) h) in
  let h := put_le64 72 ents (splice 56 disk_guid h) in
  let h := put_le32 88 crc (put_le32 84 128 (put_le32 80 128 h)) in
  put_le32 16 (crc32_ieee (ztake 92 h)) h.

Section Partition.
Variable fuel : nat.
(** ** Writing *)
Definition zero_range (fd off len : Z) : io (cres unit) :=
  loop fuel (fun '(off, len) =>
    if 0 <? len then
      let chunk := Z.min len 1048576 in
      w <- rufux_pwrite_all fuel fd (zeros chunk) off ;;
      match w with Ok _ => Ret (inl (off + chunk, len - chunk)) | Fail m => Ret (inr (Fail m)) end
    else Ret (inr (Ok tt))) (off, len).
Definition with_errno (what bnode : string) (r : cres unit) : io (cres unit) :=
  match r with
  | Ok _ => ok tt
  | Fail _ => e <- call Errno ;; fail (what +:+ " '" +:+ bnode +:+ "': " +:+ strerror e)
  end.
Definition wipe_tables (fd : Z) (bnode : string) (g : geometry) : io (cres unit) :=
  let sec := sec_sz g in
  r <- zero_range fd 0 (Z.min 34 (total_lbas g) * sec) ;;
  with_errno "failed wiping primary table on" bnode r ?;;
  if 34 <? total_lbas g then
    r <- zero_range fd ((disk_last g - 33) * sec) (34 * sec) ;;
    with_errno "failed wiping backup table on" bnode r
  else ok tt.
(** the first and the last MiB of a partition *)
Definition wipe_part (fd : Z) (bnode : string) (g : geometry) (i : Z) (p : PartSpec) : io (cres unit) :=
  let zcap := 1048576 in
  let poff := first_lba p * sec_sz g in
  let plen := (last_lba p - first_lba p + 1) * sec_sz g in
  if plen <=? 2 * zcap then
    r <- zero_range fd poff plen ;;
    match r with Ok _ => ok tt | Fail _ => fail ("failed wiping partition " +:+ dec i +:+ " on '" +:+ bnode +:+ "'") end
  else
    r <- (zero_range fd poff zcap ?;; zero_range fd (poff + plen - zcap) zcap) ;;
    match r with Ok _ => ok tt | Fail _ => fail ("failed wiping partition " +:+ dec i +:+ " edges on '" +:+ bnode +:+ "'") end.
Fixpoint wipe_parts (fd : Z) (bnode : string) (g : geometry) (i : Z) (l : list PartSpec) : io (cres unit) :=
  match l with
  | [] => ok tt
  | p :: l => wipe_part fd bnode g i p ?;; wipe_parts fd bnode g (i + 1) l
  end.
Definition write_gpt (fd : Z) (bnode : string) (g : geometry) (parts : list PartSpec) : io (cres unit) :=
  entries <- make_entries parts ;;
  let entries_crc := crc32_ieee entries in
  disk_guid <- gen_random_guid_v4 ;;
  let sec := sec_sz g in
  let last := disk_last g in
  let backup := last - entry_sectors g in
  let phdr := make_header g 1 last 2 entries_crc disk_guid in
  let bhdr := make_header g last 1 backup entries_crc disk_guid in
  r <- (rufux_pwrite_all fuel fd (ztake sec phdr) (1 * sec) ?;;
        rufux_pwrite_all fuel fd entries (2 * sec) ?;;
        rufux_pwrite_all fuel fd entries (backup * sec) ?;;
        rufux_pwrite_all fuel fd (ztake sec bhdr) (last * sec)) ;;
  with_errno "failed writing GPT tables to" bnode r.
(** everything between opening the disk and closing it *)
Definition write_disk (fd : Z) (bnode : string) (g : geometry) (is_gpt : bool) (parts : list PartSpec) : io (cres unit) :=
  wipe_tables fd bnode g ?;;
  wipe_parts fd bnode g 1 parts ?;;
  c <- rufux_boot_load_mbr440 fuel (if is_gpt then "gpt" else "bios") ;;
  rnd <- call Arc4random ;;
  r <- rufux_pwrite_all fuel fd (ztake (sec_sz g) (make_sec0 g is_gpt parts c.1 rnd)) 0 ;;
  with_errno "failed writing MBR to" bnode r ?;;
  (if is_gpt then write_gpt fd bnode g parts else ok tt) ?;;
  s <- call (Fsync fd) ;;
  match s with Some e => fail ("fsync failed on '" +:+ bnode +:+ "': " +:+ strerror e) | None => ok tt end.

(** ** Waiting for the slices *)
(** a whole disk's node *)
Definition is_disk_node (bnode : string) : bool :=
  starts_with "/dev/disk" bnode && digit_at (sdrop 9 bnode) && sall is_digit (sdrop 9 bnode).
(** the slices from [i] on are there, of the right size *)
Fixpoint slices_there (bnode : string) (sec i : Z) (l : list PartSpec) : io bool :=
  match l with
  | [] => Ret true
  | p :: l =>
      let snode := rufux_macos_part_slice bnode i PATH_MAX in
      a <- call (Access snode F_OK) ;;
      if negb a then Ret false
      else
        b <- rufux_macos_dev_bytes snode ;;
        if negb (b =? ((last_lba p - first_lba p + 1) * sec) mod 2 ^ 64) then Ret false
        else slices_there bnode sec (i + 1) l
  end.
(** none of the slices [l] is there *)
Fixpoint slices_gone (bnode : string) (l : list Z) : io bool :=
  match l with
  | [] => Ret true
  | i :: l => a <- call (Access (rufux_macos_part_slice bnode i PATH_MAX) F_OK) ;; if a : bool then Ret false else slices_gone bnode l
  end.
Definition settle_turn (bnode : string) (parts : list PartSpec) (sec : Z) (_ : unit) (_ : nat) : io (unit + unit) :=
  ready <- slices_there bnode sec 1 parts ;;
  ready <- (if ready : bool then slices_gone bnode (map Z.of_nat (seq (length parts + 1) (4 - length parts))) else Ret false) ;;
  if ready : bool then Ret (inr tt) else call (Usleep 20000) ;;; Ret (inl tt).
Definition settle_macos_slices (bnode : string) (parts : list PartSpec) (sec : Z) : io unit :=
  if is_disk_node bnode then fold_io (settle_turn bnode parts sec) (seq 0 250) tt ;;; Ret tt else Ret tt.

(** ** The command *)
Definition scheme_of (s : string) : string := if String.eqb s "mbr" then "dos" else s.
(** the size in sectors and MiB, and in bytes, when the checks before the dry run
    are content *)
Definition size_up (dst : string) (o : RufuxPartOpts) (bios_part : bool) : io (cres (geometry * Z)) :=
  total_bytes <- rufux_macos_dev_bytes dst ;;
  let mib := Z.shiftr total_bytes 20 in
  sec <- rufux_macos_sector_size dst ;;
  let reports := "target '" +:+ dst +:+ "' reports " +:+ dec mib +:+ " MiB; " in
  if (sec <? 512) || (4096 <? sec) || negb (Z.land sec (sec - 1) =? 0) || negb (1048576 mod sec =? 0) then
    fail ("unsupported logical sector size " +:+ dec sec +:+ " on '" +:+ dst +:+ "'")
  else if String.eqb (po_layout o) "main+uefintfs" && (mib <? 64) then
    fail (reports +:+ "the Windows layout needs at least 64 MiB (an empty card-reader slot reports 0)")
  else if String.eqb (po_layout o) "single" && bios_part && (mib <? 64) then
    fail (reports +:+ "a GPT layout with a BIOS boot partition needs at least 64 MiB (an empty card-reader slot reports 0)")
  else ok (Geometry sec (total_bytes / sec) mib, total_bytes).
(** the checks of a real run *)
Definition check_room (dst : string) (o : RufuxPartOpts) (bios_part : bool) (g : geometry) (total_bytes : Z) : cres unit :=
  let min_esp_mib := 515 + (if bios_part then 2 else 0) in
  if String.eqb (po_layout o) "esp+main" && (g_mib g <? min_esp_mib) then
    Fail ("target '" +:+ dst +:+ "' reports " +:+ dec (g_mib g) +:+ " MiB; esp+main layout needs at least " +:+ dec min_esp_mib +:+ " MiB")
  else if total_lbas g <? 2 * spm g + 2 * (entry_sectors g + 2) then
    Fail ("target '" +:+ dst +:+ "' (" +:+ dec total_bytes +:+ " bytes) is too small to partition")
  else Ok tt.
(** from the size on: the disk is unmounted, written, and given time *)
Definition partition_real (dst : string) (o : RufuxPartOpts) (is_gpt bios_part : bool) (g : geometry) : io (cres unit) :=
  let parts := make_layout g is_gpt bios_part (mbr_type_of (po_fs_main o)) (po_layout o) in
  match check_parts g is_gpt dst 1 parts with
  | Some m => fail m
  | None =>
      st <- call (Stat dst) ;;
      match st with
      | None => e <- call Errno ;; fail ("cannot stat '" +:+ dst +:+ "': " +:+ strerror e)
      | Some _ =>
          (if is_device st then rufux_macos_unmount_disk fuel dst else ok tt) ?;;
          let bnode := rufux_macos_block_node dst PATH_MAX in
          fd <- call (Open bnode O_RDWR) ;;
          match fd with
          | inl e => fail ("cannot open '" +:+ bnode +:+ "': " +:+ strerror e)
          | inr fd =>
              rc <- write_disk fd bnode g is_gpt parts ;;
              c <- call (CloseRc fd) ;;
              let rc := match c, rc with
                        | Some e, Ok _ => Fail ("close failed on '" +:+ bnode +:+ "': " +:+ strerror e)
                        | _, _ => rc
                        end in
              when (is_ok rc && is_device st) (settle_macos_slices bnode parts (sec_sz g)) ;;;
              Ret rc
          end
      end
  end.
Definition rufux_partition (dst : string) (o : RufuxPartOpts) : io (cres unit) :=
  let scheme := scheme_of (po_scheme o) in
  let layout := po_layout o in
  if String.eqb dst "" then fail "invalid partition options"
  else if negb (String.eqb scheme "gpt") && negb (String.eqb scheme "dos") then fail "scheme must be gpt|dos (mbr alias dos)"
  else if negb (String.eqb layout "single") && negb (String.eqb layout "esp+main") && negb (String.eqb layout "main+uefintfs")
  then fail "layout must be single|esp+main|main+uefintfs"
  else
    let is_gpt := String.eqb scheme "gpt" in
    let bios_part := po_bios_boot o && is_gpt in
    if negb (po_dry_run o) && negb (po_yes o) then fail "refusing real partition without --yes"
    else
      rufux_check_target dst (po_allow_fixed o) (po_allow_file o) ?;;
      g <-? size_up dst o bios_part ;;
      if po_dry_run o then
        call (Stderr ("+ partition " +:+ dst +:+ " (" +:+ scheme +:+ "/" +:+ layout +:+ (if bios_part then "+bios_boot" else "")
                      +:+ ") [dry-run]" +:+ LF)) ;;; ok tt
      else
        match check_room dst o bios_part g.1 g.2 with
        | Fail m => fail m
        | Ok _ => partition_real dst o is_gpt bios_part g.1
        end.

(** * Finding a slice *)
(** all of it, or [None] *)
Definition pread_all (fd len off : Z) : io (option (list byte)) :=
  loop fuel (fun got =>
    if zlen got <? len then
      r <- call (Pread fd (len - zlen got) (to_off (off + zlen got))) ;;
      match r with
      | inl EINTR => Ret (inl got)
      | inl _ | inr [] => Ret (inr None)
      | inr l => Ret (inl (got ++ l))
      end
    else Ret (inr (Some got))) [].
(** [None]: -1 *)
Definition parse_gpt_slice_at_hdr (fd sec hdr_lba slice_no : Z) : io (option (Z * Z)) :=
  h <- pread_all fd sec (hdr_lba * sec) ;;
  match h with
  | None => Ret None
  | Some hdr =>
      if negb (bytes_eqb (slice 0 8 hdr) EFI_PART) then Ret None
      else
        let hdr_sz := get_le32 hdr 12 in
        if (hdr_sz <? 92) || (sec <? hdr_sz) then Ret None
        else if negb (crc32_ieee (splice 16 (zeros 4) (ztake hdr_sz hdr)) =? get_le32 hdr 16) then Ret None
        else
          let ent_lba := get_le64 hdr 72 in
          let num_ents := get_le32 hdr 80 in
          let ent_sz := get_le32 hdr 84 in
          if (ent_lba <? 2) || (num_ents =? 0) || (4096 <? num_ents) || (ent_sz <? 128) || (4096 <? ent_sz) || (num_ents <? slice_no)
          then Ret None
          else
            let raw_bytes := num_ents * ent_sz in
            if 2 ^ 20 <? raw_bytes then Ret None
            else
              e <- pread_all fd ((raw_bytes + sec - 1) / sec * sec) (ent_lba * sec) ;;
              match e with
              | None => Ret None
              | Some ents =>
                  if negb (crc32_ieee (ztake raw_bytes ents) =? get_le32 hdr 88) then Ret None
                  else
                    let e := zdrop ((slice_no - 1) * ent_sz) ents in
                    let first := get_le64 e 32 in
                    let last := get_le64 e 40 in
                    if forallb (fun b => u8 b =? 0) (ztake 16 e) || (first =? 0) || (last <? first) then Ret None
                    else Ret (Some (first, (last - first + 1) mod 2 ^ 64))
              end
  end.
(** the slice as the tables have it, on an open disk *)
Definition find_slice (fd : Z) (bnode : string) (sec slice_no : Z) : io (option (Z * Z)) :=
  m <- pread_all fd sec 0 ;;
  match m with
  | None => Ret None
  | Some mbr =>
      if negb ((get8 mbr 510 =? 0x55) && (get8 mbr 511 =? 0xAA)) then Ret None
      else if existsb (fun i => get8 mbr (446 + i * 16 + 4) =? 0xEE) [0; 1; 2; 3] then
        r <- parse_gpt_slice_at_hdr fd sec 1 slice_no ;;
        match r with
        | Some x => Ret (Some x)
        | None =>
            total_bytes <- rufux_macos_dev_bytes bnode ;;
            if 4 <? total_bytes / sec then parse_gpt_slice_at_hdr fd sec (total_bytes / sec - 1) slice_no else Ret None
        end
      else if slice_no <=? 4 then
        let pe := 446 + (slice_no - 1) * 16 in
        let ptype := get8 mbr (pe + 4) in
        let st := get_le32 mbr (pe + 8) in
        let cnt := get_le32 mbr (pe + 12) in
        Ret (if negb (ptype =? 0) && (0 <? st) && (0 <? cnt) then Some (st, cnt) else None)
      else Ret None
  end.
Definition rufux_part_offset_sectors (disk : string) (slice_no : Z) : io (option (Z * Z)) :=
  if String.eqb disk "" || (slice_no <? 1) then Ret None
  else
    let bnode := rufux_macos_block_node disk PATH_MAX in
    sec <- rufux_macos_sector_size bnode ;;
    if (sec <? 512) || (4096 <? sec) then Ret None
    else
      fd <- call (Open bnode O_RDONLY) ;;
      match fd with
      | inl _ => Ret None
      | inr fd => r <- find_slice fd bnode sec slice_no ;; call (Close fd) ;;; Ret r
      end.
End Partition.
(** what is announced *)
Definition rufux_partition_plan (dst : string) (o : option RufuxPartOpts) (cap : nat) : string :=
  match o with
  | None => snprintf cap ("partition " +:+ dst +:+ " as gpt/single")
  | Some o =>
      snprintf cap ("partition " +:+ dst +:+ " as " +:+ scheme_of (po_scheme o) +:+ "/" +:+ po_layout o +:+ (if po_dry_run o then " [dry-run]" else ""))
  end.
