(* ===== verification/MactableSpec.v ===== *)
(** The bytes of the tables macOS partitioning writes: stores into buffers, the
    checksum, headers, entries and the first sector, each with what a reader
    finds in it. *)
From S2P Require Import Prelude Cstr Contents Sys Exec Device Host Partition Macexec Macdisk Macmount Macstate Macvolume Macdevice Macboot Macpartition.

(** * Checksums fit their field *)
Lemma lxor_bits a b n : 0 <= n -> 0 <= a < 2 ^ n -> 0 <= b < 2 ^ n -> 0 <= Z.lxor a b < 2 ^ n.
Proof.
  intros Hn Ha Hb. assert (H : 0 <= Z.lxor a b) by (apply Z.lxor_nonneg; lia). split; [done|].
  destruct (Z.eq_dec (Z.lxor a b) 0) as [->|Hz]; [lia|]. apply Z.log2_lt_pow2; [lia|].
  eapply Z.le_lt_trans; [apply Z.log2_lxor; lia|]. apply Z.max_lub_lt.
  - destruct (Z.eq_dec a 0) as [->|]; [|apply Z.log2_lt_pow2; lia]. rewrite Z.log2_nonpos by lia. destruct (Z.eq_dec n 0); [subst; cbn in *|]; try lia.
    replace b with 0 in Hz by lia. by rewrite Z.lxor_0_r in Hz.
  - destruct (Z.eq_dec b 0) as [->|]; [|apply Z.log2_lt_pow2; lia]. rewrite Z.log2_nonpos by lia. destruct (Z.eq_dec n 0); [subst; cbn in *|]; try lia.
    replace a with 0 in Hz by lia. by rewrite Z.lxor_0_r in Hz.
Qed.
Lemma crc_bit_range c : 0 <= c < 2 ^ 32 -> 0 <= crc_bit c < 2 ^ 32.
Proof.
  intros H. apply lxor_bits; [lia| |destruct (Z.testbit c 0); lia]. rewrite Z.shiftr_div_pow2 by lia.
  split; [apply Z.div_pos; lia|]. apply Z.div_lt_upper_bound; lia.
Qed.
Lemma crc_byte_range c b : 0 <= c < 2 ^ 32 -> 0 <= crc_byte c b < 2 ^ 32.
Proof.
  intros H. unfold crc_byte. assert (Hx : 0 <= Z.lxor c (u8 b) < 2 ^ 32) by (apply lxor_bits; [lia|done|pose proof (u8_range b); lia]).
  revert Hx. generalize (Z.lxor c (u8 b)) as x. generalize 8%nat as n. induction n as [|n IH]; intros x Hr; [done|]. cbn [Nat.iter nat_rect]. by apply crc_bit_range, IH.
Qed.
Lemma crc32_range l : 0 <= crc32_ieee l < 2 ^ 32.
Proof.
  unfold crc32_ieee. apply lxor_bits; [lia| |lia]. assert (H : 0 <= 0xFFFFFFFF < 2 ^ 32) by lia. revert H. generalize 0xFFFFFFFF as c.
  induction l as [|b l IH]; intros x Hc; [done|]. by apply IH, crc_byte_range.
Qed.
(** the check value of CRC-32 *)
Example crc32_check : crc32_ieee (bytes_of_string "123456789") = 0xCBF43926.
Proof. vm_compute. reflexivity. Qed.

(** * Stores and loads *)
Lemma zlen_to_le n z : zlen (to_le n z) = Z.of_nat n.
Proof. unfold zlen. by rewrite length_to_le. Qed.
Lemma zlen_zero_bytes n : 0 <= n -> zlen (zeros n) = n.
Proof. intros. unfold zeros. rewrite zlen_replicate. lia. Qed.
Lemma slice_zeros q n m : 0 <= q -> 0 <= n -> q + n <= m -> slice q n (zeros m) = zeros n.
Proof.
  intros. unfold slice, zeros, ztake, zdrop. rewrite drop_replicate, take_replicate. f_equal. lia.
Qed.
Lemma get_to_le p off n v d : off = p -> 0 <= p -> le (slice off (Z.of_nat n) (splice p (to_le n v) d)) = v mod 256 ^ Z.of_nat n.
Proof. intros -> Hp. by rewrite <- (zlen_to_le n v), slice_splice, le_to_le, zlen_to_le by done. Qed.
(** stores into a buffer, each with its place and its length *)
Definition pokes (l : list (Z * Z * list byte)) (d : list byte) : list byte :=
  fold_left (fun d s => splice s.1.1 s.2 d) l d.
Definition fits (n : Z) (s : Z * Z * list byte) : Prop := 0 <= s.1.1 /\ s.1.1 + s.1.2 <= n /\ zlen s.2 = s.1.2.
Definition apart (q n : Z) (s : Z * Z * list byte) : Prop := q + n <= s.1.1 \/ s.1.1 + s.1.2 <= q.
Lemma zlen_pokes n l d : zlen d = n -> Forall (fits n) l -> zlen (pokes l d) = n.
Proof.
  revert d; induction l as [|[[p m] b] l IH]; intros d Hd Hl; [done|]. apply Forall_cons_1 in Hl as [(H1 & H2 & H3) Hl].
  cbn in *. apply IH; [|done]. rewrite zlen_splice_in; lia.
Qed.
Lemma pokes_other n l d q m : zlen d = n -> Forall (fits n) l -> 0 <= q -> 0 <= m -> Forall (apart q m) l ->
  slice q m (pokes l d) = slice q m d.
Proof.
  revert d; induction l as [|[[p k] b] l IH]; intros d Hd Hl Hq Hm Ha; [done|].
  apply Forall_cons_1 in Hl as [(H1 & H2 & H3) Hl]. apply Forall_cons_1 in Ha as [Ha Hal]. unfold apart in Ha. cbn in *.
  rewrite IH; [|rewrite zlen_splice_in; lia|done..]. apply slice_splice_other; lia.
Qed.
Lemma pokes_get n l d k q m b : l !! k = Some (q, m, b) -> zlen d = n -> Forall (fits n) l ->
  Forall (apart q m) (drop (S k) l) -> slice q m (pokes l d) = b.
Proof.
  intros Hk Hd Hl Ha. rewrite <- (take_drop_middle _ _ _ Hk) in Hl |- *. apply Forall_app in Hl as [Hl1 Hl].
  apply Forall_cons_1 in Hl as [(H1 & H2 & H3) Hl2]. cbn in *. unfold pokes. rewrite fold_left_app. cbn [fold_left fst snd].
  pose proof (zlen_nonneg b). pose proof (zlen_pokes n _ d Hd Hl1) as Hz. unfold pokes in Hz.
  change (slice q m (pokes (drop (S k) l) (splice q b (pokes (take k l) d))) = b).
  rewrite (pokes_other n); [|rewrite zlen_splice_in; unfold pokes; lia|done|done|lia|done]. rewrite <- H3. by apply slice_splice.
Qed.
Lemma le_slice_get n l d k q (m : nat) v : l !! k = Some (q, Z.of_nat m, to_le m v) -> zlen d = n -> Forall (fits n) l ->
  Forall (apart q (Z.of_nat m)) (drop (S k) l) -> le (slice q (Z.of_nat m) (pokes l d)) = v mod 256 ^ Z.of_nat m.
Proof. intros. erewrite pokes_get by done. apply le_to_le. Qed.
(** blocks of [n] bytes one after the other *)
Fixpoint strided (n off : Z) (bs : list (list byte)) : list (Z * Z * list byte) :=
  match bs with [] => [] | b :: bs => (off, n, b) :: strided n (off + n) bs end.
Section Strided.
Variables (len n : Z).
Hypothesis Hn : 0 <= n.
Lemma strided_fits bs off : Forall (fun b => zlen b = n) bs -> 0 <= off -> off + n * zlen bs <= len ->
  Forall (fits len) (strided n off bs).
Proof.
  intros Hbs. revert off; induction Hbs as [|b l Hb Hl IH]; intros off Ho Hm; [constructor|]. rewrite zlen_cons in Hm.
  pose proof (zlen_nonneg l). assert (0 <= n * zlen l) by nia.
  constructor; [unfold fits; cbn [fst snd]; split_and!; [lia|lia|done]|]. apply IH; lia.
Qed.
Lemma strided_apart bs off q : q + n <= off -> Forall (apart q n) (strided n off bs).
Proof.
  revert off; induction bs as [|b l IH]; intros off H; constructor; [unfold apart; cbn [fst snd]; lia|]. apply IH. lia.
Qed.
Lemma strided_below bs off q m : off + n * zlen bs <= q -> Forall (apart q m) (strided n off bs).
Proof.
  revert off; induction bs as [|b l IH]; intros off H; constructor; rewrite zlen_cons in H; pose proof (zlen_nonneg l);
    assert (0 <= n * zlen l) by nia; [unfold apart; cbn [fst snd]; lia|]. apply IH. lia.
Qed.
Lemma strided_rest bs d off q m : zlen d = len -> Forall (fun b => zlen b = n) bs ->
  0 <= off -> off + n * zlen bs <= len -> off + n * zlen bs <= q -> 0 <= q -> 0 <= m ->
  slice q m (pokes (strided n off bs) d) = slice q m d.
Proof. intros. apply (pokes_other len); [done|by apply strided_fits|done|done|by apply strided_below]. Qed.
End Strided.
Lemma strided_lookup n off bs i b : bs !! i = Some b -> strided n off bs !! i = Some (off + n * Z.of_nat i, n, b).
Proof.
  revert off i; induction bs as [|c bs IH]; intros off [|i]; cbn; try done.
  - intros [= ->]. do 3 f_equal. lia.
  - intros H. rewrite (IH _ i) by done. do 3 f_equal. lia.
Qed.
Lemma strided_drop n off bs i : drop i (strided n off bs) = strided n (off + n * Z.of_nat i) (drop i bs).
Proof.
  revert off i; induction bs as [|c bs IH]; intros off [|i]; cbn; try done; [by rewrite Z.mul_0_r, Z.add_0_r|].
  rewrite IH. f_equal. lia.
Qed.
Lemma strided_get len n off bs d i b : bs !! i = Some b -> zlen d = len -> Forall (fun b => zlen b = n) bs -> 0 <= n -> 0 <= off ->
  off + n * zlen bs <= len -> slice (off + n * Z.of_nat i) n (pokes (strided n off bs) d) = b.
Proof.
  intros Hi Hd Hbs Hn Ho Hm. apply (pokes_get len _ _ i); [by apply strided_lookup|done|by apply strided_fits|].
  rewrite strided_drop. apply strided_apart; lia.
Qed.
(** the side conditions on a list of stores that is written out *)
Lemma zlen_magic : zlen EFI_PART = 8.
Proof. done. Qed.
Ltac fits_tac := repeat (apply List.Forall_cons; [unfold fits; cbn [fst snd]; rewrite ?zlen_to_le, ?zlen_magic; lia|]); apply List.Forall_nil.
Ltac apart_tac := cbn; repeat (apply List.Forall_cons; [unfold apart; cbn; lia|]); apply List.Forall_nil.

(** * Headers *)
Section Header.
Variables (g : geometry) (my other ents crc : Z) (guid : list byte).
Hypothesis Hguid : zlen guid = 16.
(** the stores but for the header's own checksum *)
Definition header_stores : list (Z * Z * list byte) :=
  [(0, 8, EFI_PART); (8, 4, to_le 4 0x00010000); (12, 4, to_le 4 92); (16, 4, to_le 4 0); (20, 4, to_le 4 0); (24, 8, to_le 8 my);
   (32, 8, to_le 8 other); (40, 8, to_le 8 (first_usable_lba g)); (48, 8, to_le 8 (last_usable_lba g)); (56, 16, guid);
   (72, 8, to_le 8 ents); (80, 4, to_le 4 128); (84, 4, to_le 4 128); (88, 4, to_le 4 crc)].
Definition header0 : list byte := pokes header_stores (zeros 4096).
Lemma make_header_stores : make_header g my other ents crc guid = put_le32 16 (crc32_ieee (ztake 92 header0)) header0.
Proof. reflexivity. Qed.
Lemma header_fits : Forall (fits 4096) header_stores.
Proof. unfold header_stores. fits_tac. Qed.
Lemma zlen_header0 : zlen header0 = 4096.
Proof. apply zlen_pokes; [by apply zlen_zero_bytes|apply header_fits]. Qed.
(** the header as it is read, from a sector *)
Variable sec : Z.
Hypothesis Hsec : 512 <= sec <= 4096.
Definition header : list byte := ztake sec (make_header g my other ents crc guid).
Lemma header_slice q m : 0 <= q -> 0 <= m -> q + m <= sec -> q + m <= 16 \/ 20 <= q -> slice q m header = slice q m header0.
Proof.
  intros. unfold header. rewrite slice_ztake, make_header_stores by done. unfold put_le32.
  apply slice_splice_other; rewrite ?zlen_to_le, ?zlen_header0; lia.
Qed.
Lemma zlen_header : zlen header = sec.
Proof.
  unfold header. rewrite make_header_stores. unfold put_le32.
  rewrite zlen_ztake, zlen_splice_in by (rewrite ?zlen_to_le, ?zlen_header0; lia). rewrite zlen_header0. lia.
Qed.
Lemma header_le q (m k : nat) v : header_stores !! k = Some (q, Z.of_nat m, to_le m v) ->
  0 <= q -> q + Z.of_nat m <= sec -> q + Z.of_nat m <= 16 \/ 20 <= q ->
  Forall (apart q (Z.of_nat m)) (drop (S k) header_stores) -> le (slice q (Z.of_nat m) header) = v mod 256 ^ Z.of_nat m.
Proof.
  intros Hk Hq Hm Hx Ha. rewrite header_slice by lia. by eapply le_slice_get; [|apply zlen_zero_bytes|apply header_fits|].
Qed.
Lemma header_magic : slice 0 8 header = EFI_PART.
Proof.
  rewrite header_slice by lia. apply (pokes_get 4096 _ _ 0%nat); [done|by apply zlen_zero_bytes|apply header_fits|]. apart_tac.
Qed.
Lemma header_size : get_le32 header 12 = 92.
Proof. refine (eq_trans (header_le 12 4 2 92 _ _ _ _ _) _); [done|lia|lia|lia|apart_tac|done]. Qed.
Lemma header_ents : get_le64 header 72 = ents mod 2 ^ 64.
Proof. refine (eq_trans (header_le 72 8 10 ents _ _ _ _ _) _); [done|lia|lia|lia|apart_tac|done]. Qed.
Lemma header_count : get_le32 header 80 = 128.
Proof. refine (eq_trans (header_le 80 4 11 128 _ _ _ _ _) _); [done|lia|lia|lia|apart_tac|done]. Qed.
Lemma header_esize : get_le32 header 84 = 128.
Proof. refine (eq_trans (header_le 84 4 12 128 _ _ _ _ _) _); [done|lia|lia|lia|apart_tac|done]. Qed.
Lemma header_crc : get_le32 header 88 = crc mod 2 ^ 32.
Proof. refine (eq_trans (header_le 88 4 13 crc _ _ _ _ _) _); [done|lia|lia|lia|apart_tac|done]. Qed.
Lemma header_checks : crc32_ieee (splice 16 (zeros 4) (ztake 92 header)) = get_le32 header 16.
Proof.
  assert (H0 : slice 16 4 header0 = zeros 4).
  { apply (pokes_get 4096 _ _ 3%nat); [done|by apply zlen_zero_bytes|apply header_fits|apart_tac]. }
  assert (Hz := zlen_header0). assert (Hc := crc32_range (ztake 92 header0)). unfold get_le32, header.
  rewrite slice_ztake, make_header_stores by lia. unfold put_le32.
  change 4 with (Z.of_nat 4) at 2. rewrite get_to_le, Z.mod_small by lia. f_equal.
  replace (ztake 92 (ztake sec _)) with (ztake 92 (splice 16 (to_le 4 (crc32_ieee (ztake 92 header0))) header0))
    by (unfold ztake; rewrite take_take; f_equal; lia).
  rewrite ztake_splice, splice_over by (rewrite ?zlen_ztake, ?zlen_to_le, ?zlen_zero_bytes; lia).
  apply splice_same; rewrite ?zlen_ztake, ?zlen_zero_bytes; try lia. by rewrite slice_ztake by lia.
Qed.
Lemma header_fields : 0 <= ents < 2 ^ 64 -> 0 <= crc < 2 ^ 32 ->
  slice 0 8 header = EFI_PART /\ get_le32 header 12 = 92 /\
  crc32_ieee (splice 16 (zeros 4) (ztake 92 header)) = get_le32 header 16 /\ get_le64 header 72 = ents /\
  get_le32 header 80 = 128 /\ get_le32 header 84 = 128 /\ get_le32 header 88 = crc.
Proof.
  intros. split_and!; [apply header_magic|apply header_size|apply header_checks| |apply header_count|apply header_esize|].
  - rewrite header_ents. by apply Z.mod_small.
  - rewrite header_crc. by apply Z.mod_small.
Qed.
End Header.

(** * The table *)
Lemma zlen_put8 off v p : 0 <= off < zlen p -> zlen (put8 off v p) = zlen p.
Proof. intros. unfold put8. apply zlen_splice_in; [lia|]. change (zlen [b8 v]) with 1. lia. Qed.
Lemma guid_length t guid : exec gen_random_guid_v4 t guid -> Forall posix t -> zlen guid = 16.
Proof.
  intros (x & u & -> & [-> ->]) [Hx _]%Forall_cons_1. cbn in Hx. rewrite !zlen_put8; rewrite ?zlen_put8; lia.
Qed.
Lemma zlen_name n : zlen (encode_utf16le_name n) = 72.
Proof.
  unfold encode_utf16le_name. cbv zeta. set (l := flat_map _ _).
  assert (0 <= zlen l <= 70).
  { split; [apply zlen_nonneg|]. assert (H : forall k, zlen (flat_map (fun b => [b; Byte.x00]) k) = 2 * zlen k).
    { induction k as [|b k IH]; [done|]. cbn [flat_map app]. rewrite !zlen_cons, IH. lia. }
    unfold l. rewrite H, zlen_bytes_of_string. unfold strlen. rewrite slength_stake. lia. }
  rewrite zlen_app, zlen_zero_bytes; lia.
Qed.
Definition typed (p : PartSpec) : Prop := zlen (gpt_type p) = 16.
Lemma zlen_entry p guid : typed p -> zlen guid = 16 -> zlen (gpt_entry p guid) = 128.
Proof. intros Hp Hg. unfold gpt_entry. rewrite !zlen_app, !zlen_to_le, zlen_name, Hp, Hg. done. Qed.
Lemma fill_entries_stores off l d t ents : exec (fill_entries off l d) t ents -> Forall posix t ->
  exists gs, length gs = length l /\ Forall (fun g => zlen g = 16) gs /\
    ents = pokes (strided 128 off (zip_with gpt_entry l gs)) d.
Proof.
  revert off d t; induction l as [|p l IH]; intros off d t; cbn [fill_entries].
  - intros [-> ->] _. by exists [].
  - intros (t1 & g & t2 & -> & H1 & H2)%exec_bind [Hp1 Hp2]%Forall_app. apply guid_length in H1; [|done].
    apply IH in H2 as (gs & Hl & Hg & ->); [|done]. exists (g :: gs). cbn. split_and!; [by f_equal|by constructor|done].
Qed.
Section Table.
Variables (parts : list PartSpec) (guids : list (list byte)).
Hypothesis Hparts : Forall typed parts.
Hypothesis Hguids : Forall (fun g => zlen g = 16) guids.
Hypothesis Hlen : length guids = length parts.
Hypothesis Hmany : zlen parts <= 128.
Definition table : list byte := pokes (strided 128 0 (zip_with gpt_entry parts guids)) (zeros (128 * 128)).
Lemma table_entries : Forall (fun b => zlen b = 128) (zip_with gpt_entry parts guids).
Proof.
  clear Hlen Hmany. revert guids Hguids. induction parts as [|p l IH]; intros [|g gs] Hg; cbn; constructor;
    apply Forall_cons_1 in Hparts as [Hp Hl].
  - apply Forall_cons_1 in Hg as [Hg _]. by apply zlen_entry.
  - apply Forall_cons_1 in Hg as [_ Hg]. by apply (IH Hl).
Qed.
Lemma table_used : zlen (zip_with gpt_entry parts guids) = zlen parts.
Proof. unfold zlen. rewrite length_zip_with. lia. Qed.
Lemma zlen_table : zlen table = 16384.
Proof. apply zlen_pokes; [by apply zlen_zero_bytes|]. apply strided_fits; [lia|apply table_entries|lia|rewrite table_used; lia]. Qed.
Lemma table_entry i p : parts !! i = Some p -> exists g, zlen g = 16 /\ slice (128 * Z.of_nat i) 128 table = gpt_entry p g.
Proof.
  intros Hp. destruct (lookup_lt_is_Some_2 guids i) as [g Hg]; [rewrite Hlen; by eapply lookup_lt_Some|].
  exists g. split; [exact (Forall_lookup_1 _ _ _ _ Hguids Hg)|].
  apply (strided_get 16384 128 0); [|by apply zlen_zero_bytes|apply table_entries|lia..|rewrite table_used; lia].
  rewrite lookup_zip_with, Hp. cbn. by rewrite Hg.
Qed.
Lemma table_rest i : zlen parts <= i < 128 -> slice (128 * i) 128 table = zeros 128.
Proof.
  intros Hi. pose proof (zlen_nonneg parts). unfold table. rewrite (strided_rest 16384); [apply slice_zeros; lia|lia|by apply zlen_zero_bytes|apply table_entries|rewrite ?table_used; lia..].
Qed.
End Table.
(** an entry, decoded *)
Lemma entry_first p g : typed p -> zlen g = 16 -> le (slice 32 8 (gpt_entry p g)) = first_lba p mod 2 ^ 64.
Proof.
  unfold typed. intros Hp Hg. unfold gpt_entry. rewrite slice_app_r, Hp, slice_app_r, Hg by lia. change (32 - 16 - 16) with 0.
  rewrite slice_here by (by rewrite zlen_to_le). apply le_to_le.
Qed.
Lemma entry_last p g : typed p -> zlen g = 16 -> le (slice 40 8 (gpt_entry p g)) = last_lba p mod 2 ^ 64.
Proof.
  unfold typed. intros Hp Hg. unfold gpt_entry. rewrite slice_app_r, Hp, slice_app_r, Hg, slice_app_r, zlen_to_le by (rewrite ?zlen_to_le; lia).
  change (40 - 16 - 16 - Z.of_nat 8) with 0. rewrite slice_here by (by rewrite zlen_to_le). apply le_to_le.
Qed.
Lemma entry_type p g : typed p -> slice 0 16 (gpt_entry p g) = gpt_type p.
Proof. unfold typed. intros Hp. apply slice_here. by rewrite Hp. Qed.

(** * The first sector *)
Definition entry_of (p : PartSpec) : list byte :=
  mbr_entry (mbr_status p) (mbr_type p) (first_lba p) (last_lba p) (last_lba p - first_lba p + 1).
Lemma zlen_chs lba : zlen (encode_chs lba) = 3.
Proof. unfold encode_chs. by destruct (_ <? _). Qed.
Lemma zlen_mbr_entry s ty f l c : zlen (mbr_entry s ty f l c) = 16.
Proof. unfold mbr_entry. by rewrite zlen_cons, zlen_app, zlen_cons, !zlen_app, !zlen_chs, !zlen_to_le. Qed.
Section Entry.
Variables (s ty f l c : Z).
Lemma mbr_entry_split : mbr_entry s ty f l c = ([b8 s] ++ encode_chs f) ++ [b8 ty] ++ encode_chs l ++ to_le 4 f ++ to_le 4 c.
Proof. reflexivity. Qed.
#[local] Ltac walk := rewrite mbr_entry_split, slice_app_r by (rewrite zlen_app, zlen_chs; change (zlen [b8 s]) with 1; lia);
  rewrite zlen_app, zlen_chs; change (zlen [b8 s]) with 1.
Lemma mbr_entry_type : get8 (mbr_entry s ty f l c) 4 = ty mod 256.
Proof. unfold get8. walk. change (le [b8 ty] = ty mod 256). cbn [le]. rewrite u8_b8. lia. Qed.
Lemma mbr_entry_first : get_le32 (mbr_entry s ty f l c) 8 = f mod 2 ^ 32.
Proof.
  unfold get_le32. walk. rewrite slice_app_r, slice_app_r by (rewrite ?zlen_chs; change (zlen [b8 ty]) with 1; lia). rewrite zlen_chs.
  change (8 - (1 + 3) - zlen [b8 ty] - 3) with 0. rewrite slice_here by (by rewrite zlen_to_le). apply le_to_le.
Qed.
Lemma mbr_entry_count : get_le32 (mbr_entry s ty f l c) 12 = c mod 2 ^ 32.
Proof.
  unfold get_le32. walk. rewrite slice_app_r, slice_app_r, slice_app_r by (rewrite ?zlen_chs, ?zlen_to_le; change (zlen [b8 ty]) with 1; lia).
  rewrite zlen_chs, zlen_to_le. change (12 - (1 + 3) - zlen [b8 ty] - 3 - Z.of_nat 4) with 0.
  unfold slice. change (zdrop 0 (to_le 4 c)) with (to_le 4 c). rewrite ztake_all by (by rewrite zlen_to_le). apply le_to_le.
Qed.
End Entry.
Lemma pokes_app a b d : pokes (a ++ b) d = pokes b (pokes a d).
Proof. apply fold_left_app. Qed.
Lemma put_entries_stores off l d : put_entries off l d = pokes (strided 16 off (map entry_of l)) d.
Proof. revert off d; induction l as [|p l IH]; intros off d; [done|]. cbn [put_entries map strided]. rewrite IH. done. Qed.
Section Sector.
Variables (code : list byte) (sig : Z) (bs : list (list byte)).
Hypothesis Hcode : zlen code = 440.
Hypothesis Hbs : Forall (fun b => zlen b = 16) bs.
Hypothesis Hmany : zlen bs <= 4.
Definition head_stores : list (Z * Z * list byte) := [(0, 440, code); (440, 4, to_le 4 sig)].
Definition tail_stores : list (Z * Z * list byte) := [(510, 1, [b8 0x55]); (511, 1, [b8 0xAA])].
Definition sec0 : list byte := pokes tail_stores (pokes (strided 16 446 bs) (pokes head_stores (zeros 4096))).
Lemma head_fits : Forall (fits 4096) head_stores.
Proof. unfold head_stores. fits_tac. Qed.
Lemma zlen_head : zlen (pokes head_stores (zeros 4096)) = 4096.
Proof. apply zlen_pokes; [by apply zlen_zero_bytes|apply head_fits]. Qed.
Lemma zlen_with_entries : zlen (pokes (strided 16 446 bs) (pokes head_stores (zeros 4096))) = 4096.
Proof. apply zlen_pokes; [apply zlen_head|apply strided_fits; [lia|done|lia|lia]]. Qed.
Lemma tail_fits : Forall (fits 4096) tail_stores.
Proof. repeat constructor; cbn; lia. Qed.
Lemma zlen_sec0 : zlen sec0 = 4096.
Proof. apply zlen_pokes; [apply zlen_with_entries|apply tail_fits]. Qed.
Lemma sec0_signature : get8 sec0 510 = 0x55 /\ get8 sec0 511 = 0xAA.
Proof.
  unfold get8, sec0. rewrite (pokes_get 4096 _ _ 0 510 1 [b8 0x55]), (pokes_get 4096 _ _ 1 511 1 [b8 0xAA]); try done;
    try apply zlen_with_entries; try apply tail_fits; cbn [drop tail_stores]; apart_tac.
Qed.
Lemma sec0_slice q m : 446 <= q -> 0 <= m -> q + m <= 510 ->
  slice q m sec0 = slice q m (pokes (strided 16 446 bs) (pokes head_stores (zeros 4096))).
Proof.
  intros. apply (pokes_other 4096); [apply zlen_with_entries|apply tail_fits|lia|lia|]. unfold tail_stores. apart_tac.
Qed.
Lemma sec0_entry i b : bs !! i = Some b -> slice (446 + 16 * Z.of_nat i) 16 sec0 = b.
Proof.
  intros Hi. pose proof (lookup_lt_Some _ _ _ Hi). unfold zlen in Hmany. rewrite sec0_slice by lia.
  apply (strided_get 4096); [done|apply zlen_head|done|lia|lia|unfold zlen; lia].
Qed.
Lemma sec0_rest i : zlen bs <= i < 4 -> slice (446 + 16 * i) 16 sec0 = zeros 16.
Proof.
  intros Hi. pose proof (zlen_nonneg bs). rewrite sec0_slice by lia.
  rewrite (strided_rest 4096); [|lia|apply zlen_head|done|lia..].
  rewrite (pokes_other 4096); [apply slice_zeros; lia|by apply zlen_zero_bytes|apply head_fits|lia|lia|]. unfold head_stores. apart_tac.
Qed.
End Sector.
