(* ===== verification/MacpartitionSpec.v ===== *)
(** The tables macOS partitioning writes are read back as they were written. *)
From S2P Require Import Prelude Cstr Contents Sys Exec Device Host Partition Macexec Macdisk Macmount Macstate Macvolume Macdevice Macboot Macpartition MactableSpec.

(** * Reading a disk at rest *)
(** what a read of contents [D] gives, but for interruptions *)
Definition reads_of (D : list byte) (n off : Z) (x : errno + list byte) : Prop :=
  match x with
  | inl e => e = EINTR
  | inr l => zlen l <= n /\ l = slice off (zlen l) D /\ (l = [] -> n <= 0 \/ zlen D <= off)
  end.
Definition reads (D : list byte) (o : obs) : Prop :=
  match o with
  | Obs e x => match e in ev X return X -> Prop with Pread _ n off => reads_of D n off | _ => fun _ => True end x
  end.
Lemma to_off_small z : 0 <= z < 2 ^ 63 -> to_off z = z.
Proof. intros H. unfold to_off. rewrite Z.mod_small; lia. Qed.
Section Reading.
Variables (fuel : nat) (L : obs -> Prop) (D : list byte).
Hypothesis HL : forall o, L o -> reads D o.
Hypothesis Hsmall : zlen D < 2 ^ 63.
Lemma pread_all_reads fd len off : 0 <= off -> 0 <= len -> off + len <= zlen D ->
  ends L (pread_all fuel fd len off) (fun r => r = Some (slice off len D)).
Proof.
  intros Ho Hl Hd. apply (ends_loop L (fun got => zlen got <= len /\ got = slice off (zlen got) D)).
  2: { rewrite zlen_nil. split; [done|]. unfold slice. by rewrite ztake_neg by lia. }
  intros got [Hg Hs]. pose proof (zlen_nonneg got). destruct (Z.ltb_spec (zlen got) len).
  - apply ends_step. intros x Hx%HL. cbn in Hx. rewrite to_off_small in Hx by lia. destruct x as [e|l]; cbn in Hx.
    { subst e. by apply ends_ret. }
    destruct Hx as (Hn & Hxl & He). destruct l as [|b l]; [destruct (He eq_refl); lia|]. apply ends_ret.
    pose proof (zlen_nonneg (b :: l)). rewrite zlen_app. split; [lia|].
    rewrite <- slice_app by lia. by rewrite <- Hs, <- Hxl.
  - apply ends_ret. rewrite Hs. do 2 f_equal. lia.
Qed.

(** * A slice of a GPT *)
Definition part_ok (p : PartSpec) : Prop :=
  typed p /\ forallb (fun b => u8 b =? 0) (gpt_type p) = false /\ 0 < first_lba p <= last_lba p /\ last_lba p < 2 ^ 64.
Definition slice_of (parts : list PartSpec) (i : Z) : option (Z * Z) :=
  p ← parts !! Z.to_nat (i - 1); Some (first_lba p, last_lba p - first_lba p + 1).
Section Gpt.
Variables (g : geometry) (sec : Z) (parts : list PartSpec) (guids : list (list byte)).
Hypothesis Hsec : 512 <= sec <= 4096.
Hypothesis Hdiv : 16384 mod sec = 0.
Hypothesis Hparts : Forall part_ok parts.
Hypothesis Hguids : Forall (fun g => zlen g = 16) guids.
Hypothesis Hlen : length guids = length parts.
Hypothesis Hmany : zlen parts <= 128.
#[local] Abbreviation tbl := (table parts guids).
Lemma parts_typed : Forall typed parts.
Proof. refine (List.Forall_impl _ _ Hparts). by intros p []. Qed.
Lemma zlen_tbl : zlen tbl = 16384.
Proof. by apply zlen_table; [apply parts_typed|..]. Qed.
(** what is decoded of an entry *)
Definition decoded (i : Z) : option (Z * Z) :=
  let e := zdrop ((i - 1) * 128) tbl in
  if forallb (fun b => u8 b =? 0) (ztake 16 e) || (get_le64 e 32 =? 0) || (get_le64 e 40 <? get_le64 e 32) then None
  else Some (get_le64 e 32, (get_le64 e 40 - get_le64 e 32 + 1) mod 2 ^ 64).
Lemma decoded_correct i : 1 <= i <= 128 -> decoded i = slice_of parts i.
Proof.
  intros Hi. unfold decoded, slice_of. cbv zeta. set (e := zdrop _ tbl).
  assert (Hs : forall q m, 0 <= q -> q + m <= 128 -> slice q m e = slice q m (slice (128 * (i - 1)) 128 tbl)).
  { intros q m Hq Hm. unfold e. rewrite slice_zdrop, slice_slice by lia. f_equal. lia. }
  change (ztake 16 e) with (slice 0 16 e). unfold get_le64. rewrite !Hs by lia. clear Hs e.
  destruct (parts !! Z.to_nat (i - 1)) as [p|] eqn:Hp.
  - destruct (Forall_lookup_1 _ _ _ _ Hparts Hp) as (Ht & Hz & Hf & Hl).
    destruct (table_entry parts guids parts_typed Hguids Hlen Hmany _ _ Hp) as (gd & Hg & He).
    replace (128 * Z.of_nat (Z.to_nat (i - 1))) with (128 * (i - 1)) in He by lia. rewrite He.
    rewrite entry_type, entry_first, entry_last, Hz, !Z.mod_small by (done || lia).
    rewrite (proj2 (Z.eqb_neq _ 0)), (proj2 (Z.ltb_ge _ _)) by lia. done.
  - apply lookup_ge_None_1 in Hp. rewrite (table_rest parts guids) by (try done; try apply parts_typed; unfold zlen; lia). done.
Qed.
Lemma parse_reads fd hdr_lba ents_lba my other guid i : 1 <= i -> zlen guid = 16 ->
  0 <= hdr_lba -> 2 <= ents_lba < 2 ^ 64 -> hdr_lba * sec + sec <= zlen D -> ents_lba * sec + 16384 <= zlen D ->
  slice (hdr_lba * sec) sec D = header g my other ents_lba (crc32_ieee tbl) guid sec ->
  slice (ents_lba * sec) 16384 D = tbl ->
  ends L (parse_gpt_slice_at_hdr fuel fd sec hdr_lba i) (fun r => r = slice_of parts i).
Proof.
  intros Hi Hg Hh He Hhd Hed Hhdr Htbl. unfold parse_gpt_slice_at_hdr.
  eapply ends_bind; [apply pread_all_reads; nia|]. intros ? ->. rewrite Hhdr. set (h := header _ _ _ _ _ _ _).
  destruct (header_fields g my other ents_lba (crc32_ieee tbl) guid Hg sec Hsec) as (F0 & F1 & F2 & F3 & F4 & F5 & F6);
    [lia|apply crc32_range|]. fold h in F0, F1, F2, F3, F4, F5, F6. rewrite F0, F1. unfold bytes_eqb. rewrite bool_decide_eq_true_2 by done.
  cbn [negb]. cbv zeta. rewrite (proj2 (Z.ltb_ge sec 92)) by lia. change ((92 <? 92) || false) with false. cbv iota. rewrite F2, Z.eqb_refl. cbn [negb].
  rewrite F3, F4, F5, F6. rewrite (proj2 (Z.ltb_ge ents_lba 2)) by lia.
  change ((128 =? 0) || (4096 <? 128)) with false.
  change (false || (128 =? 0) || (4096 <? 128) || (128 <? 128) || (4096 <? 128)) with false. cbn [orb].
  destruct (Z.ltb_spec 128 i).
  { apply ends_ret. unfold slice_of. rewrite (lookup_ge_None_2 parts) by (unfold zlen in Hmany; lia). done. }
  change (2 ^ 20 <? 128 * 128) with false. cbv iota.
  replace ((128 * 128 + sec - 1) / sec * sec) with 16384.
  2: { rewrite (Z.div_mod 16384 sec) at 1 by lia. rewrite Hdiv. set (q := 16384 / sec).
       replace (128 * 128 + sec - 1) with (q * sec + (sec - 1)) by (pose proof (Z.div_mod 16384 sec); unfold q; lia).
       rewrite Z.div_add_l, (Z.div_small (sec - 1)) by lia. lia. }
  eapply ends_bind; [apply pread_all_reads; nia|]. intros ? ->. rewrite Htbl.
  rewrite ztake_all, Z.eqb_refl by (rewrite zlen_tbl; lia). cbn [negb].
  pose proof (decoded_correct i ltac:(lia)) as Hd. unfold decoded in Hd. cbv zeta in Hd.
  destruct (_ || _ || _); apply ends_ret; done.
Qed.
End Gpt.
End Reading.

(** * A partitioned disk *)
(** contents with tables for [parts]; the boot code and the random identities are
    whatever they are *)
Definition gpt_at (g : geometry) (parts : list PartSpec) (guids : list (list byte)) (guid D : list byte) (my other ents : Z) : Prop :=
  let tbl := table parts guids in
  slice (my * sec_sz g) (sec_sz g) D = header g my other ents (crc32_ieee tbl) guid (sec_sz g) /\
  slice (ents * sec_sz g) 16384 D = tbl.
Definition mbr_at (g : geometry) (is_gpt : bool) (parts : list PartSpec) (D : list byte) : Prop :=
  exists code rnd, zlen code = 440 /\ slice 0 (sec_sz g) D = ztake (sec_sz g) (make_sec0 g is_gpt parts code rnd).
Definition partitioned (g : geometry) (is_gpt : bool) (parts : list PartSpec) (D : list byte) : Prop :=
  mbr_at g is_gpt parts D /\
  (is_gpt = true -> exists guids guid, length guids = length parts /\ Forall (fun g => zlen g = 16) guids /\ zlen guid = 16 /\
     gpt_at g parts guids guid D 1 (disk_last g) 2 /\
     gpt_at g parts guids guid D (disk_last g) 1 (disk_last g - entry_sectors g)).
(** a geometry the program works with, and partitions it makes *)
Definition geometry_ok (g : geometry) : Prop :=
  512 <= sec_sz g <= 4096 /\ 16384 mod sec_sz g = 0 /\ 2 * entry_sectors g + 4 <= total_lbas g.
Definition mbr_ok (p : PartSpec) : Prop :=
  0 < mbr_type p < 256 /\ mbr_type p <> 0xEE /\ 0 < first_lba p <= last_lba p /\ first_lba p < 2 ^ 32 /\
  last_lba p - first_lba p + 1 < 2 ^ 32.

(** the answers of such a disk, or of an image of one *)
Definition steady (g : geometry) (D : list byte) (o : obs) : Prop :=
  reads D o /\
  match o with
  | Obs e x =>
      match e in ev X return X -> Prop with
      | Stat _ => fun x => is_device x = true \/
          sec_sz g = 512 /\ exists s, x = Some s /\ is_kind KReg x = true /\ st_size s / 512 = total_lbas g
      | Open _ _ => fun x => exists fd, x = inr fd
      | BlockSize _ => fun x => x = Some (sec_sz g)
      | BlockCount _ => fun x => x = Some (total_lbas g)
      | _ => fun _ => True
      end x
  end.
Section Steady.
Variables (fuel : nat) (g : geometry) (D : list byte).
Hypothesis Hg : geometry_ok g.
Hypothesis Hsize : total_lbas g * sec_sz g <= zlen D < 2 ^ 63.
#[local] Abbreviation L := (steady g D).
Lemma open_steady path : ends L (open_device path) (fun r => exists fd, r = Some fd).
Proof.
  unfold open_device. apply ends_step. intros x [_ [fd ->]]. apply ends_ret. by exists fd.
Qed.
Lemma reg_no_device x : is_kind KReg x = true -> is_device x = false.
Proof. destruct x as [s|]; [|done]. unfold is_device, is_kind. by destruct (st_kind s). Qed.
Lemma sector_steady path : path <> "" -> ends L (rufux_macos_sector_size path) (fun r => r = sec_sz g).
Proof.
  intros Hp. destruct Hg as (Hs & _). unfold rufux_macos_sector_size. apply String.eqb_neq in Hp. rewrite Hp.
  apply ends_step. intros x [_ Hx]. cbn in Hx. destruct Hx as [Hx|(H512 & s & -> & Hk & _)].
  2: { rewrite (reg_no_device _ Hk). by apply ends_ret. }
  rewrite Hx. cbn [negb]. eapply ends_bind; [apply open_steady|]. intros ? [fd ->].
  apply (ends_bind _ _ _ (fun b => b = Some (sec_sz g))).
  - apply ends_step. intros b [_ ->]. apply ends_any. intros _. apply ends_ret. by rewrite (proj2 (Z.leb_le _ _)) by lia.
  - intros ? ->. by apply ends_ret.
Qed.
Lemma bytes_steady path : path <> "" -> ends L (rufux_macos_dev_bytes path) (fun b => b / sec_sz g = total_lbas g).
Proof.
  intros Hp. destruct Hg as (Hs & _ & Ht). unfold rufux_macos_dev_bytes. apply String.eqb_neq in Hp. rewrite Hp.
  assert (0 <= entry_sectors g) by (apply Z.div_pos; lia).
  apply ends_step. intros x [_ Hx]. cbn in Hx. destruct Hx as [Hx|(H512 & s & -> & Hk & Hb)].
  2: { rewrite Hk. apply ends_ret. by rewrite H512. }
  destruct x as [s|]; [|done]. destruct (is_kind KReg (Some s)) eqn:Hk; [by rewrite (reg_no_device _ Hk) in Hx|].
  rewrite Hx. cbn [negb]. eapply ends_bind; [apply open_steady|]. intros ? [fd ->].
  apply (ends_bind _ _ _ (fun b => b = Some (total_lbas g * sec_sz g))).
  - eapply ends_bind.
    + unfold ioctl_bytes. apply ends_step. intros bc [_ ->]. apply ends_step. intros bs [_ ->].
      apply (ends_ret _ _ (fun b => b = Some (total_lbas g * sec_sz g))).
      rewrite !(proj2 (Z.ltb_lt _ _)) by lia. cbn [andb]. f_equal. apply Z.mod_small. nia.
    + intros ? ->. apply ends_any. intros _. by apply ends_ret.
  - intros ? ->. apply ends_ret. by rewrite Z.div_mul by lia.
Qed.
(** the first sector, entry by entry *)
Definition entries_of (is_gpt : bool) (parts : list PartSpec) : list (list byte) :=
  if is_gpt then let c := Z.min (total_lbas g - 1) 0xFFFFFFFF in [mbr_entry 0 0xEE 1 c c] else map entry_of parts.
Lemma make_sec0_stores is_gpt parts code rnd :
  make_sec0 g is_gpt parts code rnd = sec0 code (if rnd =? 0 then 0x52554658 else rnd) (entries_of is_gpt parts).
Proof.
  unfold make_sec0. cbv zeta. destruct is_gpt; [reflexivity|]. rewrite put_entries_stores. reflexivity.
Qed.
Lemma entries_sized is_gpt parts : Forall (fun b => zlen b = 16) (entries_of is_gpt parts).
Proof.
  destruct is_gpt; [repeat constructor; apply zlen_mbr_entry|]. apply Forall_map, Forall_true. intros p. apply zlen_mbr_entry.
Qed.
Lemma entries_few is_gpt parts : zlen parts <= 4 -> zlen (entries_of is_gpt parts) <= 4.
Proof. destruct is_gpt; [done|]. unfold zlen. cbn. by rewrite length_map. Qed.
Section First.
Variables (is_gpt : bool) (parts : list PartSpec) (code mbr : list byte) (rnd : Z).
Hypothesis Hcode : zlen code = 440.
Hypothesis Hmbr : mbr = ztake (sec_sz g) (make_sec0 g is_gpt parts code rnd).
Hypothesis Hfew : zlen parts <= 4.
Lemma sector_signature : get8 mbr 510 = 0x55 /\ get8 mbr 511 = 0xAA.
Proof.
  destruct Hg as (Hs & _). unfold get8. rewrite Hmbr, !slice_ztake, make_sec0_stores by lia.
  apply sec0_signature; [done|apply entries_sized|by apply entries_few].
Qed.
Lemma sector_field i q m : 0 <= i < 4 -> 0 <= q -> 0 <= m -> q + m <= 16 ->
  slice (446 + i * 16 + q) m mbr = slice q m (default (zeros 16) (entries_of is_gpt parts !! Z.to_nat i)).
Proof.
  intros Hi Hq Hm Hqm. destruct Hg as (Hs & _). rewrite Hmbr, slice_ztake, make_sec0_stores by lia.
  transitivity (slice q m (slice (446 + 16 * i) 16 (sec0 code (if rnd =? 0 then 0x52554658 else rnd) (entries_of is_gpt parts)))).
  { rewrite slice_slice by lia. f_equal. lia. }
  f_equal. destruct (entries_of is_gpt parts !! Z.to_nat i) as [b|] eqn:Hb; cbn [default].
  - replace (446 + 16 * i) with (446 + 16 * Z.of_nat (Z.to_nat i)) by lia.
    apply sec0_entry; [done|apply entries_sized|by apply entries_few|done].
  - apply lookup_ge_None_1 in Hb. apply sec0_rest; [done|apply entries_sized|by apply entries_few|unfold zlen; lia].
Qed.
End First.
Lemma slice_of_none parts i : zlen parts < i -> slice_of parts i = None.
Proof. intros H. unfold slice_of. pose proof (zlen_nonneg parts). rewrite lookup_ge_None_2; [done|unfold zlen in *; lia]. Qed.
Definition parts_ok (is_gpt : bool) (parts : list PartSpec) : Prop :=
  zlen parts <= 4 /\ Forall (if is_gpt then part_ok else mbr_ok) parts.
(** the slice of a GPT header and its table *)
Lemma gpt_slice parts guids guid my other ents fd i : Forall part_ok parts -> zlen parts <= 4 ->
  length guids = length parts -> Forall (fun g => zlen g = 16) guids -> zlen guid = 16 ->
  gpt_at g parts guids guid D my other ents -> 0 <= my < total_lbas g -> 2 <= ents -> ents + entry_sectors g <= total_lbas g -> 1 <= i ->
  ends L (parse_gpt_slice_at_hdr fuel fd (sec_sz g) my i) (fun r => r = slice_of parts i).
Proof.
  intros Hp Hfew Hl Hgs Hgd [Hh Ht] Hmy He Hel Hi. destruct Hg as (Hs & Hdiv & _).
  assert (E : entry_sectors g * sec_sz g = 16384).
  { unfold entry_sectors. pose proof (Z.div_mod 16384 (sec_sz g)). lia. }
  apply (parse_reads fuel L D) with (g := g) (guids := guids) (ents_lba := ents) (my := my) (other := other) (guid := guid);
    try done; try nia. by intros o [].
Qed.
Lemma find_slice_correct is_gpt parts fd bnode i : partitioned g is_gpt parts D -> parts_ok is_gpt parts -> bnode <> "" -> 1 <= i ->
  ends L (find_slice fuel fd bnode (sec_sz g) i) (fun r => r = slice_of parts i).
Proof.
  intros [(code & rnd & Hcode & Hmbr) Hgpt] [Hfew Hparts] Hbn Hi. assert (Hg' := Hg). destruct Hg' as (Hs & Hdiv & Ht).
  assert (4 <= entry_sectors g) by (apply Z.div_le_lower_bound; lia).
  unfold find_slice. eapply ends_bind; [apply (pread_all_reads fuel L D); [by intros o []|lia|lia|lia|nia]|]. intros ? ->.
  set (mbr := slice 0 (sec_sz g) D) in *. destruct (sector_signature _ _ _ _ _ Hcode Hmbr Hfew) as [-> ->].
  change (negb ((0x55 =? 0x55) && (0xAA =? 0xAA))) with false. cbv iota.
  assert (Hfield := sector_field _ _ _ _ _ Hcode Hmbr Hfew). destruct is_gpt.
  - replace (existsb _ _) with true.
    2: { cbn [existsb]. unfold get8. by rewrite (Hfield 0 4 1) by lia. }
    destruct (Hgpt eq_refl) as (guids & guid & Hl & Hgs & Hgd & H1 & H2). unfold disk_last in *.
    eapply ends_bind; [apply (gpt_slice parts guids guid 1 (total_lbas g - 1) 2); try done; lia|]. intros ? ->.
    destruct (slice_of parts i) as [x|] eqn:Ei; [by apply ends_ret|].
    eapply ends_bind; [by apply bytes_steady|]. intros b ->. rewrite (proj2 (Z.ltb_lt 4 _)) by lia. rewrite <- Ei.
    apply (gpt_slice parts guids guid (total_lbas g - 1) 1 (total_lbas g - 1 - entry_sectors g)); try done; lia.
  - assert (Hent : forall k, 0 <= k < 4 -> entries_of false parts !! Z.to_nat k = entry_of <$> (parts !! Z.to_nat k)).
    { intros k Hk. cbn. by rewrite list_lookup_fmap. }
    replace (existsb _ _) with false.
    2: { symmetry. apply not_true_iff_false. rewrite existsb_exists. intros (k & Hk & He%Z.eqb_eq).
         assert (0 <= k < 4) by (cbn in Hk; lia). revert He. unfold get8. rewrite Hfield, Hent by lia.
         destruct (parts !! Z.to_nat k) as [p|] eqn:Hp; [|done]. change (default (zeros 16) (entry_of <$> Some p)) with (entry_of p).
         destruct (Forall_lookup_1 _ _ _ _ Hparts Hp) as (H1 & H2 & _). pose proof (mbr_entry_type (mbr_status p) (mbr_type p) (first_lba p) (last_lba p) (last_lba p - first_lba p + 1)) as E.
         unfold get8 in E. unfold entry_of. rewrite E, Z.mod_small by lia. done. }
    destruct (Z.leb_spec i 4); [|apply ends_ret; by rewrite slice_of_none by lia].
    apply ends_ret. cbv zeta. unfold get8, get_le32. rewrite !Hfield, !Hent by lia. unfold slice_of.
    destruct (parts !! Z.to_nat (i - 1)) as [p|] eqn:Hp; [|done]. change (default (zeros 16) (entry_of <$> Some p)) with (entry_of p). cbn [mbind option_bind].
    destruct (Forall_lookup_1 _ _ _ _ Hparts Hp) as (H1 & H2 & H3 & H4 & H5).
    pose proof (mbr_entry_type (mbr_status p) (mbr_type p) (first_lba p) (last_lba p) (last_lba p - first_lba p + 1)) as E1.
    pose proof (mbr_entry_first (mbr_status p) (mbr_type p) (first_lba p) (last_lba p) (last_lba p - first_lba p + 1)) as E2.
    pose proof (mbr_entry_count (mbr_status p) (mbr_type p) (first_lba p) (last_lba p) (last_lba p - first_lba p + 1)) as E3.
    unfold get8, get_le32 in *. unfold entry_of. rewrite E1, E2, E3, !Z.mod_small by lia.
    rewrite (proj2 (Z.eqb_neq (mbr_type p) 0)), !(proj2 (Z.ltb_lt 0 _)) by lia. done.
Qed.
End Steady.

(** * What the writer leaves *)
Section Writing.
Variables (fuel : nat) (fd : Z).
(** the contents of the disk, as the calls change them *)
Definition disk_step (o : obs) (D : list byte) : list byte :=
  match o with
  | Obs e x =>
      match e in ev X return X -> list byte with
      | Pwrite fd' b off => fun x => match x with inr w => if fd' =? fd then splice off (ztake w b) D else D | inl _ => D end
      | _ => fun _ => D
      end x
  end.
Definition disk_law (o : obs) (D : list byte) : Prop := posix o.
#[local] Abbreviation dfrom := (ofrom disk_step disk_law).
#[local] Abbreviation idle := (unseen disk_step).
#[local] Hint Extern 1 (idle _ _) => (intros ? ?; reflexivity) : rufux.
Lemma pwrite_flows buf off D : 0 <= off ->
  dfrom D (rufux_pwrite_all fuel fd buf off) (fun r D' => r = Ok tt -> D' = splice off buf D).
Proof.
  intros Ho. pose proof (zlen_nonneg buf) as Hz.
  apply (ofrom_loop (fun '(p, o) D' => exists k, 0 <= k <= zlen buf /\ p = zdrop k buf /\ o = off + k /\ D' = splice off (ztake k buf) D)).
  2: { exists 0. split_and!; [lia|done|done|lia|]. by rewrite ztake_neg by lia. }
  intros [p o] D' (k & Hk & -> & -> & ->). destruct (zdrop k buf) as [|b l] eqn:Ep.
  - apply ofrom_ret. intros _. assert (zlen (zdrop k buf) = 0) as E by (by rewrite Ep). rewrite zlen_zdrop in E by lia.
    by rewrite ztake_all by lia.
  - rewrite <- Ep. apply ofrom_step. intros [e|w] Hl; cbn [disk_step].
    { destruct e; apply ofrom_ret; try done. by exists k. }
    cbn in Hl. rewrite Z.eqb_refl. destruct (Z.leb_spec w 0); apply ofrom_ret; [done|]. exists (k + w).
    rewrite zlen_zdrop in Hl by lia. rewrite zdrop_zdrop by lia. split_and!; [lia|lia|done|lia|].
    apply write_turn; [lia..|]. rewrite zlen_zdrop by lia. lia.
Qed.
Lemma zeros_app a b : 0 <= a -> 0 <= b -> zeros a ++ zeros b = zeros (a + b).
Proof. intros. unfold zeros. rewrite <- replicate_add. f_equal. lia. Qed.
Lemma zero_range_flows off len D : 0 <= off -> 0 <= len ->
  dfrom D (zero_range fuel fd off len) (fun r D' => r = Ok tt -> D' = splice off (zeros len) D).
Proof.
  intros Ho Hl.
  apply (ofrom_loop (fun '(o, l) D' => exists k, 0 <= k <= len /\ o = off + k /\ l = len - k /\ D' = splice off (zeros k) D)).
  2: { exists 0. split_and!; [lia|done|lia|lia|done]. }
  intros [o l] D' (k & Hk & -> & -> & ->). destruct (Z.ltb_spec 0 (len - k)).
  - set (chunk := Z.min _ _). assert (0 < chunk <= len - k) by (unfold chunk; lia). cbv zeta.
    eapply ofrom_bind; [apply pwrite_flows; lia|]. intros [[]|m] D2 H2; apply ofrom_ret; [|done]. exists (k + chunk).
    rewrite H2 by done. split_and!; [lia|lia|lia|lia|]. rewrite <- (zeros_app k chunk), <- splice_splice by lia. do 2 f_equal.
    rewrite zlen_zero_bytes; lia.
  - apply ofrom_ret. intros _. by replace len with k by lia.
Qed.
(** a wipe inside the disk keeps its size *)
Lemma wipe_flows off len D : 0 <= off -> 0 <= len -> off + len <= zlen D ->
  dfrom D (zero_range fuel fd off len) (fun r D' => r = Ok tt -> zlen D' = zlen D).
Proof.
  intros. eapply ofrom_mono; [|by apply zero_range_flows]. intros r D' H2 Hr. rewrite H2 by done.
  apply zlen_splice_in; rewrite ?zlen_zero_bytes; lia.
Qed.
Lemma errno_flows what bnode r D : dfrom D (with_errno what bnode r) (fun r' D' => D' = D /\ (r' = Ok tt -> r = Ok tt)).
Proof.
  unfold with_errno. destruct r as [[]|m]; [by apply ofrom_ret|]. apply ofrom_skip; [always_tac|]. intros e. by apply ofrom_ret.
Qed.
(** after the first step, if it succeeded, the second *)
Lemma try_flows {A} (m : io (cres A)) (k : A -> io (cres unit)) D (Q : list byte -> Prop) (R : list byte -> Prop) :
  dfrom D m (fun r D' => (exists a, r = Ok a) -> Q D') ->
  (forall a D', Q D' -> dfrom D' (k a) (fun r D'' => r = Ok tt -> R D'')) -> dfrom D (try m k) (fun r D' => r = Ok tt -> R D').
Proof.
  intros Hm Hk. eapply ofrom_bind; [exact Hm|]. intros [a|e] D' H; [apply Hk, H; eauto|by apply ofrom_ret].
Qed.
Lemma load_440 kind t c : exec (rufux_boot_load_mbr440 fuel kind) t c -> zlen c.1 = 440.
Proof.
  assert (Hb : zlen (builtin440 kind) = 440) by (unfold builtin440; destruct (String.eqb kind "gpt"); vm_compute; reflexivity).
  unfold rufux_boot_load_mbr440. cbv zeta. intros (t1 & p & t2 & -> & _ & H)%exec_bind. destruct p as [p|]; [|by destruct H as [_ ->]].
  destruct H as (f & t3 & -> & H). cbn [bind] in H. destruct f as [e|f]; [by destruct H as [_ ->]|].
  apply exec_bind in H as (t4 & got & t5 & -> & _ & (x & t6 & -> & H)). cbn [bind] in H.
  destruct got as [e|l]; [by destruct H as [_ ->]|]. destruct (Z.eqb_spec (zlen l) 440); by destruct H as [_ ->].
Qed.
(** ** The steps of the writer *)
Variables (bnode : string) (g : geometry).
Hypothesis Hg : geometry_ok g.
Hypothesis Hroom : 68 <= total_lbas g.
Definition inside (p : PartSpec) : Prop := 0 <= first_lba p <= last_lba p /\ last_lba p < total_lbas g.
Lemma wipe_tables_flows D : total_lbas g * sec_sz g <= zlen D ->
  dfrom D (wipe_tables fuel fd bnode g) (fun r D' => r = Ok tt -> zlen D' = zlen D).
Proof.
  intros HD. destruct Hg as (Hs & _). unfold wipe_tables. cbv zeta.
  eapply ofrom_bind; [apply wipe_flows; [lia|nia|nia]|]. intros r D1 H1.
  apply (try_flows _ _ _ (fun D' => zlen D' = zlen D)).
  { eapply ofrom_mono; [|apply errno_flows]. intros r' D' [-> Hr] [[] ->]. by apply H1, Hr. }
  intros [] D2 H2. unfold disk_last. destruct (Z.ltb_spec 34 (total_lbas g)); [|by apply ofrom_ret].
  eapply ofrom_bind; [apply wipe_flows; [nia|nia|rewrite H2; nia]|]. intros r2 D3 H3.
  eapply ofrom_mono; [|apply errno_flows]. intros r' D' [-> Hr] ->. rewrite <- H2. by apply H3, Hr.
Qed.
Lemma wipe_part_flows i p D : inside p -> total_lbas g * sec_sz g <= zlen D ->
  dfrom D (wipe_part fuel fd bnode g i p) (fun r D' => r = Ok tt -> zlen D' = zlen D).
Proof.
  intros [Hp Hl] HD. destruct Hg as (Hs & _). unfold wipe_part. cbv zeta.
  set (off := first_lba p * sec_sz g). set (len := (last_lba p - first_lba p + 1) * sec_sz g).
  assert (0 <= off) by (unfold off; nia). assert (0 <= len) by (unfold len; nia).
  assert (off + len <= zlen D) by (unfold off, len; nia). clearbody off len.
  destruct (Z.leb_spec len (2 * 1048576)).
  - eapply ofrom_bind; [by apply wipe_flows|]. intros [[]|m] D' H'; apply ofrom_ret; [|done]. intros _. by apply H'.
  - eapply ofrom_bind with (P := fun r D' => r = Ok tt -> zlen D' = zlen D).
    + apply (try_flows _ _ _ (fun D' => zlen D' = zlen D)).
      { eapply ofrom_mono; [|apply wipe_flows; lia]. intros r D' H' [[] ->]. by apply H'. }
      intros [] D' H'. rewrite <- H'. apply wipe_flows; rewrite ?H'; lia.
    + intros [[]|m] D' H'; apply ofrom_ret; [|done]. intros _. by apply H'.
Qed.
Lemma wipe_parts_flows i l D : Forall inside l -> total_lbas g * sec_sz g <= zlen D ->
  dfrom D (wipe_parts fuel fd bnode g i l) (fun r D' => r = Ok tt -> zlen D' = zlen D).
Proof.
  intros Hl. revert i D; induction Hl as [|p l Hp Hl IH]; intros i D HD; [by apply ofrom_ret|]. cbn [wipe_parts].
  apply (try_flows _ _ _ (fun D' => zlen D' = zlen D)).
  { eapply ofrom_mono; [|by apply wipe_part_flows]. intros r D' H' [[] ->]. by apply H'. }
  intros [] D' H'. rewrite <- H'. apply IH. by rewrite H'.
Qed.
(** the four writes of a GPT *)
Definition gpt_writes (phdr ents bhdr : list byte) : list (Z * Z * list byte) :=
  let sec := sec_sz g in let last := disk_last g in
  [(sec, sec, phdr); (2 * sec, 16384, ents); ((last - entry_sectors g) * sec, 16384, ents); (last * sec, sec, bhdr)].
Lemma gpt_writes_slices phdr ents bhdr D : zlen phdr = sec_sz g -> zlen bhdr = sec_sz g -> zlen ents = 16384 ->
  total_lbas g * sec_sz g <= zlen D -> let D' := pokes (gpt_writes phdr ents bhdr) D in
  zlen D' = zlen D /\ slice 0 (sec_sz g) D' = slice 0 (sec_sz g) D /\ slice (sec_sz g) (sec_sz g) D' = phdr /\
  slice (2 * sec_sz g) 16384 D' = ents /\ slice ((disk_last g - entry_sectors g) * sec_sz g) 16384 D' = ents /\
  slice (disk_last g * sec_sz g) (sec_sz g) D' = bhdr.
Proof.
  intros Hp Hb He HD D'. destruct Hg as (Hs & Hdiv & Ht). unfold disk_last in *.
  assert (E : entry_sectors g * sec_sz g = 16384).
  { unfold entry_sectors. pose proof (Z.div_mod 16384 (sec_sz g)). lia. }
  assert (Hlast : 2 * sec_sz g + 16384 <= (total_lbas g - 1 - entry_sectors g) * sec_sz g) by nia.
  assert (Hend : (total_lbas g - 1 - entry_sectors g) * sec_sz g + 16384 = (total_lbas g - 1) * sec_sz g) by lia.
  assert (Htot : (total_lbas g - 1) * sec_sz g + sec_sz g = total_lbas g * sec_sz g) by lia.
  assert (Hfits : Forall (fits (zlen D)) (gpt_writes phdr ents bhdr)).
  { unfold gpt_writes, disk_last. cbv zeta. repeat constructor; cbn [fst snd]; try done; lia. }
  subst D'. split_and!; [by apply zlen_pokes| | | | |].
  1: { apply (pokes_other (zlen D)); try done; [lia|]. unfold gpt_writes, disk_last. repeat constructor; unfold apart; cbn [fst snd]; lia. }
  1: apply (pokes_get (zlen D) _ _ 0). 5: apply (pokes_get (zlen D) _ _ 1). 9: apply (pokes_get (zlen D) _ _ 2).
  13: apply (pokes_get (zlen D) _ _ 3). all: try done.
  all: unfold gpt_writes, disk_last; cbn [drop]; repeat constructor; unfold apart; cbn [fst snd]; lia.
Qed.
Lemma disk_posix t D : abides disk_step disk_law t D -> Forall posix t.
Proof. revert D; induction t as [|o t IH]; intros D; [done|]. intros [Ho Ht]. constructor; [done|by eapply IH]. Qed.
(** a part that writes nothing, and what is known of its result *)
Lemma idle_flows {A B} (m : io A) (f : A -> io B) D (P : A -> Prop) Q :
  always idle m -> ends posix m P -> (forall a, P a -> dfrom D (f a) Q) -> dfrom D (bind m f) Q.
Proof.
  intros Hi He Hf. apply ofrom_bind with (P := fun a D' => D' = D /\ P a).
  - intros t a Hx Hl. split; [by apply (ofrom_unseen _ _ Hi t a Hx Hl)|]. apply (He t a Hx). by eapply disk_posix.
  - intros a D' [-> Ha]. by apply Hf.
Qed.
Lemma guid_idle : always idle gen_random_guid_v4.
Proof. unfold gen_random_guid_v4. always_tac. Qed.
#[local] Hint Resolve guid_idle : rufux.
Lemma entries_idle parts : always idle (make_entries parts).
Proof.
  unfold make_entries. generalize 0 (zeros (128 * 128)). induction parts as [|p l IH]; intros off d; [exact I|]. cbn [fill_entries].
  apply always_bind; [auto with rufux|]. intros guid. apply IH.
Qed.
Lemma load_idle kind : always idle (rufux_boot_load_mbr440 fuel kind).
Proof.
  unfold rufux_boot_load_mbr440, find_external_mbr_file, is_valid_mbr_bin, rufux_macos_exe_dir, realpath, rufux_read_full. always_tac.
Qed.
Lemma write_gpt_flows parts D : Forall part_ok parts -> zlen parts <= 4 -> total_lbas g * sec_sz g <= zlen D ->
  mbr_at g true parts D ->
  dfrom D (write_gpt fuel fd bnode g parts) (fun r D' => r = Ok tt -> zlen D' = zlen D /\ partitioned g true parts D').
Proof.
  intros Hp Hfew HD (code & rnd & Hcode & Hmbr). assert (Hg' := Hg). destruct Hg' as (Hs & Hdiv & Ht). unfold write_gpt.
  assert (Htyped : Forall typed parts) by (refine (List.Forall_impl _ _ Hp); by intros p []).
  apply (idle_flows _ _ _ (fun ents => exists gs, length gs = length parts /\ Forall (fun g => zlen g = 16) gs /\ ents = table parts gs)).
  { apply entries_idle. } { intros t ents He Hpx. by eapply fill_entries_stores. }
  intros ents (guids & Hl & Hgs & ->). set (tbl := table parts guids). cbv zeta.
  apply (idle_flows _ _ _ (fun guid => zlen guid = 16)); [apply guid_idle|intros t guid; apply guid_length|]. intros guid Hgd.
  assert (Hz : zlen tbl = 16384) by (apply zlen_table; [done..|lia]).
  change (ztake (sec_sz g) (make_header g 1 (disk_last g) 2 (crc32_ieee tbl) guid)) with (header g 1 (disk_last g) 2 (crc32_ieee tbl) guid (sec_sz g)).
  change (ztake (sec_sz g) (make_header g (disk_last g) 1 (disk_last g - entry_sectors g) (crc32_ieee tbl) guid))
    with (header g (disk_last g) 1 (disk_last g - entry_sectors g) (crc32_ieee tbl) guid (sec_sz g)).
  set (phdr := header g 1 _ _ _ _ _). set (bhdr := header g (disk_last g) _ _ _ _ _).
  assert (Hzp : zlen phdr = sec_sz g) by by apply zlen_header. assert (Hzb : zlen bhdr = sec_sz g) by by apply zlen_header.
  assert (Hback : 0 <= disk_last g - entry_sectors g) by (unfold disk_last; lia).
  assert (Hdl : 0 <= disk_last g) by (pose proof (Z.div_pos 16384 (sec_sz g)); unfold entry_sectors, disk_last in *; lia).
  eapply ofrom_bind with (P := fun r D' => r = Ok tt -> D' = pokes (gpt_writes phdr tbl bhdr) D).
  - rewrite Z.mul_1_l.
    apply (try_flows _ _ _ (fun D' => D' = splice (sec_sz g) phdr D)).
    { eapply ofrom_mono; [|apply pwrite_flows; lia]. intros r D' H' [[] ->]. by apply H'. }
    intros [] D1 ->. apply (try_flows _ _ _ (fun D' => D' = splice (2 * sec_sz g) tbl (splice (sec_sz g) phdr D))).
    { eapply ofrom_mono; [|apply pwrite_flows; lia]. intros r D' H' [[] ->]. by apply H'. }
    intros [] D2 ->. apply (try_flows _ _ _ (fun D' => D' = splice ((disk_last g - entry_sectors g) * sec_sz g) tbl
      (splice (2 * sec_sz g) tbl (splice (sec_sz g) phdr D)))).
    { eapply ofrom_mono; [|apply pwrite_flows; nia]. intros r D' H' [[] ->]. by apply H'. }
    intros [] D3 ->. apply pwrite_flows. nia.
  - intros r D' H'. eapply ofrom_mono; [|apply errno_flows]. intros r' D'' [-> Hr] Hok. specialize (H' (Hr Hok)). subst D'.
    destruct (gpt_writes_slices phdr tbl bhdr D Hzp Hzb Hz HD) as (Hlen & H0 & H1 & H2 & H3 & H4).
    split; [done|]. split.
    + exists code, rnd. by rewrite H0.
    + intros _. exists guids, guid. split_and!; try done. unfold gpt_at. cbv zeta. by rewrite Z.mul_1_l.
Qed.
(** everything between opening the disk and closing it *)
Lemma write_disk_flows is_gpt parts D : parts_ok is_gpt parts -> Forall inside parts -> total_lbas g * sec_sz g <= zlen D ->
  dfrom D (write_disk fuel fd bnode g is_gpt parts) (fun r D' => r = Ok tt -> zlen D' = zlen D /\ partitioned g is_gpt parts D').
Proof.
  intros [Hfew Hp] Hin HD. assert (Hg' := Hg). destruct Hg' as (Hs & Hdiv & Ht). unfold write_disk.
  apply (try_flows _ _ _ (fun D' => zlen D' = zlen D)).
  { eapply ofrom_mono; [|by apply wipe_tables_flows]. intros r D' H' [[] ->]. by apply H'. }
  intros [] D1 H1. apply (try_flows _ _ _ (fun D' => zlen D' = zlen D)).
  { eapply ofrom_mono; [|apply wipe_parts_flows; [done|lia]]. intros r D' H' [[] ->]. rewrite <- H1. by apply H'. }
  intros [] D2 H2. apply (idle_flows _ _ _ (fun c => zlen c.1 = 440)); [apply load_idle|intros t c Hc _; by eapply load_440|].
  intros [code src] Hcode. cbn [fst]. cbn [fst] in Hcode. apply ofrom_skip; [auto with rufux|]. intros rnd.
  set (s0 := ztake (sec_sz g) (make_sec0 g is_gpt parts code rnd)).
  assert (Hz0 : zlen s0 = sec_sz g).
  { unfold s0. rewrite make_sec0_stores, zlen_ztake, zlen_sec0 by first [lia|done|apply entries_sized|by apply entries_few]. lia. }
  eapply ofrom_bind; [apply pwrite_flows; lia|]. intros r D3 H3.
  apply (try_flows _ _ _ (fun D' => zlen D' = zlen D /\ mbr_at g is_gpt parts D')).
  { eapply ofrom_mono; [|apply errno_flows]. intros r' D' [-> Hr] [[] ->]. rewrite H3 by by apply Hr. split.
    - rewrite zlen_splice_in by nia. done.
    - exists code, rnd. split; [done|]. rewrite <- Hz0 at 1. by apply slice_splice. }
  intros [] D4 [H4 Hm]. apply (try_flows _ _ _ (fun D' => zlen D' = zlen D /\ partitioned g is_gpt parts D')).
  { destruct is_gpt.
    - eapply ofrom_mono; [|apply write_gpt_flows; [done|done|lia|done]]. intros r' D' H' [[] ->]. rewrite <- H4. by apply H'.
    - apply ofrom_ret. intros _. split; [done|]. by split. }
  intros [] D5 H5. apply ofrom_skip; [auto with rufux|]. intros [e|]; apply ofrom_ret; done.
Qed.
End Writing.

(** * The layouts *)
Lemma sector_cases s : 512 <= s <= 4096 -> Z.land s (s - 1) = 0 -> s ∈ [512; 1024; 2048; 4096].
Proof.
  intros Hs Hl.
  assert (H : forallb (fun n => let z := Z.of_nat n in negb (Z.land z (z - 1) =? 0) || bool_decide (z ∈ [512; 1024; 2048; 4096])) (seq 512 3585) = true)
    by (vm_compute; reflexivity).
  rewrite forallb_forall in H. specialize (H (Z.to_nat s)). rewrite in_seq, Z2Nat.id in H by lia. cbv zeta in H.
  specialize (H ltac:(lia)). rewrite Hl, Z.eqb_refl in H. by apply bool_decide_eq_true in H.
Qed.
(** the guards, as numbers *)
Definition sized (g : geometry) (layout : string) (bios_part : bool) : Prop :=
  sec_sz g ∈ [512; 1024; 2048; 4096] /\ g_mib g * spm g <= total_lbas g /\ 2 * spm g + 2 * (entry_sectors g + 2) <= total_lbas g /\
  (layout = "main+uefintfs" -> 64 <= g_mib g) /\ (layout = "single" -> bios_part = true -> 64 <= g_mib g) /\
  (layout = "esp+main" -> 515 + (if bios_part then 2 else 0) <= g_mib g).
Section Layouts.
Variables (g : geometry) (layout : string) (is_gpt bios_part : bool) (mt : Z).
Hypothesis Hsized : sized g layout bios_part.
Hypothesis Hlayout : layout ∈ ["single"; "esp+main"; "main+uefintfs"].
Hypothesis Hbios : bios_part = true -> is_gpt = true.
Hypothesis Hmt : mt ∈ [0x0C; 0x0E; 0x07; 0x83].
Lemma sizes : spm g * sec_sz g = 1048576 /\ entry_sectors g * sec_sz g = 16384 /\ 256 <= spm g <= 2048 /\ 4 <= entry_sectors g <= 32 /\
  512 <= sec_sz g <= 4096 /\ 16384 mod sec_sz g = 0 /\ first_usable_lba g <= spm g.
Proof.
  destruct Hsized as [Hs _]. unfold first_usable_lba, spm, entry_sectors. apply list_elem_of_In in Hs.
  destruct Hs as [<-|[<-|[<-|[<-|[]]]]]; vm_compute; intuition congruence.
Qed.
Lemma geometry_sized : geometry_ok g /\ 68 <= total_lbas g.
Proof. destruct sizes as (_ & _ & ? & ? & ? & ? & _). destruct Hsized as (_ & _ & ? & _). unfold geometry_ok. lia. Qed.
Definition end_of (p : PartSpec) : Z := last_lba p + 1.
(** each partition starts where the one before ends, the first one at a MiB *)
Fixpoint in_a_row (from : Z) (l : list PartSpec) : Prop :=
  match l with [] => True | p :: l => first_lba p = from /\ in_a_row (end_of p) l end.
Definition kind_ok (p : PartSpec) : Prop :=
  typed p /\ forallb (fun b => u8 b =? 0) (gpt_type p) = false /\ (is_gpt = false -> 0 < mbr_type p < 256 /\ mbr_type p <> 0xEE).
#[local] Abbreviation parts := (make_layout g is_gpt bios_part mt layout).
Lemma layout_kinds : Forall kind_ok parts.
Proof.
  assert (Hm : 0 < mt < 256 /\ mt <> 0xEE) by (apply list_elem_of_In in Hmt; cbn in Hmt; lia).
  unfold make_layout, layout_uefintfs, layout_single, layout_esp, bios_at.
  repeat case_match; cbn [app]; repeat (apply List.Forall_cons || apply List.Forall_nil); unfold kind_ok, typed; cbn [gpt_type mbr_type];
    split_and!; try done; intros ->;
    first [split; [lia|done]|exfalso; destruct bios_part; [by specialize (Hbios eq_refl)|done]].
Qed.
Lemma layout_row : in_a_row (spm g) parts /\ zlen parts <= 3 /\ parts <> [].
Proof.
  unfold make_layout, layout_uefintfs, layout_single, layout_esp, bios_at.
  repeat case_match; cbn [app in_a_row]; unfold end_of; cbn [first_lba last_lba]; split_and!; try done; lia.
Qed.
(** the end of every partition *)
Lemma layout_ends : Forall (fun p => first_lba p <= last_lba p /\ last_lba p <= if is_gpt then last_usable_lba g else disk_last g) parts.
Proof.
  destruct sizes as (_ & _ & Hspm & Hes & _). destruct Hsized as (_ & Hmib & Hroom & Hu & Hsb & He).
  assert (Hend : forall f, spm g <= f -> f <= disk_last g - entry_sectors g - 1 ->
    f <= end_lba g is_gpt f <= (if is_gpt then last_usable_lba g else disk_last g)).
  { intros f Hf1 Hf2. unfold end_lba, last_usable_lba, disk_last in *. destruct is_gpt; cbn [negb andb]; [lia|].
    destruct (Z.ltb_spec 0xFFFFFFFF (total_lbas g - 1 - f + 1)); lia. }
  assert (Hin : forall n, 1 <= n -> n + 1 <= g_mib g -> n * spm g <= disk_last g - entry_sectors g - 1).
  { intros n Hn1 Hn2. unfold disk_last. nia. }
  unfold last_usable_lba, disk_last in *. apply list_elem_of_In in Hlayout.
  destruct Hlayout as [<-|[<-|[<-|[]]]]; unfold make_layout; cbn [String.eqb Ascii.eqb Bool.eqb].
  - change (String.eqb "single" "main+uefintfs") with false. change (String.eqb "single" "single") with true. cbv iota. unfold layout_single.
    destruct bios_part; cbn [negb].
    + rewrite Hbios by done. specialize (Hsb eq_refl eq_refl). pose proof (Hin (g_mib g - 1)). unfold bios_at.
      repeat (apply List.Forall_cons || apply List.Forall_nil); cbn [first_lba last_lba]; nia.
    + repeat (apply List.Forall_cons || apply List.Forall_nil); cbn [first_lba last_lba]. apply Hend; lia.
  - change (String.eqb "esp+main" "main+uefintfs") with false. change (String.eqb "esp+main" "single") with false. cbv iota. unfold layout_esp.
    specialize (He eq_refl). destruct bios_part; cbn [negb].
    + rewrite Hbios by done. pose proof (Hin (g_mib g - 1)). unfold bios_at.
      repeat (apply List.Forall_cons || apply List.Forall_nil); cbn [first_lba last_lba]; nia.
    + pose proof (Hin 514). repeat (apply List.Forall_cons || apply List.Forall_nil); cbn [first_lba last_lba].
      * destruct is_gpt; lia.
      * replace (spm g + 512 * spm g - 1 + 1) with (513 * spm g) by lia. apply Hend; lia.
  - change (String.eqb "main+uefintfs" "main+uefintfs") with true. cbv iota. unfold layout_uefintfs, bios_at. specialize (Hu eq_refl).
    pose proof (Hin (g_mib g - 1)). destruct bios_part; [rewrite Hbios by done|destruct is_gpt]; cbn [app];
      repeat (apply List.Forall_cons || apply List.Forall_nil); cbn [first_lba last_lba]; nia.
Qed.
Lemma row_above from l : in_a_row from l -> Forall (fun p => first_lba p <= last_lba p) l -> Forall (fun p => from <= first_lba p) l.
Proof.
  revert from; induction l as [|p l IH]; intros from; [constructor|]. cbn. intros [<- Hr] [Hp Hl]%Forall_cons_1. constructor; [lia|].
  refine (List.Forall_impl _ _ (IH _ Hr Hl)). unfold end_of. intros q Hq. lia.
Qed.
Lemma check_parts_none dst i l : check_parts g is_gpt dst i l = None ->
  is_gpt = false -> Forall (fun p => first_lba p < 2 ^ 32 /\ last_lba p - first_lba p + 1 < 2 ^ 32) l.
Proof.
  intros H Hf. rewrite Hf in H. revert i H; induction l as [|p l IH]; intros i; [constructor|]. cbn [check_parts]. unfold check_part.
  destruct (_ <? _); [done|]. cbv zeta. destruct (Z.ltb_spec 0xFFFFFFFF (first_lba p)); [done|]. cbn [orb].
  destruct (Z.ltb_spec 0xFFFFFFFF (last_lba p - first_lba p + 1)); [done|]. intros H'. constructor; [lia|]. by eapply IH.
Qed.
Lemma layout_ok dst : check_parts g is_gpt dst 1 parts = None -> total_lbas g * sec_sz g < 2 ^ 63 ->
  parts_ok is_gpt parts /\ Forall (inside g) parts.
Proof.
  intros Hc Hsmall. destruct layout_row as (Hrow & Hthree & _). assert (Hends := layout_ends). assert (Hkinds := layout_kinds).
  destruct sizes as (_ & _ & Hspm & Hes & Hs & _). pose proof Hsized as (_ & _ & Hroom & _).
  assert (Hle : Forall (fun p => first_lba p <= last_lba p) parts) by (refine (List.Forall_impl _ _ Hends); by intros p []).
  assert (Hab := row_above _ _ Hrow Hle). assert (Hck := check_parts_none _ _ _ Hc). revert Hends Hkinds Hab Hck.
  unfold parts_ok. intros Hends Hkinds Hab Hck. assert (Hall : forall p, In p parts -> (if is_gpt then part_ok p else mbr_ok p) /\ inside g p).
  { intros p Hp. rewrite Forall_forall in Hends, Hkinds, Hab. specialize (Hends p Hp). specialize (Hkinds p Hp). specialize (Hab p Hp).
    destruct Hkinds as (K1 & K2 & K3). cbn in Hab. unfold last_usable_lba, disk_last in Hends. unfold part_ok, mbr_ok, inside.
    destruct is_gpt; [split_and!; try done; nia|]. specialize (Hck eq_refl). rewrite Forall_forall in Hck. specialize (Hck p Hp). cbn in Hck.
    destruct (K3 eq_refl). split_and!; try done; lia. }
  split_and!; [lia|destruct is_gpt; apply Forall_forall; intros p Hp; by apply Hall|apply Forall_forall; intros p Hp; by apply Hall].
Qed.
End Layouts.
Lemma mbr_type_cases fs : mbr_type_of fs ∈ [0x0C; 0x0E; 0x07; 0x83].
Proof. unfold mbr_type_of. repeat case_match; apply list_elem_of_In; cbn; tauto. Qed.
Lemma size_up_sized dst o bios_part t g total : exec (size_up dst o bios_part) t (Ok (g, total)) ->
  check_room dst o bios_part g total = Ok tt -> sized g (po_layout o) bios_part.
Proof.
  unfold size_up. intros (t1 & b & t2 & -> & _ & (t3 & s & t4 & -> & _ & H)%exec_bind)%exec_bind. cbv zeta in H.
  destruct (Z.ltb_spec s 512); [by destruct H as [_ [=]]|]. destruct (Z.ltb_spec 4096 s); [by destruct H as [_ [=]]|].
  cbn [orb] in H. destruct (Z.eqb_spec (Z.land s (s - 1)) 0) as [Hl|]; [|by destruct H as [_ [=]]]. cbn [negb orb] in H.
  destruct (negb (1048576 mod s =? 0)); [by destruct H as [_ [=]]|].
  destruct (String.eqb (po_layout o) "main+uefintfs" && _) eqn:Hu; [by destruct H as [_ [=]]|].
  destruct (String.eqb (po_layout o) "single" && bios_part && _) eqn:Hsb; [by destruct H as [_ [=]]|].
  destruct H as [_ [= -> ->]]. unfold check_room. cbv zeta. cbn [g_mib].
  destruct (String.eqb (po_layout o) "esp+main" && _) eqn:He; [done|].
  set (g := Geometry s (b / s) (Z.shiftr b 20)). destruct (Z.ltb_spec (total_lbas g) (2 * spm g + 2 * (entry_sectors g + 2))); [done|].
  intros _. assert (Hin := sector_cases s ltac:(lia) Hl). unfold sized. split_and!; [done| |lia| | |].
  - unfold spm. cbn [sec_sz total_lbas g_mib g]. rewrite Z.shiftr_div_pow2 by lia. change (2 ^ 20) with 1048576.
    assert (Hd : 1048576 / s * s = 1048576) by (apply list_elem_of_In in Hin; destruct Hin as [<-|[<-|[<-|[<-|[]]]]]; reflexivity).
    apply Z.div_le_lower_bound; [lia|]. replace (s * (b / 1048576 * (1048576 / s))) with (b / 1048576 * (1048576 / s * s)) by lia.
    rewrite Hd. pose proof (Z.div_mod b 1048576). pose proof (Z.mod_pos_bound b 1048576). lia.
  - intros E. rewrite E in Hu. cbn in Hu. apply Z.ltb_ge in Hu. exact Hu.
  - intros E Hb. rewrite E, Hb in Hsb. cbn in Hsb. apply Z.ltb_ge in Hsb. exact Hsb.
  - intros E. rewrite E in He. cbn in He. apply Z.ltb_ge in He. exact He.
Qed.

(** * Whole runs *)
Lemma stake_nonempty n s : s <> "" -> (0 < n)%nat -> stake n s <> "".
Proof. destruct s, n; cbn; [done|done|lia|done]. Qed.
Lemma block_node_nonempty disk : disk <> "" -> rufux_macos_block_node disk PATH_MAX <> "".
Proof.
  intros Hd. unfold rufux_macos_block_node, snprintf. apply stake_nonempty; [|unfold PATH_MAX; lia].
  apply stake_nonempty; [|unfold PATH_MAX; lia]. by destruct (_ && _).
Qed.
Lemma posix_abides fd t D : Forall posix t -> abides (disk_step fd) disk_law t D.
Proof. intros H. revert D; induction H as [|o t Ho Ht IH]; intros D; [done|]. split; [done|apply IH]. Qed.
(** finding a slice on a disk with tables *)
Lemma offset_correct fuel g is_gpt parts D disk i : geometry_ok g -> total_lbas g * sec_sz g <= zlen D < 2 ^ 63 ->
  partitioned g is_gpt parts D -> parts_ok is_gpt parts -> disk <> "" -> 1 <= i ->
  ends (steady g D) (rufux_part_offset_sectors fuel disk i) (fun r => r = slice_of parts i).
Proof.
  intros Hg Hsize Hp Hok Hd Hi. assert (Hg' := Hg). destruct Hg' as (Hs & _). unfold rufux_part_offset_sectors.
  apply String.eqb_neq in Hd as E. rewrite E, (proj2 (Z.ltb_ge i 1)) by lia. cbn [orb]. cbv zeta.
  eapply ends_bind; [apply sector_steady; [done|by apply block_node_nonempty]|]. intros ? ->.
  rewrite (proj2 (Z.ltb_ge (sec_sz g) 512)), (proj2 (Z.ltb_ge 4096 (sec_sz g))) by lia. cbn [orb].
  apply ends_step. intros x [_ [fd ->]]. eapply ends_bind; [eapply find_slice_correct; try done; by apply block_node_nonempty|]. intros ? ->.
  apply ends_any. intros _. by apply ends_ret.
Qed.
(** what a run that succeeded went through *)
Definition is_gpt_opt (o : RufuxPartOpts) : bool := String.eqb (scheme_of (po_scheme o)) "gpt".
Definition bios_opt (o : RufuxPartOpts) : bool := po_bios_boot o && is_gpt_opt o.
Definition parts_of (o : RufuxPartOpts) (g : geometry) : list PartSpec :=
  make_layout g (is_gpt_opt o) (bios_opt o) (mbr_type_of (po_fs_main o)) (po_layout o).
Lemma partition_steps fuel dst o t : exec (rufux_partition fuel dst o) t (Ok tt) -> po_dry_run o = false ->
  po_yes o = true /\ po_layout o ∈ ["single"; "esp+main"; "main+uefintfs"] /\
  exists g ug fd t0 t1 t2, t = ug ++ t0 ++ t1 ++ t2 /\
    exec (rufux_check_target dst (po_allow_fixed o) (po_allow_file o)) ug (Ok tt) /\
    sized g (po_layout o) (bios_opt o) /\ check_parts g (is_gpt_opt o) dst 1 (parts_of o g) = None /\
    Obs (Open (rufux_macos_block_node dst PATH_MAX) O_RDWR) (inr fd) ∈ t0 /\
    exec (write_disk fuel fd (rufux_macos_block_node dst PATH_MAX) g (is_gpt_opt o) (parts_of o g)) t1 (Ok tt) /\
    Obs (CloseRc fd) None ∈ t2.
Proof.
  unfold rufux_partition. cbv zeta. intros H Hdry. rewrite Hdry in H.
  destruct (String.eqb dst ""); [by destruct H as [_ [=]]|]. destruct (_ && negb (String.eqb (scheme_of _) "dos")); [by destruct H as [_ [=]]|].
  destruct (negb (String.eqb (po_layout o) "single") && _ && _) eqn:Hlay; [by destruct H as [_ [=]]|].
  destruct (po_yes o); [|by destruct H as [_ [=]]]. cbn [negb andb] in H.
  apply exec_try in H as (ug & [] & u & -> & Hug & H). apply exec_try in H as (u1 & [g total] & u2 & -> & Hsz & H). cbn [fst snd] in H.
  destruct (check_room _ _ _ _ _) as [[]|m] eqn:Hroom; [|by destruct H as [_ [=]]].
  unfold partition_real in H. cbv zeta in H. change (make_layout g _ _ _ _) with (parts_of o g) in H. fold (is_gpt_opt o) in H.
  destruct (check_parts _ _ _ _ _) eqn:Hck; [by destruct H as [_ [=]]|]. destruct H as (st & v & -> & H). cbn [bind] in H.
  destruct st as [st|]; [|by destruct H as (?&?&->&_&[=])].
  apply exec_try in H as (v1 & [] & v2 & -> & Hu & H). destruct H as (f & v3 & -> & H). cbn [bind] in H.
  destruct f as [e|fd]; [by destruct H as [_ [=]]|]. apply exec_bind in H as (v4 & rc & v5 & -> & Hw & H).
  destruct H as (c & v6 & -> & H). cbn [bind] in H. apply exec_bind in H as (v7 & [] & v8 & -> & _ & [-> H]).
  assert (rc = Ok tt /\ c = None) as [-> ->].
  { destruct c as [e|], rc as [[]|m]; try done; split; congruence. }
  split; [done|]. split.
  { apply list_elem_of_In. cbn. destruct (String.eqb_spec (po_layout o) "single"); [by left|].
    destruct (String.eqb_spec (po_layout o) "esp+main"); [by right; left|].
    destruct (String.eqb_spec (po_layout o) "main+uefintfs"); [by right; right; left|]. done. }
  exists g, ug, fd, (u1 ++ Obs (Stat dst) (Some st) :: v1 ++ [Obs (Open (rufux_macos_block_node dst PATH_MAX) O_RDWR) (inr fd)]), v4.
  eexists. split_and!; [|done|by eapply size_up_sized|done| |done|by left].
  - rewrite app_nil_r. by rewrite <- ?app_assoc; cbn; rewrite <- ?app_assoc.
  - apply elem_of_app; right. right. apply elem_of_app; right. by left.
Qed.

(** what it left *)
Definition wrote_tables (dst : string) (o : RufuxPartOpts) (g : geometry) (fd : Z) (t0 t1 : list obs) : Prop :=
  geometry_ok g /\ Obs (Open (rufux_macos_block_node dst PATH_MAX) O_RDWR) (inr fd) ∈ t0 /\
  in_a_row (spm g) (parts_of o g) /\ spm g * sec_sz g = 2 ^ 20 /\
  Forall (fun p => first_lba p <= last_lba p <= if is_gpt_opt o then last_usable_lba g else disk_last g) (parts_of o g) /\
  forall D, total_lbas g * sec_sz g <= zlen D < 2 ^ 63 -> let D' := observe (disk_step fd) t1 D in
    zlen D' = zlen D /\ parts_ok (is_gpt_opt o) (parts_of o g) /\ partitioned g (is_gpt_opt o) (parts_of o g) D'.
Lemma partition_wrote fuel dst o t : exec (rufux_partition fuel dst o) t (Ok tt) -> po_dry_run o = false -> Forall posix t ->
  po_yes o = true /\ exists g ug fd t0 t1 t2, t = ug ++ t0 ++ t1 ++ t2 /\
    exec (rufux_check_target dst (po_allow_fixed o) (po_allow_file o)) ug (Ok tt) /\ wrote_tables dst o g fd t0 t1.
Proof.
  intros H Hdry Hpx. destruct (partition_steps _ _ _ _ H Hdry) as (Hy & Hlay & g & ug & fd & t0 & t1 & t2 & -> & Hug & Hs & Hck & Hop & Hw & _).
  assert (Hbios : bios_opt o = true -> is_gpt_opt o = true) by (unfold bios_opt; destruct (is_gpt_opt o); [done|by rewrite andb_false_r]).
  assert (Hmt := mbr_type_cases (po_fs_main o)). split; [done|]. exists g, ug, fd, t0, t1, t2. split; [done|]. split; [done|].
  destruct (layout_row g (po_layout o) (is_gpt_opt o) (bios_opt o) (mbr_type_of (po_fs_main o)) Hs Hbios) as [Hrow _].
  destruct (sizes g (po_layout o) (bios_opt o) Hs) as (Hspm & _).
  destruct (geometry_sized g (po_layout o) (bios_opt o) Hs) as [Hg H68].
  unfold wrote_tables. split_and!; [done|done|done|done|by apply layout_ends|].
  intros D HD. destruct (layout_ok g (po_layout o) (is_gpt_opt o) (bios_opt o) _ Hs Hlay Hbios Hmt dst Hck ltac:(lia)) as [Hok Hin].
  apply Forall_app in Hpx as [_ [_ [Hp1 _]%Forall_app]%Forall_app].
  destruct (write_disk_flows fuel fd _ g Hg H68 (is_gpt_opt o) (parts_of o g) D Hok Hin ltac:(lia) t1 _ Hw (posix_abides _ _ _ Hp1) eq_refl) as [Hz Hpart].
  by split_and!.
Qed.


(** An image of 4164 sectors as one GPT partition. *)
Definition image_env : oracle := fun X e =>
  match e in ev X return X with
  | Realpath p => inr p | Stat _ => Some (Stat_ KReg (4164 * 512) 1 2)
  | Open _ _ => inr 7 | Pwrite _ b _ => inr (zlen b)
  | e => default_answer e
  end.
Definition part_opts (scheme : string) : RufuxPartOpts := PartOpts_ scheme "single" (Some "ntfs") false false true true true.
Definition part_run := run (fun X e (w : unit) => (image_env X e, w)) (rufux_partition 9 "disk.img" (part_opts "gpt")) tt.
Lemma part_runs : exec (rufux_partition 9 "disk.img" (part_opts "gpt")) part_run.1.2 (Ok tt).
Proof. apply run_computed. vm_compute. reflexivity. Qed.
Lemma posix_all t : forallb posixb t = true -> Forall posix t.
Proof. rewrite forallb_forall. intros H. apply List.Forall_forall. intros o Ho. by apply posixb_posix, H. Qed.
Lemma part_run_posix : Forall posix part_run.1.2.
Proof. apply posix_all. vm_compute. reflexivity. Qed.

(** * The backup table *)
(** the damage the backup is for: the first sector is there, the primary header
    is not, the end of the disk is *)
Definition primary_lost (g : geometry) (D D2 : list byte) : Prop :=
  zlen D2 = zlen D /\ slice 0 (sec_sz g) D2 = slice 0 (sec_sz g) D /\ slice (sec_sz g) 8 D2 <> EFI_PART /\
  let back := (disk_last g - entry_sectors g) * sec_sz g in
  slice back (16384 + sec_sz g) D2 = slice back (16384 + sec_sz g) D.
Section Backup.
Variables (fuel : nat) (g : geometry) (D : list byte).
Hypothesis Hg : geometry_ok g.
Hypothesis Hsize : total_lbas g * sec_sz g <= zlen D < 2 ^ 63.
Lemma lost_header fd i : slice (sec_sz g) 8 D <> EFI_PART ->
  ends (steady g D) (parse_gpt_slice_at_hdr fuel fd (sec_sz g) 1 i) (fun r => r = None).
Proof.
  intros Hm. destruct Hg as (Hs & Hdiv & Ht). assert (4 <= entry_sectors g) by (apply Z.div_le_lower_bound; lia).
  unfold parse_gpt_slice_at_hdr. eapply ends_bind; [apply (pread_all_reads fuel _ D); [by intros o []|lia|lia|lia|nia]|]. intros ? ->.
  rewrite slice_slice, Z.mul_1_l, Z.add_0_r by lia. unfold bytes_eqb. rewrite bool_decide_eq_false_2 by done. by apply ends_ret.
Qed.
Lemma backup_correct parts guids guid disk i : mbr_at g true parts D -> parts_ok true parts ->
  length guids = length parts -> Forall (fun g => zlen g = 16) guids -> zlen guid = 16 ->
  gpt_at g parts guids guid D (disk_last g) 1 (disk_last g - entry_sectors g) -> slice (sec_sz g) 8 D <> EFI_PART ->
  disk <> "" -> 1 <= i -> ends (steady g D) (rufux_part_offset_sectors fuel disk i) (fun r => r = slice_of parts i).
Proof.
  intros (code & rnd & Hcode & Hmbr) [Hfew Hparts] Hl Hgs Hgd Hgpt Hm Hd Hi.
  assert (Hg' := Hg). destruct Hg' as (Hs & Hdiv & Ht). assert (4 <= entry_sectors g) by (apply Z.div_le_lower_bound; lia).
  unfold rufux_part_offset_sectors. apply String.eqb_neq in Hd as E. rewrite E, (proj2 (Z.ltb_ge i 1)) by lia. cbn [orb]. cbv zeta.
  eapply ends_bind; [apply sector_steady; [done|by apply block_node_nonempty]|]. intros ? ->.
  rewrite (proj2 (Z.ltb_ge (sec_sz g) 512)), (proj2 (Z.ltb_ge 4096 (sec_sz g))) by lia. cbn [orb].
  apply ends_step. intros x [_ [fd ->]]. eapply ends_bind; [|intros r Hr; apply ends_any; intros _; apply ends_ret; exact Hr].
  unfold find_slice. eapply ends_bind; [apply (pread_all_reads fuel _ D); [by intros o []|lia|lia|lia|nia]|]. intros ? ->.
  set (mbr := slice 0 (sec_sz g) D) in *. destruct (sector_signature g Hg _ _ _ _ _ Hcode Hmbr Hfew) as [-> ->].
  change (negb ((0x55 =? 0x55) && (0xAA =? 0xAA))) with false. cbv iota.
  replace (existsb _ _) with true.
  2: { cbn [existsb]. unfold get8. by rewrite (sector_field g Hg _ _ _ _ _ Hcode Hmbr Hfew 0 4 1) by lia. }
  eapply ends_bind; [by apply lost_header|]. intros ? ->.
  eapply ends_bind; [apply bytes_steady; [done|done|by apply block_node_nonempty]|]. intros b ->.
  rewrite (proj2 (Z.ltb_lt 4 _)) by lia. unfold disk_last in *.
  apply (gpt_slice fuel g D Hg Hsize parts guids guid (total_lbas g - 1) 1 (total_lbas g - 1 - entry_sectors g)); try done; lia.
Qed.
End Backup.


(** A dry run accepts a disk of 100 MiB for esp+main, which the real run refuses. *)
Definition small_env : oracle := fun X e =>
  match e in ev X return X with Stat _ => Some (Stat_ KReg (100 * 2 ^ 20) 1 2) | e => image_env _ e end.
Definition esp_opts (dry : bool) : RufuxPartOpts := PartOpts_ "gpt" "esp+main" None false dry true true true.
Lemma dry_run_too_hopeful :
  eval small_env (rufux_partition 9 "disk.img" (esp_opts true)) = Some (Ok tt) /\
  exists m, eval small_env (rufux_partition 9 "disk.img" (esp_opts false)) = Some (Fail m).
Proof. split; [vm_compute; reflexivity|]. eexists. vm_compute. reflexivity. Qed.
