(* ===== verification/Macwriter.v ===== *)
(** Writing an image on macOS (src/macos/src/writer.c): to the raw node of a
    disk, in whole sectors, or to a regular file, with the optional comparison.

    Options, the block size and the capped read are the Linux program's
    (Writer.v), whose text the port keeps. Allocation succeeds, the callbacks are
    there. *)
From S2P Require Import Prelude Cstr Sys Exec Device Writer Macexec Macdisk Macmount Macstate Macvolume Macdevice.

(** [n] and what is missing to whole sectors *)
Definition padding (is_chr : bool) (sector n : Z) : Z :=
  if is_chr && negb (n mod sector =? 0) then sector - n mod sector else 0.
Definition padded (is_chr : bool) (sector : Z) (l : list byte) : list byte :=
  l ++ replicate (Z.to_nat (padding is_chr sector (zlen l))) Byte.x00.

(** ** The open target: its node, and how it is written *)
Record target := Target { t_fd : Z; t_node : string; t_reg : bool; t_chr : bool; t_sector : Z }.

Section Writer.
Variable fuel : nat.

Definition full_fsync (fd : Z) : io (option errno) :=
  r <- call (FullFsync fd) ;; if r : bool then Ret None else call (Fsync fd).

(** one block, however many writes it takes *)
Definition write_chunk (fd done : Z) (buf : list byte) : io (cres unit) :=
  loop fuel (fun off =>
    if off <? zlen buf then
      w <- call (Write fd (zdrop off buf)) ;;
      match w with
      | inl EINTR => Ret (inl off)
      | inl e => Ret (inr (Fail ("write failed at " +:+ dec (done + off) +:+ ": " +:+ strerror e)))
      | inr w => if w =? 0 then Ret (inr (Fail ("write stalled at " +:+ dec (done + off)))) else Ret (inl (off + w))
      end
    else Ret (inr (Ok tt))) 0.
(** a turn of the copy: the next block, or how much of the image was done and
    whether a write failed *)
Definition copy_block (fin total : Z) (t : target) : Z * Z -> io (Z * Z + Z * cres unit) := fun '(done, rem) =>
  l <- read_capped fin rem ;;
  match l with
  | [] => Ret (inr (done, Ok tt))
  | _ =>
      r <- write_chunk (t_fd t) done (padded (t_chr t) (t_sector t) l) ;;
      match r with
      | Fail m => Ret (inr (done, Fail m))
      | Ok _ => call (Progress (done + zlen l) total) ;;; Ret (inl (done + zlen l, rem - zlen l))
      end
  end.
Definition copy_loop (fin total : Z) (t : target) : io (Z * cres unit) := loop fuel (copy_block fin total t) (0, total).

(** ** The read-back *)
Definition verify_loop (fa fb total : Z) (t : target) : io (cres unit) :=
  loop fuel (fun '(vdone, vrem) =>
    ba <- read_capped fa vrem ;;
    match ba with
    | [] => Ret (inr (Ok tt))
    | _ =>
        let read_len := zlen ba + padding (t_chr t) (t_sector t) (zlen ba) in
        rr <- rufux_read_full fuel fb read_len ;;
        match rr with
        | inl e => Ret (inr (Fail ("verify: read error at offset " +:+ dec vdone +:+ ": " +:+ strerror e)))
        | inr bb =>
            let ok_len := if t_chr t then zlen bb =? read_len else zlen bb =? zlen ba in
            if negb ok_len || negb (bytes_eqb ba (ztake (zlen ba) bb))
            then Ret (inr (Fail ("verify mismatch at offset " +:+ dec vdone)))
            else call (VProgress (vdone + zlen ba) total) ;;; Ret (inl (vdone + zlen ba, vrem - zlen ba))
        end
    end) (0, total).
Definition verify_phase (src : string) (total : Z) (t : target) : io (cres unit) :=
  fa <- call (Fopen src "rb") ;;
  fb <- call (Open (t_node t) O_RDONLY) ;;
  match fa, fb with
  | inr fa, inr fb =>
      call (Lseek fb 0) ;;;
      r <- verify_loop fa fb total t ;;
      bad <- (if is_ok r then call (Ferror fa) else Ret false) ;;
      call (Fclose fa) ;;; call (Close fb) ;;;
      if bad : bool then fail ("verify: read error on '" +:+ src +:+ "'") else Ret r
  | _, _ =>
      match fa with inr fa => call (Fclose fa) ;;; Ret tt | inl _ => Ret tt end ;;;
      match fb with inr fb => call (Close fb) | inl _ => Ret tt end ;;;
      fail "verify: cannot reopen src/dst"
  end.

(** From the open target on: copy, flush, verify. *)
Definition write_phase (src : string) (opts : RufuxWriteOpts) (fin total : Z) (t : target) : io (cres unit) :=
  dr <- copy_loop fin total t ;;
  let '(done, r) := dr in
  bad <- (if is_ok r then call (Ferror fin) else Ret false) ;;
  let r := if bad : bool then Fail ("read error on '" +:+ src +:+ "'") else r in
  call (Fclose fin) ;;;
  r <- match r with
       | Ok _ =>
           s <- full_fsync (t_fd t) ;;
           match s with Some e => fail ("fsync failed: " +:+ strerror e) | None => ok tt end
       | Fail m => fail m
       end ;;
  when (negb (t_reg t)) (call (SyncCache (t_fd t))) ;;;
  call (Close (t_fd t)) ;;;
  call (Progress done total) ;;;
  if is_ok r && verify opts then verify_phase src total t else Ret r.

(** Opening the target: a regular file is truncated, a disk is unmounted and its
    raw node locked. *)
Definition open_node (dst : string) (dst_is_reg : bool) : io (cres (Z * string)) :=
  let cannot node e := fail ("cannot open target '" +:+ node +:+ "': " +:+ strerror e +:+ " (need sudo?)") in
  if dst_is_reg then
    let node := snprintf PATH_MAX dst in
    fd <- call (Open node O_TRUNC_W) ;;
    match fd with inr fd => ok (fd, node) | inl e => cannot node e end
  else
    rufux_macos_unmount_disk fuel dst ?;;
    let node := rufux_macos_raw_node dst PATH_MAX in
    fd <- call (Open node O_WRONLY) ;;
    match fd with
    | inr fd =>
        l <- call (FlockNb fd) ;;
        if bool_decide (l = Some EAGAIN) then
          call (Close fd) ;;; fail ("target '" +:+ dst +:+ "' is busy/locked")
        else ok (fd, node)
    | inl e => cannot node e
    end.
(** how it is written, when the image fits *)
Definition describe (fd : Z) (node : string) (dst_is_reg : bool) (total : Z) : io (cres target) :=
  if dst_is_reg then ok (Target fd node true false 512)
  else
    st <- call (Fstat fd) ;;
    cap <- rufux_macos_dev_bytes node ;;
    if (0 <? cap) && (cap <? total) then
      call (Close fd) ;;;
      fail ("image (" +:+ dec total +:+ " B) larger than target (" +:+ dec cap +:+ " B)")
    else
      s <- rufux_macos_sector_size node ;;
      ok (Target fd node false (is_kind KChr st) (if s <? 512 then 512 else s)).

(** the real write, from the open source on *)
Definition write_real (src dst : string) (opts : RufuxWriteOpts) (fin total : Z) : io (cres unit) :=
  if negb (yes opts) then
    call (Fclose fin) ;;; fail "refusing real write without --yes (use --dry-run to simulate)"
  else
    d <- call (Stat dst) ;;
    match d with
    | None => call (Fclose fin) ;;; fail ("target '" +:+ dst +:+ "' does not exist")
    | Some _ =>
        let dst_is_reg := is_kind KReg d in
        o <- open_node dst dst_is_reg ;;
        match o with
        | Fail m => call (Fclose fin) ;;; fail m
        | Ok (fd, node) =>
            t <- describe fd node dst_is_reg total ;;
            match t with
            | Fail m => call (Fclose fin) ;;; fail m
            | Ok t => write_phase src opts fin total t
            end
        end
    end.
Definition rufux_write_image (src dst : string) (opts : RufuxWriteOpts) : io (cres unit) :=
  sst <- call (Stat src) ;;
  if negb (is_kind KReg sst) then fail ("source '" +:+ src +:+ "' is not a readable file")
  else
    let size := match sst with Some s => st_size s mod 2 ^ 64 | None => 0 end in
    if (0 <? src_len opts) && (size <? src_len opts) then fail "payload size exceeds file size"
    else
      let total := if 0 <? src_len opts then src_len opts else size in
      if total =? 0 then fail ("source '" +:+ src +:+ "' is empty")
      else
        rufux_check_target dst (allow_fixed opts) (allow_file opts) ?;;
        d <- call (Stat dst) ;;
        if same_file sst d then fail ("source and target are the same file ('" +:+ src +:+ "')")
        else
          fin <- call (Fopen src "rb") ;;
          match fin with
          | inl e => fail ("cannot open source '" +:+ src +:+ "': " +:+ strerror e)
          | inr fin =>
              if dry_run opts then
                dry_loop fuel fin total ;;;
                bad <- call (Ferror fin) ;;
                call (Fclose fin) ;;;
                if bad : bool then fail ("read error on '" +:+ src +:+ "'")
                else call (Progress total total) ;;; ok tt
              else write_real src dst opts fin total
          end.
End Writer.
