(* ===== verification/MacwriterSpec.v ===== *)
(** What writing an image on macOS leaves on the target. *)
From S2P Require Import Prelude Cstr Contents Sys Exec Device Writer Macexec Macdisk MacdiskSpec Macmount Macstate Macvolume Macdevice Macwriter.

(** * Source and target, seen from the calls

    What is left of the source, what was read of it, whether a read stopped
    short of what there was, whether it is still open; the contents of the target
    and the place in it. *)
Record flow := Flow {
  f_rest : list byte; f_read : list byte; f_bad : bool; f_open : bool; f_dev : list byte; f_pos : Z }.
Definition start (src dev : list byte) : flow := Flow src [] false true dev 0.
Section Flow.
Variables (h fd : Z).
Definition flow_step (o : obs) (s : flow) : flow :=
  match o with
  | Obs e x =>
      match e in ev X return X -> flow with
      | Fread h' n => fun x =>
          if (h' =? h) && f_open s
          then Flow (zdrop (zlen x) (f_rest s)) (f_read s ++ x) (f_bad s || negb (bool_decide (x = ztake n (f_rest s))))
                 true (f_dev s) (f_pos s)
          else s
      | Fclose h' => fun _ => if h' =? h then Flow (f_rest s) (f_read s) (f_bad s) false (f_dev s) (f_pos s) else s
      | Write fd' b => fun x =>
          match x with
          | inr w => if fd' =? fd then Flow (f_rest s) (f_read s) (f_bad s) (f_open s)
                                         (splice (f_pos s) (ztake w b) (f_dev s)) (f_pos s + w) else s
          | inl _ => s
          end
      | Read fd' _ => fun x =>
          match x with
          | inr l => if fd' =? fd then Flow (f_rest s) (f_read s) (f_bad s) (f_open s) (f_dev s) (f_pos s + zlen l) else s
          | inl _ => s
          end
      | _ => fun _ => s
      end x
  end.
(** a read gives what comes next, at most what was asked for; ferror tells whether
    one stopped short; a write takes at most what it was given *)
Definition flow_law (o : obs) (s : flow) : Prop :=
  match o with
  | Obs e x =>
      match e in ev X return X -> Prop with
      | Fread h' n => fun x => h' = h -> f_open s = true -> zlen x <= n /\ x = ztake (zlen x) (f_rest s)
      | Ferror h' => fun x => h' = h -> f_open s = true -> x = f_bad s
      | Write _ b => fun x => match x with inr w => 0 <= w <= zlen b | inl _ => True end
      | Read fd' n => fun x =>
          match x with inr l => fd' = fd -> zlen l <= n /\ l = slice (f_pos s) (zlen l) (f_dev s) | inl _ => True end
      | _ => fun _ => True
      end x
  end.
#[export] Instance flow_law_dec o s : Decision (flow_law o s).
Proof. destruct o as [X e x], e; cbn; try (left; exact I); [apply _..| |]; destruct x; apply _. Defined.
End Flow.

(** ** Padding *)
(** a block of the copy is whole sectors of the target *)
Definition whole_blocks (t : target) : Prop := t_chr t = true -> 0 < t_sector t /\ CHUNK mod t_sector t = 0.
#[local] Abbreviation pad t := (padding (t_chr t) (t_sector t)).
#[local] Abbreviation padl t := (padded (t_chr t) (t_sector t)).
Lemma pad_nonneg t n : whole_blocks t -> 0 <= pad t n.
Proof.
  unfold padding, whole_blocks. destruct (t_chr t); [|done]. intros H. specialize (H eq_refl). cbn [andb].
  destruct (negb _); [|done]. pose proof (Z.mod_pos_bound n (t_sector t)). lia.
Qed.
Lemma pad_zero t n : whole_blocks t -> pad t n = 0 -> t_chr t = true -> n mod t_sector t = 0.
Proof.
  intros H Hp Hc. specialize (H Hc). unfold padding in Hp. rewrite Hc in Hp. cbn [andb] in Hp.
  destruct (Z.eqb_spec (n mod t_sector t) 0); [done|]. cbn [negb] in Hp. pose proof (Z.mod_pos_bound n (t_sector t)). lia.
Qed.
Lemma pad_add t d n : whole_blocks t -> pad t d = 0 -> pad t (d + n) = pad t n.
Proof.
  intros H Hp. pose proof (pad_zero t d H Hp) as Hd. unfold padding. destruct (t_chr t) eqn:Hc; [|done].
  specialize (Hd eq_refl). specialize (H Hc) as [Hs _]. by rewrite <- Z.add_mod_idemp_l, Hd, Z.add_0_l by lia.
Qed.
Lemma pad_chunk t : whole_blocks t -> pad t CHUNK = 0.
Proof.
  intros H. unfold padding. destruct (t_chr t) eqn:Hc; [|done]. specialize (H Hc) as [_ ->]. done.
Qed.
Lemma pad_0 t : pad t 0 = 0.
Proof. unfold padding. by rewrite Zmod_0_l, andb_false_r. Qed.
Lemma zlen_padl t l : whole_blocks t -> zlen (padl t l) = zlen l + pad t (zlen l).
Proof. intros H. unfold padded. rewrite zlen_app, zlen_replicate. pose proof (pad_nonneg t (zlen l) H). lia. Qed.
Lemma padl_app t a b : whole_blocks t -> pad t (zlen a) = 0 -> padl t (a ++ b) = a ++ padl t b.
Proof. intros H Hp. unfold padded. by rewrite zlen_app, pad_add, app_assoc by done. Qed.
Lemma padl_done t l : pad t (zlen l) = 0 -> padl t l = l.
Proof. intros H. unfold padded. rewrite H. apply app_nil_r. Qed.

(** ** The source *)
Section Copy.
Variables (fuel : nat) (h fd : Z).
#[local] Abbreviation wfrom := (ofrom (flow_step h fd) (flow_law h fd)).
#[local] Abbreviation idle := (unseen (flow_step h fd)).
#[local] Hint Extern 1 (idle _ _) => (intros ? ?; reflexivity) : rufux.
(** the source read so far, of all of it *)
Definition halfway (src : list byte) (s : flow) : Prop := f_open s = true /\ (f_bad s = false -> f_read s ++ f_rest s = src).
(** what a capped read does to the source: a block, or the end *)
Lemma read_block src rem s : 0 <= rem -> halfway src s ->
  wfrom s (read_capped h rem) (fun l s' => halfway src s' /\ f_dev s' = f_dev s /\ f_pos s' = f_pos s /\
    f_read s' = f_read s ++ l /\ zlen l <= Z.min CHUNK rem /\
    (f_bad s' = false -> f_bad s = false /\ (zlen l < Z.min CHUNK rem -> f_rest s' = []) /\
       (f_rest s = [] -> l = []) /\ (l = [] -> rem = 0 \/ f_rest s' = []))).
Proof.
  intros Hr [Ho Hs]. unfold read_capped. destruct (Z.eqb_spec (Z.min CHUNK rem) 0) as [E|E].
  { apply ofrom_ret. unfold halfway. rewrite app_nil_r, E, zlen_nil. split_and!; try done. intros Hb.
    split_and!; try done. left. unfold CHUNK in *. lia. }
  intros t x (x' & t' & -> & -> & ->) [Hl _]. cbn [flow_law] in Hl. destruct (Hl eq_refl Ho) as [Hn Hx]. clear Hl.
  cbn [observe flow_step]. rewrite Z.eqb_refl, Ho. cbn [andb f_dev f_pos f_read f_bad f_rest f_open]. unfold halfway.
  cbn [f_open f_bad f_read f_rest]. set (n := Z.min CHUNK rem) in *.
  assert (Hsplit : x' ++ zdrop (zlen x') (f_rest s) = f_rest s) by (rewrite Hx at 1; apply ztake_zdrop).
  split_and!; try done.
  - intros [Hb _]%orb_false_iff. by rewrite <- app_assoc, Hsplit, Hs.
  - intros [Hb Hx']%orb_false_iff. apply negb_false_iff, bool_decide_eq_true in Hx'. assert (0 < n) by (unfold n, CHUNK in *; lia).
    assert (Hshort : zlen x' < n -> zdrop (zlen x') (f_rest s) = []).
    { intros Hlt. apply zdrop_all. rewrite Hx' in Hlt |- *. rewrite zlen_ztake in * by lia. lia. }
    split_and!; [done|done| |].
    + intros E0. rewrite Hx', E0. by unfold ztake; rewrite take_nil.
    + intros ->. right. apply Hshort. rewrite zlen_nil. lia.
Qed.

(** ** Writing *)
(** a block written from the place the target is at *)
Definition wrote (buf : list byte) (s : flow) : flow :=
  Flow (f_rest s) (f_read s) (f_bad s) (f_open s) (splice (f_pos s) buf (f_dev s)) (f_pos s + zlen buf).
Lemma chunk_flows done buf s : 0 <= f_pos s ->
  wfrom s (write_chunk fuel fd done buf) (fun r s' => r = Ok tt -> s' = wrote buf s).
Proof.
  intros Hp. pose proof (zlen_nonneg buf) as Hz.
  apply (ofrom_loop (fun off s' => 0 <= off <= zlen buf /\ s' = wrote (ztake off buf) s)).
  2: { split; [lia|]. unfold wrote. rewrite ztake_neg, splice_nil, zlen_nil, Z.add_0_r by lia. by destruct s. }
  intros off s' [Ho ->]. destruct (Z.ltb_spec off (zlen buf)).
  - apply ofrom_step. intros [e|w] Hl; cbn [flow_step flow_law] in *.
    { destruct e; apply ofrom_ret; done. }
    rewrite Z.eqb_refl, zlen_zdrop in * by lia. destruct (w =? 0); apply ofrom_ret; [done|]. split; [lia|].
    unfold wrote. cbn [f_rest f_read f_bad f_open f_dev f_pos]. rewrite !zlen_ztake by lia. f_equal; [|lia].
    replace (f_pos s + Z.min off (zlen buf)) with (f_pos s + off) by lia. apply write_turn; [lia..|].
    rewrite zlen_zdrop by lia. lia.
  - apply ofrom_ret. intros _. by replace off with (zlen buf) by lia; rewrite ztake_all.
Qed.
Variables (t : target) (src dev : list byte) (total : Z).
Hypothesis Hfd : t_fd t = fd.
Hypothesis Hblocks : whole_blocks t.
Hypothesis Htotal : 0 <= total.
(** the state after a block was read, from [s0] *)
Definition block_read (rem : Z) (l : list byte) (s0 s : flow) : Prop :=
  halfway src s /\ f_dev s = f_dev s0 /\ f_pos s = f_pos s0 /\ f_read s = f_read s0 ++ l /\ zlen l <= Z.min CHUNK rem /\
  (f_bad s = false -> f_bad s0 = false /\ (zlen l < Z.min CHUNK rem -> f_rest s = []) /\
     (f_rest s0 = [] -> l = []) /\ (l = [] -> rem = 0 \/ f_rest s = [])).
(** a block that follows another starts at a sector, and one that does not end at one is the last *)
Lemma block_aligned done rem l s0 s : 0 <= rem -> l <> [] -> block_read rem l s0 s -> f_bad s = false ->
  (pad t done <> 0 -> rem = 0 \/ f_rest s0 = []) ->
  pad t done = 0 /\ (pad t (zlen l) <> 0 -> rem - zlen l = 0 \/ f_rest s = []).
Proof.
  intros Hrem Hl (_ & _ & _ & _ & Hn & Hb) Hbad HE. destruct (Hb Hbad) as (_ & Hshort & Hend & _). split.
  - destruct (Z.eq_dec (pad t done) 0) as [E|E]; [done|]. exfalso. destruct (HE E) as [->|E'].
    + rewrite Z.min_r in Hn by (unfold CHUNK; lia). pose proof (zlen_pos l Hl). lia.
    + by apply Hl, Hend.
  - intros Hne. destruct (Z.eq_dec (zlen l) rem) as [->|]; [left; lia|right]. apply Hshort.
    assert (zlen l <> CHUNK) by (intros E; rewrite E in Hne; by rewrite pad_chunk in Hne). lia.
Qed.
(** nothing more: the whole image was read *)
Lemma image_read rem s0 s : 0 <= rem -> zlen (f_read s0) + rem = total -> block_read rem [] s0 s -> f_bad s = false ->
  f_bad s0 = false /\ f_read s = f_read s0 /\ f_read s = ztake total src.
Proof.
  intros Hrem Hsum ([_ Hh] & _ & _ & Hr & _ & Hb) Hbad. destruct (Hb Hbad) as (Hbad0 & _ & _ & He). rewrite app_nil_r in Hr.
  specialize (Hh Hbad). rewrite Hr in *. split_and!; [done|done|]. rewrite <- Hh. destruct (He eq_refl) as [->|E].
  - rewrite ztake_app, ztake_all by lia. replace (total - zlen (f_read s0)) with 0 by lia. by rewrite ztake_neg, app_nil_r by lia.
  - rewrite E, app_nil_r. symmetry. apply ztake_all. lia.
Qed.
(** what was read is on the target, padded only at the end *)
Definition image_so_far (done rem : Z) (s : flow) : Prop :=
  halfway src s /\ 0 <= f_pos s /\ done = zlen (f_read s) /\ done + rem = total /\ 0 <= rem /\
  (f_bad s = false -> f_dev s = splice 0 (padl t (f_read s)) dev /\ f_pos s = done + pad t done /\
     (pad t done <> 0 -> rem = 0 \/ f_rest s = [])).
Lemma block_copied done rem l s0 s : image_so_far done rem s0 -> l <> [] -> block_read rem l s0 s ->
  image_so_far (done + zlen l) (rem - zlen l) (wrote (padl t l) s).
Proof.
  intros (_ & Hpos & -> & Hsum & Hrem & Hdev) Hl Hs. assert (Hs' := Hs). destruct Hs' as ([Ho Hsrc] & Hd & Hp & Hr & Hn & Hb).
  assert (Hz := zlen_padl t l Hblocks). pose proof (pad_nonneg t (zlen l) Hblocks). pose proof (zlen_nonneg l).
  unfold image_so_far, halfway, wrote. cbn [f_rest f_read f_bad f_open f_dev f_pos]. rewrite Hr, zlen_app.
  split_and!; try done; try lia.
  { intros Hb'. rewrite <- Hr. by apply Hsrc. }
  intros Hbad. destruct (Hb Hbad) as [Hbad0 _]. destruct (Hdev Hbad0) as (HD & HP & HE).
  destruct (block_aligned _ _ _ _ _ Hrem Hl Hs Hbad HE) as [Hpad Hlast].
  rewrite Hd, HD, Hp, HP, Hpad, Z.add_0_r, (padl_done _ (f_read s0)), padl_app, pad_add by done.
  rewrite <- (Z.add_0_l (zlen (f_read s0))) at 1. rewrite splice_splice by lia. split_and!; [done|lia|done].
Qed.
Lemma image_copied : wfrom (start src dev) (copy_loop fuel h total t) (fun dr s => dr.2 = Ok tt ->
  halfway src s /\ (f_bad s = false -> f_dev s = splice 0 (padl t (f_read s)) dev /\ f_read s = ztake total src)).
Proof.
  unfold copy_loop, copy_block. rewrite Hfd. apply (ofrom_loop (fun '(done, rem) s => image_so_far done rem s)).
  2: { unfold image_so_far, halfway, start. cbn [f_open f_bad f_read f_rest f_dev f_pos app]. rewrite pad_0, padl_done by apply pad_0.
       by split_and!. }
  intros [done rem] s HI. assert (HI' := HI). destruct HI as (Hsrc & Hpos & Hdone & Hsum & Hrem & Hdev).
  eapply ofrom_bind; [by apply (read_block src)|]. intros l s1 Hs1. destruct l as [|b l].
  - apply ofrom_ret. intros _. split; [by destruct Hs1|]. intros Hbad. subst done.
    destruct (image_read _ _ _ Hrem Hsum Hs1 Hbad) as (Hbad0 & Hr & Himg). destruct (Hdev Hbad0) as [HD _].
    split; [|done]. destruct Hs1 as (_ & -> & _). by rewrite HD, Hr.
  - eapply ofrom_bind; [apply chunk_flows; by destruct Hs1 as (_ & _ & -> & _)|]. intros [[]|m] s2 Hw; [|by apply ofrom_ret].
    rewrite (Hw eq_refl). apply ofrom_skip; [always_tac|]. intros _. apply ofrom_ret. by eapply block_copied.
Qed.

(** ** Reading back *)
Definition passed (n : Z) (s : flow) : flow := Flow (f_rest s) (f_read s) (f_bad s) (f_open s) (f_dev s) (f_pos s + n).
Lemma full_read n s : 0 <= f_pos s -> wfrom s (rufux_read_full fuel fd n) (fun r s' => forall l, r = inr l ->
  l = slice (f_pos s) (zlen l) (f_dev s) /\ s' = passed (zlen l) s).
Proof.
  intros Hp. apply (ofrom_loop (fun got s' => got = slice (f_pos s) (zlen got) (f_dev s) /\ s' = passed (zlen got) s)).
  2: { rewrite zlen_nil. unfold passed, slice. rewrite ztake_neg, Z.add_0_r by lia. by destruct s. }
  intros got s' [Hg ->]. pose proof (zlen_nonneg got). destruct (zlen got <? n).
  2: { apply ofrom_ret. by intros l [= <-]. }
  apply ofrom_step. intros [e|l] Hl; cbn [flow_step flow_law] in *.
  { destruct e; apply ofrom_ret; [by split|done..]. }
  destruct (Hl eq_refl) as [_ Hx]. rewrite Z.eqb_refl. cbn [passed f_pos f_dev] in *.
  destruct l as [|b l].
  { apply ofrom_ret. intros l [= <-]. split; [done|]. unfold passed. cbn. by rewrite Z.add_0_r. }
  apply ofrom_ret. rewrite zlen_app, <- slice_app by (lia || apply zlen_nonneg). rewrite <- Hg, <- Hx. split; [done|].
  unfold passed. cbn [f_rest f_read f_bad f_open f_dev f_pos]. f_equal. lia.
Qed.
(** what was compared is the same on both sides *)
Definition same_so_far (done rem : Z) (s : flow) : Prop :=
  halfway src s /\ 0 <= f_pos s /\ done = zlen (f_read s) /\ done + rem = total /\ 0 <= rem /\ f_dev s = dev /\
  (f_bad s = false -> ztake done dev = f_read s /\ f_pos s = done + pad t done /\
     (pad t done <> 0 -> rem = 0 \/ f_rest s = [])).
Lemma block_compared done rem l bb s0 s : same_so_far done rem s0 -> l <> [] -> block_read rem l s0 s ->
  bb = slice (f_pos s) (zlen bb) dev -> zlen bb = zlen l + pad t (zlen l) -> l = ztake (zlen l) bb ->
  same_so_far (done + zlen l) (rem - zlen l) (passed (zlen bb) s).
Proof.
  intros (_ & Hpos & -> & Hsum & Hrem & Hdev & Hcmp) Hl Hs Hbb Hz Heq. assert (Hs' := Hs).
  destruct Hs' as ([Ho Hsrc] & Hd & Hp & Hr & Hn & Hb). pose proof (pad_nonneg t (zlen l) Hblocks). pose proof (zlen_nonneg l).
  unfold same_so_far, halfway, passed. cbn [f_rest f_read f_bad f_open f_dev f_pos]. rewrite Hr, zlen_app, Hd.
  split_and!; try done; try lia.
  { intros Hb'. rewrite <- Hr. by apply Hsrc. }
  intros Hbad. destruct (Hb Hbad) as [Hbad0 _]. destruct (Hcmp Hbad0) as (HD & HP & HE).
  destruct (block_aligned _ _ _ _ _ Hrem Hl Hs Hbad HE) as [Hpad Hlast]. pose proof (zlen_nonneg (f_read s0)).
  rewrite pad_add by done. split_and!; [|lia|done]. rewrite Hp, HP, Hpad, Z.add_0_r in Hbb.
  change (slice 0 (zlen (f_read s0) + zlen l) dev = f_read s0 ++ l). rewrite <- slice_app by lia.
  f_equal; [exact HD|]. rewrite Heq at 2. rewrite Hbb. unfold slice, ztake. rewrite take_take. f_equal. lia.
Qed.
Lemma image_compared : wfrom (start src dev) (verify_loop fuel h fd total t) (fun r s => r = Ok tt ->
  halfway src s /\ (f_bad s = false -> f_read s = ztake total src /\ ztake (zlen (f_read s)) dev = f_read s)).
Proof.
  apply (ofrom_loop (fun '(done, rem) s => same_so_far done rem s)).
  2: { unfold same_so_far, halfway, start. cbn [f_open f_bad f_read f_rest f_dev f_pos app]. rewrite pad_0. by split_and!. }
  intros [done rem] s HI. assert (HI' := HI). destruct HI as (Hsrc & Hpos & Hdone & Hsum & Hrem & Hdev & Hcmp).
  eapply ofrom_bind; [by apply (read_block src)|]. intros l s1 Hs1. destruct l as [|b l].
  - apply ofrom_ret. intros _. split; [by destruct Hs1|]. intros Hbad. subst done.
    destruct (image_read _ _ _ Hrem Hsum Hs1 Hbad) as (Hbad0 & Hr & Himg). split; [done|]. destruct (Hcmp Hbad0) as [HD _].
    by rewrite Hr, HD.
  - eapply ofrom_bind; [apply full_read; by destruct Hs1 as (_ & _ & -> & _)|]. intros [e|bb] s2 Hw; [by apply ofrom_ret|].
    destruct (Hw bb eq_refl) as [Hbb ->]. cbv zeta. destruct (_ || _) eqn:Hc; [by apply ofrom_ret|].
    apply orb_false_iff in Hc as [Hlen%negb_false_iff Heq%negb_false_iff%bool_decide_eq_true].
    apply ofrom_skip; [always_tac|]. intros _. apply ofrom_ret.
    assert (zlen bb = zlen (b :: l) + pad t (zlen (b :: l))).
    { unfold padding in *. destruct (t_chr t); apply Z.eqb_eq in Hlen; cbn [andb] in *; lia. }
    apply (block_compared _ _ _ _ s); try done. destruct Hs1 as (_ & Hd & _). by rewrite <- Hdev, <- Hd.
Qed.
End Copy.

(** * Whole runs *)
Section Run.
Variable fuel : nat.
#[local] Hint Extern 1 (harmless _ _) => reflexivity : rufux.
(** The calls of a write that succeeded, from the open target on: those that
    copied the image of [total] bytes of the source, and those after them, which
    change nothing, put it on the medium and, when asked, compared it. *)
Definition compared (src : string) (total : Z) (t : target) (u : list obs) : Prop :=
  exists fa fb u1 u2 u3, u = u1 ++ u2 ++ u3 /\ Obs (Fopen src "rb") (inr fa) ∈ u1 /\
    Obs (Open (t_node t) O_RDONLY) (inr fb) ∈ u1 /\
    forall image dev, abides (flow_step fa fb) (flow_law fa fb) u2 (start image dev) ->
      ztake (zlen (ztake total image)) dev = ztake total image.
Definition landed (src : string) (fin total : Z) (t : target) (verified : bool) (u : list obs) : Prop :=
  exists u1 u2, u = u1 ++ u2 /\
    (forall image dev, abides (flow_step fin (t_fd t)) (flow_law fin (t_fd t)) u1 (start image dev) ->
       f_dev (observe (flow_step fin (t_fd t)) u1 (start image dev)) =
         splice 0 (padded (t_chr t) (t_sector t) (ztake total image)) dev) /\
    Forall (fun o => match o with Obs e _ => harmless _ e end) u2 /\
    (Obs (FullFsync (t_fd t)) true ∈ u2 \/ Obs (Fsync (t_fd t)) None ∈ u2) /\
    (verified = true -> compared src total t u2).
Lemma compared_app v src total t u : compared src total t u -> compared src total t (v ++ u).
Proof.
  intros (fa & fb & w1 & w2 & w3 & -> & Ha & Hb & Hc). exists fa, fb, (v ++ w1), w2, w3.
  split_and!; [by rewrite app_assoc|apply elem_of_app; by right..|done].
Qed.
Lemma verify_compared src total t u : whole_blocks t -> 0 <= total ->
  exec (verify_phase fuel src total t) u (Ok tt) -> compared src total t u.
Proof.
  intros Hb Ht (fa & t1 & -> & (fb & t2 & -> & H)).
  destruct fa as [e|fa], fb as [e'|fb].
  1-3: exfalso; cbn in H; repeat (destruct H as (?&?&->&H)); by destruct H.
  destruct H as (x & t3 & -> & H). cbn [bind] in H. apply exec_bind in H as (u2 & r & u3 & -> & H1 & H2).
  destruct r as [[]|m]; [|exfalso; cbn in H2; destruct H2 as (?&?&->&?&?&->&[_ ?]); done].
  destruct H2 as (bad & u4 & -> & H2). cbn in H2. destruct H2 as (?&?&->&?&?&->&H2).
  destruct bad; [by destruct H2|]. destruct H2 as [-> _].
  exists fa, fb, [Obs (Fopen src "rb") (inr fa); Obs (Open (t_node t) O_RDONLY) (inr fb); Obs (Lseek fb 0) x],
    (u2 ++ [Obs (Ferror fa) false]). eexists. split_and!; [rewrite <- app_assoc; reflexivity|by left|by right; left|].
  intros image dev [Hl [Hf _]]%abides_app.
  destruct (image_compared fuel fa fb t image dev total Hb Ht u2 _ H1 Hl eq_refl) as [[Ho _] Hc]. cbn [flow_law] in Hf.
  destruct (Hc (eq_sym (Hf eq_refl Ho))) as [-> Hd]. done.
Qed.
Lemma verify_loop_harmless fa fb total t : always harmless (verify_loop fuel fa fb total t).
Proof. unfold verify_loop, read_capped, rufux_read_full. always_tac. Qed.
#[local] Hint Resolve verify_loop_harmless : rufux.
Lemma verify_phase_harmless src total t : always harmless (verify_phase fuel src total t).
Proof. unfold verify_phase. always_tac. Qed.
#[local] Hint Resolve verify_phase_harmless : rufux.
(** what follows the copy *)
Definition after_copy (src : string) (opts : RufuxWriteOpts) (fin total : Z) (t : target) (done : Z) (r : cres unit) : io (cres unit) :=
  call (Fclose fin) ;;;
  r <- match r with
       | Ok _ =>
           s <- full_fsync (t_fd t) ;;
           match s with Some e => fail ("fsync failed: " +:+ strerror e) | None => ok tt end
       | Fail m => fail m
       end ;;
  when (negb (t_reg t)) (call (SyncCache (t_fd t))) ;;;
  call (Close (t_fd t)) ;;;
  call (Progress done total) ;;;
  if is_ok r && verify opts then verify_phase fuel src total t else Ret r.
Lemma after_copy_harmless src opts fin total t done r : always harmless (after_copy src opts fin total t done r).
Proof. unfold after_copy, full_fsync. always_tac. Qed.
Lemma after_copy_ok src opts fin total t done r u : whole_blocks t -> 0 <= total ->
  exec (after_copy src opts fin total t done r) u (Ok tt) ->
  r = Ok tt /\ (Obs (FullFsync (t_fd t)) true ∈ u \/ Obs (Fsync (t_fd t)) None ∈ u) /\
  (verify opts = true -> compared src total t u).
Proof.
  intros Hb Ht (c & u1 & -> & H). cbn [bind] in H. apply exec_bind in H as (u2 & r' & u3 & -> & H1 & H2).
  assert (r' = Ok tt /\ (verify opts = true -> compared src total t u3)) as [-> Hv].
  { apply exec_bind in H2 as (v1 & [] & v2 & -> & _ & H2). destruct H2 as (?&?&->&?&?&->&H2). cbn [bind] in H2.
    destruct r' as [[]|m]; [|by destruct H2]. split; [done|]. intros Hv. rewrite Hv in H2. cbn [is_ok andb] in H2.
    apply compared_app. apply (compared_app [_; _]). by apply verify_compared. }
  destruct r as [[]|m]; [|by destruct H1 as [_ [=]]]. split; [done|].
  assert (Hf : Obs (FullFsync (t_fd t)) true ∈ u2 \/ Obs (Fsync (t_fd t)) None ∈ u2).
  { destruct H1 as (b & w & -> & H1). destruct b; [left; by left|]. destruct H1 as (s & w' & -> & H1). cbn [bind] in H1.
    destruct s; [by destruct H1 as [_ [=]]|]. right. right. by left. }
  split.
  - destruct Hf as [Hf|Hf]; [left|right]; right; apply elem_of_app; by left.
  - intros Hv'. apply (compared_app (_ :: u2)), Hv, Hv'.
Qed.
Lemma write_phase_landed src opts fin total t u : whole_blocks t -> 0 <= total ->
  exec (write_phase fuel src opts fin total t) u (Ok tt) -> landed src fin total t (verify opts) u.
Proof.
  intros Hb Ht (u1 & [done r] & u2 & -> & H1 & H2)%exec_bind. apply exec_bind in H2 as (v1 & bad & v2 & -> & H2 & H3).
  change (exec (after_copy src opts fin total t done (if bad : bool then Fail ("read error on '" +:+ src +:+ "'") else r)) v2 (Ok tt)) in H3.
  assert (Hh := always_exec _ _ _ _ (after_copy_harmless _ _ _ _ _ _ _) H3).
  apply after_copy_ok in H3 as (Hr & Hs & Hv); [|done..].
  assert (bad = false /\ r = Ok tt) as [-> ->] by (destruct bad; [done|by split]). clear Hr.
  destruct H2 as (b & w & -> & -> & <-).
  exists (u1 ++ [Obs (Ferror fin) false]), v2. split_and!; [by rewrite <- app_assoc| |done|done|done].
  intros image dev [Hl [Hf _]]%abides_app.
  destruct (image_copied fuel fin (t_fd t) t image dev total eq_refl Hb Ht u1 _ H1 Hl eq_refl) as [[Ho _] Hc].
  cbn [flow_law] in Hf. rewrite observe_app. cbn [observe flow_step]. destruct (Hc (eq_sym (Hf eq_refl Ho))) as [-> ->]. done.
Qed.
(** The target as it was opened: a regular file emptied, or the raw node of a
    disk that was unmounted, whose sectors have at least 512 bytes. *)
Definition opened (dst : string) (t : target) (u : list obs) : Prop :=
  if t_reg t then t_node t = snprintf PATH_MAX dst /\ t_chr t = false /\ Obs (Open (t_node t) O_TRUNC_W) (inr (t_fd t)) ∈ u
  else t_node t = rufux_macos_raw_node dst PATH_MAX /\ 512 <= t_sector t /\
    Obs (Open (t_node t) O_WRONLY) (inr (t_fd t)) ∈ u /\
    exists u1 u2 u3, u = u1 ++ u2 ++ u3 /\ exec (rufux_macos_unmount_disk fuel dst) u2 (Ok tt).
Lemma opened_described dst reg total u fd node v t :
  exec (open_node fuel dst reg) u (Ok (fd, node)) -> exec (describe fd node reg total) v (Ok t) -> opened dst t (u ++ v).
Proof.
  destruct reg; cbn [open_node describe].
  - intros (r & w & -> & H) [-> [= ->]]. cbn [bind] in H. destruct r as [e|fd']; [by destruct H as [_ [=]]|].
    destruct H as [-> [= -> ->]]. split_and!; [done|done|by left].
  - intros (u1 & [] & u2 & -> & Hu & H)%exec_try Hd. cbv zeta in H. destruct H as (r & w & -> & H). cbn [bind] in H.
    destruct r as [e|fd']; [by destruct H as [_ [=]]|]. destruct H as (l & w' & -> & H). cbn [bind] in H.
    case_bool_decide; [by destruct H as (?&?&->&_&[=])|]. destruct H as [-> [= -> ->]].
    destruct Hd as (st & v1 & -> & Hd). cbn [bind] in Hd. apply exec_bind in Hd as (v2 & cap & v3 & -> & _ & Hd).
    destruct (_ && _); [by destruct Hd as (?&?&->&_&[=])|].
    apply exec_bind in Hd as (v4 & s & v5 & -> & _ & [-> [= ->]]). unfold opened. cbn [t_reg t_node t_sector t_fd].
    split_and!; [done|destruct (Z.ltb_spec s 512); lia| |].
    + apply elem_of_app; left. apply elem_of_app; right. by left.
    + exists [], u1. eexists. split; [|exact Hu]. cbn [app]. by rewrite <- app_assoc.
Qed.
Lemma opened_app dst t u v : opened dst t v -> opened dst t (u ++ v).
Proof.
  unfold opened. destruct (t_reg t).
  - intros (? & ? & ?). split_and!; [done..|apply elem_of_app; by right].
  - intros (? & ? & ? & u1 & u2 & u3 & -> & ?). split_and!; [done|done|apply elem_of_app; by right|].
    exists (u ++ u1), u2, u3. by rewrite app_assoc.
Qed.
(** the length of the image: what was asked for, or the whole file *)
Definition image_len (st : stat) (opts : RufuxWriteOpts) : Z :=
  if 0 <? src_len opts then src_len opts else st_size st mod 2 ^ 64.
(** a real write, from the open source on *)
Lemma write_real_landed src dst opts fin total u : 0 <= total ->
  exec (write_real fuel src dst opts fin total) u (Ok tt) ->
  yes opts = true /\ exists t u1 u2, u = u1 ++ u2 /\ opened dst t u1 /\
    (whole_blocks t -> landed src fin total t (verify opts) u2).
Proof.
  intros Ht. unfold write_real. destruct (yes opts); [|by intros (?&?&->&_&[=])]. intros (d & v & -> & H). cbn [bind] in H.
  destruct d as [st|]; [|by destruct H as (?&?&->&_&[=])]. apply exec_bind in H as (u1 & o & u2 & -> & Ho & H).
  destruct o as [[fd node]|m]; [|by destruct H as (?&?&->&_&[=])]. apply exec_bind in H as (u3 & t & u4 & -> & Hd & H).
  destruct t as [t|m]; [|by destruct H as (?&?&->&_&[=])]. split; [done|]. exists t, (Obs (Stat dst) (Some st) :: u1 ++ u3), u4.
  split_and!; [cbn; by rewrite <- app_assoc| |intros Hb; by apply write_phase_landed].
  apply (opened_app _ _ [_]). by eapply opened_described.
Qed.
(** what happens before the source is open *)
Definition accepted (src dst : string) (opts : RufuxWriteOpts) (st : stat) (fin : Z) (u : list obs) : Prop :=
  exists ug d, u = Obs (Stat src) (Some st) :: ug ++ [Obs (Stat dst) d; Obs (Fopen src "rb") (inr fin)] /\
    is_kind KReg (Some st) = true /\ same_file (Some st) d = false /\
    0 < image_len st opts /\ src_len opts <= st_size st mod 2 ^ 64 /\
    exec (rufux_check_target dst (allow_fixed opts) (allow_file opts)) ug (Ok tt).
(** only a target that is none of the system's, and not the image itself, and
    an image of at least one byte get past the guards *)
Lemma write_image_accepted src dst opts u r : exec (rufux_write_image fuel src dst opts) u r ->
  (exists m, r = Fail m) \/ exists st fin u1 u2, u = u1 ++ u2 /\ accepted src dst opts st fin u1 /\
    exec (if dry_run opts then
            dry_loop fuel fin (image_len st opts) ;;;
            bad <- call (Ferror fin) ;;
            call (Fclose fin) ;;;
            if bad : bool then fail ("read error on '" +:+ src +:+ "'")
            else call (Progress (image_len st opts) (image_len st opts)) ;;; ok tt
          else write_real fuel src dst opts fin (image_len st opts)) u2 r.
Proof.
  intros (sst & v & -> & H). cbn [bind] in H. destruct (is_kind KReg sst) eqn:Hk; [|left; destruct H as [_ ->]; eauto].
  destruct sst as [st|]; [|done]. cbn [negb] in H. destruct (_ && _) eqn:Hl; [left; destruct H as [_ ->]; eauto|].
  change (if 0 <? src_len opts then src_len opts else st_size st mod 2 ^ 64) with (image_len st opts) in H.
  destruct (Z.eqb_spec (image_len st opts) 0) as [|Hz]; [left; destruct H as [_ ->]; eauto|].
  apply exec_bind in H as (ug & g & w & -> & Hg & H). destruct g as [[]|m]; [|left; destruct H as [_ ->]; eauto].
  destruct H as (d & w' & -> & H). cbn [bind] in H. destruct (same_file _ d) eqn:Hs; [left; destruct H as [_ ->]; eauto|].
  destruct H as (f & w & -> & H). cbn [bind] in H. destruct f as [e|fin]; [left; destruct H as [_ ->]; eauto|]. right.
  exists st, fin, (Obs (Stat src) (Some st) :: ug ++ [Obs (Stat dst) d; Obs (Fopen src "rb") (inr fin)]), w.
  split_and!; [cbn; by rewrite <- app_assoc| |exact H]. exists ug, d. split_and!; try done.
  - unfold image_len in *. destruct (Z.ltb_spec 0 (src_len opts)); [lia|]. pose proof (Z.mod_pos_bound (st_size st) (2 ^ 64)). lia.
  - pose proof (Z.mod_pos_bound (st_size st) (2 ^ 64)). apply andb_false_iff in Hl as [?%Z.ltb_ge|?%Z.ltb_ge]; lia.
Qed.
End Run.


(** Three bytes written to disk5 of [some_mac], whose sectors have 512. The state
    counts the reads of the source that is open. *)
Definition abc : list byte := bytes_of_string "abc".
Definition write_env : handler Z := fun X e w =>
  match e in ev X return X * Z with
  | Stat p => (Some (if starts_with "/dev/" p then Stat_ KBlk 0 1 2 else Stat_ KReg 3 1 1), w)
  | Access _ _ => (true, w)
  | Fstat _ => (Some (Stat_ KChr 0 1 2), w)
  | Fopen _ _ => (inr 9, 0) | Fread _ n => (if w =? 0 then ztake n abc else [], w + 1)
  | Open _ _ => (inr 7, w) | BlockSize _ => (Some 512, w) | BlockCount _ => (Some 8, w)
  | IOString _ _ => (Some "disk5", w) | IOBool _ _ => (true, w)
  | PipeSpawnAt _ _ => (Some 6, w) | FullFsync _ => (true, w)
  | Write _ b => (inr (zlen b), w) | Read fd n => (inr (if fd =? 7 then padded true 512 abc else []), w)
  | e => (some_mac_env _ e, w)
  end.
Definition write_opts : RufuxWriteOpts := WriteOpts_ false true true false true 0.
Definition write_run := run write_env (rufux_write_image 9 "i" "/dev/disk5" write_opts) 0.
Lemma write_runs : exec (rufux_write_image 9 "i" "/dev/disk5" write_opts) write_run.1.2 (Ok tt).
Proof. apply run_computed. vm_compute. reflexivity. Qed.

(** Sectors a block of the copy is no multiple of, as the 520 bytes of some
    drives: every block is filled up, so that everything behind the first block
    lands 264 bytes too far, and the copy reports success. *)
Lemma chunk_at_once fuel fd done buf : 0 < zlen buf ->
  exec (write_chunk (S (S fuel)) fd done buf) [Obs (Write fd buf) (inr (zlen buf))] (Ok tt).
Proof.
  intros H. unfold write_chunk. cbn [loop]. rewrite (proj2 (Z.ltb_lt _ _) H). change (zdrop 0 buf) with buf.
  eexists _, _. split; [reflexivity|]. cbn [bind]. rewrite (proj2 (Z.eqb_neq _ _)), Z.add_0_l by lia. cbn [bind].
  rewrite Z.ltb_irrefl. by split.
Qed.
(** a turn of the copy *)
Lemma copy_turn n fuel h total tg l done rem u r : let out := padded (t_chr tg) (t_sector tg) l in
  0 < zlen l -> 0 < zlen out -> Z.min CHUNK rem <> 0 ->
  exec (loop n (copy_block (S (S fuel)) h total tg) (done + zlen l, rem - zlen l)) u r ->
  exec (loop (S n) (copy_block (S (S fuel)) h total tg) (done, rem))
    (Obs (Fread h (Z.min CHUNK rem)) l :: Obs (Write (t_fd tg) out) (inr (zlen out)) :: Obs (Progress (done + zlen l) total) tt :: u) r.
Proof.
  intros out Hl Hz Hr H. cbn [loop]. apply exec_bind. eexists [_; _; _], (inl _), u. split; [reflexivity|]. split; [|exact H].
  unfold copy_block. apply exec_bind. eexists [_], l, [_; _]. split; [reflexivity|]. split.
  { unfold read_capped. rewrite (proj2 (Z.eqb_neq _ _) Hr). eexists _, _. split; [reflexivity|]. by split. }
  destruct l as [|b l]; [done|].
  apply exec_bind. eexists [_], (Ok tt), [_]. split; [reflexivity|]. split; [by apply chunk_at_once|].
  eexists tt, _. split; [reflexivity|]. by split.
Qed.
Lemma odd_sectors_shift_image h fd node l1 l2 : zlen l1 = CHUNK -> zlen l2 = 520 ->
  exec (copy_loop 9 h (CHUNK + 520) (Target fd node false true 520))
    [Obs (Fread h CHUNK) l1; Obs (Write fd (l1 ++ replicate 264 Byte.x00)) (inr (CHUNK + 264)); Obs (Progress CHUNK (CHUNK + 520)) tt;
     Obs (Fread h 520) l2; Obs (Write fd l2) (inr 520); Obs (Progress (CHUNK + 520) (CHUNK + 520)) tt]
    (CHUNK + 520, Ok tt).
Proof.
  intros H1 H2.
  assert (Hp1 : padded true 520 l1 = l1 ++ replicate 264 Byte.x00) by (unfold padded; by rewrite H1).
  assert (Hp2 : padded true 520 l2 = l2) by (unfold padded; rewrite H2; apply app_nil_r).
  assert (Hz1 : zlen (l1 ++ replicate 264 Byte.x00) = CHUNK + 264) by (rewrite zlen_app, H1; reflexivity).
  set (tg := Target fd node false true 520).
  assert (R1 := copy_turn 8 7 h (CHUNK + 520) tg l1 0 (CHUNK + 520)). assert (R2 := copy_turn 7 7 h (CHUNK + 520) tg l2 CHUNK 520).
  cbn [t_chr t_sector t_fd tg] in R1, R2. cbv zeta in R1, R2. rewrite Hp1, Hz1, H1 in R1. rewrite Hp2, H2 in R2.
  apply R1; [done..|]. change (CHUNK + 520 - CHUNK) with 520. apply R2; [done..|]. by split.
Qed.
