(* ===== verification/Populate.v ===== *)
(** Filling an NTFS volume on macOS (src/macos/src/ntfs_populate.c): a
    directory tree, or one file, copied from the host through libntfs-3g.

    An open inode or attribute is a number, as in the mount server's NTFS
    backend. The volume is the one the process has mounted. A copy goes on where
    the last one left the count of bytes; the count of a copy that failed is not
    used again. *)
From stdpp Require Import sorting.
From S2P Require Import Prelude Cstr Ntfs3g Sys Exec Macexec Macdisk Macvolume.

Definition NTFS_STREAM_CHUNK_BYTES : Z := 1024 * 1024.
Definition NTFS_MAX_PATH_DEPTH : Z := 64.
Definition NTFS_ENOENT : Z := 2.

(** * The volume *)
(** the BSD name of a device node, and whether it is a slice *)
Definition parse_bsd_ident (path : string) : io (option (string * bool)) :=
  if String.eqb path "" then Ret None
  else
    r <- realpath path ;;
    let p := default path r in
    let p := if starts_with "/private/dev/" p then sdrop 8 p else p in
    let cand :=
      if starts_with "/dev/rdisk" p then Some (sdrop 6 p)
      else if starts_with "/dev/disk" p then Some (sdrop 5 p)
      else None in
    Ret (match cand with
         | Some c =>
             if starts_with "disk" c && digit_at (sdrop 4 c) then
               match (span is_digit (sdrop 4 c)).2 with
               | "" => Some (snprintf BSD_CAP c, false)
               | String s t =>
                   if Ascii.eqb s "s" && digit_at t && String.eqb (span is_digit t).2 ""
                   then Some (snprintf BSD_CAP c, true) else None
               end
             else None
         | None => None
         end).
(** a mount of the target: of the slice, or of any part of the disk *)
Definition mount_hits (target : string) (is_slice : bool) (mbsd : string) : bool :=
  if is_slice then String.eqb mbsd target
  else starts_with target mbsd &&
       match sdrop (String.length target) mbsd with "" => true | String c _ => Ascii.eqb c "s" end.

(** * Sorted names *)
(** not after, in the order of strcmp *)
Fixpoint cmp_str_ptr (a b : string) : bool :=
  match a, b with
  | "", _ => true
  | _, "" => false
  | String x s, String y t => if code x =? code y then cmp_str_ptr s t else code x <? code y
  end.
Definition not_after (a b : string) : Prop := cmp_str_ptr a b = true.
#[export] Instance not_after_dec a b : Decision (not_after a b).
Proof. unfold not_after. apply _. Defined.

Section Populate.
(** bounds on what helpers print and on the contents that are moved *)
Variable fuel : nat.
(** strerror of the errno libntfs-3g leaves, and timespec2ntfs *)
Variable strerr : Z -> string.
Variable of_timespec : Z * Z -> Z.
(** whether the caller wants to hear of the progress *)
Variable prog : bool.
Definition report (done total : Z) : io unit := when prog (call (Progress done total)).

Definition unmount_if_mounted_ntfs_target (dev_path : string) : io unit :=
  b <- parse_bsd_ident dev_path ;;
  match b with
  | None => Ret tt
  | Some (target, is_slice) =>
      mnts <- call Getmntinfo ;;
      hit <- first_io (fun m =>
        b <- parse_bsd_ident (f_mntfromname m) ;;
        Ret (match b with
             | Some (mbsd, _) => if mount_hits target is_slice mbsd then Some tt else None
             | None => None
             end)) mnts ;;
      match hit with
      | None => Ret tt
      | Some _ =>
          let bnode := rufux_macos_block_node dev_path 160 in
          if is_slice : bool then rufux_capture fuel ["/usr/sbin/diskutil"; "unmount"; "force"; bnode] 512 ;;; Ret tt
          else rufux_macos_unmount_disk fuel bnode ;;; Ret tt
      end
  end.
(** ntfs_mount, once more when the device was in use *)
Definition mount_rw (bnode : string) (is_dev : bool) : io (errno + unit) :=
  v <- call (NMount bnode false) ;;
  match v with
  | inr _ => Ret v
  | inl e =>
      if is_dev && (bool_decide (e = EBUSY) || bool_decide (e = EACCES)) then
        rufux_capture fuel ["/usr/sbin/diskutil"; "unmount"; "force"; bnode] 512 ;;;
        call (Usleep 100000) ;;;
        call (NMount bnode false)
      else Ret v
  end.
(** the block node that is mounted *)
Definition open_ntfs_rw (ntfs_target : string) : io (cres string) :=
  let refusing := fail ("refusing boot/system disk '" +:+ ntfs_target +:+ "'") in
  if String.eqb ntfs_target "" then fail "empty NTFS target path"
  else
    boot <- rufux_macos_is_boot_disk ntfs_target ;;
    if boot : bool then refusing
    else
      let bnode := rufux_macos_block_node ntfs_target PATH_MAX in
      boot <- rufux_macos_is_boot_disk bnode ;;
      if boot : bool then refusing
      else
        st <- call (Stat bnode) ;;
        match st with
        | None => fail ("NTFS target '" +:+ ntfs_target +:+ "' does not exist")
        | Some _ =>
            if negb (is_kind KReg st) && negb (is_device st) then
              fail ("NTFS target '" +:+ ntfs_target +:+ "' is not a block device or image file")
            else
              when (is_device st) (unmount_if_mounted_ntfs_target bnode) ;;;
              v <- mount_rw bnode (is_device st) ;;
              match v with
              | inl e => fail ("ntfs_mount('" +:+ bnode +:+ "') failed: " +:+ strerror e)
              | inr _ =>
                  ic <- call NIgnoreCase ;;
                  match ic with
                  | Some e =>
                      call NUmount ;;; fail ("ntfs_set_ignore_case('" +:+ bnode +:+ "') failed: " +:+ strerr e)
                  | None => call NFreeSpace ;;; ok bnode
                  end
              end
        end.
(** [rc]: what the work on the volume came to, which is what is returned unless
    closing fails *)
Definition close_ntfs_rw (bnode : string) (rc : cres unit) : io (cres unit) :=
  um <- call NUmount ;;
  match rc with
  | Fail e => Ret (Fail e)
  | Ok _ =>
      if negb um then e <- call Errno ;; fail ("ntfs_umount('" +:+ bnode +:+ "') failed: " +:+ strerror e)
      else
        have <- rufux_have "ntfsfix" ;;
        if negb have then fail "ntfsfix missing"
        else
          r <- rufux_capture fuel ["ntfsfix"; "-d"; bnode] 1024 ;;
          if r.1 then ok tt else fail ("ntfsfix -d failed on '" +:+ bnode +:+ "': " +:+ r.2)
  end.

(** * Directories *)
Definition utf8_to_ntfs_component (name : string) : io (cres (list Z)) :=
  if String.eqb name "" || String.eqb name "." || String.eqb name ".." || has_slash name then
    fail ("invalid NTFS path component '" +:+ name +:+ "'")
  else
    u <- call (NMbstoucs name) ;;
    match u with
    | None | Some [] => fail ("UTF-8 to UTF-16 conversion failed for '" +:+ name +:+ "'")
    | Some u => if 255 <? zlen u then fail ("NTFS filename '" +:+ name +:+ "' exceeds 255 UTF-16 chars") else ok u
    end.
Definition is_ntfs_dir (i : ntfs_inode) : bool := negb (Z.land (n_mrec_flags i) MFT_RECORD_IS_DIRECTORY =? 0).
Definition ensure_ntfs_child_dir (parent : Z) (name : string) : io (cres Z) :=
  u <-? utf8_to_ntfs_component name ;;
  l <- call (NLookup parent u) ;;
  match l with
  | inr mref =>
      o <- call (NInodeOpen (MREF mref)) ;;
      match o with
      | inl e => fail ("ntfs_inode_open dir '" +:+ name +:+ "' failed: " +:+ strerr e)
      | inr child =>
          i <- call (NInode child) ;;
          if is_ntfs_dir i then ok child
          else
            call (NInodeCloseInDir child parent) ;;;
            fail ("existing NTFS entry '" +:+ name +:+ "' is not a directory")
      end
  | inl e =>
      if negb (e =? NTFS_ENOENT) then fail ("ntfs_inode_lookup_by_name '" +:+ name +:+ "' failed: " +:+ strerr e)
      else
        c <- call (NCreate parent u S_IFDIR) ;;
        match c with
        | inl e => fail ("ntfs_create dir '" +:+ name +:+ "' failed: " +:+ strerr e)
        | inr child => ok child
        end
  end.

(** * Files *)
(** the inode of a file in an open directory, there or made; the caller closes
    the file it reads when this fails *)
Definition open_leaf (dir : Z) (leaf : string) (u : list Z) : io (cres Z) :=
  l <- call (NLookup dir u) ;;
  match l with
  | inr mref =>
      o <- call (NInodeOpen (MREF mref)) ;;
      match o with
      | inl e => fail ("ntfs_inode_open '" +:+ leaf +:+ "' failed: " +:+ strerr e)
      | inr ni =>
          i <- call (NInode ni) ;;
          if is_ntfs_dir i then
            call (NInodeCloseInDir ni dir) ;;; fail ("cannot overwrite NTFS directory '" +:+ leaf +:+ "' with file")
          else if negb (Z.land (n_flags i) FILE_ATTR_REPARSE_POINT =? 0) then
            call (NInodeCloseInDir ni dir) ;;;
            fail ("cannot overwrite NTFS symlink/reparse '" +:+ leaf +:+ "' with file")
          else ok ni
      end
  | inl e =>
      if negb (e =? NTFS_ENOENT) then fail ("ntfs_inode_lookup_by_name '" +:+ leaf +:+ "' failed: " +:+ strerr e)
      else
        c <- call (NCreate dir u S_IFREG) ;;
        match c with
        | inl e => fail ("ntfs_create file '" +:+ leaf +:+ "' failed: " +:+ strerr e)
        | inr ni => ok ni
        end
  end.
(** one buffer, written at [pos]; [Some (off, e)] when the write at [off] failed
    or wrote nothing *)
Definition write_chunk (na pos : Z) (buf : list byte) : io (option (Z * Z)) :=
  loop fuel (fun off =>
    if off <? zlen buf then
      r <- call (NPwrite na (pos + off) (zdrop off buf)) ;;
      let '(w, e) := r in
      if w <=? 0 then Ret (inr (Some (off, e))) else Ret (inl (off + w))
    else Ret (inr None)) 0.
(** the contents of [fd], from the start; the count of bytes goes on from [done] *)
Definition copy_contents (fd na : Z) (leaf host_file : string) (done total : Z) : io (cres Z) :=
  loop fuel (fun '(pos, done) =>
    r <- call (Read fd NTFS_STREAM_CHUNK_BYTES) ;;
    match r with
    | inl EINTR => Ret (inl (pos, done))
    | inl e => Ret (inr (Fail ("read '" +:+ host_file +:+ "' failed: " +:+ strerror e)))
    | inr [] => Ret (inr (Ok done))
    | inr data =>
        w <- write_chunk na pos data ;;
        match w with
        | Some (off, e) =>
            Ret (inr (Fail ("ntfs_attr_pwrite '" +:+ leaf +:+ "' at offset " +:+ dec (pos + off) +:+ " failed: " +:+ strerr e)))
        | None =>
            let done := (done + zlen data) mod 2 ^ 64 in
            report done total ;;; Ret (inl (pos + zlen data, done))
        end
    end) (0, done).
(** the times of the source on an inode *)
Definition set_times (ni : Z) (mtime : Z * Z) : io unit :=
  let mt := of_timespec mtime in
  call (NSetMtime ni mt) ;;; call (NSetCtime ni mt) ;;; call (NSetAtime ni mt) ;;; call (NDirty ni).
(** the data attribute of the file, emptied; [Fail]: the inode is closed *)
Definition open_data (ni dir : Z) (leaf : string) : io (cres Z) :=
  na <- call (NAttrOpen ni) ;;
  match na with
  | inl e =>
      call (NInodeCloseInDir ni dir) ;;; fail ("ntfs_attr_open('" +:+ leaf +:+ "') failed: " +:+ strerr e)
  | inr na =>
      d <- call (NAttr na) ;;
      r <- (if d.1 =? 0 then Ret None else call (NTruncate na 0)) ;;
      match r with
      | Some e =>
          call (NAttrClose na) ;;; call (NInodeCloseInDir ni dir) ;;;
          fail ("ntfs_attr_truncate('" +:+ leaf +:+ "') failed: " +:+ strerr e)
      | None => ok na
      end
  end.
(** the file is written: close it *)
Definition finish_file (ni na dir : Z) (leaf : string) (mtime : Z * Z) : io (cres unit) :=
  p <- call (NPclose na) ;;
  if negb (p =? 0) then
    e <- call Errno ;;
    call (NAttrClose na) ;;; call (NInodeCloseInDir ni dir) ;;;
    fail ("ntfs_attr_pclose('" +:+ leaf +:+ "') failed: " +:+ strerror e)
  else
    call (NAttrClose na) ;;;
    set_times ni mtime ;;;
    c <- call (NInodeCloseInDir ni dir) ;;
    if negb (c =? 0) then
      e <- call Errno ;; fail ("ntfs_inode_close_in_dir('" +:+ leaf +:+ "') failed: " +:+ strerror e)
    else ok tt.
Definition write_regular_file_into_dir (dir : Z) (leaf host_file : string) (st : stat) (done total : Z) : io (cres Z) :=
  u <-? utf8_to_ntfs_component leaf ;;
  fd <- call (Open host_file O_RDONLY) ;;
  match fd with
  | inl e => fail ("open '" +:+ host_file +:+ "' failed: " +:+ strerror e)
  | inr fd =>
      n <- open_leaf dir leaf u ;;
      match n with
      | Fail e => call (Close fd) ;;; fail e
      | Ok ni =>
          a <- open_data ni dir leaf ;;
          match a with
          | Fail e => call (Close fd) ;;; fail e
          | Ok na =>
              r <- copy_contents fd na leaf host_file done total ;;
              match r with
              | Fail e =>
                  call (NAttrClose na) ;;; call (NInodeCloseInDir ni dir) ;;; call (Close fd) ;;; fail e
              | Ok done => call (Close fd) ;;; finish_file ni na dir leaf (st_mtime st) ?;; ok done
              end
          end
      end
  end.
Definition write_symlink_into_dir (dir : Z) (leaf host_link : string) (st : stat) : io (cres unit) :=
  t <- call (Readlink host_link) ;;
  match t with
  | None => e <- call Errno ;; fail ("readlink '" +:+ host_link +:+ "' failed: " +:+ strerror e)
  | Some target =>
      let target := snprintf PATH_MAX target in
      u <-? utf8_to_ntfs_component leaf ;;
      l <- call (NLookup dir u) ;;
      match l with
      | inr _ => ok tt
      | inl e =>
          if negb (e =? NTFS_ENOENT) then
            fail ("ntfs_inode_lookup_by_name '" +:+ leaf +:+ "' failed: " +:+ strerr e)
          else
            ut <- call (NMbstoucs target) ;;
            match ut with
            | None => fail ("UTF-8 conversion failed for symlink target '" +:+ target +:+ "'")
            | Some ut =>
                c <- call (NCreateSymlink dir u ut) ;;
                match c with
                | inl e => fail ("ntfs_create_symlink '" +:+ leaf +:+ "' failed: " +:+ strerr e)
                | inr lni =>
                    set_times lni (st_mtime st) ;;;
                    c <- call (NInodeCloseInDir lni dir) ;;
                    if negb (c =? 0) then
                      e <- call Errno ;;
                      fail ("ntfs_inode_close_in_dir symlink '" +:+ leaf +:+ "' failed: " +:+ strerror e)
                    else ok tt
                end
            end
      end
  end.

(** * Trees *)
Definition list_sorted_dir_entries (host_dir : string) : io (cres (list string)) :=
  d <- call (Opendir host_dir) ;;
  match d with
  | None => e <- call Errno ;; fail ("opendir '" +:+ host_dir +:+ "' failed: " +:+ strerror e)
  | Some names =>
      ok (merge_sort not_after (List.filter (fun n => negb (String.eqb n ".") && negb (String.eqb n "..")) names))
  end.
(** the path of an entry, when it fits *)
Definition child_path (host_dir name : string) : option string :=
  let child := host_dir +:+ "/" +:+ name in
  if Z.of_nat PATH_MAX <=? strlen child then None else Some child.
(** lstat of an entry *)
Definition stat_child (host_dir name : string) : io (cres (string * stat)) :=
  match child_path host_dir name with
  | None => fail ("source path too long under '" +:+ host_dir +:+ "'")
  | Some child =>
      st <- call (Lstat child) ;;
      match st with
      | None => e <- call Errno ;; fail ("lstat '" +:+ child +:+ "' failed: " +:+ strerror e)
      | Some s => ok (child, s)
      end
  end.
(** [for] over names with a result that is passed on, up to the first failure *)
Definition each {A} (body : A -> string -> io (cres A)) (names : list string) (a : A) : io (cres A) :=
  r <- fold_io (fun a n => r <- body a n ;; Ret (match r with Ok a => inl a | Fail e => inr (Fail e) end)) names a ;;
  Ret (match r with inl a => Ok a | inr r => r end).
(** the depth of the tree is bounded by the length of a path *)
Fixpoint prescan_dir_bytes (depth : nat) (host_dir : string) (total : Z) : io (cres Z) :=
  match depth with
  | O => OutOfFuel
  | S d =>
      names <-? list_sorted_dir_entries host_dir ;;
      each (fun total n =>
        c <-? stat_child host_dir n ;;
        let '(child, s) := c in
        if is_kind KDir (Some s) then prescan_dir_bytes d child total
        else if is_kind KReg (Some s) && (0 <? st_size s) then ok ((total + st_size s) mod 2 ^ 64)
        else ok total) names total
  end.
Fixpoint populate_dir_rec (depth : nat) (ntfs_dir : Z) (host_dir : string) (total done : Z) : io (cres Z) :=
  match depth with
  | O => OutOfFuel
  | S d =>
      names <-? list_sorted_dir_entries host_dir ;;
      each (fun done n =>
        c <-? stat_child host_dir n ;;
        let '(child, s) := c in
        if is_kind KDir (Some s) then
          sub <-? ensure_ntfs_child_dir ntfs_dir n ;;
          r <- populate_dir_rec d sub child total done ;;
          c <- call (NInodeCloseInDir sub ntfs_dir) ;;
          match r with
          | Fail e => fail e
          | Ok done =>
              if negb (c =? 0) then
                e <- call Errno ;; fail ("ntfs_inode_close_in_dir dir '" +:+ n +:+ "' failed: " +:+ strerror e)
              else ok done
          end
        else if is_kind KReg (Some s) then write_regular_file_into_dir ntfs_dir n child s done total
        else if is_kind KLnk (Some s) then write_symlink_into_dir ntfs_dir n child s ?;; ok done
        else ok done) names done
  end.
(** the root directory, closed after the work that came to [rc] *)
Definition close_root (root : Z) (rc : cres unit) : io (cres unit) :=
  c <- call (NInodeClose root) ;;
  match rc with
  | Fail e => Ret (Fail e)
  | Ok _ =>
      if negb (c =? 0) then e <- call Errno ;; fail ("ntfs_inode_close(FILE_root) failed: " +:+ strerror e) else ok tt
  end.
Definition forget_count {A} (r : cres A) : cres unit := match r with Ok _ => Ok tt | Fail e => Fail e end.
(** the work on an opened volume, from the root directory to closing *)
Definition with_root (bnode : string) (work : Z -> io (cres unit)) : io (cres unit) :=
  o <- call (NInodeOpen FILE_root) ;;
  match o with
  | inl e => close_ntfs_rw bnode (Fail ("ntfs_inode_open(FILE_root) failed: " +:+ strerr e))
  | inr root => rc <- work root ;; close_ntfs_rw bnode rc
  end.
(** paths are shorter than PATH_MAX, and a level adds to one *)
Definition DEPTH : nat := S PATH_MAX.
Definition rufux_ntfs_populate_dir (ntfs_target src_dir : string) : io (cres unit) :=
  if String.eqb ntfs_target "" then fail "empty NTFS target path"
  else
    boot <- rufux_macos_is_boot_disk ntfs_target ;;
    if boot : bool then fail ("refusing boot/system disk '" +:+ ntfs_target +:+ "'")
    else
      src <- (if String.eqb src_dir "" then Ret None else call (Stat src_dir)) ;;
      if negb (is_kind KDir src) then fail ("source directory '" +:+ src_dir +:+ "' missing")
      else
        total <-? prescan_dir_bytes DEPTH src_dir 0 ;;
        bnode <-? open_ntfs_rw ntfs_target ;;
        with_root bnode (fun root =>
          report 0 total ;;;
          r <- populate_dir_rec DEPTH root src_dir total 0 ;;
          close_root root (forget_count r)).

(** * One file *)
Definition is_separator (c : ascii) : bool := one_of "/\" c.
(** the components of a relative path *)
Definition split_relpath (relpath : string) : cres (list string) :=
  fold_left (fun acc c =>
    match acc with
    | Fail e => Fail e
    | Ok comps =>
        if NTFS_MAX_PATH_DEPTH <=? zlen comps then Fail ("NTFS path '" +:+ relpath +:+ "' exceeds max depth")
        else if String.eqb c "." || String.eqb c ".." then
          Fail ("invalid relative component '" +:+ c +:+ "' in '" +:+ relpath +:+ "'")
        else Ok (comps ++ [c])
    end) (tokens is_separator relpath) (Ok []).
(** the directories on the way down, the deepest first; the message when one
    could not be made *)
Fixpoint descend (stack : list Z) (top : Z) (comps : list string) : io (list Z * cres Z) :=
  match comps with
  | [] => Ret (stack, Ok top)
  | c :: t =>
      r <- ensure_ntfs_child_dir top c ;;
      match r with
      | Fail e => Ret (stack, Fail e)
      | Ok child => descend (child :: stack) child t
      end
  end.
(** closed from the deepest up, the root last *)
Fixpoint close_stack (stack : list Z) (rc : cres unit) : io (cres unit) :=
  match stack with
  | [] => Ret rc
  | [root] => close_root root rc
  | k :: ((parent :: _) as up) =>
      c <- call (NInodeCloseInDir k parent) ;;
      match rc with
      | Fail e => close_stack up (Fail e)
      | Ok _ =>
          if negb (c =? 0) then
            e <- call Errno ;; close_stack up (Fail ("ntfs_inode_close_in_dir failed: " +:+ strerror e))
          else close_stack up (Ok tt)
      end
  end.
Definition rufux_ntfs_write_single_file (ntfs_target src_file ntfs_relpath : string) : io (cres unit) :=
  if String.eqb ntfs_target "" then fail "empty NTFS target path"
  else
    boot <- rufux_macos_is_boot_disk ntfs_target ;;
    if boot : bool then fail ("refusing boot/system disk '" +:+ ntfs_target +:+ "'")
    else
      src <- (if String.eqb src_file "" then Ret None else call (Stat src_file)) ;;
      match src with
      | Some s =>
          if negb (is_kind KReg src) then fail ("source file '" +:+ src_file +:+ "' missing or not a regular file")
          else if String.eqb ntfs_relpath "" then fail "empty NTFS destination relative path"
          else if Z.of_nat PATH_MAX <=? strlen ntfs_relpath then fail "NTFS destination relative path too long"
          else
            match split_relpath ntfs_relpath with
            | Fail e => fail e
            | Ok [] => fail ("empty NTFS destination filename in '" +:+ ntfs_relpath +:+ "'")
            | Ok (c :: t) =>
                bnode <-? open_ntfs_rw ntfs_target ;;
                with_root bnode (fun root =>
                  d <- descend [root] root (removelast (c :: t)) ;;
                  rc <- match d.2 with
                        | Fail e => Ret (Fail e)
                        | Ok top =>
                            let total := st_size s mod 2 ^ 64 in
                            report 0 total ;;;
                            r <- write_regular_file_into_dir top (List.last (c :: t) "") src_file s 0 total ;;
                            Ret (forget_count r)
                        end ;;
                  close_stack d.1 rc)
            end
      | None => fail ("source file '" +:+ src_file +:+ "' missing or not a regular file")
      end.
End Populate.
