(* ===== verification/PopulateSpec.v ===== *)
(** Filling an NTFS volume uses libntfs-3g as the library requires, whatever it
    and the system answer: the volume, the inodes and the attributes. *)
From stdpp Require Import gmap.
From S2P Require Import Prelude Cstr Ntfs3g Sys Xdr Mountd Ntfs NtfsSpec Exec Macexec Macdisk Macmount Macstate Macvolume Populate.

(** * The volume

    [None]: a call was not okay. [Some None]: no volume is mounted.
    [Some (Some h)]: one is, with [h] open. *)
Definition volume : Type := option (option open_set).
Definition nothing_open : open_set := OpenSet ∅ None.
(** the calls that need a mounted volume *)
Definition volume_call {X : Set} (e : ev X) : bool :=
  match e with
  | NIgnoreCase | NVolName | NFreeSpace | NVolume | NHasSync | NSync | NInodeOpen _ | NInodeClose _ | NInodeCloseInDir _ _
  | NDirParent _ | NInode _ | NSetAtime _ _ | NSetMtime _ _ | NSetCtime _ _ | NDirty _ | NPossibleSymlink _
  | NInterixTypes _ | NMakeSymlink _ | NReadAll _ | NLookup _ _ | NCreate _ _ _ | NCreateSymlink _ _ _ | NLink _ _ _
  | NDelete _ _ _ | NReaddir _ | NAttrOpen _ | NAttr _ | NPread _ _ _ | NPwrite _ _ _ | NTruncate _ _ | NPclose _
  | NAttrClose _ => true
  | _ => false
  end.
(** A volume is mounted when none is, and unmounted when nothing is open on it;
    in between calls are okay as the backend's are. *)
Definition vol_step (o : obs) (s : volume) : volume :=
  match o, s with
  | Obs e x, Some v =>
      match e in ev X return X -> volume with
      | NMount _ _ | NMountRo _ => fun x =>
          match v with
          | None => Some (match x with inr _ => Some nothing_open | inl _ => None end)
          | Some _ => None
          end
      | NUmount => fun _ => if decide (v = Some nothing_open) then Some None else None
      | e => fun x =>
          match v with
          | Some h => if decide (okay e h) then Some (Some (after e x h)) else None
          | None => if volume_call e then None else Some None
          end
      end x
  | _, None => None
  end.
(** what the library opens was not open *)
Definition vol_law (o : obs) (s : volume) : Prop :=
  match o, s with
  | Obs e x, Some (Some h) => match opens e x with Some ni => ni ∉ os_inodes h | None => True end
  | _, _ => True
  end.
#[local] Abbreviation vfrom := (ofrom vol_step vol_law).
(** from [h] open on a mounted volume *)
Definition vruns (h : open_set) {A} (m : io A) (Q : A -> open_set -> Prop) : Prop :=
  vfrom (Some (Some h)) m (fun a s => exists h', s = Some (Some h') /\ Q a h').
Definition neat (h : open_set) {A} (m : io A) : Prop := vruns h m (fun _ h' => h' = h).

(** calls of the library but for mounting and unmounting *)
Definition in_volume {X : Set} (e : ev X) : bool :=
  match e with NMount _ _ | NMountRo _ | NUmount => false | _ => true end.
(** calls that open a file to read, or read a link *)
Definition opens_source {X : Set} (e : ev X) : bool :=
  match e with Open _ O_RDONLY | Readlink _ => true | _ => false end.
(** calls that are nothing to the library, and open nothing to copy *)
Definition outside : forall X : Set, ev X -> Prop :=
  fun X e => in_volume e = true /\ volume_call e = false /\ opens_source e = false.

Lemma v_ret {A} h (a : A) (Q : A -> open_set -> Prop) : Q a h -> vruns h (Ret a) Q.
Proof. intros H. apply ofrom_ret. eauto. Qed.
Lemma v_bind {A B} h (m : io A) (f : A -> io B) P Q :
  vruns h m P -> (forall a h', P a h' -> vruns h' (f a) Q) -> vruns h (bind m f) Q.
Proof. intros Hm Hf. eapply ofrom_bind; [apply Hm|]. intros a s (h' & -> & H). by apply Hf. Qed.
Lemma v_neat {A B} h (m : io A) (f : A -> io B) Q : neat h m -> (forall a, vruns h (f a) Q) -> vruns h (bind m f) Q.
Proof. intros Hm Hf. eapply v_bind; [apply Hm|]. by intros a ? ->. Qed.
Lemma v_call {X : Set} {B} h (e : ev X) (f : X -> io B) Q :
  in_volume e = true -> okay e h ->
  (forall x, (forall ni, opens e x = Some ni -> ni ∉ os_inodes h) -> vruns (after e x h) (f x) Q) ->
  vruns h (bind (call e) f) Q.
Proof.
  intros Hi Ho Hf. apply ofrom_step. intros x Hl.
  assert (E : vol_step (Obs e x) (Some (Some h)) = Some (Some (after e x h))).
  { destruct e; try discriminate Hi; cbn [vol_step]; by rewrite decide_True by exact Ho. }
  rewrite E. apply Hf. intros ni Hn. cbn [vol_law] in Hl. by rewrite Hn in Hl.
Qed.
Lemma v_mono {A} h (m : io A) (P Q : A -> open_set -> Prop) :
  (forall a h', P a h' -> Q a h') -> vruns h m P -> vruns h m Q.
Proof. intros H. apply ofrom_mono. intros a s (h' & -> & Hp). eauto. Qed.
Lemma v_loop {T A} h n (body : T -> io (T + A)) x :
  (forall x, neat h (body x)) -> neat h (loop n body x).
Proof.
  intros Hb. apply (ofrom_loop (fun _ s => s = Some (Some h))); [|done]. intros x' ? ->.
  eapply ofrom_mono; [|apply Hb]. intros [y|a] s (h' & -> & ->); eauto.
Qed.
Lemma v_fold {T B A} h (body : T -> B -> io (T + A)) l x :
  (forall x b, neat h (body x b)) -> neat h (fold_io body l x).
Proof.
  intros Hb. revert x; induction l as [|b l IH]; intros x; [by apply v_ret|]. cbn [fold_io].
  apply v_neat; [apply Hb|]. intros [x'|a]; [apply IH|by apply v_ret].
Qed.
Lemma outside_step {X : Set} (e : ev X) x v : outside X e -> vol_step (Obs e x) (Some v) = Some v.
Proof.
  intros (Hi & Hv & _). destruct e; try discriminate Hi; try discriminate Hv; destruct v as [hs|]; cbn [vol_step];
    rewrite ?decide_True by exact I; try done.
Qed.
Lemma outside_from {A} v (m : io A) : always outside m -> vfrom (Some v) m (fun _ s => s = Some v).
Proof.
  intros Hm t a Ha _. apply (always_exec _ _ _ _ Hm) in Ha.
  induction Ha as [|[X e x] t He _ IH]; [done|]. cbn [observe]. by rewrite outside_step.
Qed.
Lemma v_outside {A} h (m : io A) : always outside m -> neat h m.
Proof. intros Hm. eapply ofrom_mono; [|by apply outside_from]. intros a s ->. eauto. Qed.

(** ** The rest of the program does not use the library *)
#[local] Hint Extern 1 (outside _ _) => (split; [|split]; reflexivity) : rufux.
Lemma outside_realpath p : always outside (realpath p).
Proof. unfold realpath. always_tac. Qed.
Lemma outside_is_dir p : always outside (is_dir p).
Proof. unfold is_dir. always_tac. Qed.
Lemma outside_is_file p : always outside (is_file p).
Proof. unfold is_file. always_tac. Qed.
#[local] Hint Resolve outside_realpath outside_is_dir outside_is_file : rufux.
Lemma outside_prepend b d : always outside (path_prepend b d).
Proof. unfold path_prepend. always_tac. Qed.
Lemma outside_append b d : always outside (path_append b d).
Proof. unfold path_append. always_tac. Qed.
#[local] Hint Resolve outside_prepend outside_append : rufux.
Lemma outside_init : always outside rufux_macos_init_bundle_env.
Proof.
  unfold rufux_macos_init_bundle_env, rufux_macos_exe_dir, adjacent_env, contents_dir, bundle_env, default_env,
    development_env, vendor_path. always_tac.
Qed.
#[local] Hint Resolve outside_init : rufux.
Lemma outside_resolve_tool n : always outside (rufux_resolve_tool n).
Proof. unfold rufux_resolve_tool, is_exec_file, path_dirs. always_tac. Qed.
#[local] Hint Resolve outside_resolve_tool : rufux.
Lemma outside_have n : always outside (rufux_have n).
Proof. unfold rufux_have. always_tac. Qed.
Lemma outside_capture fuel av cap : always outside (rufux_capture fuel av cap).
Proof. unfold rufux_capture. always_tac. Qed.
#[local] Hint Resolve outside_have outside_capture : rufux.
Lemma outside_resolve_bsd p : always outside (resolve_to_bsd_name p).
Proof. unfold resolve_to_bsd_name. always_tac. Qed.
#[local] Hint Resolve outside_resolve_bsd : rufux.
Lemma outside_release l : always outside (release_all l).
Proof. induction l; cbn [release_all]; always_tac. Qed.
#[local] Hint Resolve outside_release : rufux.
Lemma outside_collect max b : always outside (collect_iokit_lineage_bsds max b).
Proof. unfold collect_iokit_lineage_bsds, find_service, walk, visit, enqueue. always_tac. Qed.
#[local] Hint Resolve outside_collect : rufux.
Lemma outside_boot p : always outside (rufux_macos_is_boot_disk p).
Proof. unfold rufux_macos_is_boot_disk. always_tac. Qed.
#[local] Hint Resolve outside_boot : rufux.
Lemma outside_mount_ident p : always outside (Macmount.parse_bsd_ident p).
Proof. unfold Macmount.parse_bsd_ident. always_tac. Qed.
#[local] Hint Resolve outside_mount_ident : rufux.
Lemma outside_active a b : always outside (is_mountpoint_active a b).
Proof. unfold is_mountpoint_active. always_tac. Qed.
#[local] Hint Resolve outside_active : rufux.
Lemma outside_find d t : always outside (find_matching_state d t).
Proof.
  unfold find_matching_state, read_state, read_mount_state_file, state_matches_target, any_belongs, belongs. always_tac.
Qed.
Lemma outside_terminate p t : always outside (terminate_and_wait_pid p t).
Proof. unfold terminate_and_wait_pid. always_tac. Qed.
Lemma outside_rmdir d : always outside (rmdir_with_retry d).
Proof. unfold rmdir_with_retry. always_tac. Qed.
#[local] Hint Resolve outside_find outside_terminate outside_rmdir : rufux.
Lemma outside_unmount fuel d dry : always outside (rufux_unmount fuel d dry).
Proof.
  unfold rufux_unmount, resolve_state_dir, unmount_tracked, unmount_nfs, detach_nfs, attempt, pid_is_alive,
    detach_by, clean_up, unmount_untracked, quiet. always_tac.
Qed.
#[local] Hint Resolve outside_unmount : rufux.
Lemma outside_unmount_disk fuel d : always outside (rufux_macos_unmount_disk fuel d).
Proof. unfold rufux_macos_unmount_disk, rufux_unmount_all_for_disk, resolve_state_dir, whole_target. always_tac. Qed.
#[local] Hint Resolve outside_unmount_disk : rufux.

(** ** Following a program call by call *)
Lemma v_assoc {A B C} h (m : io A) (f : A -> io B) (g : B -> io C) Q :
  vruns h (bind m (fun a => bind (f a) g)) Q -> vruns h (bind (bind m f) g) Q.
Proof.
  intros H t a (t1 & b & t2 & -> & (t3 & x & t4 & -> & H1 & H2)%exec_bind & H3)%exec_bind Hl.
  rewrite <- app_assoc in *. eapply H; [|done]. apply exec_bind. exists t3, x, (t4 ++ t2). split; [done|].
  split; [done|]. apply exec_bind. eauto 10.
Qed.
Lemma v_end {A} h (m : io A) Q : vruns h (bind m Ret) Q -> vruns h m Q.
Proof.
  intros H t a Hx Hl. eapply H; [|exact Hl]. apply exec_bind. exists t, a, []. by rewrite app_nil_r.
Qed.
#[local] Abbreviation inodes I := (OpenSet I None).
(** an inode was opened, or nothing was *)
Definition yields (I : gset Z) (r : cres Z) (h' : open_set) : Prop :=
  match r with Ok c => c ∉ I /\ h' = inodes ({[c]} ∪ I) | Fail _ => h' = inodes I end.
Create HintDb neat.
Ltac v_step :=
  lazymatch goal with
  | |- neat _ _ => unfold neat
  | |- vruns _ (Ret _) _ => apply v_ret
  | |- vruns _ (fail _) _ => unfold fail
  | |- vruns _ (ok _) _ => unfold ok
  | |- vruns _ (try _ _) _ => unfold try
  | |- vruns _ (when _ _) _ => unfold when
  | |- vruns _ (bind (Ret _) _) _ => cbn [bind]
  | |- vruns _ (bind (fail _) _) _ => unfold fail at 1
  | |- vruns _ (bind (ok _) _) _ => unfold ok at 1
  | |- vruns _ (bind (when _ _) _) _ => unfold when at 1
  | |- vruns _ (bind (bind _ _) _) _ => apply v_assoc
  | |- vruns _ (bind (try _ _) _) _ => unfold try at 1
  | |- vruns _ (bind (call _) _) _ =>
      let x := fresh "x" in let H := fresh "Hfresh" in apply v_call; [reflexivity|okay_tac|call_tac x H]
  | |- vruns _ (call _) _ => apply v_end
  | |- vruns _ (bind (match ?x with _ => _ end) _) _ => destruct x eqn:?
  | |- vruns _ (match ?x with _ => _ end) _ => destruct x eqn:?
  | |- vruns _ (bind _ _) _ => apply v_neat; [solve [auto with neat]|intros]
  | |- vruns ?h ?m (fun _ h' => h' = ?h) => change (neat h m); solve [auto with neat]
  | |- yields _ _ _ => unfold yields
  | |- OpenSet _ _ = OpenSet _ _ => first [reflexivity|f_equal; set_solver]
  | |- _ /\ OpenSet _ _ = OpenSet _ _ => split; [first [assumption|set_solver]|]
  end.
Ltac v_tac := repeat (cbv beta iota zeta; v_step).

#[export] Hint Resolve outside_boot outside_capture outside_have outside_unmount_disk : rufux.

Section Handles.
Variables (fuel : nat) (strerr : Z -> string) (of_timespec : Z * Z -> Z) (prog : bool).
Lemma v_utf8 h name : neat h (utf8_to_ntfs_component name).
Proof. apply v_outside. unfold utf8_to_ntfs_component. always_tac. Qed.
Hint Resolve v_utf8 : neat.
Lemma v_ensure I parent name : parent ∈ I -> vruns (inodes I) (ensure_ntfs_child_dir strerr parent name) (yields I).
Proof. intros Hp. unfold ensure_ntfs_child_dir. v_tac. Qed.
Lemma v_open_leaf I dir leaf u : dir ∈ I -> vruns (inodes I) (open_leaf strerr dir leaf u) (yields I).
Proof. intros Hd. unfold open_leaf. v_tac. Qed.
Lemma v_write_chunk I na pos buf : neat (OpenSet I (Some na)) (write_chunk fuel na pos buf).
Proof. apply v_loop. intros off. v_tac. Qed.
Hint Resolve v_write_chunk : neat.
Lemma v_copy I fd na leaf host done total : neat (OpenSet I (Some na)) (copy_contents fuel strerr prog fd na leaf host done total).
Proof. apply v_loop. intros [pos d]. unfold report. v_tac. Qed.
Hint Resolve v_copy : neat.
Lemma v_set_times I ni mt : ni ∈ I -> neat (inodes I) (set_times of_timespec ni mt).
Proof. intros Hn. unfold set_times. v_tac. Qed.
Hint Resolve v_set_times : neat.
Lemma v_open_data I ni dir leaf : dir ∈ I -> ni ∉ I ->
  vruns (inodes ({[ni]} ∪ I)) (open_data strerr ni dir leaf)
    (fun r h' => match r with Ok na => h' = OpenSet ({[ni]} ∪ I) (Some na) | Fail _ => h' = inodes I end).
Proof. intros Hd Hn. unfold open_data. v_tac. Qed.
Lemma v_finish I ni na dir leaf mt : dir ∈ I -> ni ∉ I ->
  vruns (OpenSet ({[ni]} ∪ I) (Some na)) (finish_file of_timespec ni na dir leaf mt) (fun _ h' => h' = inodes I).
Proof. intros Hd Hn. assert (ni ∈ {[ni]} ∪ I) by set_solver. unfold finish_file. v_tac. Qed.
Lemma v_write_file I dir leaf host st done total : dir ∈ I ->
  neat (inodes I) (write_regular_file_into_dir fuel strerr of_timespec prog dir leaf host st done total).
Proof.
  intros Hd. unfold write_regular_file_into_dir. v_tac. 
  eapply v_bind; [by apply v_open_leaf|]. intros [ni|e] h'; cbn [yields]; [|intros ->; v_tac; done].
  intros [Hn ->]. eapply v_bind; [by apply v_open_data|]. intros [na|e] h'; [|intros ->; v_tac; done]. intros ->.
  v_tac. eapply v_bind; [by apply v_finish|]. intros [u|e] h' ->; v_tac; done.
Qed.
Lemma v_write_symlink I dir leaf host st : dir ∈ I ->
  neat (inodes I) (write_symlink_into_dir strerr of_timespec dir leaf host st).
Proof. intros Hd. unfold write_symlink_into_dir, set_times. v_tac. Qed.
Hint Resolve v_write_file v_write_symlink : neat.
Lemma outside_list d : always outside (list_sorted_dir_entries d).
Proof. unfold list_sorted_dir_entries. always_tac. Qed.
Lemma outside_stat_child d n : always outside (stat_child d n).
Proof. unfold stat_child. always_tac. Qed.
Lemma v_each {A} h (body : A -> string -> io (cres A)) names a :
  (forall a n, neat h (body a n)) -> neat h (each body names a).
Proof.
  intros Hb. unfold each. apply v_neat; [|intros [?|?]; by apply v_ret]. apply v_fold. intros x b.
  apply v_neat; [apply Hb|]. intros [?|?]; by apply v_ret.
Qed.
Lemma v_list h d : neat h (list_sorted_dir_entries d).
Proof. apply v_outside, outside_list. Qed.
Lemma v_stat_child h d n : neat h (stat_child d n).
Proof. apply v_outside, outside_stat_child. Qed.
Hint Resolve v_list v_stat_child : neat.
(** the tree below an open directory: everything opened on the way is closed *)
Lemma v_populate depth I dir host total done : dir ∈ I ->
  neat (inodes I) (populate_dir_rec fuel strerr of_timespec prog depth dir host total done).
Proof.
  revert I dir host done; induction depth as [|d IH]; intros I dir host done Hd; [by intros t a []|].
  cbn [populate_dir_rec]. apply v_neat; [auto with neat|]. intros [names|e]; [|by apply v_ret].
  apply v_each. intros n name. apply v_neat; [auto with neat|]. intros [[child s]|e]; [|by apply v_ret].
  destruct (is_kind KDir (Some s)); [|v_tac].
  eapply v_bind; [by apply v_ensure|]. intros [sub|e] h'; cbn [yields]; [|intros ->; by apply v_ret].
  intros [Hs ->]. apply v_neat; [apply IH; set_solver|]. intros r. v_tac.
Qed.
Lemma outside_prescan depth host total : always outside (prescan_dir_bytes depth host total).
Proof.
  revert host total; induction depth as [|d IH]; intros host total; cbn [prescan_dir_bytes]; [done|].
  pose proof outside_list. pose proof outside_stat_child. unfold each. always_tac.
Qed.

(** ** The directories on the way to one file *)
Definition open_stack (stack : list Z) : open_set := inodes (list_to_set stack).
Lemma v_descend stack top comps : top ∈ stack -> NoDup stack ->
  vruns (open_stack stack) (descend strerr stack top comps)
    (fun r h' => NoDup r.1 /\ r.1 <> [] /\ h' = open_stack r.1 /\ (forall c, r.2 = Ok c -> c ∈ r.1)).
Proof.
  revert stack top; induction comps as [|c comps IH]; intros stack top Ht Hd; cbn [descend].
  { apply v_ret. cbn. split_and!; [done|by intros ->; apply not_elem_of_nil in Ht|done|by intros c [= <-]]. }
  eapply v_bind; [apply v_ensure; set_solver|]. intros [child|e] h'; cbn [yields].
  - intros [Hc ->]. assert (child ∉ stack) by set_solver. apply (IH (child :: stack)); [set_solver|by constructor].
  - intros ->. apply v_ret. cbn. split_and!; [done|by intros ->; apply not_elem_of_nil in Ht|done|done].
Qed.
Lemma v_close_root root rc : vruns (open_stack [root]) (close_root root rc) (fun _ h' => h' = nothing_open).
Proof.
  unfold open_stack, close_root, nothing_open. cbn [list_to_set]. apply v_call; [done|cbn; split; [set_solver|done]|].
  intros x _. cbn [after]. unfold without. cbn [os_inodes os_attr list_to_set]. v_tac; f_equal; set_solver.
Qed.
Lemma v_close_stack stack rc : NoDup stack -> stack <> [] ->
  vruns (open_stack stack) (close_stack stack rc) (fun _ h' => h' = nothing_open).
Proof.
  revert rc; induction stack as [|k stack IH]; intros rc Hd Hn; [done|]. destruct stack as [|p up]; [apply v_close_root|].
  apply list.NoDup_cons in Hd as [Hk Hd]. cbn [close_stack]. apply v_call; [done| |].
  { cbn [okay open_stack os_inodes os_attr]. split_and!; [set_solver|set_solver| |done]. set_solver. }
  intros x _. assert (E : after (NInodeCloseInDir k p) x (open_stack (k :: p :: up)) = open_stack (p :: up)).
  { unfold open_stack, after, without. cbn [os_inodes os_attr]. f_equal. set_solver. }
  rewrite E. destruct rc as [u|e]; [destruct (negb _)|]; [|by apply IH..].
  apply v_call; [done|exact I|]. intros e _. cbn [after opens opened]. by apply IH.
Qed.

(** ** Whole runs *)
Lemma close_vol bnode rc : vfrom (Some (Some nothing_open)) (close_ntfs_rw fuel bnode rc) (fun _ s => s = Some None).
Proof.
  unfold close_ntfs_rw. apply ofrom_step. intros um _. cbn [vol_step]. rewrite decide_True by done.
  apply outside_from. always_tac.
Qed.
Lemma with_root_vol bnode work :
  (forall root, vruns (open_stack [root]) (work root) (fun _ h' => h' = nothing_open)) ->
  vfrom (Some (Some nothing_open)) (with_root fuel strerr bnode work) (fun _ s => s = Some None).
Proof.
  intros Hw. unfold with_root. apply ofrom_step. intros [e|root] _; cbn [vol_step]; rewrite decide_True by exact I;
    cbn [after opens opened]; [apply close_vol|].
  apply (ofrom_bind _ _ _ (fun _ s => s = Some (Some nothing_open))); [|intros rc ? ->; apply close_vol].
  replace (OpenSet _ _) with (open_stack [root]).
  2: { by unfold open_stack; cbn; f_equal. }
  eapply ofrom_mono; [|apply Hw]. intros a s (h' & -> & ->). done.
Qed.
(** mounting: with the volume open when it succeeds *)
Lemma open_vol target :
  vfrom (Some None) (open_ntfs_rw fuel strerr target)
    (fun r s => s = match r with Ok _ => Some (Some nothing_open) | Fail _ => Some None end).
Proof.
  unfold open_ntfs_rw. destruct (String.eqb target ""); [by apply ofrom_ret|].
  apply (ofrom_bind _ _ _ (fun _ s => s = Some None)); [apply outside_from; auto with rufux|]. intros b ? ->.
  destruct b; [by apply ofrom_ret|].
  apply (ofrom_bind _ _ _ (fun _ s => s = Some None)); [apply outside_from; auto with rufux|]. intros b ? ->.
  destruct b; [by apply ofrom_ret|].
  apply ofrom_step. intros st _. cbn [vol_step volume_call]. destruct st as [st|]; [|by apply ofrom_ret].
  destruct (_ && _); [by apply ofrom_ret|].
  apply (ofrom_bind _ _ _ (fun _ s => s = Some None)).
  { apply outside_from. unfold unmount_if_mounted_ntfs_target, parse_bsd_ident. always_tac. }
  intros _ ? ->. set (bnode := rufux_macos_block_node target PATH_MAX).
  apply (ofrom_bind _ _ _ (fun r s => s = match r with inr _ => Some (Some nothing_open) | inl _ => Some None end)).
  { unfold mount_rw. apply ofrom_step. intros [e|u] _; cbn [vol_step]; [|by apply ofrom_ret].
    destruct (_ && _); [|by apply ofrom_ret].
    apply (ofrom_bind _ _ _ (fun _ s => s = Some None)); [apply outside_from; auto with rufux|]. intros _ ? ->.
    apply ofrom_step. intros ? _. cbn [vol_step volume_call]. intros t a (v & t' & -> & [-> ->]) _. by destruct v. }
  intros [e|u] ? ->; [by apply ofrom_ret|]. apply ofrom_step. intros [e|] _; cbn [vol_step]; rewrite decide_True by exact I;
    cbn [after opens opened].
  - apply ofrom_step. intros um _. cbn [vol_step]. rewrite decide_True by done. by apply ofrom_ret.
  - apply ofrom_step. intros um _. cbn [vol_step]. rewrite decide_True by exact I. by apply ofrom_ret.
Qed.
Lemma vol_return {A} v (m : io A) : always outside m -> vfrom (Some v) m (fun _ s => s = Some v).
Proof. apply outside_from. Qed.
Lemma populate_vol target src :
  vfrom (Some None) (rufux_ntfs_populate_dir fuel strerr of_timespec prog target src) (fun _ s => s = Some None).
Proof.
  unfold rufux_ntfs_populate_dir. destruct (String.eqb target ""); [by apply ofrom_ret|].
  apply (ofrom_bind _ _ _ (fun _ s => s = Some None)); [apply outside_from; auto with rufux|]. intros b ? ->.
  destruct b; [by apply ofrom_ret|].
  apply (ofrom_bind _ _ _ (fun _ s => s = Some None)); [apply outside_from; always_tac|]. intros s0 ? ->.
  destruct (negb _); [by apply ofrom_ret|].
  apply (ofrom_bind _ _ _ (fun _ s => s = Some None)); [apply outside_from, outside_prescan|].
  intros [total|e] ? ->; [|by apply ofrom_ret].
  eapply ofrom_bind; [apply open_vol|]. intros [bnode|e] ? ->; [|by apply ofrom_ret].
  apply with_root_vol. intros root. unfold report.
  apply v_neat; [apply v_outside; always_tac|]. intros _.
  apply v_neat; [apply v_populate; set_solver|]. intros r. apply v_close_root.
Qed.
Lemma single_vol target src rel :
  vfrom (Some None) (rufux_ntfs_write_single_file fuel strerr of_timespec prog target src rel) (fun _ s => s = Some None).
Proof.
  unfold rufux_ntfs_write_single_file. destruct (String.eqb target ""); [by apply ofrom_ret|].
  apply (ofrom_bind _ _ _ (fun _ s => s = Some None)); [apply outside_from; auto with rufux|]. intros b ? ->.
  destruct b; [by apply ofrom_ret|].
  apply (ofrom_bind _ _ _ (fun _ s => s = Some None)); [apply outside_from; always_tac|]. intros [s0|] ? ->; [|by apply ofrom_ret].
  destruct (negb _); [by apply ofrom_ret|]. destruct (String.eqb rel ""); [by apply ofrom_ret|].
  destruct (_ <=? _); [by apply ofrom_ret|]. destruct (split_relpath rel) as [[|c comps]|e]; [by apply ofrom_ret..| |by apply ofrom_ret].
  eapply ofrom_bind; [apply open_vol|]. intros [bnode|e] ? ->; [|by apply ofrom_ret].
  apply with_root_vol. intros root.
  eapply v_bind; [apply (v_descend [root]); [set_solver|apply NoDup_singleton]|].
  intros [stack top] h' (Hd & Hn & -> & Ht). cbn [fst snd] in *.
  apply v_neat; [|intros rc; by apply v_close_stack].
  destruct top as [top|e]; [|by apply v_ret]. specialize (Ht _ eq_refl). unfold report.
  apply v_neat; [apply v_outside; always_tac|]. intros _.
  apply v_neat; [apply v_write_file; set_solver|]. intros r. by apply v_ret.
Qed.
End Handles.


(** ** A tree to copy

    /s has a directory d with a file f of three bytes and a link l; the volume
    is an image with nothing on it. The state counts the reads of the file that
    is open. *)
Definition the_bytes : list byte := bytes_of_string "abc".
Definition of_kind (k : fkind) (size : Z) : option stat := Some (StatFull k size 0 0 0 (7, 0)).
Definition the_host (p : string) : option stat :=
  if String.eqb p "/s" || String.eqb p "/s/d" then of_kind KDir 0
  else if String.eqb p "/s/d/l" then of_kind KLnk 0 else of_kind KReg 3.
Definition the_list (p : string) : option (list string) :=
  if String.eqb p "/s" then Some ["d"; ".."; "."] else if String.eqb p "/s/d" then Some ["l"; "f"] else None.
Definition copy_env : handler Z := fun X e w =>
  match e in ev X return X * Z with
  | Realpath p => (inr p, w) | Stat p | Lstat p => (the_host p, w) | Opendir p => (the_list p, w)
  | Access _ _ => (true, w) | StaticFlag _ => (true, w) | PipeSpawnAt _ _ => (Some 7, w)
  | Readlink _ => (Some "f", w)
  | Open _ _ => (inr 9, 0) | Read _ _ => (inr (if w =? 0 then the_bytes else []), w + 1)
  | NMount _ _ => (inr tt, w) | NInodeOpen m => (inr m, w) | NMbstoucs s => (Some (map u8 (bytes_of_string s)), w)
  | NLookup _ _ => (inl NTFS_ENOENT, w) | NCreate dir _ _ => (inr (dir + 1), w)
  | NCreateSymlink dir _ _ => (inr (dir + 1), w) | NAttrOpen ni => (inr ni, w)
  | e => (default_answer e, w)
  end.
Definition copy_run := run copy_env (rufux_ntfs_populate_dir 9 dec fst true "/v.img" "/s") 0.
#[export] Instance vol_law_dec o s : Decision (vol_law o s).
Proof. destruct o as [X e x], s as [[h|]|]; cbn; [destruct (opens e x)|..]; apply _. Defined.
Lemma copy_runs : exec (rufux_ntfs_populate_dir 9 dec fst true "/v.img" "/s") copy_run.1.2 (Ok tt).
Proof. apply run_computed. vm_compute. reflexivity. Qed.
