(* ===== verification/PopulateFileSpec.v ===== *)
(** What filling an NTFS volume copies: the contents of one file, and which
    files of a tree. *)
From stdpp Require Import gmap sorting.
From S2P Require Import Prelude Cstr Ntfs3g Contents Sys Exec Macexec Macdisk Macmount Macstate Macvolume Populate NtfsFileSpec PopulateSpec.

(** * One file

    The copy of the descriptor [fd] into the inode [ni]: the attribute that is
    open on the inode's data, the data, what was read from the descriptor, and
    whether its end was reached. *)
Record copying := Copying { c_attr : option Z; c_data : list byte; c_read : list byte; c_eof : bool }.
Section Copy.
Variables (fd ni : Z).
Definition on (na : Z) (s : copying) : bool := bool_decide (c_attr s = Some na).
Definition copy_step (o : obs) (s : copying) : copying :=
  match o with
  | Obs e x =>
      match e in ev X return X -> copying with
      | Read fd' _ => fun x =>
          match x with
          | inr l => if fd' =? fd then Copying (c_attr s) (c_data s) (c_read s ++ l) (bool_decide (l = [])) else s
          | inl _ => s
          end
      | NAttrOpen i => fun x =>
          match x with inr na => if i =? ni then Copying (Some na) (c_data s) (c_read s) (c_eof s) else s | inl _ => s end
      | NAttrClose na => fun _ => if on na s then Copying None (c_data s) (c_read s) (c_eof s) else s
      | NTruncate na n => fun x =>
          match x with
          | None => if on na s then Copying (c_attr s) (resized n (c_data s)) (c_read s) (c_eof s) else s
          | Some _ => s
          end
      | NPwrite na pos b => fun x =>
          if on na s then Copying (c_attr s) (splice pos (ztake x.1 b) (c_data s)) (c_read s) (c_eof s) else s
      | _ => fun _ => s
      end x
  end.
(** an open attribute says how long the data is; a write takes at most what it
    was given *)
Definition copy_law (o : obs) (s : copying) : Prop :=
  match o with
  | Obs e x =>
      match e in ev X return X -> Prop with
      | NAttr na => fun x => c_attr s = Some na -> x.1 = zlen (c_data s)
      | NPwrite _ _ b => fun x => x.1 <= zlen b
      | _ => fun _ => True
      end x
  end.
End Copy.
Lemma splice_end b d : splice (zlen d) b d = d ++ b.
Proof.
  destruct b as [|x b]; [by rewrite splice_nil, app_nil_r|]. rewrite splice_eq by (apply zlen_pos; done).
  rewrite Z.sub_diag. cbn [Z.to_nat replicate]. rewrite app_nil_r, ztake_all by done.
  rewrite zdrop_all by (pose proof (zlen_nonneg (x :: b)); lia). by rewrite app_nil_r.
Qed.

Section File.
Variables (fuel : nat) (strerr : Z -> string) (of_timespec : Z * Z -> Z) (prog : bool) (fd ni : Z).
#[local] Abbreviation cfrom := (ofrom (copy_step fd ni) (copy_law)).
#[local] Abbreviation idle := (unseen (copy_step fd ni)).
#[local] Hint Extern 1 (idle _ _) => (intros ? ?; reflexivity) : rufux.

Lemma chunk_written na buf d r eof : cfrom (Copying (Some na) d r eof) (write_chunk fuel na (zlen d) buf)
  (fun x s => x = None -> s = Copying (Some na) (d ++ buf) r eof).
Proof.
  pose proof (zlen_nonneg d). pose proof (zlen_nonneg buf).
  apply (ofrom_loop (fun off s => 0 <= off <= zlen buf /\ s = Copying (Some na) (splice (zlen d) (ztake off buf) d) r eof)).
  2: { split; [lia|]. by rewrite ztake_neg, splice_nil by lia. }
  intros off s [Ho ->]. destruct (Z.ltb_spec off (zlen buf)).
  - apply ofrom_step. intros [w e] Hl. cbn [copy_law fst] in Hl. rewrite zlen_zdrop in Hl by lia.
    cbn [copy_step]. unfold on. cbn [c_attr c_data c_read c_eof fst]. rewrite bool_decide_true by done.
    destruct (Z.leb_spec w 0); apply ofrom_ret; [done|]. split; [lia|]. f_equal. apply write_turn; [lia..|].
    rewrite zlen_zdrop by lia. lia.
  - apply ofrom_ret. intros _. replace off with (zlen buf) by lia. by rewrite (ztake_all (zlen buf)), splice_end.
Qed.
Lemma contents_copied na leaf host done total : 0 <= done < 2 ^ 64 ->
  cfrom (Copying (Some na) [] [] false) (copy_contents fuel strerr prog fd na leaf host done total)
    (fun r s => forall n, r = Ok n ->
      exists src, s = Copying (Some na) src src true /\ n = (done + zlen src) mod 2 ^ 64).
Proof.
  intros Hd. apply (ofrom_loop (fun p s => exists src eof, s = Copying (Some na) src src eof /\ p.1 = zlen src /\
    p.2 = (done + zlen src) mod 2 ^ 64)).
  2: { exists [], false. cbn. rewrite Z.add_0_r, Z.mod_small by lia. done. }
  intros [pos d] s (src & eof & -> & Hp & Hn). cbn [fst snd] in Hp, Hn. subst pos.
  apply ofrom_step. intros x _. cbn [copy_step]. destruct x as [e|l].
  { destruct e; apply ofrom_ret; try done. by exists src, eof. }
  rewrite Z.eqb_refl. cbn [c_attr c_data c_read]. destruct l as [|b l].
  { apply ofrom_ret. intros n [= <-]. exists src. rewrite app_nil_r. by split. }
  rewrite bool_decide_false by done. set (buf := b :: l).
  eapply ofrom_bind; [apply chunk_written|]. intros [[off e]|] s Hs; [by apply ofrom_ret|]. rewrite (Hs eq_refl).
  apply ofrom_skip; [unfold report; always_tac|]. intros _. apply ofrom_ret. exists (src ++ buf), false.
  cbn [fst snd]. rewrite zlen_app, Hn, Zplus_mod_idemp_l. split_and!; [done..|f_equal; lia].
Qed.
Lemma data_opened dir leaf d : cfrom (Copying None d [] false) (open_data strerr ni dir leaf)
  (fun r s => forall na, r = Ok na -> s = Copying (Some na) [] [] false).
Proof.
  unfold open_data. apply ofrom_step. intros [e|na] _; cbn [copy_step].
  { apply ofrom_skip; [always_tac|]. intros _. by apply ofrom_ret. }
  rewrite Z.eqb_refl. cbn [c_data c_read c_eof]. apply ofrom_step. intros [n alloc] Hl. cbn in Hl. specialize (Hl eq_refl).
  cbn [copy_step fst]. subst n. destruct (Z.eqb_spec (zlen d) 0) as [E|E].
  - apply ofrom_ret. intros na' [= <-]. destruct d as [|b d]; [done|]. rewrite zlen_cons in E. pose proof (zlen_nonneg d). lia.
  - apply ofrom_step. intros [e|] _; cbn [copy_step].
    + do 2 (apply ofrom_step; intros ? _). by apply ofrom_ret.
    + apply ofrom_ret. intros na' [= <-]. unfold on. cbn [c_attr c_data c_read c_eof]. by rewrite bool_decide_true.
Qed.
Lemma file_finished na dir leaf mt src : cfrom (Copying (Some na) src src true) (finish_file of_timespec ni na dir leaf mt)
  (fun _ s => s = Copying None src src true).
Proof.
  unfold finish_file, set_times. assert (E : copy_step fd ni (Obs (NAttrClose na) tt) (Copying (Some na) src src true) =
    Copying None src src true) by (cbn; unfold on; by rewrite bool_decide_true).
  apply ofrom_step. intros p _. cbn [copy_step]. destruct (negb _).
  - apply ofrom_skip; [always_tac|]. intros e. apply ofrom_step. intros [] _. rewrite E. by apply ofrom_unseen; always_tac.
  - apply ofrom_step. intros [] _. rewrite E. by apply ofrom_unseen; always_tac.
Qed.
(** the file, from its open inode on *)
Lemma leaf_copied dir leaf host st done total d : 0 <= done < 2 ^ 64 ->
  cfrom (Copying None d [] false)
    (a <- open_data strerr ni dir leaf ;;
     match a with
     | Fail e => call (Close fd) ;;; fail e
     | Ok na =>
         r <- copy_contents fuel strerr prog fd na leaf host done total ;;
         match r with
         | Fail e => call (NAttrClose na) ;;; call (NInodeCloseInDir ni dir) ;;; call (Close fd) ;;; fail e
         | Ok done => call (Close fd) ;;; finish_file of_timespec ni na dir leaf (st_mtime st) ?;; ok done
         end
     end)
    (fun r s => forall n, r = Ok n -> exists src, s = Copying None src src true /\ n = (done + zlen src) mod 2 ^ 64).
Proof.
  intros Hd. eapply ofrom_bind; [apply data_opened|]. intros [na|e] s Hs.
  2: { apply ofrom_step; intros ? _. by apply ofrom_ret. }
  rewrite (Hs _ eq_refl). eapply ofrom_bind; [by apply contents_copied|]. intros [n|e] s' Hc.
  2: { do 3 (apply ofrom_step; intros ? _). by apply ofrom_ret. }
  destruct (Hc _ eq_refl) as (src & -> & Hn). apply ofrom_skip; [always_tac|]. intros _.
  eapply ofrom_bind; [apply file_finished|]. intros [u|e] ? ->; [|by apply ofrom_ret].
  apply ofrom_ret. intros n' [= <-]. eauto.
Qed.
End File.

(** C18: A file is copied whole. When writing a regular file into a directory
    succeeds, the inode that the name leads to, or that was made for it, holds
    exactly the bytes that were read from the source, whatever it held before,
    however the reads and writes were cut up, and the source was read to its end;
    its attribute is closed, and the count of bytes reported grew by the length
    of the file. *)
Theorem write_regular_file_correct fuel strerr of_timespec prog dir leaf host st done total t n :
  0 <= done < 2 ^ 64 ->
  exec (write_regular_file_into_dir fuel strerr of_timespec prog dir leaf host st done total) t (Ok n) ->
  exists u fd ni t1 t2 t3,
    t = t1 ++ Obs (Open host O_RDONLY) (inr fd) :: t2 ++ t3 /\
    exec (utf8_to_ntfs_component leaf) t1 (Ok u) /\ exec (open_leaf strerr dir leaf u) t2 (Ok ni) /\
    forall d, abides (copy_step fd ni) copy_law t3 (Copying None d [] false) ->
      exists src, observe (copy_step fd ni) t3 (Copying None d [] false) = Copying None src src true /\
        n = (done + zlen src) mod 2 ^ 64.
Proof.
  intros Hd (t1 & u & t2 & -> & Hu & Hx)%exec_try. destruct Hx as (x & t3 & -> & Hx). cbn [bind] in Hx.
  destruct x as [e|fd]; [by destruct Hx|]. apply exec_bind in Hx as (t4 & r & t5 & -> & Hl & Hx).
  destruct r as [ni|e]; [|by destruct Hx as (? & ? & -> & [_ [=]])].
  exists u, fd, ni, t1, t4, t5. split_and!; [done..|]. intros d Ha.
  exact (leaf_copied fuel strerr of_timespec prog fd ni dir leaf host st done total d Hd t5 _ Hx Ha n eq_refl).
Qed.
Definition leaf_run :=
  run copy_env (write_regular_file_into_dir 9 dec fst true 5 "f" "/s/d/f" (StatFull KReg 3 0 0 0 (7, 0)) 10 13) 0.
Lemma leaf_runs :
  exec (write_regular_file_into_dir 9 dec fst true 5 "f" "/s/d/f" (StatFull KReg 3 0 0 0 (7, 0)) 10 13) leaf_run.1.2 (Ok 13).
Proof. apply run_computed. vm_compute. reflexivity. Qed.
#[export] Instance copy_law_dec o s : Decision (copy_law o s).
Proof. destruct o as [X e x], e; cbn; apply _. Defined.
Lemma write_regular_file_correct_witness :
  (abides (copy_step 9 6) copy_law leaf_run.1.2 (Copying None [] [] false) /\
   observe (copy_step 9 6) leaf_run.1.2 (Copying None [] [] false) = Copying None the_bytes the_bytes true) /\
  exists u fd ni t1 t2 t3,
    leaf_run.1.2 = t1 ++ Obs (Open "/s/d/f" O_RDONLY) (inr fd) :: t2 ++ t3 /\
    exec (utf8_to_ntfs_component "f") t1 (Ok u) /\ exec (open_leaf dec 5 "f" u) t2 (Ok ni) /\
    forall d, abides (copy_step fd ni) copy_law t3 (Copying None d [] false) ->
      exists src, observe (copy_step fd ni) t3 (Copying None d [] false) = Copying None src src true /\
        13 = (10 + zlen src) mod 2 ^ 64.
Proof.
  split; [split; [apply (bool_decide_eq_true_1 _)|]; vm_compute; reflexivity|].
  apply (write_regular_file_correct 9 dec fst true 5 "f" "/s/d/f" _ 10 13 _ 13 ltac:(lia) leaf_runs).
Defined.

(** * A tree

    The host's tree: what a directory lists, and what lstat says of a path. *)
Record host := Host { h_list : string -> option (list string); h_stat : string -> option stat }.
Definition host_law (H : host) (o : obs) : Prop :=
  match o with
  | Obs e x =>
      match e in ev X return X -> Prop with
      | Opendir p => fun x => x = h_list H p
      | Lstat p => fun x => x = h_stat H p
      | _ => fun _ => True
      end x
  end.
Inductive child (H : host) (dir : string) : string -> Prop :=
| child_of names n : h_list H dir = Some names -> n ∈ names -> n <> "." -> n <> ".." -> child H dir (dir +:+ "/" +:+ n).
(** a regular file or a link somewhere below a directory *)
Inductive below (H : host) : string -> string -> Prop :=
| below_here dir p s : child H dir p -> h_stat H p = Some s -> st_kind s = KReg \/ st_kind s = KLnk -> below H dir p
| below_deeper dir c s p : child H dir c -> h_stat H c = Some s -> st_kind s = KDir -> below H c p -> below H dir p.
(** the source a call opens: a file to read, or a link's target *)
Definition copied (o : obs) : list string :=
  match o with
  | Obs e x =>
      match e in ev X return X -> list string with
      | Open p O_RDONLY => fun x => match x with inr _ => [p] | inl _ => [] end
      | Readlink p => fun x => match x with Some _ => [p] | None => [] end
      | _ => fun _ => []
      end x
  end.
Definition copies (t : list obs) : list string := concat (map copied t).
Lemma copies_app t u : copies (t ++ u) = copies t ++ copies u.
Proof. unfold copies. by rewrite map_app, concat_app. Qed.
(** calls that open no source *)
Definition no_source : forall X : Set, ev X -> Prop := fun X e => opens_source e = false.
Lemma outside_no_source {A} (m : io A) : always outside m -> always no_source m.
Proof. apply always_mono. by intros X e (_ & _ & H). Qed.
Lemma no_copies t : Forall (fun o => match o with Obs e _ => no_source _ e end) t -> copies t = [].
Proof.
  intros H. induction H as [|[X e x] t He _ IH]; [done|]. unfold copies in *. cbn [map concat]. rewrite IH.
  destruct e; try done. by destruct m.
Qed.
Lemma no_source_exec {A} (m : io A) t a : always no_source m -> exec m t a -> copies t = [].
Proof. intros Hm Hx. apply no_copies. exact (always_exec _ _ _ _ Hm Hx). Qed.

Section Tree.
Variables (fuel : nat) (strerr : Z -> string) (of_timespec : Z * Z -> Z) (prog : bool) (H : host).
#[local] Hint Extern 1 (no_source _ _) => reflexivity : rufux.
#[local] Abbreviation ends := (ends (host_law H)).
Lemma utf8_no_source n : always no_source (utf8_to_ntfs_component n).
Proof. unfold utf8_to_ntfs_component. always_tac. Qed.
#[local] Hint Resolve utf8_no_source : rufux.
Lemma ensure_no_source p n : always no_source (ensure_ntfs_child_dir strerr p n).
Proof. unfold ensure_ntfs_child_dir. always_tac. Qed.
Lemma open_leaf_no_source d l u : always no_source (open_leaf strerr d l u).
Proof. unfold open_leaf. always_tac. Qed.
Lemma open_data_no_source n d l : always no_source (open_data strerr n d l).
Proof. unfold open_data. always_tac. Qed.
Lemma contents_no_source f na l h d n : always no_source (copy_contents fuel strerr prog f na l h d n).
Proof. unfold copy_contents, write_chunk, report. always_tac. Qed.
Lemma finish_no_source n na d l m : always no_source (finish_file of_timespec n na d l m).
Proof. unfold finish_file, set_times. always_tac. Qed.
#[local] Hint Resolve ensure_no_source open_leaf_no_source open_data_no_source contents_no_source finish_no_source : rufux.
(** a file that was written was opened, once, and nothing else *)
Lemma file_copies dir leaf path st done total t n :
  exec (write_regular_file_into_dir fuel strerr of_timespec prog dir leaf path st done total) t (Ok n) -> copies t = [path].
Proof.
  intros (t1 & u & t2 & -> & Hu & Hx)%exec_try. apply no_source_exec in Hu; [|apply utf8_no_source].
  rewrite copies_app, Hu. destruct Hx as (x & t3 & -> & Hx). cbn [bind] in Hx.
  destruct x as [e|fd]; [by destruct Hx|]. apply (no_source_exec _ _ _) in Hx; [|always_tac].
  unfold copies in *. cbn. by rewrite Hx.
Qed.
Lemma symlink_copies dir leaf path st t :
  exec (write_symlink_into_dir strerr of_timespec dir leaf path st) t (Ok tt) -> copies t = [path].
Proof.
  intros (x & t3 & -> & Hx). cbn [bind] in Hx. destruct x as [target|].
  - apply (no_source_exec _ _ _) in Hx; [|unfold set_times; always_tac]. unfold copies in *. cbn. by rewrite Hx.
  - by destruct Hx as (? & ? & -> & [_ [=]]).
Qed.
(** what an entry of a directory contributes *)
Definition entry (dir n p : string) : Prop :=
  exists s, h_stat H (dir +:+ "/" +:+ n) = Some s /\
    ((st_kind s = KReg \/ st_kind s = KLnk) /\ p = dir +:+ "/" +:+ n \/ st_kind s = KDir /\ below H (dir +:+ "/" +:+ n) p).
Lemma below_entries dir names p : h_list H dir = Some names ->
  below H dir p <-> exists n, (n ∈ names /\ n <> "." /\ n <> "..") /\ entry dir n p.
Proof.
  intros Hl. split.
  - intros Hb. destruct Hb as [dir p s [names' n Hl' ???] Hs Hk|dir c s p [names' n Hl' ???] Hs Hk Hb]; simplify_eq;
      exists n; (split; [done|]); exists s; auto.
  - intros (n & (Hn & H1 & H2) & s & Hs & [[Hk ->]|[Hk Hb]]); assert (child H dir (dir +:+ "/" +:+ n)) by by econstructor.
    + by eapply below_here.
    + by eapply below_deeper.
Qed.
Lemma stat_child_inv dir n t c s : exec (stat_child dir n) t (Ok (c, s)) -> Forall (host_law H) t ->
  c = dir +:+ "/" +:+ n /\ h_stat H c = Some s /\ copies t = [].
Proof.
  unfold stat_child, child_path. destruct (_ <=? _); [by intros [_ [=]]|].
  intros (x & t1 & -> & Hx) [Ha Hl]%Forall_cons_1. cbn [bind] in Hx. cbn in Ha. subst x.
  destruct (h_stat H _) as [s'|] eqn:E; [|by destruct Hx as (? & ? & -> & [_ [=]])].
  destruct Hx as [-> [= -> ->]]. done.
Qed.
Lemma list_inv dir t names : exec (list_sorted_dir_entries dir) t (Ok names) -> Forall (host_law H) t ->
  copies t = [] /\ exists all, h_list H dir = Some all /\ forall n, n ∈ names <-> n ∈ all /\ n <> "." /\ n <> "..".
Proof.
  intros (x & t1 & -> & Hx) [Ha Hl]%Forall_cons_1. cbn [bind] in Hx. cbn in Ha. subst x.
  destruct (h_list H dir) as [all|]; [|by destruct Hx as (? & ? & -> & [_ [=]])].
  destruct Hx as [-> [= ->]]. split; [done|]. exists all. split; [done|]. intros n.
  rewrite merge_sort_Permutation, !list_elem_of_In, List.filter_In, andb_true_iff, !negb_true_iff, !String.eqb_neq. tauto.
Qed.
Lemma each_fails {A} (body : A -> string -> io (cres A)) names a t r :
  exec (fold_io (fun a n => r <- body a n ;; Ret (match r with Ok a => inl a | Fail e => inr (Fail e : cres A) end)) names a) t (inr r) ->
  exists e, r = Fail e.
Proof.
  revert a t; induction names as [|n names IH]; intros a t; [by intros [_ [=]]|]. cbn [fold_io].
  intros (t1 & x & t2 & -> & Hx & Hr)%exec_bind. destruct x as [a'|r']; [by eapply IH|]. destruct Hr as [_ [= ->]].
  apply exec_bind in Hx as (t3 & [c|e] & t4 & -> & _ & [_ Hx]); [done|]. injection Hx as ->. eauto.
Qed.
(** over the names of a directory *)
Lemma each_copies (body : Z -> string -> io (cres Z)) (P : string -> string -> Prop) names a t b :
  (forall a n t b, exec (body a n) t (Ok b) -> Forall (host_law H) t -> forall p, p ∈ copies t <-> P n p) ->
  exec (each body names a) t (Ok b) -> Forall (host_law H) t ->
  forall p, p ∈ copies t <-> exists n, n ∈ names /\ P n p.
Proof.
  intros Hb (t1 & r & t2 & -> & Hx & Hr)%exec_bind. destruct r as [a'|r'].
  2: { apply each_fails in Hx as [e ->]. by destruct Hr as [_ [=]]. }
  destruct Hr as [-> [= ->]]. rewrite app_nil_r. revert a t1 Hx; induction names as [|n names IH]; intros a t1 Hx Hl p.
  { destruct Hx as [-> _]. split; [by intros ?%not_elem_of_nil|]. by intros (n & ?%not_elem_of_nil & _). }
  cbn [fold_io] in Hx. apply exec_bind in Hx as (t3 & r & t4 & -> & Hx & Hr).
  apply exec_bind in Hx as (t5 & r' & t6 & -> & Hx & [-> ->]). destruct r' as [c|e]; [|by destruct Hr as [_ [=]]].
  rewrite app_nil_r in *. apply Forall_app in Hl as [Hl1 Hl2]. rewrite copies_app, elem_of_app.
  rewrite (Hb _ _ _ _ Hx Hl1), (IH _ _ Hr Hl2). split.
  - intros [Hp|(m & Hm & Hp)]; [exists n|exists m]; (split; [set_solver|done]).
  - intros (m & [->|Hm]%elem_of_cons & Hp); [by left|right; eauto].
Qed.
(** one entry, when the trees below it are copied as they should be *)
Lemma entry_copies dir path total (rec : Z -> string -> Z -> io (cres Z)) done n t b :
  (forall sub c a u m, exec (rec sub c a) u (Ok m) -> Forall (host_law H) u -> forall p, p ∈ copies u <-> below H c p) ->
  exec (c <-? stat_child path n ;;
        let '(child, s) := c in
        if is_kind KDir (Some s) then
          sub <-? ensure_ntfs_child_dir strerr dir n ;;
          r <- rec sub child done ;;
          c <- call (NInodeCloseInDir sub dir) ;;
          match r with
          | Fail e => fail e
          | Ok done =>
              if negb (c =? 0) then
                e <- call Errno ;; fail ("ntfs_inode_close_in_dir dir '" +:+ n +:+ "' failed: " +:+ strerror e)
              else ok done
          end
        else if is_kind KReg (Some s) then write_regular_file_into_dir fuel strerr of_timespec prog dir n child s done total
        else if is_kind KLnk (Some s) then write_symlink_into_dir strerr of_timespec dir n child s ?;; ok done
        else ok done) t (Ok b) ->
  Forall (host_law H) t -> forall p, p ∈ copies t <-> entry path n p.
Proof.
  intros Hrec (t1 & [c s] & t2 & -> & Hc & Hx)%exec_try [Hl1 Hl2]%Forall_app p.
  destruct (stat_child_inv _ _ _ _ _ Hc Hl1) as (-> & Hs & Hn). rewrite copies_app, Hn. cbn [app]. clear Hc Hn Hl1.
  assert (He : entry path n p <-> (st_kind s = KReg \/ st_kind s = KLnk) /\ p = path +:+ "/" +:+ n \/
    st_kind s = KDir /\ below H (path +:+ "/" +:+ n) p).
  { unfold entry. rewrite Hs. split; [by intros (? & [= <-] & ?)|eauto]. }
  rewrite He. clear He Hs. set (c := path +:+ "/" +:+ n) in *. clearbody c. unfold is_kind in Hx.
  case_bool_decide as Ed; [|case_bool_decide as Er; [|case_bool_decide as El]].
  - apply exec_try in Hx as (t3 & sub & t4 & -> & Hx & Hy). apply no_source_exec in Hx; [|auto with rufux].
    apply exec_bind in Hy as (t5 & r & t6 & -> & Hr & Hy). rewrite !copies_app, Hx. cbn [app].
    apply Forall_app in Hl2 as [_ Hl2]. apply Forall_app in Hl2 as [Hl2 _].
    destruct r as [m|e]; [|by destruct Hy as (? & ? & -> & [_ [=]])].
    apply (no_source_exec _ _ _) in Hy; [|always_tac]. rewrite Hy, app_nil_r, (Hrec _ _ _ _ _ Hr Hl2).
    intuition congruence.
  - rewrite (file_copies _ _ _ _ _ _ _ _ Hx), list_elem_of_singleton. intuition congruence.
  - apply exec_try in Hx as (t3 & [] & t4 & -> & Hx & [-> _]). rewrite app_nil_r, (symlink_copies _ _ _ _ _ Hx), list_elem_of_singleton.
    intuition congruence.
  - destruct Hx as [-> _]. split; [by intros ?%not_elem_of_nil|]. intuition congruence.
Qed.
Lemma tree_copies depth dir path total done t n :
  exec (populate_dir_rec fuel strerr of_timespec prog depth dir path total done) t (Ok n) -> Forall (host_law H) t ->
  forall p, p ∈ copies t <-> below H path p.
Proof.
  revert dir path done t n; induction depth as [|d IH]; intros dir path done t n; [done|]. cbn [populate_dir_rec].
  intros (t1 & names & t2 & -> & Hls & Hx)%exec_try [Hl1 Hl2]%Forall_app p.
  destruct (list_inv _ _ _ Hls Hl1) as (Hc & all & Hall & Hn). rewrite copies_app, Hc. cbn [app].
  rewrite (below_entries _ _ _ Hall). etransitivity; [refine (each_copies _ (entry path) _ _ _ _ _ Hx Hl2 p)|].
  - intros a m u b Hu. apply (entry_copies dir path total (fun sub c a => populate_dir_rec fuel strerr of_timespec prog d sub c total a) a m u b); [|exact Hu].
    intros sub c a' v m'. apply IH.
  - split; intros (m & Hm & He); exists m; (split; [by apply Hn|done]).
Qed.
Lemma open_rw_no_source target : always no_source (open_ntfs_rw fuel strerr target).
Proof.
  assert (Hc : forall av cap, always no_source (rufux_capture fuel av cap)) by (intros; apply outside_no_source, outside_capture).
  assert (Hu : forall d, always no_source (rufux_macos_unmount_disk fuel d)) by (intros; apply outside_no_source, outside_unmount_disk).
  assert (Hb : forall p, always no_source (rufux_macos_is_boot_disk p)) by (intros; apply outside_no_source, outside_boot).
  unfold open_ntfs_rw, unmount_if_mounted_ntfs_target, parse_bsd_ident, realpath, mount_rw. always_tac.
Qed.
Lemma close_rw_no_source bnode rc : always no_source (close_ntfs_rw fuel bnode rc).
Proof.
  assert (Hc : forall av cap, always no_source (rufux_capture fuel av cap)) by (intros; apply outside_no_source, outside_capture).
  assert (Hh : forall n, always no_source (rufux_have n)) by (intros; apply outside_no_source, outside_have).
  unfold close_ntfs_rw. always_tac.
Qed.
Lemma close_ntfs_ok bnode rc t : exec (close_ntfs_rw fuel bnode rc) t (Ok tt) -> exists u, rc = Ok u.
Proof. intros (um & t1 & -> & Hx). cbn [bind] in Hx. destruct rc as [u|e]; [eauto|by destruct Hx as [_ [=]]]. Qed.
Lemma close_root_ok root rc t : exec (close_root root rc) t (Ok tt) -> copies t = [] /\ exists u, rc = Ok u.
Proof.
  intros Hx. split; [apply (no_source_exec _ _ _) in Hx; [done|unfold close_root; always_tac]|].
  destruct Hx as (c & t1 & -> & Hx). cbn [bind] in Hx. destruct rc as [u|e]; [eauto|by destruct Hx as [_ [=]]].
Qed.
End Tree.

Definition the_tree : host := Host the_list the_host.
#[export] Instance host_law_dec H o : Decision (host_law H o).
Proof. destruct o as [X e x], e; cbn; apply _. Defined.

(** * The bound on the depth suffices *)
Lemma finishes_known {A B} L (m : io A) (f : A -> io B) :
  finishes L m -> (forall t a, exec m t a -> finishes L (f a)) -> finishes L (bind m f).
Proof.
  intros Hm Hf t Ht [H|(t1 & a & t2 & -> & H1 & H2)]%runs_out_bind; [by apply (Hm t)|].
  apply Forall_app in Ht as [_ Ht2]. by eapply (Hf t1 a H1 t2).
Qed.
Lemma finishes_try {A B} L (m : io (cres A)) (f : A -> io (cres B)) :
  finishes L m -> (forall t a, exec m t (Ok a) -> finishes L (f a)) -> finishes L (try m f).
Proof. intros Hm Hf. apply finishes_known; [done|]. intros t [a|e] H; [by eapply Hf|apply finishes_ret]. Qed.
Lemma list_finishes L dir : finishes L (list_sorted_dir_entries dir).
Proof. unfold list_sorted_dir_entries, fail, ok. finishes_tac. Qed.
Lemma stat_child_finishes L dir n : finishes L (stat_child dir n).
Proof. unfold stat_child, fail, ok. finishes_tac. Qed.
Lemma each_finishes L {A} (body : A -> string -> io (cres A)) names a :
  (forall a n, finishes L (body a n)) -> finishes L (each body names a).
Proof. intros Hb. unfold each. finishes_tac. Qed.
(** an entry's path is longer than its directory's, and shorter than PATH_MAX *)
Lemma stat_child_length dir n t c s : exec (stat_child dir n) t (Ok (c, s)) ->
  strlen dir < strlen c < Z.of_nat PATH_MAX.
Proof.
  unfold stat_child, child_path. destruct (Z.leb_spec (Z.of_nat PATH_MAX) (strlen (dir +:+ "/" +:+ n))) as [Hle|Hlt]; [by intros [_ [=]]|].
  intros (x & t1 & -> & Hx). cbn [bind] in Hx. destruct x; [|by destruct Hx as (? & ? & -> & [_ [=]])].
  destruct Hx as [_ [= -> ->]]. split; [|done]. cbn [String.append]. rewrite strlen_app, strlen_cons. pose proof (strlen_nonneg n). lia.
Qed.
(** [deep d dir]: [d] levels are enough below [dir] *)
Definition deep (d : nat) (dir : string) : Prop := Z.of_nat PATH_MAX < Z.of_nat d + strlen dir.
Lemma deep_enough dir : deep DEPTH dir.
Proof. unfold deep, DEPTH. pose proof (strlen_nonneg dir). lia. Qed.
Lemma deep_child d dir n t c s : deep (S d) dir -> exec (stat_child dir n) t (Ok (c, s)) -> (0 < d)%nat /\ deep d c.
Proof. intros Hd H%stat_child_length. unfold deep in *. lia. Qed.
Lemma prescan_enough L d dir total : (0 < d)%nat -> deep d dir -> finishes L (prescan_dir_bytes d dir total).
Proof.
  revert dir total; induction d as [|d IH]; intros dir total Hp Hd; [lia|]. cbn [prescan_dir_bytes].
  apply finishes_try; [apply list_finishes|]. intros _ names _. apply each_finishes. intros tot n.
  apply finishes_try; [apply stat_child_finishes|]. intros t [c s] Hc. destruct (deep_child _ _ _ _ _ _ Hd Hc).
  destruct (is_kind KDir (Some s)); [by apply IH|]. unfold ok. finishes_tac.
Qed.
(** the walk over the source tree always ends; so does the copy, when its files
    can be written *)
Theorem prescan_finishes L src : finishes L (prescan_dir_bytes DEPTH src 0).
Proof. apply prescan_enough; [unfold DEPTH; lia|apply deep_enough]. Qed.
Lemma populate_enough L fuel strerr of_timespec prog d ni dir total done :
  (forall dir leaf host st done total, finishes L (write_regular_file_into_dir fuel strerr of_timespec prog dir leaf host st done total)) ->
  (0 < d)%nat -> deep d dir -> finishes L (populate_dir_rec fuel strerr of_timespec prog d ni dir total done).
Proof.
  intros Hw. revert ni dir done; induction d as [|d IH]; intros ni dir done Hp Hd; [lia|]. cbn [populate_dir_rec].
  apply finishes_try; [apply list_finishes|]. intros _ names _. apply each_finishes. intros n name.
  apply finishes_try; [apply stat_child_finishes|]. intros t [c s] Hc. destruct (deep_child _ _ _ _ _ _ Hd Hc).
  destruct (is_kind KDir (Some s)).
  - apply finishes_try; [unfold ensure_ntfs_child_dir, utf8_to_ntfs_component, try, fail, ok; finishes_tac|].
    intros _ sub _. apply finishes_bind; [by apply IH|]. unfold fail, ok. intros r. finishes_tac.
  - destruct (is_kind KReg (Some s)); [apply Hw|]. destruct (is_kind KLnk (Some s)); [|apply finishes_ret].
    apply finishes_try; [|intros; apply finishes_ret].
    unfold write_symlink_into_dir, utf8_to_ntfs_component, set_times, try, fail, ok. finishes_tac.
Qed.
