(* ===== verification/MacguardSpec.v ===== *)
(** The system disk of a Mac is safe from every operation that takes a disk:
    the operations composed with the guard. *)
From S2P Require Import Prelude Cstr Sys Exec Device Writer Host Partition Macexec Macdisk MacdiskSpec Macmount Macstate Macvolume Macdevice Macwriter Populate Macboot Macpartition.

#[local] Hint Extern 1 (harmless _ _) => reflexivity : rufux.

(** * What the guard asks *)
Definition asks_guard : forall X : Set, ev X -> Prop := fun X e =>
  match e with
  | Realpath _ | Stat _ | Statfs _ | Devname _ _ | IOService _ | IOEntryId _ | IOBsdName _ | IOParents _ | IORelease _ => True
  | _ => False
  end.
#[local] Hint Extern 1 (asks_guard _ _) => exact I : rufux.
(** a system whose answers to what the guard asks stay the same *)
Definition at_rest (E : oracle) (o : obs) : Prop :=
  match o with Obs e x => asks_guard _ e -> x = E _ e end.
Lemma eval_at_rest {A} E (m : io A) t a :
  always asks_guard m -> exec m t a -> Forall (at_rest E) t -> eval E m = Some a.
Proof.
  revert t; induction m as [b|X e k IH|]; intros t; cbn; [by intros _ [_ ->]| |done].
  intros [He Hk] (x & t' & -> & H) [Hx Ht]%Forall_cons_1. cbn in Hx. rewrite <- (Hx He). by eapply IH.
Qed.
Lemma resolve_asks path : always asks_guard (resolve_to_bsd_name path).
Proof. unfold resolve_to_bsd_name, realpath. always_tac. Qed.
Lemma release_asks hs : always asks_guard (release_all hs).
Proof. induction hs as [|h hs IH]; cbn; [done|]. always_tac. Qed.
#[local] Hint Resolve resolve_asks release_asks : rufux.
Lemma collect_asks max bsd : always asks_guard (collect_iokit_lineage_bsds max bsd).
Proof. unfold collect_iokit_lineage_bsds, find_service, walk, visit, enqueue. always_tac. Qed.
#[local] Hint Resolve collect_asks : rufux.
Lemma guard_asks path : always asks_guard (rufux_macos_is_boot_disk path).
Proof. unfold rufux_macos_is_boot_disk. always_tac. Qed.
Lemma asks_harmless {A} (m : io A) : always asks_guard m -> always harmless m.
Proof. apply always_mono. by intros X []. Qed.
Lemma guard_harmless path : always harmless (rufux_macos_is_boot_disk path).
Proof. apply asks_harmless, guard_asks. Qed.
#[local] Hint Resolve guard_harmless : rufux.

(** * Operations on a disk *)
Definition failed {A} (r : cres A) : Prop := exists m, r = Fail m.
Section Protected.
Variables (E : oracle) (dev : string).
Hypothesis Hboot : eval E (rufux_macos_is_boot_disk dev) = Some true.
(** a run that ends in [bad], and in which nothing was touched *)
Definition refuses {A} (m : io A) (bad : A -> Prop) : Prop :=
  forall t r, exec m t r -> Forall (at_rest E) t ->
    bad r /\ Forall (fun o => match o with Obs e _ => harmless _ e end) t.
Lemma refuses_ret {A} (a : A) (bad : A -> Prop) : bad a -> refuses (Ret a) bad.
Proof. intros H t r [-> ->] _. by split. Qed.
Lemma refuses_bind {A B} (m : io A) (f : A -> io B) bad :
  always harmless m -> (forall a, refuses (f a) bad) -> refuses (bind m f) bad.
Proof.
  intros Hm Hf t r (t1 & a & t2 & -> & H1 & H2)%exec_bind [_ Ht]%Forall_app.
  destruct (Hf a _ _ H2 Ht) as [Hb Hh]. split; [done|]. apply Forall_app. split; [|done]. by eapply always_exec.
Qed.
Lemma refuses_guard {A} (f : bool -> io A) bad :
  refuses (f true) bad -> refuses (bind (rufux_macos_is_boot_disk dev) f) bad.
Proof.
  intros Hf t r (t1 & b & t2 & -> & H1 & H2)%exec_bind [Ht1 Ht2]%Forall_app.
  assert (b = true) as -> by (pose proof (eval_at_rest _ _ _ _ (guard_asks dev) H1 Ht1); congruence).
  destruct (Hf _ _ H2 Ht2) as [Hb Hh]. split; [done|]. apply Forall_app. split; [|done].
  exact (always_exec _ _ _ _ (guard_harmless dev) H1).
Qed.
Lemma refuses_try {A B} (m : io (cres A)) (f : A -> io (cres B)) :
  refuses m failed -> refuses (try m f) failed.
Proof.
  intros Hm t r (t1 & a & t2 & -> & H1 & H2)%exec_bind [Ht1 Ht2]%Forall_app.
  destruct (Hm _ _ H1 Ht1) as [[e ->] Hh]. destruct H2 as [-> ->]. rewrite app_nil_r. split; [by exists e|done].
Qed.
#[local] Ltac refuse_step := match goal with
  | |- refuses (bind (rufux_macos_is_boot_disk dev) _) _ => apply refuses_guard
  | |- refuses (bind (Ret true) _) _ => cbn [bind]
  | |- refuses (bind (if ?b then _ else _) _) _ => destruct b
  | |- refuses (if ?b then _ else _) _ => destruct b
  | |- refuses (fail _) _ => apply refuses_ret; by eexists
  | |- refuses (Ret _) _ => apply refuses_ret; done
  end.
#[local] Ltac refuse_tac := repeat refuse_step.

(** The operations that take a disk, and what each returns when it fails. *)
Inductive on_disk (fuel : nat) : forall A : Type, io A -> (A -> Prop) -> Prop :=
  | Check_target fixed file : on_disk fuel _ (rufux_check_target dev fixed file) failed
  | Partition_disk o : on_disk fuel _ (rufux_partition fuel dev o) failed
  | Install_mbr o : on_disk fuel _ (rufux_install_mbr fuel dev o) failed
  | Write_image src opts : on_disk fuel _ (rufux_write_image fuel src dev opts) failed
  | Mount dry : on_disk fuel _ (rufux_mount fuel dev dry) failed
  | Unmount dry : on_disk fuel _ (rufux_unmount fuel dev dry) failed
  | Unmount_disk : on_disk fuel _ (rufux_macos_unmount_disk fuel dev) failed
  | Detach_disk : on_disk fuel _ (rufux_macos_detach_disk fuel dev) (fun ok => ok = false)
  | Populate_dir strerr time prog src : on_disk fuel _ (rufux_ntfs_populate_dir fuel strerr time prog dev src) failed
  | Write_single_file strerr time prog src rel :
      on_disk fuel _ (rufux_ntfs_write_single_file fuel strerr time prog dev src rel) failed.
Lemma check_target_refuses fixed file : refuses (rufux_check_target dev fixed file) failed.
Proof. unfold rufux_check_target. refuse_tac. Qed.
Lemma write_image_refuses fuel src opts : refuses (rufux_write_image fuel src dev opts) failed.
Proof.
  apply refuses_bind; [always_tac|]. intros sst. cbv zeta. refuse_tac. apply refuses_try, check_target_refuses.
Qed.
Lemma partition_refuses fuel o : refuses (rufux_partition fuel dev o) failed.
Proof. unfold rufux_partition. cbv zeta. refuse_tac. apply refuses_try, check_target_refuses. Qed.
Lemma install_mbr_refuses fuel o : refuses (rufux_install_mbr fuel dev o) failed.
Proof. unfold rufux_install_mbr. cbv zeta. refuse_tac. apply refuses_try, check_target_refuses. Qed.
Lemma unmount_refuses fuel dry : refuses (rufux_unmount fuel dev dry) failed.
Proof. unfold rufux_unmount. refuse_tac. Qed.
Lemma on_disk_refuses fuel A m bad : on_disk fuel A m bad -> refuses m bad.
Proof.
  intros H. destruct H; [apply check_target_refuses|apply partition_refuses|apply install_mbr_refuses|apply write_image_refuses|unfold rufux_mount|apply unmount_refuses
    |unfold rufux_macos_unmount_disk|unfold rufux_macos_detach_disk|unfold rufux_ntfs_populate_dir|unfold rufux_ntfs_write_single_file].
  all: cbv zeta; refuse_tac.
Qed.
End Protected.

(** C12: The system disk of a Mac is protected. On a Mac whose device registry is
    at rest and whose lineages fit the walk, no operation that takes a disk does
    anything to a disk the guard is meant to refuse - disk0, and every disk that
    shares a name with the lineage of the disk / is mounted from: mounting,
    unmounting, ejecting, partitioning, installing boot code, writing an image,
    filling an NTFS volume and writing a
    file to one, and the check every other writer starts with. Each of them
    fails, with every option, and the calls it made until then - all questions -
    write to nothing, open nothing for writing, start no helper and remove and
    create nothing. *)
Theorem system_disk_protected E R dev fuel A m bad t r :
  registry_ok R -> (forall X (e : ev X), answers R (Obs e (E X e))) -> (forall bsd, small_lineage R LINEAGE_MAX bsd) ->
  refused E R dev -> on_disk dev fuel A m bad ->
  exec m t r -> Forall (at_rest E) t ->
  bad r /\ Forall (fun o => match o with Obs e _ => harmless _ e end) t.
Proof.
  intros HR HE Hs Href Hop. destruct (boot_disk_guard E R dev HR HE Hs) as (b & Hb & Hiff).
  apply on_disk_refuses with (E := E) in Hop; [|rewrite Hb; f_equal; by apply Hiff]. apply Hop.
Qed.
(** The slice the container of [some_mac] lies on, by its raw node. *)
Definition refused_mount := run (fun X e (w : unit) => (some_mac_env X e, w))
  (rufux_mount 9 "/dev/rdisk2s2" false) tt.
Lemma system_disk_protected_witness :
  failed (A:=string) (Fail "refusing to mount boot/system disk '/dev/rdisk2s2'") /\
  Forall (fun o => match o with Obs e _ => harmless _ e end) refused_mount.1.2.
Proof.
  apply (system_disk_protected some_mac_env some_mac "/dev/rdisk2s2" 9 _ (rufux_mount 9 "/dev/rdisk2s2" false));
    [exact some_mac_ok|exact some_mac_answers|exact some_mac_small| |by apply Mount|apply run_computed; vm_compute; reflexivity|].
  - destruct (boot_disk_guard some_mac_env some_mac "/dev/rdisk2s2" some_mac_ok some_mac_answers some_mac_small) as (b & Hb & Hiff).
    apply Hiff. assert (H : eval some_mac_env (rufux_macos_is_boot_disk "/dev/rdisk2s2") = Some true) by (vm_compute; reflexivity).
    congruence.
  - unfold refused_mount, at_rest. vm_compute. repeat constructor.
Defined.
